(* ===== verification/_CoqProject ===== *)
-Q . S2P
Prelude.v
Semver.v
Json.v
JsonCompact.v
JsonStream.v
Property.v
JsonTotal.v
Model.v
ModelOps.v
Declcfg.v
DeclcfgConv.v
DeclcfgRoundtrip.v
DeclcfgWrite.v
DeclcfgLoad.v
RegistryTypes.v
RegistryBundle.v
RegistryBundleSpec.v
Api.v
Query.v
QuerySpec.v
Conversion.v
Server.v
Graph.v
GraphSpec.v
DirGraph.v
Sql.v
SqlLoad.v
SqlInv.v
SqlTail.v
SqlGraph.v
SqlRoundtrip.v
SqlChannels.v
SqlAdd.v
SqlAddInv.v
SqlAddSpec.v
SqlSubst.v
SqlQuery.v
SqlQuerySpec.v
SqlModel.v
BundleParse.v
BundleParseSpec.v
Populator.v
PopulatorSpec.v
Migrator.v
DirLoad.v
DirLoadSpec.v
Commands.v
CommandsSpec.v
BundleFormat.v
BundleFormatSpec.v
ConfigMapBundle.v
ConfigMapSpec.v
Render.v
RenderSpec.v
Indexer.v
IndexerSpec.v
