(* ===== verification/Prelude.v ===== *)
(** * operator-registry: a verification of its core

    operator-registry keeps an index of operator bundles.  A bundle is a set of
    Kubernetes manifests; bundles are grouped in packages, and the channels of a
    package say which bundle replaces which.  The index exists in three forms, and
    most of the program converts between them:

    - as declarative config files (internal/declcfg), checked by building a graph
      of packages, channels and bundles in memory (internal/model) whose data are
      typed properties (internal/property);
    - as a database (pkg/sqlite), filled from bundle images, directories, config
      maps or update graphs (pkg/registry) and pruned by deprecation and removal;
    - as messages of the gRPC API (pkg/api), answered by a server (pkg/server) from
      a querier over the model (pkg/registry/query.go) or over the database.

    Around the index are the commands on a database (pkg/lib/registry), the indexer
    that runs them on the database of an image (pkg/lib/indexer), the rendering of
    any form as a config (internal/action), the format of the images bundles come in
    (pkg/lib/bundle) and the config maps they are unpacked to (pkg/configmap).

    ** How the code is modelled

    Go functions are Rocq functions.  A call that may fail returns [res]: a value,
    an error, or [Panic] for a nil dereference or a store into a nil map.  Errors
    keep their format and arguments unrendered.  Objects that the code shares
    through pointers live on a heap ([Model.heap]); methods that fill a cache run in
    a state monad ([RegistryBundle.BM]); the database is a record of tables and its
    operations run in a state monad with rollback ([Sql.TX]).  The order in which
    Go visits a map, and the result of an unstable sort, are fields of the class
    [GoRuntime]: a theorem holds for every order.  Integers that can overflow keep
    their width ([Semver.uint64_max], the versions of [Migrator], the sizes of
    [ConfigMapBundle]).

    Adding a bundle reads it through methods that fill its cache and writes to the
    index ([SqlAdd.LM]); what calls it changes the index alone ([Populator.PM]).
    These computations may not end, so their outcome is optional.  A command may
    also leave the program ([Commands.command_outcome]), and the indexer changes
    files and builds images ([Indexer]).

    ** Files, in dependency order

    - [Prelude]: this file; errors and outcomes, loops, the runtime class, byte
      strings, three-valued comparisons, and the automation for them.
    - [Semver]: pkg/lib/semver and the parts of blang/semver it rests on; parsing,
      printing, precedence, and build identifiers compared as pre-releases.
    - [Json], [JsonCompact], [JsonStream], [JsonTotal]: encoding/json at byte level,
      as far as the code uses it: parser, printer, compaction, decoding of structs,
      streams of values; printing and parsing are inverse, compaction does not
      change a printed value, a value parsed in front of a longer text is the same.
    - [Property]: internal/property; the typed properties, their scheme, [Parse],
      [Build] and [Deduplicate].
    - [Model], [ModelOps]: internal/model; validators, [Head], [AddBundle],
      [Normalize], rendering of nested validation errors.
    - [Declcfg], [DeclcfgConv], [DeclcfgRoundtrip], [DeclcfgWrite], [DeclcfgLoad]:
      internal/declcfg; conversion to the model and back, reading a stream of
      documents and writing one.
    - [RegistryTypes], [RegistryBundle], [RegistryBundleSpec]: types.go, csv.go,
      bundle.go and registry_to_model.go of pkg/registry; the accessors of a CSV
      over its raw bytes, the lazily filled cache of a bundle, and the property list
      made from it.
    - [Api], [Query], [QuerySpec], [Conversion], [Server]: pkg/api, query.go,
      empty.go and conversion.go of pkg/registry, and pkg/server.  [Query.GRPCQuery]
      is the interface the server is written against; [safe_query] is what it relies
      on and [QuerySpec] shows of the querier.
    - [Graph], [GraphSpec], [DirGraph]: graph.go, bundlegraphloader.go,
      channelupdateoptions.go and directoryGraphLoader.go of pkg/registry; the
      update graph of a package, insertion of a bundle by version, and the graph of
      a package directory.
    - [Sql], [SqlLoad], [SqlInv], [SqlTail], [SqlGraph], [SqlRoundtrip],
      [SqlChannels]: the tables of the index, load.go, loadprocs.go, graphloader.go,
      deprecate.go, remove.go and stranded.go of pkg/sqlite with the queries the
      graph loader runs.
    - [SqlAdd], [SqlAddInv], [SqlAddSpec], [SqlSubst]: addOperatorBundle of load.go
      with its related images, dependencies, properties, APIs and substitutions.
    - [SqlQuery], [SqlQuerySpec]: query.go of pkg/sqlite, each statement a function
      of the tables; [SqlModel]: ToModel of conversion.go.
    - [BundleParse], [BundleParseSpec]: pkg/registry/parse.go, the reading of an
      unpacked bundle.
    - [Populator], [PopulatorSpec]: pkg/registry/populator.go, the adding of unpacked
      bundles by the edges they declare or by semver.
    - [Migrator]: pkg/sqlite/migrator.go and the set of migrations.
    - [DirLoad], [DirLoadSpec]: directory.go and configmap.go of pkg/sqlite, the
      filling of the index from a directory tree and from a config map.
    - [Commands], [CommandsSpec]: pkg/lib/registry/registry.go, the commands that
      add, delete, prune and deprecate.
    - [BundleFormat], [BundleFormatSpec]: generate.go, validate.go, chartutil.go,
      interpreter.go, errors.go and supported_resources.go of pkg/lib/bundle and
      pkg/lib/validation/bundle.go; media types, annotations and validation.
    - [ConfigMapBundle], [ConfigMapSpec]: pkg/configmap and pkg/lib/encoding, bundles
      written into config maps and read from them.
    - [Render], [RenderSpec]: render.go and init.go of internal/action.
    - [Indexer], [IndexerSpec]: pkg/lib/indexer/indexer.go with the Dockerfile of
      pkg/containertools and the exporter of pkg/lib/bundle.

    ** What is shown

    - Round trips: versions, typed properties, bundle strings, a config through the
      model and back, a bundle through the API and back, an update graph through the
      database and back, the data of a bundle added to the index and queried, a
      bundle through a config map, and a rendered config written and read.
    - Refinements of abstract specifications: adding a bundle to a graph is
      insertion into sorted chains ([GraphSpec]); converting a config yields exactly
      the packages, channels and bundles it lists ([DeclcfgRoundtrip]); validation
      accepts exactly the well-formed models ([Model]); the model of an index, and
      the config rendered from it, have exactly what the index lists ([SqlModel],
      [RenderSpec]); loading a directory is two passes over its visible files
      ([DirLoadSpec]).
    - Invariants: the links of the model under [AddBundle] ([ModelOps]); the foreign
      keys of the index under every operation of the loader, by rule induction over
      runs ([SqlAddInv]), and under every command, also one that fails half way
      ([CommandsSpec]).
    - What commands achieve: every bundle given to the populator, and every CSV of a
      directory or config map, is in the index when no error is returned
      ([PopulatorSpec], [DirLoadSpec]); pruning keeps exactly the packages given
      ([CommandsSpec]); the indexer builds one image with the database of the
      command and removes its temporary files ([IndexerSpec]); a bundle directory is
      accepted exactly when nothing in it is at fault ([BundleFormatSpec]).
    - Independence of unspecified orders: property lists, the bundle chosen for an
      API, the graphs.
    - Termination: the walks along replaces and skips ([DirGraph], [SqlTail],
      [SqlChannels]), adding a bundle without the alpha features ([SqlAddSpec]) and the splitting of bundle strings ([Conversion]) end, with
      the set they visit; no query, handler or conversion panics on a valid model.
    - Errors: where a computation fails, for which inputs and with what effect on
      the state; and defects found on the way (a cut in skippatch mode, a join that
      compares too little, conversions and a validator that panic, duplicated CRDs,
      bundles to be overwritten that are not).

    ** Fuel

    The JSON parser has fuel twice the length of the text plus two, and [JsonStream]
    shows that more does not change a result.  [decode_all] has the length of the
    text, one byte for each value.  [DirGraph.walk_fuel] is the square of the number
    of CSVs plus one, by a lexicographic measure; [SqlLoad.tail_fuel] the number of
    names mentioned plus one; [SqlLoad.channel_fuel] the number of bundles plus two.
    For each a theorem shows that it is enough.  [store_chain], whose loop need not
    end on a cyclic graph, takes its fuel as an argument; any fuel not smaller than
    the longest chain is enough for graphs of chains.

    Following substitutions ([SqlAdd.addSubstitutesFor]) ends exactly when the
    chain does, so it takes its fuel as an argument too, and with it the populator,
    the loaders and the commands.  An outcome [None], or [Running] of a command, is
    a computation that has spent its fuel and is still going on; invariants are
    shown of the index at that moment as well.  Without the alpha features
    substitutions are not followed and any fuel is enough ([SqlAddSpec]).

    ** What is not modelled

    Code outside of the repository and the systems it talks to are parameters, with
    the outcomes they may have: YAML and gzip, the operating system, image
    registries, container tools, Kubernetes and gRPC.  Laws are assumed of them only
    where a theorem names them (decompression undoes compression, temporary names
    are fresh).  The SQL engine is modelled by the documented effect of the
    statements that are run, constraints and cascades included; errors of the disk
    are not.

    Of the migrations only the migrator is modelled: each migration is SQL text that
    moves an older schema to the one of [Sql], with its own filling of columns, and
    the older schemas are not represented.  Left out as well are the options of
    opening a database file, [ListTables], the methods of [EmptyQuery] outside the
    gRPC interface, which return fixed errors, the writing of the Dockerfile and the
    metadata of a bundle and the building of its image, the Kubernetes job that
    launches a bundle image, the container tools and image registries themselves,
    the clients, the mirroring of images, the flags and wiring of the command line,
    and generated code. *)
From Stdlib Require Export Ascii.
From stdpp Require Export gmap strings list sorting.
From stdpp Require Import options.

(** ** Errors as values

    [fmt.Errorf] and [errors.New] are kept unrendered: the format string and
    the arguments of the call.  Nothing of the source inspects a rendered
    message except where stated.  [ValidationError] is the [validationError] of
    internal/model: a message with sub-errors. *)
#[local] Set Warnings "-register-all".
Inductive error : Type :=
  | Errorf (format : string) (args : list errarg)
  | ValidationError (format : string) (args : list errarg) (subErrors : list error)
with errarg : Type :=
  | AStr (s : string)
  | AInt (z : Z)
  | AErr (e : error).

(** [errors.New msg] *)
Abbreviation ErrNew msg := (Errorf msg []).

(** ** Outcomes of Go code

    A call returns a value, returns a non-nil error, or panics (nil pointer
    dereference, store into a nil map, index out of range). *)
Inductive res (A : Type) : Type :=
  | Ok (a : A)
  | Err (e : error)
  | Panic.
Arguments Ok {A} a.
Arguments Err {A} e.
Arguments Panic {A}.

#[export] Instance res_ret : MRet res := λ A a, Ok a.
#[export] Instance res_bind : MBind res := λ A B f m,
  match m with Ok a => f a | Err e => Err e | Panic => Panic end.
#[export] Instance res_fmap : FMap res := λ A B f m,
  match m with Ok a => Ok (f a) | Err e => Err e | Panic => Panic end.

(** Wrapping of an error: [if err != nil { return fmt.Errorf(..., err) }]. *)
Definition wrap_err {A} (f : error → error) (m : res A) : res A :=
  match m with Ok a => Ok a | Err e => Err (f e) | Panic => Panic end.

(** [*p] on a possibly nil or dangling pointer. *)
Definition deref {A} (o : option A) : res A :=
  match o with Some a => Ok a | None => Panic end.

Definition is_Ok {A} (m : res A) : Prop := ∃ a, m = Ok a.
Definition is_Err {A} (m : res A) : Prop := ∃ e, m = Err e.

Lemma bind_Ok {A B} (f : A → res B) m b : m ≫= f = Ok b ↔ ∃ a, m = Ok a ∧ f a = Ok b.
Proof. destruct m; naive_solver. Qed.
Lemma deref_Ok {A} (o : option A) a : deref o = Ok a ↔ o = Some a.
Proof. destruct o; naive_solver. Qed.
Lemma wrap_err_Ok {A} f (m : res A) a : wrap_err f m = Ok a ↔ m = Ok a.
Proof. destruct m; naive_solver. Qed.

(** A call that returns only an [error]: [None] is nil. *)
Definition check (o : option error) : res unit :=
  match o with None => Ok tt | Some e => Err e end.
Lemma check_Ok o u : check o = Ok u ↔ o = None.
Proof. destruct o, u; naive_solver. Qed.

Lemma Ok_inj {A} (x y : A) : Ok x = Ok y ↔ x = y.
Proof. split; [by intros [=]|by intros ->]. Qed.

(** Inversion of a successful run: every bind, dereference and check of the
    hypotheses is replaced by what it means that it succeeded. *)
Ltac inv_ok :=
  repeat match goal with
  | H : _ ≫= _ = Ok _ |- _ => apply bind_Ok in H as (? & ? & ?)
  | H : deref _ = Ok _ |- _ => apply deref_Ok in H
  | H : wrap_err _ _ = Ok _ |- _ => apply wrap_err_Ok in H
  | H : check _ = Ok _ |- _ => apply check_Ok in H
  | H : Ok _ = Ok _ |- _ => apply (proj1 (Ok_inj _ _)) in H
  | H : Err _ = Ok _ |- _ => discriminate H
  | H : Panic = Ok _ |- _ => discriminate H
  end.

(** ** Loops

    [mapR] and [foldR] are loops that stop at the first error or panic;
    [collect] appends what each iteration adds to a slice (errors, entries). *)
Fixpoint mapR {A B} (f : A → res B) (l : list A) : res (list B) :=
  match l with
  | [] => Ok []
  | x :: l' => y ← f x; ys ← mapR f l'; Ok (y :: ys)
  end.
Fixpoint foldR {S A} (f : S → A → res S) (s : S) (l : list A) : res S :=
  match l with
  | [] => Ok s
  | x :: l' => s' ← f s x; foldR f s' l'
  end.
Fixpoint collect {A B} (f : A → res (list B)) (l : list A) : res (list B) :=
  match l with
  | [] => Ok []
  | x :: l' => es ← f x; es' ← collect f l'; Ok (es ++ es')
  end.
Definition err_if (c : bool) (e : error) : list error := if c then [e] else [].

Lemma mapR_Ok {A B} (f : A → res B) l k :
  mapR f l = Ok k ↔ Forall2 (λ x y, f x = Ok y) l k.
Proof.
  revert k. induction l as [|x l IH]; intros k; simpl.
  - split; [by intros [= <-]|by intros ->%Forall2_nil_inv_l].
  - rewrite bind_Ok. setoid_rewrite bind_Ok. setoid_rewrite IH. split.
    + intros (y & Hy & ys & Hys & [= <-]). by constructor.
    + intros (y & ys & Hy & Hys & ->)%Forall2_cons_inv_l. eauto.
Qed.

Lemma mapR_total {A B} (f : A → res B) (g : A → B) l :
  (∀ x, x ∈ l → f x = Ok (g x)) → mapR f l = Ok (g <$> l).
Proof.
  induction l as [|x l IH]; intros Hf; simpl; [done|]. rewrite Hf by left. simpl.
  rewrite IH; [done|]. intros y ?. apply Hf. by right.
Qed.

Lemma foldR_app {S A} (f : S → A → res S) s l k :
  foldR f s (l ++ k) = s' ← foldR f s l; foldR f s' k.
Proof.
  revert s. induction l as [|x l IH]; intros s; simpl; [done|].
  destruct (f s x); simpl; auto.
Qed.

(** A loop preserves what each of its iterations preserves. *)
Lemma foldR_inv {S A} (P : S → Prop) (f : S → A → res S) s l s' :
  (∀ s x s', x ∈ l → P s → f s x = Ok s' → P s') → P s → foldR f s l = Ok s' → P s'.
Proof.
  revert s. induction l as [|x l IH]; intros s Hf Hs; simpl; [by intros [= <-]|].
  rewrite bind_Ok. intros (s1 & H1 & H2). eapply IH; [|by eapply Hf; [left|..]|done].
  intros. eapply Hf; [by right|..]; done.
Qed.

Lemma collect_nil {A B} (f : A → res (list B)) l :
  collect f l = Ok [] ↔ ∀ x, x ∈ l → f x = Ok [].
Proof.
  rewrite <- Forall_forall. induction l as [|x l IH]; simpl.
  - split; [constructor|done].
  - rewrite Forall_cons, <- IH, bind_Ok. setoid_rewrite bind_Ok. split.
    + intros (es & H1 & es' & H2 & [= [-> ->]%app_nil]). done.
    + intros [H1 H2]. rewrite H1, H2. naive_solver.
Qed.

Lemma filter_fmap {A B} (f : A → B) (P : B → Prop) `{!∀ x, Decision (P x)} (l : list A) :
  filter P (f <$> l) = f <$> filter (λ x, P (f x)) l.
Proof.
  induction l as [|x l IH]; [done|]. rewrite fmap_cons, !filter_cons, IH. by case_decide.
Qed.

Lemma filter_none {A} (P : A → Prop) `{!∀ x, Decision (P x)} (l : list A) :
  (∀ x, x ∈ l → ¬ P x) → filter P l = [].
Proof. intros HP. induction l as [|x l IH]; [done|]. rewrite filter_cons, decide_False by set_solver. set_solver. Qed.

Lemma filter_full {A} (P : A → Prop) `{!∀ x, Decision (P x)} (l : list A) : (∀ x, x ∈ l → P x) → filter P l = l.
Proof. intros HP. induction l as [|x l IH]; [done|]. rewrite filter_cons_True by set_solver. f_equal. set_solver. Qed.

Lemma sublist_map {A B} (f : A → B) l k : sublist l k → sublist (f <$> l) (f <$> k).
Proof. induction 1; simpl; by constructor. Qed.

Lemma err_if_nil c e : err_if c e = [] ↔ c = false.
Proof. by destruct c. Qed.

(** ** The parts of the Go runtime whose result is not determined

    The order in which [range] visits a map is unspecified, and [sort.Slice]
    is not stable.  Both are fields of a class, so a theorem proved for every
    instance holds for every order the runtime may pick. *)
Definition strict_weak {A} (lt : A → A → bool) : Prop :=
  (∀ x y, lt x y = true → lt y x = false) ∧
  (∀ x y z, lt y x = false → lt z y = false → lt z x = false).

Class GoRuntime := {
  range : ∀ {K V} `{Countable K}, gmap K V → list (K * V);
  range_perm : ∀ {K V} `{Countable K} (m : gmap K V), range m ≡ₚ map_to_list m;
  range_set : ∀ {K} `{Countable K}, gset K → list K;
  range_set_perm : ∀ {K} `{Countable K} (s : gset K), range_set s ≡ₚ elements s;
  sort_slice : ∀ {A}, (A → A → bool) → list A → list A;
  sort_slice_perm : ∀ {A} (lt : A → A → bool) l, sort_slice lt l ≡ₚ l;
  sort_slice_sorted : ∀ {A} (lt : A → A → bool) l,
    strict_weak lt → StronglySorted (λ x y, lt y x = false) (sort_slice lt l)
}.

Lemma range_elem `{GoRuntime} {K V} `{Countable K} (m : gmap K V) k v :
  (k, v) ∈ range m ↔ m !! k = Some v.
Proof. rewrite range_perm. apply elem_of_map_to_list. Qed.
Lemma range_NoDup `{GoRuntime} {K V} `{Countable K} (m : gmap K V) : NoDup (range m).*1.
Proof. rewrite range_perm. apply NoDup_fst_map_to_list. Qed.

(** A concrete runtime, used to evaluate definitions on concrete inputs. *)
Section insertion_sort.
Context {A : Type} (lt : A → A → bool).

Fixpoint insert_sorted (x : A) (l : list A) : list A :=
  match l with
  | [] => [x]
  | y :: l' => if lt y x then y :: insert_sorted x l' else x :: y :: l'
  end.

(** [sort.SliceStable] *)
Fixpoint insertion_sort (l : list A) : list A :=
  match l with
  | [] => []
  | x :: l' => insert_sorted x (insertion_sort l')
  end.

Lemma insert_sorted_perm x l : insert_sorted x l ≡ₚ x :: l.
Proof.
  induction l as [|y l IH]; simpl; [done|].
  destruct (lt y x); [|done]. rewrite IH. apply Permutation_swap.
Qed.

Lemma insertion_sort_perm l : insertion_sort l ≡ₚ l.
Proof.
  induction l as [|x l IH]; simpl; [done|]. by rewrite insert_sorted_perm, IH.
Qed.

Lemma insert_sorted_Forall (P : A → Prop) x l :
  P x → Forall P l → Forall P (insert_sorted x l).
Proof. intros Hx Hl. rewrite insert_sorted_perm. by constructor. Qed.

Lemma insert_sorted_sorted x l :
  strict_weak lt →
  StronglySorted (λ x y, lt y x = false) l →
  StronglySorted (λ x y, lt y x = false) (insert_sorted x l).
Proof.
  intros [Hasym Htrans] Hl. induction Hl as [|y l Hl IH Hy]; simpl.
  - repeat constructor.
  - destruct (lt y x) eqn:E.
    + constructor; [done|]. apply insert_sorted_Forall; auto.
    + constructor; [by constructor|]. constructor; [done|].
      eapply Forall_impl; [exact Hy|]. simpl. intros z Hz.
      eapply Htrans; eauto.
Qed.

Lemma insertion_sort_sorted l :
  strict_weak lt → StronglySorted (λ x y, lt y x = false) (insertion_sort l).
Proof.
  intros Hlt. induction l; simpl; [constructor|]. by apply insert_sorted_sorted.
Qed.
End insertion_sort.

Definition go_default : GoRuntime := {|
  range K V _ _ m := map_to_list m;
  range_perm K V _ _ m := reflexivity _;
  range_set K _ _ s := elements s;
  range_set_perm K _ _ s := reflexivity _;
  sort_slice A lt l := insertion_sort lt l;
  sort_slice_perm A lt l := insertion_sort_perm lt l;
  sort_slice_sorted A lt l := insertion_sort_sorted lt l
|}.

(** ** Go strings

    A Go string is a byte sequence: [string] of 8-bit [ascii].  [<] on strings
    is the bytewise lexicographic order. *)
Definition str_lt (s t : string) : bool := String.ltb s t.

(** [strings.Split(s, sep)] for a one-byte separator. *)
Fixpoint Split (sep : ascii) (s : string) : list string :=
  match s with
  | EmptyString => [EmptyString]
  | String a s' =>
      if decide (a = sep) then EmptyString :: Split sep s'
      else match Split sep s' with
           | [] => [String a EmptyString]
           | h :: t => String a h :: t
           end
  end.

(** The text before and after the first [sep], as [strings.IndexRune] and two
    slice expressions give it. *)
Fixpoint Cut (sep : ascii) (s : string) : option (string * string) :=
  match s with
  | EmptyString => None
  | String a s' =>
      if decide (a = sep) then Some (EmptyString, s')
      else prod_map (String a) id <$> Cut sep s'
  end.

(** [strings.SplitN(s, sep, S n)] for a one-byte separator. *)
Fixpoint SplitN (sep : ascii) (s : string) (n : nat) : list string :=
  match n with
  | O => [s]
  | S n' => match Cut sep s with
            | None => [s]
            | Some (a, b) => a :: SplitN sep b n'
            end
  end.

(** [strings.Join(l, sep)] *)
Definition Join (l : list string) (sep : string) : string := String.concat sep l.

Fixpoint str_forallb (p : ascii → bool) (s : string) : bool :=
  match s with
  | EmptyString => true
  | String a s' => p a && str_forallb p s'
  end.

(** ** Lemmas on strings *)
Lemma str_app_nil_r s : s +:+ "" = s.
Proof. induction s as [|a s IH]; [done|]. change (String a (s +:+ "") = String a s). by rewrite IH. Qed.

Lemma str_app_cons a s t : String a s +:+ t = String a (s +:+ t).
Proof. done. Qed.

Lemma str_app_assoc s t u : s +:+ (t +:+ u) = (s +:+ t) +:+ u.
Proof.
  induction s as [|a s IH]; [done|]. rewrite !str_app_cons. by rewrite IH.
Qed.

Lemma str_forallb_app p s t :
  str_forallb p (s +:+ t) = str_forallb p s && str_forallb p t.
Proof.
  induction s as [|a s IH]; [done|]. rewrite str_app_cons. simpl.
  by rewrite IH, andb_assoc.
Qed.

Lemma str_forallb_impl (p q : ascii → bool) s :
  (∀ a, p a = true → q a = true) → str_forallb p s = true → str_forallb q s = true.
Proof.
  intros Hpq. induction s as [|a s IH]; simpl; [done|].
  rewrite !andb_true_iff. intros [? ?]. auto.
Qed.

Definition str_free (c : ascii) (s : string) : Prop :=
  str_forallb (λ a, negb (bool_decide (a = c))) s = true.

Lemma str_free_cons c a s : str_free c (String a s) ↔ a ≠ c ∧ str_free c s.
Proof.
  unfold str_free. simpl. rewrite andb_true_iff, negb_true_iff, bool_decide_eq_false.
  done.
Qed.

Lemma str_free_forallb c p s :
  p c = false → str_forallb p s = true → str_free c s.
Proof.
  intros Hc. apply str_forallb_impl. intros a Ha.
  rewrite negb_true_iff, bool_decide_eq_false. intros ->. congruence.
Qed.

Lemma Cut_free c s : str_free c s → Cut c s = None.
Proof.
  induction s as [|a s IH]; [done|]. rewrite str_free_cons. intros [Ha Hs]. simpl.
  rewrite decide_False by done. by rewrite IH.
Qed.

Lemma Cut_app c s t : str_free c s → Cut c (s +:+ String c t) = Some (s, t).
Proof.
  induction s as [|a s IH]; [by intros; simpl; rewrite decide_True|].
  rewrite str_free_cons. intros [Ha Hs]. rewrite str_app_cons. simpl.
  rewrite decide_False by done. by rewrite IH.
Qed.

Lemma Split_free c s : str_free c s → Split c s = [s].
Proof.
  induction s as [|a s IH]; [done|]. rewrite str_free_cons. intros [Ha Hs]. simpl.
  rewrite decide_False by done. by rewrite IH.
Qed.

Lemma Split_app c s t : str_free c s → Split c (s +:+ String c t) = s :: Split c t.
Proof.
  induction s as [|a s IH]; [by intros; simpl; rewrite decide_True|].
  rewrite str_free_cons. intros [Ha Hs]. rewrite str_app_cons. simpl.
  rewrite decide_False by done. by rewrite IH.
Qed.

Lemma Join_cons s l sep :
  l ≠ [] → Join (s :: l) sep = s +:+ sep +:+ Join l sep.
Proof. by destruct l. Qed.

(** [strings.Split] inverts [strings.Join] on separator-free parts. *)
Lemma Split_Join c l :
  l ≠ [] → Forall (str_free c) l → Split c (Join l (String c "")) = l.
Proof.
  induction l as [|s l IH]; intros Hne Hl; [done|].
  apply Forall_cons in Hl as [Hs Hl]. destruct l as [|t l'].
  - by apply Split_free.
  - rewrite Join_cons by done.
    change (String c "" +:+ ?x) with (String c x).
    rewrite Split_app by done. f_equal. by apply IH.
Qed.

Lemma str_ltb_lt s t : str_lt s t = true ↔ String.compare s t = Lt.
Proof. unfold str_lt, String.ltb. by destruct (String.compare s t). Qed.

(** ** Three-way comparators

    Go compares with functions into [-1], [0], [1].  A comparator is a total
    preorder given that way; the combinators build the comparators of records
    and lists from those of their fields. *)
Class Comparator {A} (cmp : A → A → Z) : Prop := {
  cmp_range x y : (cmp x y = -1 ∨ cmp x y = 0 ∨ cmp x y = 1)%Z;
  cmp_opp x y : (cmp y x = - cmp x y)%Z;
  cmp_trans x y z : (cmp x y ≤ 0 → cmp y z ≤ 0 → cmp x z ≤ 0)%Z
}.

Definition cmp_on {A B} (f : A → B) (cmp : B → B → Z) (x y : A) : Z := cmp (f x) (f y).
Definition cmp_lex {A} (c1 c2 : A → A → Z) (x y : A) : Z :=
  if (c1 x y =? 0)%Z then c2 x y else c1 x y.
Definition cmp_N (x y : N) : Z :=
  if (x =? y)%N then 0 else if (y <? x)%N then 1 else -1.
Definition cmp_str (x y : string) : Z :=
  if decide (x = y) then 0 else if str_lt y x then 1 else -1.
Fixpoint cmp_list {A} (cmp : A → A → Z) (x y : list A) : Z :=
  match x, y with
  | [], [] => 0
  | [], _ :: _ => -1
  | _ :: _, [] => 1
  | a :: x', b :: y' => if (cmp a b =? 0)%Z then cmp_list cmp x' y' else cmp a b
  end.

Section comparators.
Local Open Scope Z_scope.

Lemma cmp_refl {A} (cmp : A → A → Z) `{!Comparator cmp} x : cmp x x = 0.
Proof. pose proof (cmp_opp x x). lia. Qed.

Lemma cmp_eq_l {A} (cmp : A → A → Z) `{!Comparator cmp} x y z :
  cmp x y = 0 → cmp x z = cmp y z.
Proof.
  intros E. pose proof (cmp_opp x y). pose proof (cmp_opp x z). pose proof (cmp_opp y z).
  pose proof (cmp_range x z). pose proof (cmp_range y z).
  pose proof (cmp_trans x y z). pose proof (cmp_trans y x z).
  pose proof (cmp_trans z x y). pose proof (cmp_trans z y x). lia.
Qed.

Lemma cmp_eq_r {A} (cmp : A → A → Z) `{!Comparator cmp} x y z :
  cmp x y = 0 → cmp z x = cmp z y.
Proof.
  intros E. rewrite (cmp_opp x z), (cmp_opp y z). by rewrite (cmp_eq_l cmp x y z).
Qed.

Lemma cmp_lt_trans {A} (cmp : A → A → Z) `{!Comparator cmp} x y z :
  cmp x y ≤ 0 → cmp y z < 0 → cmp x z < 0.
Proof.
  intros H1 H2. pose proof (cmp_trans x y z). pose proof (cmp_range x z).
  destruct (decide (cmp x z = 0)) as [E|]; [|lia].
  pose proof (cmp_eq_r cmp x z y E). pose proof (cmp_opp x y).
  pose proof (cmp_opp y z). lia.
Qed.

Lemma cmp_le_lt_trans {A} (cmp : A → A → Z) `{!Comparator cmp} x y z :
  cmp x y < 0 → cmp y z ≤ 0 → cmp x z < 0.
Proof.
  intros H1 H2. pose proof (cmp_trans x y z). pose proof (cmp_range x z).
  destruct (decide (cmp x z = 0)) as [E|]; [|lia].
  pose proof (cmp_eq_l cmp x z y E). pose proof (cmp_opp x y).
  pose proof (cmp_opp y z). lia.
Qed.

#[global] Instance cmp_on_comparator {A B} (f : A → B) cmp :
  Comparator cmp → Comparator (cmp_on f cmp).
Proof.
  unfold cmp_on. intros H. split; intros.
  - apply cmp_range.
  - apply cmp_opp.
  - by eapply cmp_trans.
Qed.

#[global] Instance cmp_lex_comparator {A} (c1 c2 : A → A → Z) :
  Comparator c1 → Comparator c2 → Comparator (cmp_lex c1 c2).
Proof.
  unfold cmp_lex. intros H1 H2. split.
  - intros x y. case_match; apply cmp_range.
  - intros x y. rewrite (cmp_opp (cmp:=c1) x y).
    pose proof (cmp_opp (cmp:=c2) x y).
    destruct (Z.eqb_spec (c1 x y) 0), (Z.eqb_spec (- c1 x y) 0); lia.
  - intros x y z. destruct (Z.eqb_spec (c1 x y) 0) as [E|E].
    + rewrite (cmp_eq_l c1 x y z E). destruct (Z.eqb_spec (c1 y z) 0) as [E'|E']; [|lia].
      intros; by eapply cmp_trans.
    + destruct (Z.eqb_spec (c1 y z) 0) as [E'|E'].
      * rewrite <- (cmp_eq_r c1 y z x E'). destruct (Z.eqb_spec (c1 x y) 0); lia.
      * intros H3 H4. assert (c1 x z < 0) by (apply (cmp_lt_trans c1 x y z); lia).
        destruct (Z.eqb_spec (c1 x z) 0); lia.
Qed.

#[global] Instance cmp_N_comparator : Comparator cmp_N.
Proof.
  unfold cmp_N. split; intros x y; [| |intros z];
    repeat match goal with
    | |- context [(?x =? ?y)%N] => destruct (N.eqb_spec x y)
    | |- context [(?x <? ?y)%N] => destruct (N.ltb_spec x y)
    end; lia.
Qed.
End comparators.

(** The order of strings. *)
Lemma str_compare_trans s t u c :
  String.compare s t = c → String.compare t u = c → String.compare s u = c.
Proof.
  revert t u. induction s as [|a s IH]; intros [|b t] [|d u]; simpl; try (intros; congruence).
  unfold Ascii.compare.
  destruct (N.compare_spec (N_of_ascii a) (N_of_ascii b)) as [E|E|E],
           (N.compare_spec (N_of_ascii b) (N_of_ascii d)) as [E'|E'|E'],
           (N.compare_spec (N_of_ascii a) (N_of_ascii d)) as [E''|E''|E''];
    try lia; try (intros; congruence); eauto.
Qed.

Lemma str_lt_irrefl s : str_lt s s = false.
Proof.
  unfold str_lt, String.ltb. pose proof (String.compare_antisym s s).
  by destruct (String.compare s s).
Qed.

Lemma str_lt_antisym s t : str_lt s t = true → str_lt t s = false.
Proof.
  unfold str_lt, String.ltb. rewrite (String.compare_antisym t s).
  by destruct (String.compare s t).
Qed.

Lemma str_lt_total s t : str_lt s t = false → str_lt t s = false → s = t.
Proof.
  unfold str_lt, String.ltb. rewrite (String.compare_antisym s t).
  destruct (String.compare t s) eqn:E; simpl; try done.
  intros _ _. by apply String.compare_eq_iff in E.
Qed.

Lemma str_lt_trans s t u : str_lt s t = true → str_lt t u = true → str_lt s u = true.
Proof. rewrite !str_ltb_lt. apply str_compare_trans. Qed.

Lemma str_ge_trans s t u : str_lt t s = false → str_lt u t = false → str_lt u s = false.
Proof.
  intros H1 H2. destruct (str_lt u s) eqn:E; [|done].
  destruct (str_lt s t) eqn:E1.
  - by rewrite (str_lt_trans u s t) in H2.
  - rewrite (str_lt_total s t) in E by done. congruence.
Qed.

Lemma str_lt_strict_weak : strict_weak str_lt.
Proof. split; [apply str_lt_antisym|]. intros x y z. apply str_ge_trans. Qed.

#[export] Instance cmp_str_comparator : Comparator cmp_str.
Proof.
  unfold cmp_str. split.
  - intros x y. repeat case_match; lia.
  - intros x y. destruct (decide (x = y)) as [->|Hne]; [by rewrite decide_True|].
    rewrite decide_False by congruence.
    destruct (str_lt x y) eqn:E1, (str_lt y x) eqn:E2; try lia.
    + by rewrite (str_lt_antisym x y) in E2.
    + destruct Hne. by apply str_lt_total.
  - intros x y z.
    destruct (decide (x = y)) as [->|]; [done|].
    destruct (str_lt y x) eqn:E1; [lia|].
    destruct (decide (y = z)) as [<-|].
    + rewrite decide_False by done. rewrite E1. lia.
    + destruct (str_lt z y) eqn:E2; [lia|]. rewrite (str_ge_trans x y z) by done.
      case_decide; lia.
Qed.

#[export] Instance cmp_list_comparator {A} (cmp : A → A → Z) :
  Comparator cmp → Comparator (cmp_list cmp).
Proof.
  intros H. split.
  - intros x. induction x as [|a x IH]; intros [|b y]; simpl; try lia.
    case_match; [apply IH|apply cmp_range].
  - intros x. induction x as [|a x IH]; intros [|b y]; simpl; try lia.
    rewrite (cmp_opp a b), (IH y).
    destruct (Z.eqb_spec (cmp a b) 0), (Z.eqb_spec (- cmp a b) 0); lia.
  - intros x. induction x as [|a x IH]; intros [|b y] [|d z]; simpl; try lia.
    destruct (Z.eqb_spec (cmp a b) 0) as [E|E].
    + rewrite (cmp_eq_l cmp a b d E). destruct (Z.eqb_spec (cmp b d) 0); [apply IH|lia].
    + destruct (Z.eqb_spec (cmp b d) 0) as [E'|E'].
      * rewrite <- (cmp_eq_r cmp b d a E'). destruct (Z.eqb_spec (cmp a b) 0); lia.
      * intros H3 H4.
        assert (cmp a d < 0)%Z by (apply (cmp_lt_trans cmp a b d); lia).
        destruct (Z.eqb_spec (cmp a d) 0); lia.
Qed.

(** Inversions of the string functions. *)
Lemma Cut_Some c s a b : Cut c s = Some (a, b) → s = a +:+ String c b ∧ str_free c a.
Proof.
  revert a b. induction s as [|x s IH]; intros a b; simpl; [done|].
  case_decide as E.
  - intros [= <- <-]. by rewrite E.
  - destruct (Cut c s) as [[a' b']|]; simpl; [|done]. intros [= <- <-].
    destruct (IH a' b' eq_refl) as [-> Hfree]. split; [done|]. by apply str_free_cons.
Qed.

Lemma Cut_None c s : Cut c s = None → str_free c s.
Proof.
  induction s as [|x s IH]; simpl; [done|]. case_decide; [done|].
  destruct (Cut c s); simpl; [done|]. intros _. apply str_free_cons; auto.
Qed.

Lemma Split_nonempty c s : Split c s ≠ [].
Proof. destruct s; simpl; [done|]. repeat case_match; done. Qed.

Lemma Join_Split c s : Join (Split c s) (String c "") = s.
Proof.
  induction s as [|x s IH]; simpl; [done|]. case_decide as E.
  - rewrite Join_cons by apply Split_nonempty. rewrite IH. by rewrite E.
  - destruct (Split c s) as [|h t] eqn:Hs; [by apply Split_nonempty in Hs|].
    rewrite <- IH. by destruct t.
Qed.

Lemma Split_all_free c s : Forall (str_free c) (Split c s).
Proof.
  induction s as [|x s IH]; simpl; [by repeat constructor|]. case_decide.
  - by constructor.
  - destruct (Split c s) eqn:Hs; [by apply Split_nonempty in Hs|].
    apply Forall_cons in IH as [Hh Ht]. constructor; [|done]. by apply str_free_cons.
Qed.

Lemma str_free_app c s t : str_free c (s +:+ t) ↔ str_free c s ∧ str_free c t.
Proof. unfold str_free. by rewrite str_forallb_app, andb_true_iff. Qed.

Lemma str_free_Join c l sep :
  str_free c sep → Forall (str_free c) l → str_free c (Join l sep).
Proof.
  intros Hsep. induction l as [|s [|t l] IH]; intros Hl; [done|..].
  - by apply Forall_cons in Hl as [??].
  - apply Forall_cons in Hl as [Hs Hl]. rewrite Join_cons by done.
    rewrite !str_free_app. auto.
Qed.
