(* ===== verification/Semver.v ===== *)
(** * Versions

    [vendor/github.com/blang/semver/semver.go] (the version type, its parser,
    printer and comparison) and [pkg/lib/semver/semver.go] ([BuildIdCompare],
    the comparison that also orders build identifiers).

    A [uint64] is an [N]; [ParseUint] rejects what does not fit in 64 bits. *)
From Stdlib Require Import DecimalString DecimalN DecimalFacts.
From S2P Require Import Prelude.
From stdpp Require Import options.

(** ** The standard library's strconv *)
Definition uint64_max : N := (2 ^ 64 - 1)%N.

(** [strconv.FormatUint(n, 10)] *)
Definition FormatUint (n : N) : string := NilZero.string_of_uint (N.to_uint n).

(** [strconv.ParseUint(s, 10, 64)] *)
Definition ParseUint (s : string) : res N :=
  match NilZero.uint_of_string s with
  | None => Err (Errorf "strconv.ParseUint: parsing %q: invalid syntax" [AStr s])
  | Some d =>
      let n := N.of_uint d in
      if (n <=? uint64_max)%N then Ok n
      else Err (Errorf "strconv.ParseUint: parsing %q: value out of range" [AStr s])
  end.

(** ** blang/semver *)
Record PRVersion := mkPR { VersionStr : string; VersionNum : N; IsNum : bool }.

Record Version := mkVersion {
  Major : N; Minor : N; Patch : N;
  Pre : list PRVersion;
  Build : list string
}.

#[export] Instance PRVersion_eq_dec : EqDecision PRVersion.
Proof. solve_decision. Defined.
#[export] Instance Version_eq_dec : EqDecision Version.
Proof. solve_decision. Defined.

(** The zero value [semver.Version{}]. *)
Definition zero_version : Version := mkVersion 0 0 0 [] [].

Definition is_number (a : ascii) : bool :=
  (48 <=? N_of_ascii a)%N && (N_of_ascii a <=? 57)%N.
Definition is_alpha (a : ascii) : bool :=
  ((97 <=? N_of_ascii a)%N && (N_of_ascii a <=? 122)%N) ||
  ((65 <=? N_of_ascii a)%N && (N_of_ascii a <=? 90)%N) ||
  bool_decide (a = "-"%char).
Definition is_alphanum (a : ascii) : bool := is_alpha a || is_number a.

(** [containsOnly(s, set)]: a byte that is not ASCII decodes to a rune outside
    both sets, so the test is bytewise. *)
Definition containsOnly (s : string) (set : ascii → bool) : bool := str_forallb set s.

(** [len(s) > 1 && s[0] == '0'] *)
Definition hasLeadingZeroes (s : string) : bool :=
  match s with
  | String a (String _ _) => bool_decide (a = "0"%char)
  | _ => false
  end.

Definition NewPRVersion (s : string) : res PRVersion :=
  if decide (s = "") then Err (ErrNew "Prerelease is empty")
  else if containsOnly s is_number then
    if hasLeadingZeroes s then
      Err (Errorf "Numeric PreRelease version must not contain leading zeroes %q" [AStr s])
    else num ← ParseUint s; Ok (mkPR "" num true)
  else if containsOnly s is_alphanum then Ok (mkPR s 0 false)
  else Err (Errorf "Invalid character(s) found in prerelease %q" [AStr s]).

Definition PRVersion_Compare (v o : PRVersion) : Z :=
  if IsNum v && negb (IsNum o) then -1
  else if negb (IsNum v) && IsNum o then 1
  else if IsNum v && IsNum o then
    if (VersionNum v =? VersionNum o)%N then 0
    else if (VersionNum o <? VersionNum v)%N then 1 else -1
  else
    if decide (VersionStr v = VersionStr o) then 0
    else if str_lt (VersionStr o) (VersionStr v) then 1 else -1.

Definition PRVersion_String (v : PRVersion) : string :=
  if IsNum v then FormatUint (VersionNum v) else VersionStr v.

(** The loop over [i] of [Compare] together with the length test after it. *)
Fixpoint Pre_Compare (v o : list PRVersion) : Z :=
  match v, o with
  | [], [] => 0
  | [], _ :: _ => -1
  | _ :: _, [] => 1
  | p :: v', q :: o' =>
      let comp := PRVersion_Compare p q in
      if (comp =? 0)%Z then Pre_Compare v' o'
      else if (comp =? 1)%Z then 1 else -1
  end.

Definition Version_Compare (v o : Version) : Z :=
  if negb (Major v =? Major o)%N then if (Major o <? Major v)%N then 1 else -1
  else if negb (Minor v =? Minor o)%N then if (Minor o <? Minor v)%N then 1 else -1
  else if negb (Patch v =? Patch o)%N then if (Patch o <? Patch v)%N then 1 else -1
  else match Pre v, Pre o with
       | [], [] => 0
       | [], _ :: _ => 1
       | _ :: _, [] => -1
       | _, _ => Pre_Compare (Pre v) (Pre o)
       end.

Definition Version_GT (v o : Version) : bool := (Version_Compare v o =? 1)%Z.
Definition Version_LT (v o : Version) : bool := (Version_Compare v o =? -1)%Z.

Definition dotted (sep : string) (l : list string) : string :=
  match l with [] => "" | _ => sep +:+ Join l "." end.

Definition Version_String (v : Version) : string :=
  FormatUint (Major v) +:+ "." +:+ FormatUint (Minor v) +:+ "." +:+ FormatUint (Patch v)
  +:+ dotted "-" (PRVersion_String <$> Pre v) +:+ dotted "+" (Build v).

(** The number fields of [Parse], with the two messages of each. *)
Definition parse_number (invalid leading : string) (s : string) : res N :=
  if negb (containsOnly s is_number) then Err (Errorf invalid [AStr s])
  else if hasLeadingZeroes s then Err (Errorf leading [AStr s])
  else ParseUint s.

Fixpoint parse_prerelease (l : list string) : res (list PRVersion) :=
  match l with
  | [] => Ok []
  | prstr :: l' =>
      parsedPR ← NewPRVersion prstr;
      rest ← parse_prerelease l';
      Ok (parsedPR :: rest)
  end.

Fixpoint parse_build (l : list string) : res (list string) :=
  match l with
  | [] => Ok []
  | str :: l' =>
      if decide (str = "") then Err (ErrNew "Build meta data is empty")
      else if negb (containsOnly str is_alphanum) then
        Err (Errorf "Invalid character(s) found in build meta data %q" [AStr str])
      else rest ← parse_build l'; Ok (str :: rest)
  end.

(** [if i := strings.IndexRune(s, c); i != -1] with the [strings.Split] of what
    follows; the slices are what precedes the separator and the parts. *)
Definition cut_dotted (c : ascii) (s : string) : string * list string :=
  match Cut c s with Some (a, b) => (a, Split "." b) | None => (s, []) end.

Definition Parse (s : string) : res Version :=
  if decide (s = "") then Err (ErrNew "Version string empty")
  else match SplitN "." s 2 with
  | [p0; p1; p2] =>
      major ← parse_number "Invalid character(s) found in major number %q"
                          "Major number must not contain leading zeroes %q" p0;
      minor ← parse_number "Invalid character(s) found in minor number %q"
                          "Minor number must not contain leading zeroes %q" p1;
      let '(patchStr, build) := cut_dotted "+" p2 in
      let '(patchStr, prerelease) := cut_dotted "-" patchStr in
      patch ← parse_number "Invalid character(s) found in patch number %q"
                          "Patch number must not contain leading zeroes %q" patchStr;
      pre ← parse_prerelease prerelease;
      bld ← parse_build build;
      Ok (mkVersion major minor patch pre bld)
  | _ => Err (ErrNew "No Major.Minor.Patch elements found")
  end.

(** [semver.Make] is an alias of [Parse]. *)
Definition Make (s : string) : res Version := Parse s.

(** ** pkg/lib/semver *)
Fixpoint build_pre (l : list string) : res (list PRVersion) :=
  match l with
  | [] => Ok []
  | b :: l' => p ← NewPRVersion b; rest ← build_pre l'; Ok (p :: rest)
  end.

Definition buildAsPrerelease (v : Version) : res Version :=
  pre ← build_pre (Build v);
  let major := match pre with [] => 0%N | _ => 1%N end in
  Ok (mkVersion major 0 0 pre []).

Definition BuildIdCompare (b v : Version) : res Z :=
  let c := Version_Compare b v in
  if negb (c =? 0)%Z then Ok c
  else
    bPre ← wrap_err (λ e, Errorf "failed to convert build-id of %s to prerelease version for comparison: %s"
                            [AStr (Version_String b); AErr e]) (buildAsPrerelease b);
    vPre ← wrap_err (λ e, Errorf "failed to convert build-id of %s to prerelease version for comparison: %s"
                            [AStr (Version_String v); AErr e]) (buildAsPrerelease v);
    Ok (Version_Compare bPre vPre).

(** ** The orders *)
Lemma comparator_ext {A} (c c' : A → A → Z) :
  (∀ x y, c x y = c' x y) → Comparator c' → Comparator c.
Proof.
  intros E [H1 H2 H3]. split; intros *; rewrite ?E.
  - apply H1.
  - apply H2.
  - apply H3.
Qed.

(** Numeric identifiers come before alphanumeric ones; each kind has its own
    order. *)
Definition PR_spec : PRVersion → PRVersion → Z :=
  cmp_lex (cmp_on (λ v, if IsNum v then 0%N else 1%N) cmp_N)
    (cmp_lex (cmp_on (λ v, if IsNum v then VersionNum v else 0%N) cmp_N)
             (cmp_on (λ v, if IsNum v then "" else VersionStr v) cmp_str)).

Lemma PRVersion_Compare_spec v o : PRVersion_Compare v o = PR_spec v o.
Proof.
  destruct v as [vs vn []], o as [os on []];
    unfold PRVersion_Compare, PR_spec, cmp_lex, cmp_on; simpl; try done.
  change (cmp_N vn on = if (cmp_N vn on =? 0)%Z then 0%Z else cmp_N vn on).
  by destruct (Z.eqb_spec (cmp_N vn on) 0).
Qed.

#[export] Instance PRVersion_Compare_comparator : Comparator PRVersion_Compare.
Proof. apply (comparator_ext _ PR_spec PRVersion_Compare_spec), _. Qed.

Lemma Pre_Compare_spec v o : Pre_Compare v o = cmp_list PRVersion_Compare v o.
Proof.
  revert o. induction v as [|p v IH]; intros [|q o]; simpl; try done.
  rewrite IH. destruct (cmp_range p q) as [-> | [-> | ->]]; done.
Qed.

(** Precedence: major, minor, patch, then a release above its prereleases,
    then the prerelease identifiers lexicographically. *)
Definition Version_spec : Version → Version → Z :=
  cmp_lex (cmp_on Major cmp_N) (cmp_lex (cmp_on Minor cmp_N) (cmp_lex (cmp_on Patch cmp_N)
    (cmp_lex (cmp_on (λ v, match Pre v with [] => 1%N | _ => 0%N end) cmp_N)
             (cmp_on Pre (cmp_list PRVersion_Compare))))).

Lemma Version_Compare_spec v o : Version_Compare v o = Version_spec v o.
Proof.
  unfold Version_Compare, Version_spec, cmp_lex, cmp_on. rewrite Pre_Compare_spec.
  unfold cmp_N.
  destruct (Major v =? Major o)%N; simpl; [|by destruct (Major o <? Major v)%N].
  destruct (Minor v =? Minor o)%N; simpl; [|by destruct (Minor o <? Minor v)%N].
  destruct (Patch v =? Patch o)%N; simpl; [|by destruct (Patch o <? Patch v)%N].
  by destruct (Pre v), (Pre o).
Qed.

#[export] Instance Version_Compare_comparator : Comparator Version_Compare.
Proof. apply (comparator_ext _ Version_spec Version_Compare_spec), _. Qed.

(** ** Numbers *)
Lemma string_of_uint_digits d : str_forallb is_number (NilEmpty.string_of_uint d) = true.
Proof. induction d; simpl; auto. Qed.

Lemma FormatUint_digits n : str_forallb is_number (FormatUint n) = true.
Proof.
  unfold FormatUint, NilZero.string_of_uint.
  destruct (N.to_uint n) eqn:E; [done|..]; apply (string_of_uint_digits _).
Qed.

Lemma FormatUint_nonempty n : FormatUint n ≠ "".
Proof. unfold FormatUint, NilZero.string_of_uint. by destruct (N.to_uint n). Qed.

Lemma to_uint_unorm n : Decimal.unorm (N.to_uint n) = N.to_uint n.
Proof. by rewrite <- Unsigned.to_of, Unsigned.of_to. Qed.

Lemma leading_zero_unorm d :
  d ≠ Decimal.Nil →
  hasLeadingZeroes (NilZero.string_of_uint d) = false ↔ Decimal.unorm d = d.
Proof.
  intros Hd. destruct d as [|d|d|d|d|d|d|d|d|d|d]; simpl; try done.
  2-10: split; intros; try done; unfold NilZero.string_of_uint, hasLeadingZeroes; simpl;
        by destruct (NilEmpty.string_of_uint d).
  unfold NilZero.string_of_uint. destruct d; simpl; try (split; intros; done).
  all: split; [done|]; unfold Decimal.unorm; simpl; intros H; exfalso.
  pose proof (nzhead_nonzero d) as Hz. destruct (Decimal.nzhead d); try done.
  injection H as ->. by eapply Hz.
Qed.

Lemma to_uint_nonnil n : N.to_uint n ≠ Decimal.Nil.
Proof.
  rewrite <- to_uint_unorm. unfold Decimal.unorm. by destruct (Decimal.nzhead (N.to_uint n)).
Qed.

Lemma FormatUint_no_leading n : hasLeadingZeroes (FormatUint n) = false.
Proof. apply leading_zero_unorm; [apply to_uint_nonnil|apply to_uint_unorm]. Qed.

Lemma ParseUint_spec s n :
  hasLeadingZeroes s = false → ParseUint s = Ok n ↔ (n <= uint64_max)%N ∧ FormatUint n = s.
Proof.
  intros Hz. unfold ParseUint. split.
  - destruct (NilZero.uint_of_string s) as [d|] eqn:E; [|done].
    destruct (N.leb_spec (N.of_uint d) uint64_max); [|done]. intros [= <-].
    split; [done|]. unfold FormatUint. rewrite Unsigned.to_of.
    assert (d ≠ Decimal.Nil) as Hd by (intros ->; by apply NilZero.uint_of_string_nonnil in E).
    pose proof (NilZero.sus _ _ E) as Es. rewrite <- Es in Hz.
    rewrite (proj1 (leading_zero_unorm d Hd) Hz). done.
  - intros [Hn <-]. unfold FormatUint.
    rewrite NilZero.usu by apply to_uint_nonnil. rewrite Unsigned.of_to.
    by destruct (N.leb_spec n uint64_max); [|lia].
Qed.

Lemma parse_number_spec i l s n :
  parse_number i l s = Ok n ↔ (n <= uint64_max)%N ∧ FormatUint n = s.
Proof.
  unfold parse_number, containsOnly. split.
  - destruct (str_forallb is_number s); simpl; [|done].
    destruct (hasLeadingZeroes s) eqn:Hz; [done|]. by apply ParseUint_spec.
  - intros [Hn <-]. rewrite FormatUint_digits, FormatUint_no_leading. simpl.
    apply ParseUint_spec; [apply FormatUint_no_leading|done].
Qed.

(** ** What the parser accepts, and the round trip with the printer *)
Definition pr_valid (p : PRVersion) : Prop :=
  if IsNum p then VersionStr p = "" ∧ (VersionNum p <= uint64_max)%N
  else VersionNum p = 0%N ∧ VersionStr p ≠ "" ∧
       containsOnly (VersionStr p) is_number = false ∧
       containsOnly (VersionStr p) is_alphanum = true.

Definition build_valid (s : string) : Prop := s ≠ "" ∧ containsOnly s is_alphanum = true.

Definition version_valid (v : Version) : Prop :=
  (Major v <= uint64_max)%N ∧ (Minor v <= uint64_max)%N ∧ (Patch v <= uint64_max)%N ∧
  Forall pr_valid (Pre v) ∧ Forall build_valid (Build v).

Lemma NewPRVersion_spec s p : NewPRVersion s = Ok p ↔ pr_valid p ∧ PRVersion_String p = s.
Proof.
  unfold NewPRVersion, pr_valid, PRVersion_String, containsOnly. split.
  - case_decide; [done|]. destruct (str_forallb is_number s) eqn:E1.
    + destruct (hasLeadingZeroes s) eqn:E2; [done|].
      destruct (ParseUint s) as [num| |] eqn:E3; simpl; intros [= <-]; simpl.
      apply ParseUint_spec in E3 as [? ?]; done.
    + destruct (str_forallb is_alphanum s) eqn:E2; [|done]. intros [= <-]. simpl. done.
  - destruct p as [str num []]; simpl.
    + intros [[-> Hn] <-]. rewrite decide_False by apply FormatUint_nonempty.
      rewrite FormatUint_digits, FormatUint_no_leading.
      by rewrite (proj2 (ParseUint_spec _ num (FormatUint_no_leading num))).
    + intros [(-> & Hs & E1 & E2) <-]. by rewrite decide_False, E1, E2.
Qed.

Lemma parse_prerelease_spec l pre :
  parse_prerelease l = Ok pre ↔ Forall pr_valid pre ∧ PRVersion_String <$> pre = l.
Proof.
  revert pre. induction l as [|s l IH]; intros pre; simpl.
  - split; [intros [= <-]; done|]. by intros [_ ->%fmap_nil_inv].
  - split.
    + destruct (NewPRVersion s) as [p| |] eqn:E; simpl; try done.
      destruct (parse_prerelease l) as [r| |]; simpl; try done. intros [= <-].
      apply NewPRVersion_spec in E as [Hp <-]. destruct (proj1 (IH r) eq_refl) as [? <-].
      by repeat constructor.
    + destruct pre as [|p pre]; simpl; intros [Hv Hs]; [done|]. injection Hs as Hs1 Hs2.
      apply Forall_cons in Hv as [Hp Hv].
      rewrite (proj2 (NewPRVersion_spec s p)) by done. simpl.
      by rewrite (proj2 (IH pre)).
Qed.

Lemma parse_build_spec l b : parse_build l = Ok b ↔ Forall build_valid b ∧ b = l.
Proof.
  revert b. induction l as [|s l IH]; intros b; simpl.
  - split; [intros [= <-]; done|]. by intros [_ ->].
  - unfold build_valid at 1. split.
    + case_decide; [done|]. destruct (containsOnly s is_alphanum) eqn:E; simpl; [|done].
      destruct (parse_build l) as [r| |]; simpl; try done. intros [= <-].
      destruct (proj1 (IH r) eq_refl) as [? ->]. by repeat constructor.
    + intros [Hv ->]. apply Forall_cons in Hv as [[Hs Ha] Hv].
      rewrite decide_False, Ha by done. simpl. by rewrite (proj2 (IH l)).
Qed.

Lemma digits_free c n : is_number c = false → str_free c (FormatUint n).
Proof. intros Hc. apply (str_free_forallb _ is_number); [done|]. apply FormatUint_digits. Qed.

Lemma pr_free c p : is_alphanum c = false → pr_valid p → str_free c (PRVersion_String p).
Proof.
  unfold pr_valid, PRVersion_String, containsOnly. intros Hc Hv. destruct (IsNum p).
  - apply digits_free. unfold is_alphanum in Hc. apply orb_false_iff in Hc. by destruct Hc.
  - destruct Hv as (_ & _ & _ & Ha). by apply (str_free_forallb _ is_alphanum).
Qed.

Lemma pre_free c l : is_alphanum c = false → Forall pr_valid l → Forall (str_free c) (PRVersion_String <$> l).
Proof. intros Hc Hl. apply Forall_fmap. eapply Forall_impl; [exact Hl|]. intros p. by apply pr_free. Qed.

Lemma dotted_free c sep l :
  str_free c sep → str_free c "." → Forall (str_free c) l → str_free c (dotted sep l).
Proof.
  intros. destruct l as [|s l]; [done|]. unfold dotted. apply str_free_app.
  split; [done|]. by apply str_free_Join.
Qed.

Lemma cut_dotted_app c x l :
  str_free c x → Forall (str_free ".") l →
  cut_dotted c (x +:+ dotted (String c "") l) = (x, l).
Proof.
  intros Hx Hl. unfold cut_dotted, dotted. destruct l as [|s l].
  - rewrite str_app_nil_r. by rewrite Cut_free.
  - change (String c "" +:+ ?y) with (String c y). rewrite Cut_app by done.
    by rewrite Split_Join.
Qed.

Lemma cut_dotted_inv c s x l : cut_dotted c s = (x, l) → s = x +:+ dotted (String c "") l ∧ str_free c x.
Proof.
  unfold cut_dotted. destruct (Cut c s) as [[a b]|] eqn:E; intros [= <- <-].
  - apply Cut_Some in E as [-> Hf]. split; [|done]. unfold dotted.
    destruct (Split "." b) eqn:Hs; [by apply Split_nonempty in Hs|]. rewrite <- Hs, Join_Split. done.
  - apply Cut_None in E. by rewrite str_app_nil_r.
Qed.

Lemma SplitN_three s p0 p1 p2 :
  SplitN "." s 2 = [p0; p1; p2] ↔
  s = p0 +:+ "." +:+ p1 +:+ "." +:+ p2 ∧ str_free "." p0 ∧ str_free "." p1.
Proof.
  simpl. split.
  - destruct (Cut "." s) as [[a b]|] eqn:E; [|done].
    destruct (Cut "." b) as [[a' b']|] eqn:E'; [|done]. intros [= <- <- <-].
    apply Cut_Some in E as [-> ?]. apply Cut_Some in E' as [-> ?]. done.
  - intros (-> & H0 & H1). change ("." +:+ ?x) with (String "." x).
    rewrite (Cut_app "." p0) by done. change ("." +:+ ?x) with (String "." x).
    by rewrite (Cut_app "." p1).
Qed.

(** Printing and parsing are inverse: [Parse] accepts exactly the strings that
    [String] prints from a valid version, and returns that version. *)
Lemma Parse_spec s v : Parse s = Ok v ↔ version_valid v ∧ Version_String v = s.
Proof.
  unfold Parse, version_valid, Version_String. split.
  - case_decide; [done|].
    destruct (SplitN "." s 2) as [|p0 [|p1 [|p2 [|]]]] eqn:Hs; try done.
    apply SplitN_three in Hs as (-> & _ & _).
    destruct (parse_number _ _ p0) as [major| |] eqn:E0; simpl; try done.
    destruct (parse_number _ _ p1) as [minor| |] eqn:E1; simpl; try done.
    destruct (cut_dotted "+" p2) as [q build] eqn:Ec.
    destruct (cut_dotted "-" q) as [patchStr prerelease] eqn:Ec'.
    destruct (parse_number _ _ patchStr) as [patch| |] eqn:E2; simpl; try done.
    destruct (parse_prerelease prerelease) as [pre| |] eqn:E3; simpl; try done.
    destruct (parse_build build) as [bld| |] eqn:E4; simpl; try done. intros [= <-]. simpl.
    apply parse_number_spec in E0 as [? <-], E1 as [? <-], E2 as [? <-].
    apply parse_prerelease_spec in E3 as [? <-]. apply parse_build_spec in E4 as [? <-].
    apply cut_dotted_inv in Ec as [-> _], Ec' as [-> _].
    by rewrite <- str_app_assoc.
  - destruct v as [major minor patch pre bld]; cbn [Major Minor Patch Pre Build].
    intros ((HM & Hm & Hp & Hpre & Hbld) & <-). rewrite decide_False.
    2:{ pose proof (FormatUint_nonempty major). by destruct (FormatUint major). }
    rewrite (proj2 (SplitN_three _ (FormatUint major) (FormatUint minor) _))
      by (split; [done|]; split; by apply digits_free).
    rewrite (proj2 (parse_number_spec _ _ (FormatUint major) major)) by done. simpl.
    rewrite (proj2 (parse_number_spec _ _ (FormatUint minor) minor)) by done. simpl.
    rewrite str_app_assoc, cut_dotted_app.
    + rewrite cut_dotted_app by (by apply digits_free || by apply pre_free).
      rewrite (proj2 (parse_number_spec _ _ (FormatUint patch) patch)) by done. simpl.
      rewrite (proj2 (parse_prerelease_spec _ pre)) by done. simpl.
      by rewrite (proj2 (parse_build_spec _ bld)).
    + apply str_free_app. split; [by apply digits_free|].
      apply dotted_free; [done..|]. by apply pre_free.
    + eapply Forall_impl; [exact Hbld|]. intros s [_ Hs]. by apply (str_free_forallb _ is_alphanum).
Qed.

(** ** The order with build identifiers *)

(** [build_pre] is [parse_prerelease]: both run [NewPRVersion] on each item. *)
Lemma build_pre_eq l : build_pre l = parse_prerelease l.
Proof. induction l; simpl; [done|]. by rewrite IHl. Qed.

(** Build identifiers that can be read as prerelease identifiers. *)
Definition build_ok (v : Version) : Prop := ∃ pre, build_pre (Build v) = Ok pre.

Definition build_key (v : Version) : Version :=
  match buildAsPrerelease v with Ok w => w | _ => zero_version end.

Lemma build_ok_key v : build_ok v → buildAsPrerelease v = Ok (build_key v).
Proof. unfold build_key, buildAsPrerelease. by intros [pre ->]. Qed.

Definition BuildId_spec : Version → Version → Z :=
  cmp_lex Version_Compare (cmp_on build_key Version_Compare).

#[export] Instance BuildId_spec_comparator : Comparator BuildId_spec.
Proof. apply _. Qed.

Lemma BuildIdCompare_spec b v :
  build_ok b → build_ok v → BuildIdCompare b v = Ok (BuildId_spec b v).
Proof.
  intros Hb Hv. unfold BuildIdCompare, BuildId_spec, cmp_lex, cmp_on.
  destruct (Z.eqb_spec (Version_Compare b v) 0); [|done].
  by rewrite !build_ok_key.
Qed.

Lemma PRVersion_Compare_eq p q :
  pr_valid p → pr_valid q → PRVersion_Compare p q = 0%Z → p = q.
Proof.
  destruct p as [ps pn []], q as [qs qn []];
    unfold pr_valid, PRVersion_Compare; simpl; try done.
  - intros [-> _] [-> _]. destruct (N.eqb_spec pn qn) as [->|]; [done|]. by case_match.
  - intros (-> & _) (-> & _). case_decide as E; [by rewrite E|]. by case_match.
Qed.

Lemma cmp_list_eq {A} (cmp : A → A → Z) (P : A → Prop) x y :
  (∀ a b, P a → P b → cmp a b = 0%Z → a = b) →
  Forall P x → Forall P y → cmp_list cmp x y = 0%Z → x = y.
Proof.
  intros Hcmp Hx. revert y. induction Hx as [|a x Ha Hx IH]; intros [|b y] Hy; simpl; try done.
  apply Forall_cons in Hy as [Hb Hy].
  destruct (Z.eqb_spec (cmp a b) 0); [|done]. intros. f_equal; auto.
Qed.

Lemma cmp_N_eq x y : cmp_N x y = 0%Z → x = y.
Proof. unfold cmp_N. destruct (N.eqb_spec x y); [done|]. by case_match. Qed.

(** Equal precedence: same numbers, same prerelease; the build may differ. *)
Lemma Version_Compare_eq v o :
  Forall pr_valid (Pre v) → Forall pr_valid (Pre o) → Version_Compare v o = 0%Z →
  Major v = Major o ∧ Minor v = Minor o ∧ Patch v = Patch o ∧ Pre v = Pre o.
Proof.
  intros Hv Ho. rewrite Version_Compare_spec.
  unfold Version_spec, cmp_lex, cmp_on.
  repeat (match goal with
  | |- context [if (?c =? 0)%Z then _ else _] => destruct (Z.eqb_spec c 0) as [?%cmp_N_eq|]; [|done]
  end). intros ?%(cmp_list_eq _ pr_valid); auto using PRVersion_Compare_eq.
Qed.

Lemma build_key_eq v o :
  build_ok v → build_ok o → Version_Compare (build_key v) (build_key o) = 0%Z →
  Build v = Build o.
Proof.
  intros [pv Ev] [po Eo]. unfold build_key, buildAsPrerelease. rewrite Ev, Eo. simpl.
  rewrite build_pre_eq in Ev, Eo.
  apply parse_prerelease_spec in Ev as [Hv <-], Eo as [Ho <-].
  intros (_ & _ & _ & E)%Version_Compare_eq; simpl in *; [by rewrite E|done..].
Qed.

(** C35. [semver.Parse] and [Version.String] are inverse: [Parse] accepts exactly
    the strings printed from a valid version and returns that version, so two
    accepted strings with the same version are equal. *)
Theorem Parse_print_roundtrip (s t : string) (v : Version) :
  (Parse s = Ok v ↔ version_valid v ∧ Version_String v = s) ∧
  (Parse s = Ok v → Parse t = Ok v → s = t).
Proof.
  split; [apply Parse_spec|]. rewrite !Parse_spec. by intros [_ <-] [_ <-].
Qed.

Lemma BuildId_spec_eq b v :
  version_valid b → version_valid v → build_ok b → build_ok v →
  BuildId_spec b v = 0%Z ↔ b = v.
Proof.
  intros (_ & _ & _ & Hpb & _) (_ & _ & _ & Hpv & _) Hb Hv. split; [|intros ->; apply cmp_refl, _].
  unfold BuildId_spec, cmp_lex, cmp_on. destruct (Z.eqb_spec (Version_Compare b v) 0) as [E|]; [|done].
  apply Version_Compare_eq in E as (? & ? & ? & ?); [|done..]. intros ?%build_key_eq; [|done..].
  destruct b, v. simpl in *. congruence.
Qed.

Lemma BuildId_spec_no_build b v :
  Version_Compare b v = 0%Z → Build b = [] → Build v ≠ [] → build_ok v → BuildId_spec b v = (-1)%Z.
Proof.
  intros E Hb Hv [pre Hpre]. unfold BuildId_spec, cmp_lex, cmp_on. rewrite E. simpl.
  unfold build_key, buildAsPrerelease. rewrite Hb, Hpre. simpl.
  destruct pre; [|done]. rewrite build_pre_eq in Hpre.
  apply parse_prerelease_spec in Hpre as [_ E']. by rewrite <- E' in Hv.
Qed.

(** [BuildIdCompare] is a total order on parsed versions whose build
    identifiers can be compared: it answers [-1], [0] or [1], reverses when the
    arguments are swapped, is transitive, answers [0] only for equal versions,
    agrees with semver precedence whenever that decides, and puts a version
    without build identifiers below the same version with some. *)
Theorem BuildIdCompare_total_order (b v w : Version) :
  version_valid b → version_valid v → build_ok b → build_ok v → build_ok w →
  ∃ x y z : Z,
    BuildIdCompare b v = Ok x ∧ BuildIdCompare v w = Ok y ∧ BuildIdCompare b w = Ok z ∧
    (x = -1 ∨ x = 0 ∨ x = 1)%Z ∧
    BuildIdCompare v b = Ok (- x)%Z ∧
    (x ≤ 0 → y ≤ 0 → z ≤ 0)%Z ∧
    (x = 0%Z ↔ b = v) ∧
    (Version_Compare b v ≠ 0%Z → x = Version_Compare b v) ∧
    (Version_Compare b v = 0%Z → Build b = [] → Build v ≠ [] → x = (-1)%Z).
Proof.
  intros Vb Vv Hb Hv Hw. exists (BuildId_spec b v), (BuildId_spec v w), (BuildId_spec b w).
  rewrite !BuildIdCompare_spec by done. repeat split.
  - apply cmp_range.
  - f_equal. apply cmp_opp.
  - apply cmp_trans.
  - by apply BuildId_spec_eq.
  - by apply BuildId_spec_eq.
  - intros. unfold BuildId_spec, cmp_lex. by destruct (Z.eqb_spec (Version_Compare b v) 0).
  - intros. by apply BuildId_spec_no_build.
Qed.

Definition v100 : Version := mkVersion 1 0 0 [] [].
Definition v100_b1 : Version := mkVersion 1 0 0 [] ["1"].
Definition v100_b2 : Version := mkVersion 1 0 0 [] ["2"].

Lemma BuildIdCompare_total_order_witness :
  ∃ x y z : Z,
    BuildIdCompare v100 v100_b1 = Ok x ∧ BuildIdCompare v100_b1 v100_b2 = Ok y ∧
    BuildIdCompare v100 v100_b2 = Ok z ∧ x = (-1)%Z.
Proof.
  edestruct (BuildIdCompare_total_order v100 v100_b1 v100_b2) as (x & y & z & Hx & Hy & Hz & _).
  - by repeat split; try constructor.
  - repeat split; try done. by repeat constructor.
  - by eexists.
  - by eexists.
  - by eexists.
  - exists x, y, z. repeat split; try done. vm_compute in Hx. congruence.
Defined.

(** The parser accepts build identifiers that the comparison rejects: a
    numeric build identifier with a leading zero parses, and comparing the
    version with itself is an error. *)
Theorem BuildIdCompare_rejects_parsed :
  ∃ v, Parse "1.0.0+01" = Ok v ∧ is_Err (BuildIdCompare v v).
Proof. eexists. split; [vm_compute; reflexivity|]. eexists. vm_compute. reflexivity. Qed.
