(* ===== verification/Json.v ===== *)
(** * encoding/json, as far as the sources use it

    A byte-level model of the standard library's decoder and encoder: the
    scanner's grammar, the unquoting and quoting of strings (escapes, UTF-16
    surrogates, invalid UTF-8), the decoding of objects into structs of strings
    (exact, then case-folded field names; [null] leaves a field alone; the last
    of several members wins; a member of another type is an error) and
    [json.Compact].  Every value inside an array or object keeps its raw text,
    which is what a [json.RawMessage] field receives.

    Not modelled: the library's nesting limit of 10000. *)
From Stdlib Require Import DecimalString.
From S2P Require Import Prelude.
From stdpp Require Import options.

Definition byte_of (n : N) : ascii := ascii_of_N n.
Definition code (a : ascii) : N := N_of_ascii a.

Definition quote : ascii := byte_of 34.
Definition bslash : ascii := byte_of 92.

(** ** UTF-8 *)
Definition in_range (lo hi : N) (a : ascii) : bool := (lo <=? code a)%N && (code a <=? hi)%N.
Definition is_cont : ascii → bool := in_range 128 191.

(** The number of bytes of the rune at the head of [c :: s], for [c >= 0x80];
    [None] for an encoding [utf8.DecodeRune] rejects. *)
Definition utf8_len (c : ascii) (s : string) : option nat :=
  match s with
  | EmptyString => None
  | String c1 s1 =>
      if in_range 194 223 c then if is_cont c1 then Some 2 else None
      else if in_range 224 239 c then
        match s1 with
        | EmptyString => None
        | String c2 _ =>
            let ok1 := if decide (code c = 224%N) then in_range 160 191 c1
                       else if decide (code c = 237%N) then in_range 128 159 c1
                       else is_cont c1 in
            if ok1 && is_cont c2 then Some 3 else None
        end
      else if in_range 240 244 c then
        match s1 with
        | String c2 (String c3 _) =>
            let ok1 := if decide (code c = 240%N) then in_range 144 191 c1
                       else if decide (code c = 244%N) then in_range 128 143 c1
                       else is_cont c1 in
            if ok1 && is_cont c2 && is_cont c3 then Some 4 else None
        | _ => None
        end
      else None
  end.

(** [utf8.EncodeRune]; surrogates and values above 0x10FFFF become U+FFFD. *)
Definition rune_error : string :=
  String (byte_of 239) (String (byte_of 191) (String (byte_of 189) "")).
Definition encode_rune (r : N) : string :=
  if (r <=? 127)%N then String (byte_of r) ""
  else if (r <=? 2047)%N then
    String (byte_of (192 + r / 64)) (String (byte_of (128 + r mod 64)) "")
  else if ((55296 <=? r) && (r <=? 57343) || (1114111 <? r))%N then rune_error
  else if (r <=? 65535)%N then
    String (byte_of (224 + r / 4096)) (String (byte_of (128 + (r / 64) mod 64))
      (String (byte_of (128 + r mod 64)) ""))
  else
    String (byte_of (240 + r / 262144)) (String (byte_of (128 + (r / 4096) mod 64))
      (String (byte_of (128 + (r / 64) mod 64)) (String (byte_of (128 + r mod 64)) ""))).

(** ** Strings *)
Definition hex_val (a : ascii) : option N :=
  if in_range 48 57 a then Some (code a - 48)%N
  else if in_range 97 102 a then Some (code a - 87)%N
  else if in_range 65 70 a then Some (code a - 55)%N
  else None.
Definition getu4 (a b c d : ascii) : option N :=
  x ← hex_val a; y ← hex_val b; z ← hex_val c; w ← hex_val d;
  Some (((x * 16 + y) * 16 + z) * 16 + w)%N.
Definition is_surrogate (r : N) : bool := (55296 <=? r)%N && (r <=? 57343)%N.
(** [utf16.DecodeRune], [None] for U+FFFD *)
Definition utf16_decode (r1 r2 : N) : option N :=
  if ((55296 <=? r1) && (r1 <? 56320) && (56320 <=? r2) && (r2 <? 57344))%N
  then Some ((r1 - 55296) * 1024 + (r2 - 56320) + 65536)%N else None.

Definition simple_escape (a : ascii) : option ascii :=
  if decide (a = quote) then Some quote
  else if decide (a = bslash) then Some bslash
  else if decide (a = "/"%char) then Some "/"%char
  else if decide (a = "b"%char) then Some (byte_of 8)
  else if decide (a = "f"%char) then Some (byte_of 12)
  else if decide (a = "n"%char) then Some (byte_of 10)
  else if decide (a = "r"%char) then Some (byte_of 13)
  else if decide (a = "t"%char) then Some (byte_of 9)
  else None.

Definition cons_res (p : string) (o : option (string * string)) : option (string * string) :=
  prod_map (λ t, p +:+ t) id <$> o.

(** The body of a string literal after its opening quote: the decoded text and
    what follows the closing quote. *)
Fixpoint parse_str (s : string) : option (string * string) :=
  match s with
  | EmptyString => None
  | String c s1 =>
      if decide (c = quote) then Some ("", s1)
      else if decide (c = bslash) then
        match s1 with
        | EmptyString => None
        | String e s2 =>
            if decide (e = "u"%char) then
              match s2 with
              | String h1 (String h2 (String h3 (String h4 s3))) =>
                  match getu4 h1 h2 h3 h4 with
                  | None => None
                  | Some r =>
                      if is_surrogate r then
                        match s3 with
                        | String b1 (String u1 (String k1 (String k2 (String k3 (String k4 s4))))) =>
                            match (if decide (b1 = bslash) then
                                     if decide (u1 = "u"%char) then getu4 k1 k2 k3 k4 ≫= utf16_decode r
                                     else None
                                   else None) with
                            | Some dec => cons_res (encode_rune dec) (parse_str s4)
                            | None => cons_res rune_error (parse_str s3)
                            end
                        | _ => cons_res rune_error (parse_str s3)
                        end
                      else cons_res (encode_rune r) (parse_str s3)
                  end
              | _ => None
              end
            else match simple_escape e with
                 | None => None
                 | Some a => cons_res (String a "") (parse_str s2)
                 end
        end
      else if (code c <? 32)%N then None
      else if (code c <? 128)%N then cons_res (String c "") (parse_str s1)
      else match utf8_len c s1 with
           | Some 2 =>
               match s1 with
               | String c1 s2 => cons_res (String c (String c1 "")) (parse_str s2)
               | _ => None
               end
           | Some 3 =>
               match s1 with
               | String c1 (String c2 s3) =>
                   cons_res (String c (String c1 (String c2 ""))) (parse_str s3)
               | _ => None
               end
           | Some 4 =>
               match s1 with
               | String c1 (String c2 (String c3 s4)) =>
                   cons_res (String c (String c1 (String c2 (String c3 "")))) (parse_str s4)
               | _ => None
               end
           | _ => cons_res rune_error (parse_str s1)
           end
  end.

(** [encodeState.string]: the body and closing quote of the literal for [s].
    [html] is the encoder's [escapeHTML]. *)
Definition hex_digit (n : N) : ascii := byte_of (if (n <? 10)%N then 48 + n else 87 + n).
Definition u_escape (r : N) : string :=
  String bslash (String "u"%char (String (hex_digit (r / 4096))
    (String (hex_digit ((r / 256) mod 16)) (String (hex_digit ((r / 16) mod 16))
      (String (hex_digit (r mod 16)) ""))))).
Definition is_html (c : ascii) : bool :=
  bool_decide (c = "<"%char) || bool_decide (c = ">"%char) || bool_decide (c = "&"%char).
Definition escape_byte (html : bool) (c : ascii) : string :=
  if decide (c = quote) then String bslash (String c "")
  else if decide (c = bslash) then String bslash (String c "")
  else if decide (c = byte_of 10) then String bslash "n"
  else if decide (c = byte_of 13) then String bslash "r"
  else if decide (c = byte_of 9) then String bslash "t"
  else if (code c <? 32)%N || (html && is_html c) then u_escape (code c)
  else String c "".

Fixpoint print_str (html : bool) (s : string) : string :=
  match s with
  | EmptyString => String quote ""
  | String c s1 =>
      if (code c <? 128)%N then escape_byte html c +:+ print_str html s1
      else match utf8_len c s1 with
           | Some 2 =>
               match s1 with
               | String c1 s2 => String c (String c1 (print_str html s2))
               | _ => ""
               end
           | Some 3 =>
               match s1 with
               | String c1 (String c2 s3) =>
                   (if decide (code c = 226%N ∧ code c1 = 128%N ∧ code c2 = 168%N) then u_escape 8232
                    else if decide (code c = 226%N ∧ code c1 = 128%N ∧ code c2 = 169%N) then u_escape 8233
                    else String c (String c1 (String c2 ""))) +:+ print_str html s3
               | _ => ""
               end
           | Some 4 =>
               match s1 with
               | String c1 (String c2 (String c3 s4)) =>
                   String c (String c1 (String c2 (String c3 (print_str html s4))))
               | _ => ""
               end
           | _ => u_escape 65533 +:+ print_str html s1
           end
  end.
Definition print_string (html : bool) (s : string) : string := String quote (print_str html s).

(** ** Values *)
#[local] Set Warnings "-register-all".
Inductive json : Type :=
  | JNull
  | JBool (b : bool)
  | JNum (literal : string)
  | JStr (s : string)
  | JArr (elems : list (string * json))
  | JObj (members : list (string * (string * json))).

Definition is_space (c : ascii) : bool :=
  bool_decide (c = " "%char) || bool_decide (c = byte_of 9) ||
  bool_decide (c = byte_of 10) || bool_decide (c = byte_of 13).
Fixpoint skip_ws (s : string) : string :=
  match s with
  | String c s' => if is_space c then skip_ws s' else s
  | EmptyString => ""
  end.

(** [s] without its suffix [rest]. *)
Definition consumed (s rest : string) : string :=
  String.substring 0 (String.length s - String.length rest) s.

Definition is_digit : ascii → bool := in_range 48 57.
Fixpoint skip_digits (s : string) : string :=
  match s with
  | String c s' => if is_digit c then skip_digits s' else s
  | EmptyString => ""
  end.
Definition digits1 (s : string) : option string :=
  match s with
  | String c s' => if is_digit c then Some (skip_digits s') else None
  | EmptyString => None
  end.
Definition num_int (s : string) : option string :=
  match s with
  | String c s' => if decide (c = "0"%char) then Some s' else digits1 s
  | EmptyString => None
  end.
Definition num_frac (s : string) : option string :=
  match s with
  | String c s' => if decide (c = "."%char) then digits1 s' else Some s
  | EmptyString => Some ""
  end.
Definition num_exp (s : string) : option string :=
  match s with
  | String c s' =>
      if decide (c = "e"%char ∨ c = "E"%char) then
        match s' with
        | String d s'' => if decide (d = "+"%char ∨ d = "-"%char) then digits1 s'' else digits1 s'
        | EmptyString => None
        end
      else Some s
  | EmptyString => Some ""
  end.
Definition parse_num (s : string) : option (string * string) :=
  let s0 := match s with
            | String c s' => if decide (c = "-"%char) then s' else s
            | EmptyString => s
            end in
  s1 ← num_int s0; s2 ← num_frac s1; rest ← num_exp s2;
  Some (consumed s rest, rest).

Fixpoint strip_prefix (p s : string) : option string :=
  match p, s with
  | EmptyString, _ => Some s
  | String a p', String b s' => if decide (a = b) then strip_prefix p' s' else None
  | _, EmptyString => None
  end.

(** The recursive descent.  Each call is on a strictly shorter text or passes
    from an element list to its element, so fuel [2 * length + 2] is enough. *)
Fixpoint parse_value (fuel : nat) (s : string) : option (json * string) :=
  match fuel with
  | O => None
  | S n =>
      match s with
      | EmptyString => None
      | String c s1 =>
          if decide (c = quote) then prod_map JStr id <$> parse_str s1
          else if decide (c = "{"%char) then
            match skip_ws s1 with
            | String d s2 =>
                if decide (d = "}"%char) then Some (JObj [], s2)
                else prod_map JObj id <$> parse_members n (String d s2)
            | EmptyString => None
            end
          else if decide (c = "["%char) then
            match skip_ws s1 with
            | String d s2 =>
                if decide (d = "]"%char) then Some (JArr [], s2)
                else prod_map JArr id <$> parse_elems n (String d s2)
            | EmptyString => None
            end
          else if decide (c = "n"%char) then (λ r, (JNull, r)) <$> strip_prefix "ull" s1
          else if decide (c = "t"%char) then (λ r, (JBool true, r)) <$> strip_prefix "rue" s1
          else if decide (c = "f"%char) then (λ r, (JBool false, r)) <$> strip_prefix "alse" s1
          else prod_map JNum id <$> parse_num s
      end
  end
with parse_members (fuel : nat) (s : string) : option (list (string * (string * json)) * string) :=
  match fuel with
  | O => None
  | S n =>
      match s with
      | String c s1 =>
          if decide (c = quote) then
            match parse_str s1 with
            | None => None
            | Some (k, s2) =>
                match skip_ws s2 with
                | String d s3 =>
                    if decide (d = ":"%char) then
                      let s4 := skip_ws s3 in
                      match parse_value n s4 with
                      | None => None
                      | Some (v, s5) =>
                          let m := (k, (consumed s4 s5, v)) in
                          match skip_ws s5 with
                          | String e s6 =>
                              if decide (e = ","%char) then
                                prod_map (cons m) id <$> parse_members n (skip_ws s6)
                              else if decide (e = "}"%char) then Some ([m], s6)
                              else None
                          | EmptyString => None
                          end
                      end
                    else None
                | EmptyString => None
                end
            end
          else None
      | EmptyString => None
      end
  end
with parse_elems (fuel : nat) (s : string) : option (list (string * json) * string) :=
  match fuel with
  | O => None
  | S n =>
      match parse_value n s with
      | None => None
      | Some (v, s1) =>
          let m := (consumed s s1, v) in
          match skip_ws s1 with
          | String e s2 =>
              if decide (e = ","%char) then prod_map (cons m) id <$> parse_elems n (skip_ws s2)
              else if decide (e = "]"%char) then Some ([m], s2)
              else None
          | EmptyString => None
          end
      end
  end.

(** The syntax check and parse of [json.Unmarshal]: one value, surrounded by
    white space, and nothing else. *)
Definition Unmarshal (s : string) : option json :=
  let s' := skip_ws s in
  match parse_value (2 * String.length s' + 2) s' with
  | Some (v, rest) => if decide (skip_ws rest = "") then Some v else None
  | None => None
  end.

(** [json.Compact] on valid input: white space outside strings is dropped. *)
Fixpoint compact (in_string : bool) (s : string) : string :=
  match s with
  | EmptyString => ""
  | String c s1 =>
      if in_string then
        if decide (c = bslash) then
          match s1 with
          | String d s2 => String c (String d (compact true s2))
          | EmptyString => String c ""
          end
        else String c (compact (negb (bool_decide (c = quote))) s1)
      else if is_space c then compact false s1
      else String c (compact (bool_decide (c = quote)) s1)
  end.
Definition Compact (s : string) : option string :=
  match Unmarshal s with Some _ => Some (compact false s) | None => None end.

(** ** Decoding into Go values *)

(** [equalFold] for a field name: ASCII case folding, and the Kelvin sign and
    the long s for [k] and [s]. *)
Definition lower (a : ascii) : ascii := if in_range 65 90 a then byte_of (code a + 32) else a.
Fixpoint fold_eq (s t : string) : bool :=
  match s, t with
  | EmptyString, EmptyString => true
  | String a s', String b t1 =>
      if (code b <? 128)%N then bool_decide (lower a = lower b) && fold_eq s' t1
      else if decide (lower a = "k"%char) then
        match t1 with
        | String b1 (String b2 t3) =>
            bool_decide (code b = 226%N ∧ code b1 = 132%N ∧ code b2 = 170%N) && fold_eq s' t3
        | _ => false
        end
      else if decide (lower a = "s"%char) then
        match t1 with
        | String b1 t2 => bool_decide (code b = 197%N ∧ code b1 = 191%N) && fold_eq s' t2
        | _ => false
        end
      else false
  | _, _ => false
  end.

(** The struct field a member's key selects. *)
Definition field_index (names : list string) (key : string) : option nat :=
  match list_find (λ n, n = key) names with
  | Some (i, _) => Some i
  | None => fst <$> list_find (λ n, Is_true (fold_eq n key)) names
  end.

(** A [string] destination: [null] leaves it, another type is an error. *)
Definition decode_string (old : string) (v : json) : option string :=
  match v with JStr s => Some s | JNull => Some old | _ => None end.

(** A struct whose fields are all strings, as the list of its fields. *)
Fixpoint decode_members (names vals : list string) (ms : list (string * (string * json)))
    : option (list string) :=
  match ms with
  | [] => Some vals
  | (k, (_, v)) :: ms' =>
      match field_index names k with
      | None => decode_members names vals ms'
      | Some i =>
          match decode_string (default "" (vals !! i)) v with
          | Some x => decode_members names (<[i := x]> vals) ms'
          | None => None
          end
      end
  end.
Definition decode_struct (names : list string) (v : json) : option (list string) :=
  let zero := replicate (length names) "" in
  match v with
  | JNull => Some zero
  | JObj ms => decode_members names zero ms
  | _ => None
  end.

(** The object [json.Marshal] and [Encoder.Encode] print for a struct of
    strings. *)
Fixpoint print_fields (html : bool) (fs : list (string * string)) : string :=
  match fs with
  | [] => ""
  | [(k, v)] => print_string html k +:+ ":" +:+ print_string html v
  | (k, v) :: fs' => print_string html k +:+ ":" +:+ print_string html v +:+ "," +:+ print_fields html fs'
  end.
Definition print_struct (html : bool) (fs : list (string * string)) : string :=
  "{" +:+ print_fields html fs +:+ "}".

(** ** Quoting and unquoting are inverse on valid UTF-8 *)
Fixpoint valid_utf8 (s : string) : bool :=
  match s with
  | EmptyString => true
  | String c s1 =>
      if (code c <? 128)%N then valid_utf8 s1
      else match utf8_len c s1 with
           | Some 2 => match s1 with String _ s2 => valid_utf8 s2 | _ => false end
           | Some 3 => match s1 with String _ (String _ s3) => valid_utf8 s3 | _ => false end
           | Some 4 => match s1 with String _ (String _ (String _ s4)) => valid_utf8 s4 | _ => false end
           | _ => false
           end
  end.

Lemma byte_of_code a : byte_of (code a) = a.
Proof. apply ascii_N_embedding. Qed.
Lemma code_byte_of n : (n < 256)%N → code (byte_of n) = n.
Proof. apply N_ascii_embedding. Qed.
Lemma code_eq_byte a n : code a = n → a = byte_of n.
Proof. intros <-. by rewrite byte_of_code. Qed.
Lemma code_bound a : (code a < 256)%N.
Proof. apply N_ascii_bounded. Qed.

Lemma hex_val_digit n : (n < 16)%N → hex_val (hex_digit n) = Some n.
Proof.
  intros Hn.
  assert (∃ m : nat, n = N.of_nat m ∧ m < 16) as (m & -> & Hm) by (exists (N.to_nat n); lia).
  do 16 (destruct m as [|m]; [vm_compute; reflexivity|]). lia.
Qed.

Lemma getu4_escape r :
  (r < 65536)%N →
  getu4 (hex_digit (r / 4096)) (hex_digit ((r / 256) mod 16)) (hex_digit ((r / 16) mod 16))
        (hex_digit (r mod 16)) = Some r.
Proof.
  intros Hr. unfold getu4.
  rewrite (hex_val_digit (r / 4096)) by (apply N.Div0.div_lt_upper_bound; lia).
  rewrite !hex_val_digit by (apply N.mod_lt; lia). simpl. f_equal.
  clear Hr. zify. Z.to_euclidean_division_equations. lia.
Qed.

Lemma parse_u_escape r t :
  (r < 65536)%N → is_surrogate r = false →
  parse_str (u_escape r +:+ t) = cons_res (encode_rune r) (parse_str t).
Proof.
  intros Hr Hs. unfold u_escape. rewrite !str_app_cons. change ("" +:+ t) with t.
  cbn [parse_str]. rewrite (decide_False (P := bslash = quote)) by done.
  rewrite !decide_True by done. by rewrite getu4_escape, Hs.
Qed.

Lemma parse_escape_byte html c t :
  (code c <? 128)%N = true →
  parse_str (escape_byte html c +:+ t) = cons_res (String c "") (parse_str t).
Proof.
  intros Hc%N.ltb_lt. unfold escape_byte.
  do 5 (case_decide; [by subst c|]).
  destruct (_ || _) eqn:Eesc.
  - rewrite parse_u_escape.
    + unfold encode_rune. destruct (N.leb_spec (code c) 127); [|lia]. by rewrite byte_of_code.
    + lia.
    + unfold is_surrogate. destruct (N.leb_spec 55296 (code c)); [lia|done].
  - apply orb_false_iff in Eesc as [E32 _]. rewrite str_app_cons. change ("" +:+ t) with t.
    cbn [parse_str]. rewrite !decide_False by done. rewrite E32.
    by destruct (N.ltb_spec (code c) 128); [|lia].
Qed.

Lemma utf8_len_2 c c1 s2 t :
  utf8_len c (String c1 s2) = Some 2 → utf8_len c (String c1 t) = Some 2.
Proof. simpl. repeat case_match; done. Qed.
Lemma utf8_len_3 c c1 c2 s3 t :
  utf8_len c (String c1 (String c2 s3)) = Some 3 → utf8_len c (String c1 (String c2 t)) = Some 3.
Proof. simpl. repeat case_match; done. Qed.
Lemma utf8_len_4 c c1 c2 c3 s4 t :
  utf8_len c (String c1 (String c2 (String c3 s4))) = Some 4 →
  utf8_len c (String c1 (String c2 (String c3 t))) = Some 4.
Proof. simpl. repeat case_match; done. Qed.

(** A byte from 0x80 up is no quote, backslash or control character. *)
Lemma parse_str_high c s :
  (code c <? 128)%N = false →
  parse_str (String c s) =
    match utf8_len c s with
    | Some 2 => match s with
                | String c1 s2 => cons_res (String c (String c1 "")) (parse_str s2)
                | _ => None
                end
    | Some 3 => match s with
                | String c1 (String c2 s3) =>
                    cons_res (String c (String c1 (String c2 ""))) (parse_str s3)
                | _ => None
                end
    | Some 4 => match s with
                | String c1 (String c2 (String c3 s4)) =>
                    cons_res (String c (String c1 (String c2 (String c3 "")))) (parse_str s4)
                | _ => None
                end
    | _ => cons_res rune_error (parse_str s)
    end.
Proof.
  intros Hc. cbn [parse_str]. rewrite Hc. apply N.ltb_ge in Hc.
  rewrite !decide_False by (intros ->; vm_compute in Hc; done).
  by destruct (N.ltb_spec (code c) 32); [lia|].
Qed.

Lemma parse_print_str html s t :
  valid_utf8 s = true → parse_str (print_str html s +:+ t) = Some (s, t).
Proof.
  remember (String.length s) as n eqn:Hn. revert s Hn.
  induction n as [n IH] using lt_wf_ind. intros s ->.
  destruct s as [|c s1]; [done|]. cbn [valid_utf8 print_str].
  destruct (code c <? 128)%N eqn:Hc.
  - intros Hv. rewrite <- str_app_assoc, parse_escape_byte by done.
    by rewrite (IH (String.length s1)) by (simpl; lia || done).
  - destruct (utf8_len c s1) as [[|[|[|[|[|?]]]]]|] eqn:Hl; try done;
      destruct s1 as [|c1 [|c2 s3]] eqn:?; try (done || by (simpl in Hl; repeat case_match)).
    all: intros Hv.
    + rewrite !str_app_cons, parse_str_high by done. by rewrite (utf8_len_2 _ _ _ _ Hl).
    + rewrite !str_app_cons, parse_str_high by done. rewrite (utf8_len_2 _ _ _ _ Hl).
      by rewrite (IH (String.length (String c2 s3))) by (simpl; lia || done).
    + rewrite <- str_app_assoc. case_decide as E; [|case_decide as E'].
      1-2: rewrite parse_u_escape by done;
        rewrite (IH (String.length s3)) by (simpl; lia || done);
        destruct_and!; by rewrite (code_eq_byte c 226), (code_eq_byte c1 128), (code_eq_byte c2 _ ltac:(eassumption)) by done.
      rewrite !str_app_cons, parse_str_high by done. rewrite (utf8_len_3 _ _ _ _ _ Hl).
      change ("" +:+ ?x) with x.
      by rewrite (IH (String.length s3)) by (simpl; lia || done).
    + destruct s3 as [|c3 s4]; [by (simpl in Hl; repeat case_match)|].
      rewrite !str_app_cons, parse_str_high by done. rewrite (utf8_len_4 _ _ _ _ _ _ Hl).
      by rewrite (IH (String.length s4)) by (simpl; lia || done).
Qed.

(** ** Printed values parse back *)
Lemma str_app_length s t : String.length (s +:+ t) = String.length s + String.length t.
Proof. induction s as [|a s IH]; [done|]. rewrite str_app_cons. simpl. by rewrite IH. Qed.

Lemma substring_app p r : String.substring 0 (String.length p) (p +:+ r) = p.
Proof.
  induction p as [|a p IH]; [by destruct r|]. rewrite str_app_cons. simpl. by rewrite IH.
Qed.

Lemma consumed_app p r : consumed (p +:+ r) r = p.
Proof.
  unfold consumed. rewrite str_app_length.
  replace (_ + _ - _) with (String.length p) by lia. apply substring_app.
Qed.

Lemma parse_value_string n html s t :
  valid_utf8 s = true → parse_value (S n) (print_string html s +:+ t) = Some (JStr s, t).
Proof.
  intros Hs. unfold print_string. rewrite str_app_cons. cbn [parse_value].
  rewrite decide_True by done. by rewrite parse_print_str.
Qed.

Definition printed_members (html : bool) (fs : list (string * string))
    : list (string * (string * json)) :=
  (λ '(k, v), (k, (print_string html v, JStr v))) <$> fs.
Definition fields_valid (fs : list (string * string)) : Prop :=
  Forall (λ '(k, v), valid_utf8 k = true ∧ valid_utf8 v = true) fs.

(** One printed member followed by [e], a comma or the closing brace. *)
Lemma parse_members_step n html k v e t :
  valid_utf8 k = true → valid_utf8 v = true → is_space e = false →
  parse_members (S (S n)) (print_string html k +:+ ":" +:+ print_string html v +:+ String e t) =
    let m := (k, (print_string html v, JStr v)) in
    if decide (e = ","%char) then prod_map (cons m) id <$> parse_members (S n) (skip_ws t)
    else if decide (e = "}"%char) then Some ([m], t) else None.
Proof.
  intros Hk Hv He.
  change (print_string html k) with (String quote (print_str html k)). rewrite str_app_cons.
  cbn [parse_members]. rewrite decide_True by done. rewrite parse_print_str by done.
  change (":" +:+ ?x) with (String ":"%char x). cbn [skip_ws].
  change (is_space ":") with false. cbn iota. rewrite (decide_True (P := ":"%char = ":"%char)) by done.
  change (skip_ws (print_string html v +:+ ?x)) with (print_string html v +:+ x).
  rewrite parse_value_string by done. rewrite consumed_app. cbn [skip_ws]. by rewrite He.
Qed.

Lemma parse_members_print n html fs t :
  fs ≠ [] → fields_valid fs → length fs < n →
  parse_members n (print_fields html fs +:+ "}" +:+ t) = Some (printed_members html fs, t).
Proof.
  intros Hne Hfs. revert n Hne. induction Hfs as [|[k v] fs [Hk Hv] Hfs IH]; intros n Hne Hn; [done|].
  simpl in Hn. destruct n as [|[|n]]; [lia..|]. destruct fs as [|f fs'].
  - cbn [print_fields]. rewrite <- !str_app_assoc. change ("}" +:+ t) with (String "}"%char t).
    by rewrite parse_members_step.
  - change (print_fields html ((k, v) :: f :: fs'))
      with (print_string html k +:+ ":" +:+ print_string html v +:+ "," +:+ print_fields html (f :: fs')).
    rewrite <- !str_app_assoc. change ("," +:+ ?x) with (String ","%char x).
    rewrite parse_members_step by done. cbn zeta. rewrite decide_True by done.
    assert (∀ x, skip_ws (print_fields html (f :: fs') +:+ x) = print_fields html (f :: fs') +:+ x) as ->.
    { intros x. destruct f as [k' v']. by destruct fs'. }
    rewrite IH by (done || simpl in *; lia). done.
Qed.

Lemma print_fields_length html fs : length fs ≤ String.length (print_fields html fs).
Proof.
  induction fs as [|[k v] [|f fs] IH]; [done|simpl; lia|].
  change (print_fields html ((k, v) :: f :: fs))
    with (print_string html k +:+ ":" +:+ print_string html v +:+ "," +:+ print_fields html (f :: fs)).
  rewrite !str_app_length. simpl length in *. simpl (String.length "," ). lia.
Qed.

(** White space after the value is allowed. *)
Lemma Unmarshal_print_struct_ws html fs t :
  fields_valid fs → skip_ws t = "" →
  Unmarshal (print_struct html fs +:+ t) = Some (JObj (printed_members html fs)).
Proof.
  intros Hfs Ht. unfold Unmarshal, print_struct. rewrite <- !str_app_assoc.
  change (skip_ws ("{" +:+ ?x)) with (String "{"%char x).
  match goal with |- context [2 * ?x + 2] => replace (2 * x + 2) with (S (S (2 * x))) by lia end.
  cbn [parse_value]. rewrite (decide_False (P := "{"%char = quote)) by done.
  rewrite decide_True by done. destruct fs as [|f fs].
  - change (skip_ws (print_fields html [] +:+ "}" +:+ t)) with (String "}"%char t).
    cbn iota. rewrite (decide_True (P := "}"%char = "}"%char)) by done. by rewrite decide_True.
  - assert (∃ x, print_fields html (f :: fs) +:+ "}" +:+ t = String quote x) as [x Hx].
    { destruct f as [k v]. destruct fs; eexists; reflexivity. }
    assert (∀ n, length (f :: fs) < n →
      parse_members n (String quote x) = Some (printed_members html (f :: fs), t)) as Hp.
    { intros n Hn. rewrite <- Hx. by apply parse_members_print. }
    pose proof (print_fields_length html (f :: fs)) as Hl.
    assert (length (f :: fs) < String.length (String quote x)) as Hl'.
    { rewrite <- Hx, !str_app_length. simpl (String.length "}"). lia. }
    rewrite Hx. change (skip_ws (String quote x)) with (String quote x). cbn iota.
    rewrite decide_False by done. rewrite Hp by (simpl in *; lia).
    cbn. by rewrite decide_True.
Qed.
Lemma Unmarshal_print_struct html fs :
  fields_valid fs → Unmarshal (print_struct html fs) = Some (JObj (printed_members html fs)).
Proof.
  intros Hfs. rewrite <- (str_app_nil_r (print_struct html fs)). by apply Unmarshal_print_struct_ws.
Qed.

Lemma Unmarshal_print_string_ws html s t :
  valid_utf8 s = true → skip_ws t = "" → Unmarshal (print_string html s +:+ t) = Some (JStr s).
Proof.
  intros Hs Ht. unfold Unmarshal.
  change (skip_ws (print_string html s +:+ t)) with (print_string html s +:+ t).
  match goal with |- context [2 * ?x + 2] => replace (2 * x + 2) with (S (2 * x + 1)) by lia end.
  rewrite parse_value_string by done. by rewrite decide_True.
Qed.
Lemma Unmarshal_print_string html s :
  valid_utf8 s = true → Unmarshal (print_string html s) = Some (JStr s).
Proof.
  intros Hs. rewrite <- (str_app_nil_r (print_string html s)). by apply Unmarshal_print_string_ws.
Qed.

(** ** encoding/base64, standard alphabet with padding *)
Definition b64_char (n : N) : ascii :=
  byte_of (if n <? 26 then 65 + n else if n <? 52 then 71 + n
           else if n <? 62 then n - 4 else if n =? 62 then 43 else 47)%N.
Definition b64_val (a : ascii) : option N :=
  if in_range 65 90 a then Some (code a - 65)%N
  else if in_range 97 122 a then Some (code a - 71)%N
  else if in_range 48 57 a then Some (code a + 4)%N
  else if decide (code a = 43%N) then Some 62%N
  else if decide (code a = 47%N) then Some 63%N
  else None.
Definition pad : ascii := "="%char.

Fixpoint b64_encode (s : string) : string :=
  match s with
  | EmptyString => ""
  | String a EmptyString =>
      String (b64_char (code a / 4)) (String (b64_char ((code a mod 4) * 16)) (String pad (String pad "")))
  | String a (String b EmptyString) =>
      String (b64_char (code a / 4)) (String (b64_char ((code a mod 4) * 16 + code b / 16))
        (String (b64_char ((code b mod 16) * 4)) (String pad "")))
  | String a (String b (String c s')) =>
      String (b64_char (code a / 4)) (String (b64_char ((code a mod 4) * 16 + code b / 16))
        (String (b64_char ((code b mod 16) * 4 + code c / 64)) (String (b64_char (code c mod 64))
          (b64_encode s'))))
  end.

(** [DecodeString] drops carriage returns and newlines first. *)
Fixpoint strip_newlines (s : string) : string :=
  match s with
  | EmptyString => ""
  | String c s' =>
      if decide (c = byte_of 10 ∨ c = byte_of 13) then strip_newlines s' else String c (strip_newlines s')
  end.
Fixpoint b64_quanta (s : string) : option string :=
  match s with
  | EmptyString => Some ""
  | String a (String b (String c (String d s'))) =>
      x ← b64_val a; y ← b64_val b;
      if decide (c = pad) then
        if decide (d = pad ∧ s' = "") then Some (String (byte_of (x * 4 + y / 16)) "") else None
      else
        z ← b64_val c;
        if decide (d = pad) then
          if decide (s' = "") then
            Some (String (byte_of (x * 4 + y / 16)) (String (byte_of ((y mod 16) * 16 + z / 4)) ""))
          else None
        else
          w ← b64_val d; t ← b64_quanta s';
          Some (String (byte_of (x * 4 + y / 16)) (String (byte_of ((y mod 16) * 16 + z / 4))
                  (String (byte_of ((z mod 4) * 64 + w)) t)))
  | _ => None
  end.
Definition b64_decode (s : string) : option string := b64_quanta (strip_newlines s).

(** A [[]byte] destination: base64 text, an array of bytes, or [null]. *)
Definition decode_uint8 (v : json) : option ascii :=
  match v with
  | JNull => Some (byte_of 0)
  | JNum lit =>
      d ← NilZero.uint_of_string lit;
      if (N.of_uint d <=? 255)%N then Some (byte_of (N.of_uint d)) else None
  | _ => None
  end.
Fixpoint decode_byte_elems (l : list (string * json)) : option string :=
  match l with
  | [] => Some ""
  | (_, v) :: l' => a ← decode_uint8 v; t ← decode_byte_elems l'; Some (String a t)
  end.
Definition decode_bytes (v : json) : option string :=
  match v with
  | JNull => Some ""
  | JStr s => b64_decode s
  | JArr l => decode_byte_elems l
  | _ => None
  end.

Lemma b64_val_char n : (n < 64)%N → b64_val (b64_char n) = Some n ∧
  b64_char n ≠ pad ∧ (b64_char n ≠ byte_of 10 ∧ b64_char n ≠ byte_of 13) ∧ (code (b64_char n) < 128)%N.
Proof.
  intros Hn.
  assert (∃ m : nat, n = N.of_nat m ∧ m < 64) as (m & -> & Hm) by (exists (N.to_nat n); lia).
  do 64 (destruct m as [|m]; [vm_compute; repeat split; done|]). lia.
Qed.

Lemma b64_char_val n : (n < 64)%N → b64_val (b64_char n) = Some n.
Proof. intros. by apply b64_val_char. Qed.
Lemma b64_char_pad n : (n < 64)%N → b64_char n ≠ pad.
Proof. intros. by apply b64_val_char. Qed.

(** The sextets of a byte triple are below 64, and determine the bytes. *)
Lemma sextets (a b c : ascii) :
  (code a / 4 < 64)%N ∧ ((code a mod 4) * 16 < 64)%N ∧ ((code a mod 4) * 16 + code b / 16 < 64)%N ∧
  ((code b mod 16) * 4 < 64)%N ∧ ((code b mod 16) * 4 + code c / 64 < 64)%N ∧ (code c mod 64 < 64)%N.
Proof.
  pose proof (code_bound a). pose proof (code_bound b). pose proof (code_bound c).
  repeat split; zify; Z.to_euclidean_division_equations; lia.
Qed.
Lemma sextets_inv (a b c : ascii) :
  byte_of (code a / 4 * 4 + ((code a mod 4) * 16) / 16) = a ∧
  byte_of (code a / 4 * 4 + ((code a mod 4) * 16 + code b / 16) / 16) = a ∧
  byte_of ((((code a mod 4) * 16 + code b / 16) mod 16) * 16 + ((code b mod 16) * 4) / 4) = b ∧
  byte_of ((((code a mod 4) * 16 + code b / 16) mod 16) * 16 + ((code b mod 16) * 4 + code c / 64) / 4) = b ∧
  byte_of ((((code b mod 16) * 4 + code c / 64) mod 4) * 64 + code c mod 64) = c.
Proof.
  pose proof (code_bound a). pose proof (code_bound b). pose proof (code_bound c).
  repeat split; match goal with |- byte_of ?n = ?x => replace n with (code x); [apply byte_of_code|] end;
    zify; Z.to_euclidean_division_equations; lia.
Qed.

(** Induction on a string three bytes at a time. *)
Lemma string_ind3 (P : string → Prop) :
  P "" → (∀ a, P (String a "")) → (∀ a b, P (String a (String b ""))) →
  (∀ a b c s, P s → P (String a (String b (String c s)))) → ∀ s, P s.
Proof.
  intros H0 H1 H2 H3. fix IH 1. intros [|a [|b [|c s]]]; [done|apply H1|apply H2|apply H3, IH].
Qed.

Lemma strip_cons c s : c ≠ byte_of 10 ∧ c ≠ byte_of 13 → strip_newlines (String c s) = String c (strip_newlines s).
Proof. intros. simpl. rewrite decide_False; [done|]. tauto. Qed.

Lemma strip_b64 s : strip_newlines (b64_encode s) = b64_encode s.
Proof.
  induction s as [|a|a b|a b c s IH] using string_ind3; [done|..]; cbn [b64_encode];
    rewrite !strip_cons by (apply b64_val_char; apply (sextets a a a) || apply (sextets a b b) || apply (sextets a b c)
                            || by vm_compute); [done..|].
  by rewrite IH.
Qed.

Lemma b64_roundtrip s : b64_decode (b64_encode s) = Some s.
Proof.
  unfold b64_decode. rewrite strip_b64.
  induction s as [|a|a b|a b c s IH] using string_ind3; [done|..]; cbn [b64_encode b64_quanta].
  - destruct (sextets a a a) as (H1 & H2 & _). destruct (sextets_inv a a a) as (E & _).
    rewrite !b64_char_val by done. simpl.
    by rewrite E.
  - destruct (sextets a b b) as (H1 & _ & H2 & H3 & _). destruct (sextets_inv a b b) as (_ & E1 & E2 & _).
    rewrite !b64_char_val by done. simpl.
    rewrite decide_False by (by apply b64_char_pad). simpl. by rewrite E1, E2.
  - destruct (sextets a b c) as (H1 & _ & H2 & _ & H3 & H4). destruct (sextets_inv a b c) as (_ & E1 & _ & E2 & E3).
    rewrite !b64_char_val by done. simpl.
    rewrite !decide_False by (by apply b64_char_pad). rewrite IH. simpl. by rewrite E1, E2, E3.
Qed.

Lemma b64_valid_utf8 s : valid_utf8 (b64_encode s) = true.
Proof.
  assert (∀ n t, (n < 64)%N → valid_utf8 t = true → valid_utf8 (String (b64_char n) t) = true) as Hc.
  { intros n t Hn Ht. destruct (b64_val_char n Hn) as (_ & _ & _ & Hlt). cbn [valid_utf8].
    by rewrite (proj2 (N.ltb_lt _ _) Hlt). }
  induction s as [|a|a b|a b c s IH] using string_ind3; [done|..]; cbn [b64_encode];
    repeat (apply Hc; [apply (sextets a a a) || apply (sextets a b b) || apply (sextets a b c)|]); done.
Qed.
