(* ===== verification/JsonCompact.v ===== *)
(** * json.Compact leaves printed values alone

    [encoding/json] prints without white space outside strings, so compacting
    what it printed is the identity: the step [jsonMarshal] takes after
    encoding does not change the value. *)
From S2P Require Import Prelude Json.
From stdpp Require Import options.

(** ** Compacting printed values changes nothing *)
Lemma compact_u_escape r t :
  (r < 65536)%N → compact true (u_escape r +:+ t) = u_escape r +:+ compact true t.
Proof.
  intros Hr. unfold u_escape. rewrite !str_app_cons. change ("" +:+ ?x) with x.
  assert (∀ n s, (n < 16)%N → compact true (String (hex_digit n) s) = String (hex_digit n) (compact true s)) as Hd.
  { intros n s Hn. assert (∃ m : nat, n = N.of_nat m ∧ m < 16) as (m & -> & Hm) by (exists (N.to_nat n); lia).
    do 16 (destruct m as [|m]; [reflexivity|]). lia. }
  assert (∀ s, compact true (String bslash (String "u" s)) = String bslash (String "u" (compact true s))) as ->
    by reflexivity.
  rewrite !Hd by (first [apply N.mod_lt; lia | apply N.Div0.div_lt_upper_bound; lia]). done.
Qed.

Lemma compact_escape_byte html c t :
  (code c <? 128)%N = true →
  compact true (escape_byte html c +:+ t) = escape_byte html c +:+ compact true t.
Proof.
  intros Hc%N.ltb_lt. unfold escape_byte.
  do 5 (case_decide; [by subst c|]).
  case_match; [apply compact_u_escape; lia|].
  rewrite !str_app_cons. change ("" +:+ ?x) with x. cbn [compact].
  rewrite decide_False by done. by rewrite bool_decide_eq_false_2.
Qed.

Lemma compact_high c t :
  (code c <? 128)%N = false → compact true (String c t) = String c (compact true t).
Proof.
  intros Hc%N.ltb_ge. cbn [compact].
  rewrite decide_False by (intros ->; vm_compute in Hc; done).
  by rewrite bool_decide_eq_false_2 by (intros ->; vm_compute in Hc; done).
Qed.

Lemma is_cont_high c : is_cont c = true → (code c <? 128)%N = false.
Proof. unfold is_cont, in_range. rewrite andb_true_iff, !N.leb_le, N.ltb_ge. lia. Qed.

(** The bytes after the first of a multi-byte rune are from 0x80 up. *)
Lemma utf8_len_cont c s n :
  utf8_len c s = Some n →
  match n, s with
  | 2, String c1 _ => is_cont c1 = true
  | 3, String c1 (String c2 _) => is_cont c1 = true ∧ is_cont c2 = true
  | 4, String c1 (String c2 (String c3 _)) => is_cont c1 = true ∧ is_cont c2 = true ∧ is_cont c3 = true
  | _, _ => False
  end.
Proof.
  destruct s as [|c1 s]; [done|]. simpl.
  assert (∀ lo hi a, (128 <= lo)%N → (hi <= 191)%N → in_range lo hi a = true → is_cont a = true) as Hr.
  { unfold is_cont, in_range. intros lo hi a ??. rewrite !andb_true_iff, !N.leb_le. lia. }
  intros H. repeat (case_match; simplify_eq; try done); destruct_and?; rewrite ?andb_true_iff in *;
    destruct_and?; repeat split; try done;
    first [by apply (Hr 160 191)%N | by apply (Hr 128 159)%N | by apply (Hr 144 191)%N | by apply (Hr 128 143)%N].
Qed.

Lemma compact_print_str html s t :
  compact true (print_str html s +:+ t) = print_str html s +:+ compact false t.
Proof.
  remember (String.length s) as n eqn:Hn. revert s Hn.
  induction n as [n IH] using lt_wf_ind. intros s ->.
  destruct s as [|c s1]; [done|]. cbn [print_str].
  destruct (code c <? 128)%N eqn:Hc.
  - rewrite <- !str_app_assoc, compact_escape_byte by done.
    by rewrite (IH (String.length s1)) by (simpl; lia || done).
  - destruct (utf8_len c s1) as [k|] eqn:Hl.
    2:{ rewrite <- !str_app_assoc, compact_u_escape by done.
        by rewrite (IH (String.length s1)) by (simpl; lia || done). }
    pose proof (utf8_len_cont _ _ _ Hl) as Hcont.
    destruct k as [|[|[|[|[|?]]]]]; try done.
    + destruct s1 as [|c1 s2]; [done|]. rewrite !str_app_cons.
      rewrite !compact_high by eauto using is_cont_high.
      by rewrite (IH (String.length s2)) by (simpl; lia || done).
    + destruct s1 as [|c1 [|c2 s3]]; try done. destruct Hcont. rewrite <- !str_app_assoc.
      case_decide; [|case_decide].
      1-2: rewrite compact_u_escape by done; by rewrite (IH (String.length s3)) by (simpl; lia || done).
      rewrite !str_app_cons. change ("" +:+ ?x) with x.
      rewrite !compact_high by eauto using is_cont_high.
      by rewrite (IH (String.length s3)) by (simpl; lia || done).
    + destruct s1 as [|c1 [|c2 [|c3 s4]]]; try done. destruct_and!. rewrite !str_app_cons.
      rewrite !compact_high by eauto using is_cont_high.
      by rewrite (IH (String.length s4)) by (simpl; lia || done).
Qed.

Lemma compact_print_string html s t :
  compact false (print_string html s +:+ t) = print_string html s +:+ compact false t.
Proof.
  unfold print_string. rewrite !str_app_cons. cbn [compact].
  change (is_space quote) with false. cbn iota.
  rewrite bool_decide_eq_true_2 by done. by rewrite compact_print_str.
Qed.

Lemma compact_print_fields html fs t :
  compact false (print_fields html fs +:+ t) = print_fields html fs +:+ compact false t.
Proof.
  induction fs as [|[k v] fs IH]; [done|]. destruct fs as [|f fs'].
  - cbn [print_fields]. rewrite <- !str_app_assoc, compact_print_string.
    change (compact false (":" +:+ ?x)) with (":" +:+ compact false x). by rewrite compact_print_string.
  - change (print_fields html ((k, v) :: f :: fs'))
      with (print_string html k +:+ ":" +:+ print_string html v +:+ "," +:+ print_fields html (f :: fs')).
    rewrite <- !str_app_assoc, compact_print_string.
    change (compact false (":" +:+ ?x)) with (":" +:+ compact false x). rewrite compact_print_string.
    change (compact false ("," +:+ ?x)) with ("," +:+ compact false x). by rewrite IH.
Qed.

Lemma compact_print_struct html fs t :
  compact false (print_struct html fs +:+ t) = print_struct html fs +:+ compact false t.
Proof.
  unfold print_struct. rewrite <- !str_app_assoc.
  change (compact false ("{" +:+ ?x)) with ("{" +:+ compact false x). by rewrite compact_print_fields.
Qed.

(** What [Encoder.Encode] adds after a value. *)
Definition newline : string := String (byte_of 10) "".

Lemma Compact_struct_newline html fs :
  fields_valid fs → Compact (print_struct html fs +:+ newline) = Some (print_struct html fs).
Proof.
  intros Hfs. unfold Compact. rewrite Unmarshal_print_struct_ws by done.
  by rewrite compact_print_struct, str_app_nil_r.
Qed.
Lemma Compact_string_newline html s :
  valid_utf8 s = true → Compact (print_string html s +:+ newline) = Some (print_string html s).
Proof.
  intros Hs. unfold Compact. rewrite Unmarshal_print_string_ws by done.
  by rewrite compact_print_string, str_app_nil_r.
Qed.
Lemma Compact_struct html fs :
  fields_valid fs → Compact (print_struct html fs) = Some (print_struct html fs).
Proof.
  intros Hfs. unfold Compact. rewrite Unmarshal_print_struct by done.
  pose proof (compact_print_struct html fs "") as E. rewrite !str_app_nil_r in E. by rewrite E.
Qed.

(** ** Compacting valid JSON

    [closed p]: reading [p] from outside a string ends outside a string. *)
Definition closed (p : string) : Prop := ∀ t, compact false (p +:+ t) = compact false p +:+ compact false t.
Definition scans (s rest : string) : Prop := ∃ p, s = p +:+ rest ∧ closed p.
(** The same from inside a string to after its closing quote. *)
Definition scans_str (s rest : string) : Prop :=
  ∃ p, s = p +:+ rest ∧ ∀ t, compact true (p +:+ t) = compact true p +:+ compact false t.

Lemma scans_refl s : scans s s.
Proof. exists "". done. Qed.
Lemma scans_trans s t u : scans s t → scans t u → scans s u.
Proof.
  intros (p & -> & Hp) (q & -> & Hq). exists (p +:+ q). split; [apply str_app_assoc|].
  intros x. rewrite <- !str_app_assoc, !Hp, Hq. by rewrite str_app_assoc.
Qed.
Lemma scans_char c s : c ≠ quote → scans (String c s) s.
Proof.
  intros Hc. exists (String c ""). split; [done|]. intros t. rewrite str_app_cons. cbn [compact].
  destruct (is_space c); [done|]. by rewrite bool_decide_eq_false_2.
Qed.
Lemma scans_quote s rest : scans_str s rest → scans (String quote s) rest.
Proof.
  intros (p & -> & Hp). exists (String quote p). split; [done|]. intros t. rewrite str_app_cons.
  cbn [compact]. change (is_space quote) with false. cbn iota. rewrite bool_decide_eq_true_2 by done.
  by rewrite Hp.
Qed.
Lemma scans_str_char c s rest : c ≠ quote → c ≠ bslash → scans_str s rest → scans_str (String c s) rest.
Proof.
  intros Hq Hb (p & -> & Hp). exists (String c p). split; [done|]. intros t. rewrite str_app_cons.
  cbn [compact]. rewrite !decide_False by done. rewrite bool_decide_eq_false_2 by done. cbn [negb].
  by rewrite Hp.
Qed.
Lemma scans_str_escape c s rest : scans_str s rest → scans_str (String bslash (String c s)) rest.
Proof.
  intros (p & -> & Hp). exists (String bslash (String c p)). split; [done|]. intros t.
  rewrite !str_app_cons. cbn [compact]. rewrite !decide_True by done. by rewrite Hp.
Qed.
Lemma scans_str_end s : scans_str (String quote s) s.
Proof. exists (String quote ""). split; [done|]. intros t. reflexivity. Qed.

Lemma hex_val_plain a : is_Some (hex_val a) → a ≠ quote ∧ a ≠ bslash.
Proof. intros Ha. split; intros ->; vm_compute in Ha; by destruct Ha. Qed.
Lemma is_cont_plain a : is_cont a = true → a ≠ quote ∧ a ≠ bslash.
Proof. intros Ha. split; intros ->; by vm_compute in Ha. Qed.
Lemma high_plain a : (code a <? 128)%N = false → a ≠ quote ∧ a ≠ bslash.
Proof. intros Ha. split; intros ->; by vm_compute in Ha. Qed.

Lemma scans_str_hex a b c d r s rest :
  getu4 a b c d = Some r → scans_str s rest →
  scans_str (String bslash (String "u" (String a (String b (String c (String d s)))))) rest.
Proof.
  unfold getu4. intros Hg Hs. apply scans_str_escape.
  destruct (hex_val a) eqn:Ea, (hex_val b) eqn:Eb, (hex_val c) eqn:Ec, (hex_val d) eqn:Ed; try done.
  repeat (apply scans_str_char; [apply hex_val_plain; by eexists..|]). done.
Qed.

Lemma cons_res_Some p o x rest : cons_res p o = Some (x, rest) → ∃ y, o = Some (y, rest).
Proof. destruct o as [[y r]|]; simpl; [|done]. intros [= _ <-]. by exists y. Qed.

Lemma parse_str_scans s x rest : parse_str s = Some (x, rest) → scans_str s rest.
Proof.
  remember (String.length s) as n eqn:Hn. revert s x rest Hn.
  induction n as [n IH] using lt_wf_ind. intros s x rest ->.
  assert (∀ s' p x, String.length s' < String.length s →
            cons_res p (parse_str s') = Some (x, rest) → scans_str s' rest) as IH'.
  { intros s' p y Hl (z & Hz)%cons_res_Some. by eapply IH. }
  clear IH. destruct s as [|c s1]; [done|]. cbn [parse_str].
  case_decide as Hq; [subst c; intros [= _ <-]; apply scans_str_end|].
  case_decide as Hb.
  - subst c. destruct s1 as [|e s2]; [done|]. case_decide as He.
    + subst e. destruct s2 as [|h1 [|h2 [|h3 [|h4 s3]]]]; try done.
      destruct (getu4 h1 h2 h3 h4) as [r|] eqn:Hg; [|done].
      assert (∀ p, cons_res p (parse_str s3) = Some (x, rest) →
                scans_str (String bslash (String "u" (String h1 (String h2 (String h3 (String h4 s3)))))) rest) as Hs3.
      { intros p Hp. eapply scans_str_hex; [done|]. eapply IH'; [|exact Hp]. simpl; lia. }
      destruct (is_surrogate r); [|by apply Hs3].
      destruct s3 as [|b1 [|u1 [|k1 [|k2 [|k3 [|k4 s4]]]]]]; try by apply Hs3.
      case_decide as Hb1; [|by apply Hs3]. case_decide as Hu1; [|by apply Hs3]. subst b1 u1.
      destruct (getu4 k1 k2 k3 k4) as [r2|] eqn:Hg2; [|by apply Hs3]. cbn [mbind option_bind].
      destruct (utf16_decode r r2); [|by apply Hs3]. intros Hp.
      eapply scans_str_hex; [done|]. eapply scans_str_hex; [done|]. eapply IH'; [|exact Hp]. simpl; lia.
    + destruct (simple_escape e); [|done]. intros Hp. apply scans_str_escape.
      eapply IH'; [|exact Hp]. simpl; lia.
  - destruct (code c <? 32)%N; [done|]. destruct (code c <? 128)%N eqn:Hc.
    { intros Hp. apply scans_str_char; [done..|]. eapply IH'; [|exact Hp]. simpl; lia. }
    assert (∀ p, cons_res p (parse_str s1) = Some (x, rest) → scans_str (String c s1) rest) as Hs1.
    { intros p Hp. apply scans_str_char; [done..|]. eapply IH'; [|exact Hp]. simpl; lia. }
    destruct (utf8_len c s1) as [k|] eqn:Hl; [|apply Hs1].
    pose proof (utf8_len_cont _ _ _ Hl) as Hcont.
    destruct k as [|[|[|[|[|?]]]]]; try done; destruct s1 as [|c1 s2]; try done;
      [|destruct s2 as [|c2 s3]; try done|destruct s2 as [|c2 [|c3 s4]]; try done];
      intros Hp; destruct_and?; repeat (apply scans_str_char; [done || by apply is_cont_plain..|]);
      eapply IH'; [|exact Hp| |exact Hp| |exact Hp]; simpl; lia.
Qed.

Lemma skip_ws_scans s : scans s (skip_ws s).
Proof.
  induction s as [|c s IH]; [apply scans_refl|]. simpl. destruct (is_space c) eqn:Hc; [|apply scans_refl].
  eapply scans_trans; [apply scans_char|done]. by intros ->.
Qed.
Lemma skip_ws_scans' s t : skip_ws s = t → scans s t.
Proof. intros <-. apply skip_ws_scans. Qed.

(** Numbers and literals contain no quote. *)
Lemma skip_digits_scans s : scans s (skip_digits s).
Proof.
  induction s as [|c s IH]; [apply scans_refl|]. simpl. destruct (is_digit c) eqn:Hc; [|apply scans_refl].
  eapply scans_trans; [apply scans_char|done]. by intros ->.
Qed.
Lemma digits1_scans s r : digits1 s = Some r → scans s r.
Proof.
  destruct s as [|c s]; simpl; [done|]. destruct (is_digit c) eqn:Hc; [|done]. intros [= <-].
  eapply scans_trans; [apply scans_char|apply skip_digits_scans]. by intros ->.
Qed.
Lemma parse_num_scans s x r : parse_num s = Some (x, r) → scans s r.
Proof.
  unfold parse_num. set (s0 := match s with EmptyString => s | String c s' => _ end).
  assert (scans s s0) as H0.
  { subst s0. destruct s as [|c s']; [apply scans_refl|]. case_decide; [|apply scans_refl].
    subst. by apply scans_char. }
  destruct (num_int s0) as [s1|] eqn:E1; [|done]. cbn [mbind option_bind].
  destruct (num_frac s1) as [s2|] eqn:E2; [|done]. cbn [mbind option_bind].
  destruct (num_exp s2) as [s3|] eqn:E3; [|done]. cbn [mbind option_bind]. intros [= _ <-].
  eapply scans_trans; [exact H0|]. eapply scans_trans; [|eapply scans_trans].
  - instantiate (1 := s1). destruct s0 as [|c s']; [done|]. simpl in E1. case_decide as Hc.
    + injection E1 as <-. subst. by apply scans_char.
    + by apply (digits1_scans (String c s')).
  - instantiate (1 := s2). destruct s1 as [|c s']; simpl in E2; [injection E2 as <-; apply scans_refl|].
    case_decide as Hc; [|injection E2 as <-; apply scans_refl]. subst.
    eapply scans_trans; [by apply scans_char|by apply digits1_scans].
  - destruct s2 as [|c s']; simpl in E3; [injection E3 as <-; apply scans_refl|].
    case_decide as Hc; [|injection E3 as <-; apply scans_refl].
    eapply scans_trans; [apply scans_char; by destruct Hc; subst|].
    destruct s' as [|d s'']; [done|]. case_decide as Hd; [|by apply (digits1_scans (String d s''))].
    eapply scans_trans; [apply scans_char; by destruct Hd; subst|by apply digits1_scans].
Qed.
Lemma strip_prefix_scans p s r : str_free quote p → strip_prefix p s = Some r → scans s r.
Proof.
  revert s. induction p as [|a p IH]; intros s Hp; simpl; [intros [= <-]; apply scans_refl|].
  destruct s as [|b s]; [done|]. apply str_free_cons in Hp as [Ha Hp]. case_decide; [subst|done].
  intros Hs. eapply scans_trans; [by apply scans_char|by apply IH].
Qed.

Lemma parse_scans n :
  (∀ s v r, parse_value n s = Some (v, r) → scans s r) ∧
  (∀ s v r, parse_members n s = Some (v, r) → scans s r) ∧
  (∀ s v r, parse_elems n s = Some (v, r) → scans s r).
Proof.
  induction n as [|n (IHv & IHm & IHe)]; [done|].
  assert (∀ {A B} (f : A → B) (o : option (A * string)) v r, prod_map f id <$> o = Some (v, r) → ∃ w, o = Some (w, r)) as Hinv.
  { intros A B f [[w q]|] v r; simpl; [|done]. intros [= _ <-]. by exists w. }
  assert (∀ {A} (a : A) o (v : A) r, (λ r : string, (a, r)) <$> o = Some (v, r) → o = Some r) as Hlit.
  { intros A a [q|] v r; simpl; [|done]. by intros [= _ <-]. }
  split_and!.
  - intros s v r. cbn [parse_value]. destruct s as [|c s1]; [done|].
    case_decide as Hq; [subst; intros (w & Hw)%Hinv; by eapply scans_quote, parse_str_scans|].
    assert (scans (String c s1) s1) as Hc by by apply scans_char.
    case_decide as Ho; [|case_decide as Ha; [|repeat case_decide]].
    + destruct (skip_ws s1) as [|d s2] eqn:Hs; [done|]. apply skip_ws_scans' in Hs.
      case_decide as Hd; [intros [= _ <-]; subst d|intros (w & Hw)%Hinv; apply IHm in Hw];
        eapply scans_trans; [exact Hc| |exact Hc|]; (eapply scans_trans; [exact Hs|]); [by apply scans_char|done].
    + destruct (skip_ws s1) as [|d s2] eqn:Hs; [done|]. apply skip_ws_scans' in Hs.
      case_decide as Hd; [intros [= _ <-]; subst d|intros (w & Hw)%Hinv; apply IHe in Hw];
        eapply scans_trans; [exact Hc| |exact Hc|]; (eapply scans_trans; [exact Hs|]); [by apply scans_char|done].
    + intros Hs%Hlit%strip_prefix_scans; [|done]. by eapply scans_trans.
    + intros Hs%Hlit%strip_prefix_scans; [|done]. by eapply scans_trans.
    + intros Hs%Hlit%strip_prefix_scans; [|done]. by eapply scans_trans.
    + intros (w & Hw)%Hinv. by eapply parse_num_scans.
  - intros s v r. cbn [parse_members]. destruct s as [|c s1]; [done|].
    case_decide as Hq; [subst c|done]. destruct (parse_str s1) as [[k s2]|] eqn:Hk; [|done].
    apply parse_str_scans, scans_quote in Hk.
    destruct (skip_ws s2) as [|d s3] eqn:Hs2; [done|]. apply skip_ws_scans' in Hs2.
    case_decide as Hd; [subst d|done]. cbn zeta. pose proof (skip_ws_scans s3) as Hs3.
    destruct (parse_value n (skip_ws s3)) as [[w s5]|] eqn:Hv; [|done]. apply IHv in Hv.
    assert (scans (String quote s1) s5) as H5.
    { eapply scans_trans; [exact Hk|]. eapply scans_trans; [exact Hs2|].
      eapply scans_trans; [by apply scans_char|]. by eapply scans_trans. }
    destruct (skip_ws s5) as [|e s6] eqn:Hs5; [done|]. apply skip_ws_scans' in Hs5.
    case_decide as He1; [|case_decide as He2; [|done]].
    + intros (ms & Hm)%Hinv. apply IHm in Hm. pose proof (skip_ws_scans s6).
      eapply scans_trans; [exact H5|]. eapply scans_trans; [exact Hs5|]. subst e.
      eapply scans_trans; [by apply scans_char|]. by eapply scans_trans.
    + intros [= _ <-]. subst e. eapply scans_trans; [exact H5|].
      eapply scans_trans; [exact Hs5|by apply scans_char].
  - intros s v r. cbn [parse_elems]. destruct (parse_value n s) as [[w s1]|] eqn:Hv; [|done]. apply IHv in Hv.
    cbn zeta. destruct (skip_ws s1) as [|e s2] eqn:Hs1; [done|]. apply skip_ws_scans' in Hs1.
    case_decide as He1; [|case_decide as He2; [|done]].
    + intros (ms & Hm)%Hinv. apply IHe in Hm. pose proof (skip_ws_scans s2).
      eapply scans_trans; [exact Hv|]. eapply scans_trans; [exact Hs1|]. subst e.
      eapply scans_trans; [by apply scans_char|]. by eapply scans_trans.
    + intros [= _ <-]. subst e. eapply scans_trans; [exact Hv|].
      eapply scans_trans; [exact Hs1|by apply scans_char].
Qed.

Lemma Unmarshal_closed s v : Unmarshal s = Some v → closed s.
Proof.
  unfold Unmarshal. destruct (parse_value _ _) as [[w rest]|] eqn:E; [|done]. case_decide as Hr; [|done]. intros _.
  apply parse_scans in E. assert (scans s "") as (p & -> & Hp).
  { eapply scans_trans; [apply skip_ws_scans|]. eapply scans_trans; [exact E|]. rewrite <- Hr. apply skip_ws_scans. }
  by rewrite str_app_nil_r.
Qed.

(** What ends outside a string still does after compaction. *)
Lemma compact_closed b s :
  (∀ t, compact b (s +:+ t) = compact b s +:+ compact false t) →
  ∀ t, compact b (compact b s +:+ t) = compact b s +:+ compact false t.
Proof.
  remember (String.length s) as n eqn:Hn. revert b s Hn.
  induction n as [n IH] using lt_wf_ind. intros b s -> Hs. destruct s as [|c s1].
  { destruct b; [|done]. specialize (Hs " "). done. }
  assert (∀ b' s' (g : string → string), String.length s' < String.length (String c s1) →
    (∀ x y z, g x = g y +:+ z ↔ x = y +:+ z) →
    (∀ t, g (compact b' (s' +:+ t)) = g (compact b' s') +:+ compact false t) →
    ∀ t, g (compact b' (compact b' s' +:+ t)) = g (compact b' s') +:+ compact false t) as IH'.
  { intros b' s' g Hl Hg Hc t. apply Hg. eapply IH; [exact Hl|done|]. intros u. apply Hg, Hc. }
  assert (∀ d x y z, String d x = String d y +:+ z ↔ x = y +:+ z) as Hg1.
  { intros. rewrite str_app_cons. split; [by intros [=]|by intros ->]. }
  intros t. destruct b.
  - destruct (decide (c = bslash)) as [->|Hb].
    + destruct s1 as [|d s2]; [by specialize (Hs " ")|].
      apply (IH' true s2 (λ x, String bslash (String d x))); [simpl; lia| |exact Hs].
      intros. rewrite Hg1. apply Hg1.
    + set (b' := negb (bool_decide (c = quote))).
      assert (∀ x, compact true (String c x) = String c (compact b' x)) as Hstep.
      { intros x. cbn [compact]. by rewrite decide_False. }
      rewrite Hstep, str_app_cons, Hstep. apply (IH' b' s1 (String c)); [simpl; lia|apply Hg1|].
      intros u. specialize (Hs u). by rewrite str_app_cons, !Hstep in Hs.
  - destruct (is_space c) eqn:Hsp.
    + assert (∀ x, compact false (String c x) = compact false x) as Hstep by (intros x; cbn [compact]; by rewrite Hsp).
      rewrite Hstep. apply (IH' false s1 id); [simpl; lia|done|].
      intros u. specialize (Hs u). by rewrite str_app_cons, !Hstep in Hs.
    + assert (∀ x, compact false (String c x) = String c (compact (bool_decide (c = quote)) x)) as Hstep
        by (intros x; cbn [compact]; by rewrite Hsp).
      rewrite Hstep, str_app_cons, Hstep. apply (IH' _ s1 (String c)); [simpl; lia|apply Hg1|].
      intros u. specialize (Hs u). by rewrite str_app_cons, !Hstep in Hs.
Qed.

(** [json.Compact] is idempotent, also with the encoder's newline in between. *)
Lemma Compact_again s d e : Compact s = Some d → Compact d = Some e → e = d.
Proof.
  unfold Compact. destruct (Unmarshal s) eqn:E; [|done]. intros [= <-].
  destruct (Unmarshal (compact false s)); [|done]. intros [= <-].
  pose proof (compact_closed false s (Unmarshal_closed _ _ E) "") as Hc. by rewrite !str_app_nil_r in Hc.
Qed.
Lemma Compact_newline s d e : Compact s = Some d → Compact (d +:+ newline) = Some e → e = d.
Proof.
  unfold Compact. destruct (Unmarshal s) eqn:E; [|done]. intros [= <-].
  destruct (Unmarshal (compact false s +:+ newline)); [|done]. intros [= <-].
  rewrite (compact_closed false s (Unmarshal_closed _ _ E)). apply str_app_nil_r.
Qed.
