(* ===== verification/JsonStream.v ===== *)
(** * Streams of JSON values

    What the parser accepts does not depend on the text that follows: a value
    other than a number, followed by more text, is parsed as before and the text
    is left over.  This is what lets a decoder split concatenated values. *)
From S2P Require Import Prelude Json JsonCompact.
From stdpp Require Import options.

(** ** Strings *)
(** The second half of a surrogate pair, and what follows it. *)
Definition pair_of (r : N) (s : string) : option (N * string) :=
  match s with
  | String b1 (String u1 (String k1 (String k2 (String k3 (String k4 s4))))) =>
      match (if decide (b1 = bslash) then
               if decide (u1 = "u"%char) then getu4 k1 k2 k3 k4 ≫= utf16_decode r else None
             else None) with
      | Some dec => Some (dec, s4)
      | None => None
      end
  | _ => None
  end.
Lemma parse_str_u h1 h2 h3 h4 s3 :
  parse_str (String bslash (String "u" (String h1 (String h2 (String h3 (String h4 s3)))))) =
  match getu4 h1 h2 h3 h4 with
  | None => None
  | Some r =>
      if is_surrogate r then
        match pair_of r s3 with
        | Some (dec, s4) => cons_res (encode_rune dec) (parse_str s4)
        | None => cons_res rune_error (parse_str s3)
        end
      else cons_res (encode_rune r) (parse_str s3)
  end.
Proof.
  cbn [parse_str]. rewrite (decide_False (P := bslash = quote)) by done. rewrite !decide_True by done.
  destruct (getu4 h1 h2 h3 h4) as [r|]; [|done]. destruct (is_surrogate r); [|done].
  destruct s3 as [|b1 [|u1 [|k1 [|k2 [|k3 [|k4 s4]]]]]]; try done. simpl pair_of.
  by repeat case_match.
Qed.
Lemma parse_str_bs_u s x : parse_str (String bslash (String "u" s)) = Some x → 4 ≤ String.length s.
Proof.
  cbn [parse_str]. rewrite (decide_False (P := bslash = quote)) by done. rewrite !decide_True by done.
  destruct s as [|h1 [|h2 [|h3 [|h4 s3]]]]; try done. simpl. lia.
Qed.
Lemma pair_of_ext r s t x :
  parse_str s = Some x → pair_of r (s +:+ t) = (λ y, (y.1, y.2 +:+ t)) <$> pair_of r s.
Proof.
  intros Hs. destruct s as [|b1 s]; [done|].
  destruct (decide (b1 = bslash)) as [->|Hb].
  2:{ assert (∀ s', pair_of r (String b1 s') = None) as E.
      { intros s'. destruct s' as [|? [|? [|? [|? [|? ?]]]]]; try done. simpl. by rewrite decide_False. }
      change (String b1 s +:+ t) with (String b1 (s +:+ t)). by rewrite !E. }
  destruct s as [|u1 s]; [done|]. destruct (decide (u1 = "u"%char)) as [->|Hu].
  - apply parse_str_bs_u in Hs. destruct s as [|k1 [|k2 [|k3 [|k4 s4]]]]; simpl in Hs; try lia.
    rewrite !str_app_cons. simpl pair_of. by repeat case_match.
  - assert (∀ s', pair_of r (String bslash (String u1 s')) = None) as E.
    { intros s'. destruct s' as [|? [|? [|? [|? ?]]]]; try done. simpl. by rewrite (decide_False (P := u1 = _)). }
    rewrite !str_app_cons. by rewrite !E.
Qed.

Lemma utf8_len_ext c s t k : utf8_len c s = Some k → utf8_len c (s +:+ t) = Some k.
Proof.
  destruct s as [|c1 [|c2 [|c3 s]]]; [done|..]; rewrite ?str_app_cons; unfold utf8_len;
    destruct (in_range 194 223 c), (in_range 224 239 c), (in_range 240 244 c); try done.
Qed.
Lemma quote_not_cont : is_cont quote = false ∧ in_range 160 191 quote = false ∧ in_range 128 159 quote = false ∧
  in_range 144 191 quote = false ∧ in_range 128 143 quote = false.
Proof. done. Qed.
Lemma parse_str_short1 c1 x : parse_str (String c1 "") = Some x → c1 = quote.
Proof.
  cbn [parse_str]. case_decide; [done|]. case_decide; [done|]. destruct (code c1 <? 32)%N; [done|].
  destruct (code c1 <? 128)%N; [done|]. done.
Qed.
Lemma parse_str_short2 c1 c2 x : parse_str (String c1 (String c2 "")) = Some x → c1 = quote ∨ c2 = quote.
Proof.
  destruct (decide (c1 = quote)) as [|Hq]; [by left|]. destruct (decide (c2 = quote)) as [|Hq2]; [by right|].
  cbn [parse_str]. rewrite (decide_False (P := c1 = quote)) by done. case_decide.
  { case_decide; [done|]. destruct (simple_escape c2); done. }
  destruct (code c1 <? 32)%N; [done|]. rewrite (decide_False (P := c2 = quote)) by done.
  assert (∀ p q : string, cons_res p (if decide (c2 = bslash) then None else if (code c2 <? 32)%N then None
    else if (code c2 <? 128)%N then cons_res q (None : option (string * string)) else cons_res rune_error None) = None) as E.
  { intros p q. by repeat case_match. }
  destruct (code c1 <? 128)%N; [by repeat case_match|]. by repeat case_match.
Qed.
Lemma utf8_len_none_ext c s t x :
  parse_str s = Some x → utf8_len c s = None → utf8_len c (s +:+ t) = None.
Proof.
  intros Hs. destruct s as [|c1 [|c2 [|c3 s]]]; [done|..]; rewrite ?str_app_cons; unfold utf8_len;
    destruct (in_range 194 223 c), (in_range 224 239 c), (in_range 240 244 c); try done.
  - apply parse_str_short1 in Hs as ->. intros _. change ("" +:+ t) with t. destruct t as [|c2 t]; [done|]. by repeat case_decide.
  - apply parse_str_short1 in Hs as ->. intros _. change ("" +:+ t) with t. destruct t as [|c2 t]; [done|]. by repeat case_decide.
  - apply parse_str_short1 in Hs as ->. intros _. change ("" +:+ t) with t. destruct t as [|c2 [|c3 t]]; [done..|]. by repeat case_decide.
  - intros _. change ("" +:+ t) with t. destruct t as [|c3 t]; [done|].
    apply parse_str_short2 in Hs as [->| ->]; repeat case_decide; try done;
      by rewrite (proj1 quote_not_cont), andb_false_r.
Qed.

Lemma cons_res_ext p s t y r :
  (∀ x, parse_str s = Some (x, r) → parse_str (s +:+ t) = Some (x, r +:+ t)) →
  cons_res p (parse_str s) = Some (y, r) → cons_res p (parse_str (s +:+ t)) = Some (y, r +:+ t).
Proof.
  intros Hs Hc. destruct (parse_str s) as [[x r']|]; [|done]. injection Hc as <- ->. by rewrite (Hs x).
Qed.

Lemma parse_str_ext s x r t : parse_str s = Some (x, r) → parse_str (s +:+ t) = Some (x, r +:+ t).
Proof.
  remember (String.length s) as n eqn:Hn. revert s x r Hn.
  induction n as [n IH] using lt_wf_ind. intros s x r ->.
  assert (∀ s' p y, String.length s' < String.length s → cons_res p (parse_str s') = Some (y, r) →
            cons_res p (parse_str (s' +:+ t)) = Some (y, r +:+ t)) as IH'.
  { intros s' p y Hl. apply cons_res_ext. intros z Hz. by eapply IH. }
  clear IH. destruct s as [|c s1]; [done|]. rewrite str_app_cons.
  destruct (decide (c = quote)) as [->|Hq].
  { cbn [parse_str]. rewrite !decide_True by done. by intros [= <- <-]. }
  destruct (decide (c = bslash)) as [->|Hb].
  - destruct s1 as [|e s2]; [done|]. rewrite str_app_cons. destruct (decide (e = "u"%char)) as [->|He].
    + intros Hp. pose proof (parse_str_bs_u _ _ Hp) as Hl. destruct s2 as [|h1 [|h2 [|h3 [|h4 s3]]]]; simpl in Hl; try lia.
      rewrite !str_app_cons. rewrite parse_str_u in *. destruct (getu4 h1 h2 h3 h4) as [u|]; [|done].
      destruct (is_surrogate u); [|apply IH'; [simpl; lia|done]].
      destruct (pair_of u s3) as [[d s4]|] eqn:Ep.
      * assert (String.length s4 < String.length s3) as Hl4.
        { destruct s3 as [|? [|? [|? [|? [|? [|? ?]]]]]]; try done. simpl in Ep. repeat case_match; simplify_eq. simpl. lia. }
        destruct s3 as [|? [|? [|? [|? [|? [|? s4']]]]]]; try done. rewrite !str_app_cons.
        simpl pair_of in *. repeat case_match; simplify_eq. apply IH'; [simpl; lia|done].
      * destruct (parse_str s3) as [x3|] eqn:E3; [|done]. rewrite (pair_of_ext u s3 t x3 E3), Ep. simpl.
        rewrite <- E3 in Hp. apply IH'; [simpl; lia|done].
    + cbn [parse_str]. rewrite !(decide_False (P := bslash = quote)), !(decide_True (P := bslash = bslash)), !(decide_False (P := e = _)) by done.
      destruct (simple_escape e); [|done]. apply IH'. simpl. lia.
  - cbn [parse_str]. rewrite !(decide_False (P := c = quote)), !(decide_False (P := c = bslash)) by done.
    destruct (code c <? 32)%N; [done|]. destruct (code c <? 128)%N; [apply IH'; simpl; lia|].
    destruct (utf8_len c s1) as [k|] eqn:El.
    + rewrite (utf8_len_ext _ _ t _ El).
      destruct k as [|[|[|[|[|k]]]]]; try (apply IH'; simpl; lia).
      * destruct s1 as [|c1 s2]; [done|]. rewrite ?str_app_cons. apply IH'. simpl. lia.
      * destruct s1 as [|c1 [|c2 s3]]; [done..|]. rewrite ?str_app_cons. apply IH'. simpl. lia.
      * destruct s1 as [|c1 [|c2 [|c3 s4]]]; [done..|]. rewrite ?str_app_cons. apply IH'. simpl. lia.
    + intros Hp. destruct (parse_str s1) as [x1|] eqn:E1; [|done]. rewrite (utf8_len_none_ext _ _ t _ E1 El).
      rewrite <- E1 in Hp. apply IH'; [simpl; lia|done].
Qed.

(** ** White space, digits, literals *)
Lemma str_ext_nonempty s t : s ≠ "" → s +:+ t ≠ "".
Proof. by destruct s. Qed.
Lemma skip_ws_ext s t : skip_ws s ≠ "" → skip_ws (s +:+ t) = skip_ws s +:+ t.
Proof. induction s as [|c s IH]; [done|]. rewrite str_app_cons. simpl. destruct (is_space c); [done|]. done. Qed.
Lemma skip_digits_ext s t : skip_digits s ≠ "" → skip_digits (s +:+ t) = skip_digits s +:+ t.
Proof. induction s as [|c s IH]; [done|]. rewrite str_app_cons. simpl. by destruct (is_digit c). Qed.
Lemma digits1_ext s r t : digits1 s = Some r → r ≠ "" → digits1 (s +:+ t) = Some (r +:+ t).
Proof.
  destruct s as [|c s]; [done|]. rewrite str_app_cons. simpl. destruct (is_digit c); [|done].
  intros [= <-] ?. by rewrite skip_digits_ext.
Qed.
Lemma num_frac_nonempty s r : num_frac s = Some r → r ≠ "" → s ≠ "".
Proof. destruct s; [simpl; congruence|done]. Qed.
Lemma num_exp_nonempty s r : num_exp s = Some r → r ≠ "" → s ≠ "".
Proof. destruct s; [simpl; congruence|done]. Qed.
Lemma parse_num_ext s x r t : parse_num s = Some (x, r) → r ≠ "" → parse_num (s +:+ t) = Some (x, r +:+ t).
Proof.
  intros Hp Hr. pose proof (parse_num_scans _ _ _ Hp) as (p & Hs & _). unfold parse_num in *.
  set (s0 := match s with EmptyString => s | String c s' => if decide (c = "-"%char) then s' else s end) in *.
  destruct (num_int s0) as [s1|] eqn:E1; [|done]. cbn [mbind option_bind] in *.
  destruct (num_frac s1) as [s2|] eqn:E2; [|done]. cbn [mbind option_bind] in *.
  destruct (num_exp s2) as [s3|] eqn:E3; [|done]. cbn [mbind option_bind] in *. injection Hp as Hx ->.
  pose proof (num_exp_nonempty _ _ E3 Hr) as H2. pose proof (num_frac_nonempty _ _ E2 H2) as H1.
  assert (s0 ≠ "") as H0 by (by destruct s0).
  assert (match s +:+ t with EmptyString => s +:+ t | String c s' => if decide (c = "-"%char) then s' else s +:+ t end = s0 +:+ t) as ->.
  { unfold s0 in *. destruct s as [|c s']; [done|]. rewrite str_app_cons. by case_decide. }
  assert (num_int (s0 +:+ t) = Some (s1 +:+ t)) as ->.
  { destruct s0 as [|c s']; [done|]. rewrite str_app_cons. unfold num_int in *. case_decide; [congruence|].
    change (String c (s' +:+ t)) with (String c s' +:+ t). by apply digits1_ext. }
  cbn [mbind option_bind].
  assert (num_frac (s1 +:+ t) = Some (s2 +:+ t)) as ->.
  { destruct s1 as [|c s']; [done|]. rewrite str_app_cons. unfold num_frac in *. case_decide; [by apply digits1_ext|].
    change (String c (s' +:+ t)) with (String c s' +:+ t). congruence. }
  cbn [mbind option_bind].
  assert (num_exp (s2 +:+ t) = Some (r +:+ t)) as ->.
  { destruct s2 as [|c s']; [done|]. rewrite str_app_cons. unfold num_exp in *. case_decide.
    - destruct s' as [|d s'']; [done|]. rewrite str_app_cons. case_decide; [by apply digits1_ext|].
      change (String d (s'' +:+ t)) with (String d s'' +:+ t). by apply digits1_ext.
    - change (String c (s' +:+ t)) with (String c s' +:+ t). congruence. }
  cbn [mbind option_bind]. do 2 f_equal. rewrite <- Hx, Hs, <- str_app_assoc, !consumed_app. done.
Qed.
Lemma strip_prefix_ext p s r t : strip_prefix p s = Some r → strip_prefix p (s +:+ t) = Some (r +:+ t).
Proof.
  revert s. induction p as [|a p IH]; intros s; simpl; [by intros [= ->]|].
  destruct s as [|b s]; [done|]. rewrite str_app_cons. case_decide; [apply IH|done].
Qed.

(** ** Values *)
Definition is_num (v : json) : bool := match v with JNum _ => true | _ => false end.
Lemma fmap_ext_pair {A B} (f : A → B) (o o' : option (A * string)) v r t :
  (∀ w, o = Some (w, r) → o' = Some (w, r +:+ t)) →
  prod_map f id <$> o = Some (v, r) → prod_map f id <$> o' = Some (v, r +:+ t).
Proof. intros Ho Hv. destruct o as [[w r']|]; [|done]. injection Hv as <- ->. by rewrite (Ho w). Qed.
Lemma consumed_ext s r t p : s = p +:+ r → consumed (s +:+ t) (r +:+ t) = consumed s r.
Proof. intros ->. by rewrite <- str_app_assoc, !consumed_app. Qed.

Lemma parse_ext n t :
  (∀ s v r, parse_value n s = Some (v, r) → (r ≠ "" ∨ is_num v = false) → parse_value n (s +:+ t) = Some (v, r +:+ t)) ∧
  (∀ s v r, parse_members n s = Some (v, r) → parse_members n (s +:+ t) = Some (v, r +:+ t)) ∧
  (∀ s v r, parse_elems n s = Some (v, r) → parse_elems n (s +:+ t) = Some (v, r +:+ t)).
Proof.
  induction n as [|n (IHv & IHm & IHe)]; [done|]. split_and!.
  - intros s v r Hp Hr. destruct s as [|c s1]; [done|]. rewrite str_app_cons. cbn [parse_value] in *.
    destruct (decide (c = quote)). { revert Hp. apply fmap_ext_pair. intros w. apply parse_str_ext. }
    destruct (decide (c = "{"%char)).
    { destruct (skip_ws s1) as [|d s2] eqn:Hs; [done|]. rewrite skip_ws_ext by (by rewrite Hs). rewrite Hs, str_app_cons.
      case_decide; [congruence|]. revert Hp. apply fmap_ext_pair. intros w. apply IHm. }
    destruct (decide (c = "["%char)).
    { destruct (skip_ws s1) as [|d s2] eqn:Hs; [done|]. rewrite skip_ws_ext by (by rewrite Hs). rewrite Hs, str_app_cons.
      case_decide; [congruence|]. revert Hp. apply fmap_ext_pair. intros w. apply IHe. }
    do 3 (case_decide; [destruct (strip_prefix _ s1) as [r'|] eqn:Hs; [|done]; injection Hp as <- ->; by rewrite (strip_prefix_ext _ _ _ t Hs)|]).
    destruct (parse_num (String c s1)) as [[w r']|] eqn:En; [|done]. injection Hp as <- ->.
    change (String c (s1 +:+ t)) with (String c s1 +:+ t). rewrite (parse_num_ext _ _ _ _ En); [done|]. by destruct Hr.
  - intros s v r Hp. destruct s as [|c s1]; [done|]. rewrite str_app_cons. cbn [parse_members] in *.
    case_decide; [|done]. destruct (parse_str s1) as [[k s2]|] eqn:Hk; [|done]. rewrite (parse_str_ext _ _ _ t Hk).
    destruct (skip_ws s2) as [|d s3] eqn:Hs2; [done|]. rewrite skip_ws_ext by (by rewrite Hs2). rewrite Hs2, str_app_cons.
    case_decide; [|done]. cbn zeta in *. destruct (parse_value n (skip_ws s3)) as [[w s5]|] eqn:Hv; [|done].
    destruct (skip_ws s5) as [|e s6] eqn:Hs5; [done|]. assert (s5 ≠ "") as H5 by (by intros ->).
    assert (skip_ws s3 ≠ "") as H3 by (intros E; rewrite E in Hv; by destruct n).
    rewrite (skip_ws_ext s3) by done. rewrite (IHv _ _ _ Hv) by (by left).
    rewrite (skip_ws_ext s5) by (by rewrite Hs5). rewrite Hs5, str_app_cons.
    destruct (proj1 (parse_scans n) _ _ _ Hv) as (p & Hsp & _). rewrite (consumed_ext _ _ t p Hsp).
    case_decide.
    + assert (skip_ws s6 ≠ "") as H6.
      { intros E. rewrite E in Hp. by destruct n. }
      rewrite (skip_ws_ext s6) by done. revert Hp. apply fmap_ext_pair. intros ms. apply IHm.
    + case_decide; [|done]. congruence.
  - intros s v r Hp. cbn [parse_elems] in *. destruct (parse_value n s) as [[w s1]|] eqn:Hv; [|done].
    cbn zeta in *. destruct (skip_ws s1) as [|e s2] eqn:Hs1; [done|]. assert (s1 ≠ "") as H1 by (by intros ->).
    rewrite (IHv _ _ _ Hv) by (by left). rewrite (skip_ws_ext s1) by (by rewrite Hs1). rewrite Hs1, str_app_cons.
    destruct (proj1 (parse_scans n) _ _ _ Hv) as (p & Hsp & _). rewrite (consumed_ext _ _ t p Hsp).
    case_decide.
    + assert (skip_ws s2 ≠ "") as H2.
      { intros E. rewrite E in Hp. destruct n as [|[|n]]; done. }
      rewrite (skip_ws_ext s2) by done. revert Hp. apply fmap_ext_pair. intros ms. apply IHe.
    + case_decide; [|done]. congruence.
Qed.

(** More fuel does not change a result. *)
Lemma parse_fuel n :
  (∀ k s x, n ≤ k → parse_value n s = Some x → parse_value k s = Some x) ∧
  (∀ k s x, n ≤ k → parse_members n s = Some x → parse_members k s = Some x) ∧
  (∀ k s x, n ≤ k → parse_elems n s = Some x → parse_elems k s = Some x).
Proof.
  assert (∀ {A B} (f : A → B) (o o' : option (A * string)) x, (∀ y, o = Some y → o' = Some y) →
    prod_map f id <$> o = Some x → prod_map f id <$> o' = Some x) as Hf.
  { intros A B f [y|] o' x Ho; [|done]. by rewrite (Ho y). }
  induction n as [|n (IHv & IHm & IHe)]; [done|].
  split_and!; intros [|k] s x Hk; try lia; apply le_S_n in Hk.
  - cbn [parse_value]. destruct s as [|c s1]; [done|]. case_decide; [done|].
    case_decide; [destruct (skip_ws s1); [done|]; case_decide; [done|]; apply Hf; intros; by apply IHm|].
    case_decide; [destruct (skip_ws s1); [done|]; case_decide; [done|]; apply Hf; intros; by apply IHe|done].
  - cbn [parse_members]. destruct s as [|c s1]; [done|]. case_decide; [|done].
    destruct (parse_str s1) as [[a s2]|]; [|done]. destruct (skip_ws s2) as [|d s3]; [done|]. case_decide; [|done]. cbn zeta.
    destruct (parse_value n (skip_ws s3)) as [[w s5]|] eqn:Hv; [|done]. rewrite (IHv _ _ _ Hk Hv).
    destruct (skip_ws s5); [done|]. case_decide; [|done]. apply Hf. intros. by apply IHm.
  - cbn [parse_elems]. destruct (parse_value n s) as [[w s1]|] eqn:Hv; [|done]. rewrite (IHv _ _ _ Hk Hv). cbn zeta.
    destruct (skip_ws s1); [done|]. case_decide; [|done]. apply Hf. intros. by apply IHe.
Qed.
