(* ===== verification/Property.v ===== *)
(** * Bundle properties

    [internal/property]: the typed properties of a bundle, their JSON form,
    [Parse] (a list of raw properties to typed ones), [Build] (a typed property
    to a raw one), [Deduplicate], and the type scheme.

    A [json.RawMessage] is [None] when nil and [Some bytes] otherwise. *)
From S2P Require Import Prelude Json JsonCompact.
From stdpp Require Import options.

Definition RawMessage : Type := option string.
Definition raw_bytes (r : RawMessage) : string := default "" r.

(** The error of a failed [json.Unmarshal] or encode; its text is not modelled. *)
Definition json_error : error := ErrNew "json".

(** ** Data *)
Record property_Property := mkProp { p_Type : string; p_Value : RawMessage }.
Record property_Package := mkPkgProp { pp_PackageName : string; pp_Version : string }.
Record property_PackageRequired := mkPkgReq { pr_PackageName : string; pr_VersionRange : string }.
Record property_Channel := mkChProp { pc_Name : string; pc_Replaces : string }.
Record property_GVK := mkGVK { gvk_Group : string; gvk_Kind : string; gvk_Version : string }.
Record property_GVKRequired := mkGVKReq { gvkr_Group : string; gvkr_Kind : string; gvkr_Version : string }.
(** [BundleObject] embeds [File], whose methods it inherits. *)
Record property_File := mkFile { f_ref : string; f_data : string }.

#[export] Instance property_Property_eq_dec : EqDecision property_Property.
Proof. solve_decision. Defined.
#[export] Instance property_GVK_eq_dec : EqDecision property_GVK.
Proof. solve_decision. Defined.
#[export] Instance property_GVK_countable : Countable property_GVK.
Proof.
  apply (inj_countable' (λ g, (gvk_Group g, gvk_Kind g, gvk_Version g))
           (λ t, mkGVK t.1.1 t.1.2 t.2)). by intros [].
Defined.
#[export] Instance property_GVKRequired_eq_dec : EqDecision property_GVKRequired.
Proof. solve_decision. Defined.
#[export] Instance property_GVKRequired_countable : Countable property_GVKRequired.
Proof.
  apply (inj_countable' (λ g, (gvkr_Group g, gvkr_Kind g, gvkr_Version g))
           (λ t, mkGVKReq t.1.1 t.1.2 t.2)). by intros [].
Defined.

Record property_Properties := mkProperties {
  ps_Packages : list property_Package;
  ps_PackagesRequired : list property_PackageRequired;
  ps_Channels : list property_Channel;
  ps_GVKs : list property_GVK;
  ps_GVKsRequired : list property_GVKRequired;
  ps_Skips : list string;
  ps_SkipRanges : list string;
  ps_BundleObjects : list property_File;
  ps_Others : list property_Property
}.
Definition no_properties : property_Properties := mkProperties [] [] [] [] [] [] [] [] [].

Definition TypePackage : string := "olm.package".
Definition TypePackageRequired : string := "olm.package.required".
Definition TypeChannel : string := "olm.channel".
Definition TypeGVK : string := "olm.gvk".
Definition TypeGVKRequired : string := "olm.gvk.required".
Definition TypeSkips : string := "olm.skips".
Definition TypeSkipRange : string := "olm.skipRange".
Definition TypeBundleObject : string := "olm.bundle.object".

(** ** JSON form of the typed properties *)
Definition unmarshal_struct (names : list string) (s : RawMessage) : option (list string) :=
  Unmarshal (raw_bytes s) ≫= decode_struct names.

Definition unmarshal_Package (s : RawMessage) : res property_Package :=
  match unmarshal_struct ["packageName"; "version"] s with
  | Some [a; b] => Ok (mkPkgProp a b) | _ => Err json_error end.
Definition unmarshal_PackageRequired (s : RawMessage) : res property_PackageRequired :=
  match unmarshal_struct ["packageName"; "versionRange"] s with
  | Some [a; b] => Ok (mkPkgReq a b) | _ => Err json_error end.
Definition unmarshal_Channel (s : RawMessage) : res property_Channel :=
  match unmarshal_struct ["name"; "replaces"] s with
  | Some [a; b] => Ok (mkChProp a b) | _ => Err json_error end.
Definition unmarshal_GVK (s : RawMessage) : res property_GVK :=
  match unmarshal_struct ["group"; "kind"; "version"] s with
  | Some [a; b; c] => Ok (mkGVK a b c) | _ => Err json_error end.
Definition unmarshal_GVKRequired (s : RawMessage) : res property_GVKRequired :=
  match unmarshal_struct ["group"; "kind"; "version"] s with
  | Some [a; b; c] => Ok (mkGVKReq a b c) | _ => Err json_error end.
Definition unmarshal_string (s : RawMessage) : res string :=
  match Unmarshal (raw_bytes s) ≫= decode_string "" with
  | Some x => Ok x | None => Err json_error end.

(** The members of a [fileJSON] object, in order. *)
Fixpoint decode_file_members (f : property_File) (ms : list (string * (string * json)))
    : option property_File :=
  match ms with
  | [] => Some f
  | (k, (_, v)) :: ms' =>
      match field_index ["ref"; "data"] k with
      | Some 0 => x ← decode_string (f_ref f) v; decode_file_members (mkFile x (f_data f)) ms'
      | Some _ => x ← decode_bytes v; decode_file_members (mkFile (f_ref f) x) ms'
      | None => decode_file_members f ms'
      end
  end.
Definition File_UnmarshalJSON (data : RawMessage) : res property_File :=
  match Unmarshal (raw_bytes data) with
  | None => Err json_error
  | Some v =>
      match (match v with
             | JNull => Some (mkFile "" "")
             | JObj ms => decode_file_members (mkFile "" "") ms
             | _ => None
             end) with
      | None => Err json_error
      | Some t =>
          if decide (f_ref t ≠ "" ∧ f_data t ≠ "") then
            Err (ErrNew "fields 'ref' and 'data' are mutually exclusive")
          else Ok t
      end
  end.
(** [json.Marshal] escapes HTML characters. *)
Definition File_MarshalJSON (f : property_File) : string :=
  print_struct true ((if decide (f_ref f = "") then [] else [("ref", f_ref f)]) ++
                     (if decide (f_data f = "") then [] else [("data", b64_encode (f_data f))])).

(** ** Methods of Property and File *)
Definition property_Property_Validate (p : property_Property) : option error :=
  if decide (p_Type p = "") then Some (ErrNew "type must be set")
  else if decide (raw_bytes (p_Value p) = "") then Some (ErrNew "value must be set")
  else match Unmarshal (raw_bytes (p_Value p)) with
       | None => Some (Errorf "value is not valid json: %v" [AErr json_error])
       | Some _ => None
       end.

Definition File_IsRef (f : property_File) : bool := negb (bool_decide (f_ref f = "")).

(** [filepath.IsAbs] on Unix *)
Definition is_abs (path : string) : bool :=
  match path with String c _ => bool_decide (c = "/"%char) | EmptyString => false end.

(** [read cwd ref] opens [filepath.Join(cwd, ref)] in the file system and reads
    it; the file system is outside the sources. *)
Definition File_GetData (read : string → string → res string) (f : property_File) (cwd : string)
    : res string :=
  if negb (File_IsRef f) then Ok (f_data f)
  else if is_abs (f_ref f) then Err (ErrNew "reference must be a relative path")
  else read cwd (f_ref f).

(** ** Parse *)
Definition ParseError (idx : Z) (typ : string) (err : error) : error :=
  Errorf "parse property[%d] of type %q: %v" [AInt idx; AStr typ; AErr err].

(** One iteration of the loop: the switch on the type. *)
Definition Parse_one (out : property_Properties) (prop : property_Property)
    : res property_Properties :=
  let '(mkProperties pk pr ch gv gr sk sr bo ot) := out in
  let v := p_Value prop in
  let t := p_Type prop in
  if decide (t = TypePackage) then
    p ← unmarshal_Package v; Ok (mkProperties (pk ++ [p]) pr ch gv gr sk sr bo ot)
  else if decide (t = TypePackageRequired) then
    p ← unmarshal_PackageRequired v; Ok (mkProperties pk (pr ++ [p]) ch gv gr sk sr bo ot)
  else if decide (t = TypeChannel) then
    p ← unmarshal_Channel v; Ok (mkProperties pk pr (ch ++ [p]) gv gr sk sr bo ot)
  else if decide (t = TypeGVK) then
    p ← unmarshal_GVK v; Ok (mkProperties pk pr ch (gv ++ [p]) gr sk sr bo ot)
  else if decide (t = TypeGVKRequired) then
    p ← unmarshal_GVKRequired v; Ok (mkProperties pk pr ch gv (gr ++ [p]) sk sr bo ot)
  else if decide (t = TypeSkips) then
    p ← unmarshal_string v; Ok (mkProperties pk pr ch gv gr (sk ++ [p]) sr bo ot)
  else if decide (t = TypeSkipRange) then
    p ← unmarshal_string v; Ok (mkProperties pk pr ch gv gr sk (sr ++ [p]) bo ot)
  else if decide (t = TypeBundleObject) then
    p ← File_UnmarshalJSON v; Ok (mkProperties pk pr ch gv gr sk sr (bo ++ [p]) ot)
  else match Unmarshal (raw_bytes v) with
       | Some _ => Ok (mkProperties pk pr ch gv gr sk sr bo (ot ++ [prop]))
       | None => Err json_error
       end.

Fixpoint Parse_loop (i : Z) (out : property_Properties) (ps : list property_Property)
    : res property_Properties :=
  match ps with
  | [] => Ok out
  | prop :: ps' =>
      out' ← wrap_err (ParseError i (p_Type prop)) (Parse_one out prop);
      Parse_loop (i + 1) out' ps'
  end.
Definition property_Parse (ps : list property_Property) : res property_Properties :=
  Parse_loop 0 no_properties ps.

(** ** Deduplicate *)
Definition dedup_key (p : property_Property) : string * string := (p_Type p, raw_bytes (p_Value p)).
Fixpoint Deduplicate_loop (props : gset (string * string)) (ps : list property_Property)
    : list property_Property :=
  match ps with
  | [] => []
  | p :: ps' =>
      if decide (dedup_key p ∈ props) then Deduplicate_loop props ps'
      else p :: Deduplicate_loop ({[dedup_key p]} ∪ props) ps'
  end.
Definition Deduplicate (ps : list property_Property) : list property_Property :=
  Deduplicate_loop ∅ ps.

(** ** Build

    A [reflect.Type] is its name; the dynamic values [Build] distinguishes are
    the constructors below.  A pointer to any other type comes with what the
    JSON encoder writes for it, which depends on code outside the package. *)
Inductive iface : Type :=
  | INil
  | IProperty (p : option property_Property)
  | IPackage (p : property_Package)
  | IPackageRequired (p : property_PackageRequired)
  | IChannel (p : property_Channel)
  | IGVK (p : property_GVK)
  | IGVKRequired (p : property_GVKRequired)
  | ISkips (s : string)
  | ISkipRange (s : string)
  | IBundleObject (f : property_File)
  | IPtr (typ : string) (encoded : res string)
  | IValue (typ : string).

(** [reflect.TypeOf(p)] and whether its kind is a pointer *)
Definition reflect_TypeOf (p : iface) : option (string * bool) :=
  match p with
  | INil => None
  | IProperty _ => Some ("*property.Property", true)
  | IPackage _ => Some ("*property.Package", true)
  | IPackageRequired _ => Some ("*property.PackageRequired", true)
  | IChannel _ => Some ("*property.Channel", true)
  | IGVK _ => Some ("*property.GVK", true)
  | IGVKRequired _ => Some ("*property.GVKRequired", true)
  | ISkips _ => Some ("*property.Skips", true)
  | ISkipRange _ => Some ("*property.SkipRange", true)
  | IBundleObject _ => Some ("*property.BundleObject", true)
  | IPtr t _ => Some (t, true)
  | IValue t => Some (t, false)
  end.

Definition scheme : Type := gmap string string.
Definition init_scheme : scheme := list_to_map
  [("*property.Package", TypePackage); ("*property.PackageRequired", TypePackageRequired);
   ("*property.Channel", TypeChannel); ("*property.GVK", TypeGVK);
   ("*property.GVKRequired", TypeGVKRequired); ("*property.Skips", TypeSkips);
   ("*property.SkipRange", TypeSkipRange); ("*property.BundleObject", TypeBundleObject)].

Definition AddToScheme (sc : scheme) (typ : string) (p : iface) : res scheme :=
  match reflect_TypeOf p with
  | None => Panic
  | Some (t, is_ptr) =>
      if negb is_ptr then Panic
      else match sc !! t with
           | Some _ => Panic
           | None => Ok (<[t := typ]> sc)
           end
  end.

(** What [Encoder.Encode] writes before its newline, without HTML escaping. *)
Definition omit_empty (k v : string) : list (string * string) :=
  if decide (v = "") then [] else [(k, v)].
Definition of_option {A} (o : option A) : res A :=
  match o with Some a => Ok a | None => Err json_error end.
Definition encode_iface (p : iface) : res string :=
  match p with
  | INil => Ok "null"
  | IProperty None => Panic
  | IProperty (Some q) => of_option (Compact (default "null" (p_Value q)))
  | IPackage q =>
      Ok (print_struct false [("packageName", pp_PackageName q); ("version", pp_Version q)])
  | IPackageRequired q =>
      Ok (print_struct false [("packageName", pr_PackageName q); ("versionRange", pr_VersionRange q)])
  | IChannel q =>
      Ok (print_struct false (("name", pc_Name q) :: omit_empty "replaces" (pc_Replaces q)))
  | IGVK q =>
      Ok (print_struct false [("group", gvk_Group q); ("kind", gvk_Kind q); ("version", gvk_Version q)])
  | IGVKRequired q =>
      Ok (print_struct false [("group", gvkr_Group q); ("kind", gvkr_Kind q); ("version", gvkr_Version q)])
  | ISkips s => Ok (print_string false s)
  | ISkipRange s => Ok (print_string false s)
  | IBundleObject f => of_option (Compact (File_MarshalJSON f))
  | IPtr _ e => e
  | IValue _ => Err json_error
  end.

Definition jsonMarshal (p : iface) : res string :=
  d ← encode_iface p; of_option (Compact (d +:+ newline)).

Definition Build (sc : scheme) (p : iface) : res property_Property :=
  match p with
  | IProperty None => Panic
  | IProperty (Some q) => d ← jsonMarshal p; Ok (mkProp (p_Type q) (Some d))
  | _ =>
      match reflect_TypeOf p with
      | None => Panic
      | Some (t, is_ptr) =>
          if negb is_ptr then Err (ErrNew "input must be a pointer to a type")
          else match sc !! t with
               | None => Err (Errorf "%s not a known property type registered with the scheme" [AStr t])
               | Some typ => d ← jsonMarshal p; Ok (mkProp typ (Some d))
               end
      end
  end.

Definition MustBuild (sc : scheme) (p : iface) : res property_Property :=
  match Build sc p with Err _ => Panic | r => r end.

Definition MustBuildPackage sc name version := MustBuild sc (IPackage (mkPkgProp name version)).
Definition MustBuildPackageRequired sc name versionRange :=
  MustBuild sc (IPackageRequired (mkPkgReq name versionRange)).
Definition MustBuildChannel sc name replaces := MustBuild sc (IChannel (mkChProp name replaces)).
Definition MustBuildGVK sc group version kind := MustBuild sc (IGVK (mkGVK group kind version)).
Definition MustBuildGVKRequired sc group version kind :=
  MustBuild sc (IGVKRequired (mkGVKReq group kind version)).
Definition MustBuildSkips sc skips := MustBuild sc (ISkips skips).
Definition MustBuildSkipRange sc skipRange := MustBuild sc (ISkipRange skipRange).
Definition MustBuildBundleObjectRef sc ref := MustBuild sc (IBundleObject (mkFile ref "")).
Definition MustBuildBundleObjectData sc data := MustBuild sc (IBundleObject (mkFile "" data)).

(** ** Build, then Parse *)

(** The typed values whose strings are valid UTF-8, which JSON can carry. *)
Definition iface_valid (p : iface) : Prop :=
  let ok s := valid_utf8 s = true in
  match p with
  | IPackage q => ok (pp_PackageName q) ∧ ok (pp_Version q)
  | IPackageRequired q => ok (pr_PackageName q) ∧ ok (pr_VersionRange q)
  | IChannel q => ok (pc_Name q) ∧ ok (pc_Replaces q)
  | IGVK q => ok (gvk_Group q) ∧ ok (gvk_Kind q) ∧ ok (gvk_Version q)
  | IGVKRequired q => ok (gvkr_Group q) ∧ ok (gvkr_Kind q) ∧ ok (gvkr_Version q)
  | ISkips s | ISkipRange s => ok s
  | IBundleObject f => ok (f_ref f) ∧ (f_ref f = "" ∨ f_data f = "")
  | _ => False
  end.

(** [Properties] with one more typed value. *)
Definition add_iface (out : property_Properties) (p : iface) : property_Properties :=
  let '(mkProperties pk pr ch gv gr sk sr bo ot) := out in
  match p with
  | IPackage q => mkProperties (pk ++ [q]) pr ch gv gr sk sr bo ot
  | IPackageRequired q => mkProperties pk (pr ++ [q]) ch gv gr sk sr bo ot
  | IChannel q => mkProperties pk pr (ch ++ [q]) gv gr sk sr bo ot
  | IGVK q => mkProperties pk pr ch (gv ++ [q]) gr sk sr bo ot
  | IGVKRequired q => mkProperties pk pr ch gv (gr ++ [q]) sk sr bo ot
  | ISkips q => mkProperties pk pr ch gv gr (sk ++ [q]) sr bo ot
  | ISkipRange q => mkProperties pk pr ch gv gr sk (sr ++ [q]) bo ot
  | IBundleObject q => mkProperties pk pr ch gv gr sk sr (bo ++ [q]) ot
  | _ => out
  end.

Lemma unmarshal_printed_struct html names fs :
  fields_valid fs →
  unmarshal_struct names (Some (print_struct html fs)) =
    decode_members names (replicate (length names) "") (printed_members html fs).
Proof.
  intros Hfs. unfold unmarshal_struct. simpl. by rewrite Unmarshal_print_struct.
Qed.

Lemma File_unmarshal_marshal f :
  valid_utf8 (f_ref f) = true → f_ref f = "" ∨ f_data f = "" →
  File_UnmarshalJSON (Some (File_MarshalJSON f)) = Ok f ∧
  Compact (File_MarshalJSON f) = Some (File_MarshalJSON f) ∧
  Compact (File_MarshalJSON f +:+ newline) = Some (File_MarshalJSON f).
Proof.
  intros Hr Hex. unfold File_UnmarshalJSON, File_MarshalJSON.
  assert (fields_valid ((if decide (f_ref f = "") then [] else [("ref", f_ref f)]) ++
     (if decide (f_data f = "") then [] else [("data", b64_encode (f_data f))]))) as Hfs.
  { unfold fields_valid. repeat case_decide; simpl; repeat constructor; auto using b64_valid_utf8. }
  split_and!; [|by apply Compact_struct|by apply Compact_struct_newline].
  simpl raw_bytes. rewrite Unmarshal_print_struct by done. destruct f as [r d]; simpl in *.
  repeat case_decide; simplify_eq/=; rewrite ?b64_roundtrip; simpl; try done;
    repeat case_decide; destruct_and?; destruct_or?; done.
Qed.

(** [jsonMarshal] leaves what the encoder wrote for a valid typed value. *)
Lemma jsonMarshal_valid p :
  iface_valid p → ∃ d, encode_iface p = Ok d ∧ jsonMarshal p = Ok d.
Proof.
  unfold jsonMarshal. intros Hp.
  assert (∀ html fs, fields_valid fs → of_option (Compact (print_struct html fs +:+ newline)) = Ok (print_struct html fs)) as Hst
    by (intros; by rewrite Compact_struct_newline).
  destruct p; simpl in *; try done; destruct_and?.
  all: try (eexists; split; [done|]; apply Hst; unfold fields_valid, omit_empty;
            repeat case_decide; repeat constructor; done).
  1-2: eexists; split; [done|]; simpl; by rewrite Compact_string_newline.
  destruct (File_unmarshal_marshal f) as (_ & E1 & E2); [done..|].
  exists (File_MarshalJSON f). rewrite E1. simpl. by rewrite E2.
Qed.

(** The decoders read back what the encoder writes. *)
Lemma decode_encode p d :
  iface_valid p → encode_iface p = Ok d →
  match p with
  | IPackage q => unmarshal_Package (Some d) = Ok q
  | IPackageRequired q => unmarshal_PackageRequired (Some d) = Ok q
  | IChannel q => unmarshal_Channel (Some d) = Ok q
  | IGVK q => unmarshal_GVK (Some d) = Ok q
  | IGVKRequired q => unmarshal_GVKRequired (Some d) = Ok q
  | ISkips q | ISkipRange q => unmarshal_string (Some d) = Ok q
  | IBundleObject f => File_UnmarshalJSON (Some d) = Ok f
  | _ => True
  end.
Proof.
  intros Hp He. destruct p as [| |[]|[]|[]|[]|[]| | |f| |]; simpl in Hp; try done; destruct_and?; simpl in He.
  1-5: injection He as <-;
    unfold unmarshal_Package, unmarshal_PackageRequired, unmarshal_Channel, unmarshal_GVK, unmarshal_GVKRequired;
    rewrite unmarshal_printed_struct
      by (unfold fields_valid, omit_empty; repeat case_decide; repeat constructor; done);
    unfold omit_empty; simpl; repeat case_decide; subst; reflexivity.
  1-2: injection He as <-; unfold unmarshal_string; simpl raw_bytes;
    by rewrite Unmarshal_print_string.
  destruct (File_unmarshal_marshal f) as (E0 & E1 & E2); [done..|].
  rewrite E1 in He. simpl in He. by injection He as <-.
Qed.

(** [Parse] reads back what [Build] makes of a typed value. *)
Lemma Build_Parse_one p out :
  iface_valid p → ∃ q, Build init_scheme p = Ok q ∧ Parse_one out q = Ok (add_iface out p).
Proof.
  intros Hp. destruct (jsonMarshal_valid p Hp) as (d & He & Hm).
  pose proof (decode_encode p d Hp He) as Hd.
  destruct p; simpl in Hp; try done; destruct out;
    (eexists; split; [unfold Build; rewrite Hm; reflexivity|]);
    unfold Parse_one; simpl p_Value; simpl p_Type; rewrite Hd; reflexivity.
Qed.

Lemma Build_Parse_loop vs i out :
  Forall iface_valid vs →
  ∃ ps, Forall2 (λ v p, Build init_scheme v = Ok p) vs ps ∧
        Parse_loop i out ps = Ok (foldl add_iface out vs).
Proof.
  intros Hvs. revert i out. induction Hvs as [|v vs Hv Hvs IH]; intros i out.
  - exists []. by split.
  - destruct (Build_Parse_one v out Hv) as (q & Hb & Hq).
    destruct (IH (i + 1)%Z (add_iface out v)) as (ps & Hps & Hl).
    exists (q :: ps). split; [by constructor|]. cbn [Parse_loop foldl]. by rewrite Hq.
Qed.

(** ** Parse *)

(** What [Parse] demands of a property: its value decodes at its type. *)
Definition property_ok (p : property_Property) : Prop := is_Ok (Parse_one no_properties p).

Lemma Parse_one_cases p :
  (∀ out, is_Ok (Parse_one out p)) ∨ (∃ e, ∀ out, Parse_one out p = Err e).
Proof.
  unfold Parse_one, unmarshal_Package, unmarshal_PackageRequired, unmarshal_Channel, unmarshal_GVK,
    unmarshal_GVKRequired, unmarshal_string, File_UnmarshalJSON.
  repeat case_match; simplify_eq; first [left; intros []; eexists; reflexivity|right; eexists; intros []; reflexivity].
Qed.

Lemma property_ok_spec p :
  (property_ok p ∧ ∀ out, is_Ok (Parse_one out p)) ∨
  (¬ property_ok p ∧ ∃ e, ∀ out, Parse_one out p = Err e).
Proof.
  destruct (Parse_one_cases p) as [H|[e He]]; [left; split; [apply H|done]|right].
  split; [|eauto]. intros [o Ho]. by rewrite He in Ho.
Qed.

Lemma Parse_loop_cases i out ps :
  (Forall property_ok ps ∧ is_Ok (Parse_loop i out ps)) ∨
  (∃ j p e, ps !! j = Some p ∧ ¬ property_ok p ∧ Forall property_ok (take j ps) ∧
            Parse_one no_properties p = Err e ∧
            Parse_loop i out ps = Err (ParseError (i + Z.of_nat j) (p_Type p) e)).
Proof.
  revert i out. induction ps as [|p ps IH]; intros i out; [left; split; [done|eexists; done]|].
  cbn [Parse_loop]. destruct (property_ok_spec p) as [[Hp Hok]|[Hp [e He]]].
  - destruct (Hok out) as [o Ho]. rewrite Ho. cbn [wrap_err mbind res_bind].
    destruct (IH (i + 1)%Z o) as [[Hall Hl]|(j & q & e & Hj & Hq & Ht & Hd & Hl)].
    + left. split; [by constructor|done].
    + right. exists (S j), q, e. rewrite Hl. split_and!; [done|done|by constructor|done|].
      do 2 f_equal. lia.
  - right. exists 0, p, e. rewrite !He. cbn [wrap_err mbind res_bind]. split_and!; [done|done|constructor|done|]. simpl. by rewrite Z.add_0_r.
Qed.

(** C33. A typed property list survives the trip through its JSON form: for
    values of the eight property types whose strings are valid UTF-8 (and bundle
    objects that are not both reference and data), [Build] succeeds on each and
    [Parse] of the results returns exactly those values, each in its field, in
    order, with nothing in [Others]. *)
Theorem Build_Parse_roundtrip vs :
  Forall iface_valid vs →
  ∃ ps, Forall2 (λ v p, Build init_scheme v = Ok p) vs ps ∧
        property_Parse ps = Ok (foldl add_iface no_properties vs).
Proof. apply Build_Parse_loop. Qed.

Lemma Build_Parse_roundtrip_witness :
  ∃ ps, Forall2 (λ v p, Build init_scheme v = Ok p)
          [IChannel (mkChProp "a<b" ""); IBundleObject (mkFile "" "xyz"); ISkips "v1"] ps ∧
        property_Parse ps = Ok (mkProperties [] [] [mkChProp "a<b" ""] [] [] ["v1"] [] [mkFile "" "xyz"] []).
Proof.
  apply (Build_Parse_roundtrip [IChannel (mkChProp "a<b" ""); IBundleObject (mkFile "" "xyz"); ISkips "v1"]).
  repeat constructor; by left.
Defined.

(** [Parse] succeeds exactly when every property's value decodes at its
    type; otherwise it fails at the first property that does not, with that
    property's index and type in the error, and it never panics. *)
Theorem Parse_first_error ps :
  (Forall property_ok ps ∧ is_Ok (property_Parse ps)) ∨
  (∃ j p e, ps !! j = Some p ∧ ¬ property_ok p ∧ Forall property_ok (take j ps) ∧
            Parse_one no_properties p = Err e ∧
            property_Parse ps = Err (ParseError (Z.of_nat j) (p_Type p) e)).
Proof. apply (Parse_loop_cases 0 no_properties ps). Qed.

(** ** Deduplicate *)
Lemma Deduplicate_loop_spec props ps :
  let out := Deduplicate_loop props ps in
  sublist out ps ∧ NoDup (dedup_key <$> out) ∧
  (∀ k, k ∈ dedup_key <$> out ↔ k ∈ dedup_key <$> ps ∧ k ∉ props).
Proof.
  revert props. induction ps as [|p ps IH]; intros props; simpl.
  - split_and!; [done|constructor|set_solver].
  - case_decide as Hin; destruct (IH props) as (Hs & Hn & Hk).
    + split_and!; [by constructor|done|]. intros k. rewrite Hk. set_solver.
    + destruct (IH ({[dedup_key p]} ∪ props)) as (Hs' & Hn' & Hk').
      split_and!; [by constructor| |].
      * simpl. constructor; [|done]. rewrite Hk'. set_solver.
      * intros k. simpl. rewrite !elem_of_cons, Hk'. destruct (decide (k = dedup_key p)) as [->|]; set_solver.
Qed.

Lemma Deduplicate_loop_id props ps :
  NoDup (dedup_key <$> ps) → (∀ p, p ∈ ps → dedup_key p ∉ props) → Deduplicate_loop props ps = ps.
Proof.
  revert props. induction ps as [|p ps IH]; intros props Hn Hp; simpl in *; [done|].
  apply NoDup_cons in Hn as [Hnp Hn].
  rewrite decide_False by (apply Hp; left). f_equal. apply IH; [done|].
  intros q Hq Hin. apply elem_of_union in Hin as [Hin%elem_of_singleton|Hin].
  - apply Hnp. apply list_elem_of_fmap. exists q. eauto.
  - apply (Hp q); [by right|done].
Qed.

(** A property is kept exactly when no earlier one has its key. *)
Lemma Deduplicate_loop_app props ps qs :
  Deduplicate_loop props (ps ++ qs) =
  Deduplicate_loop props ps ++ Deduplicate_loop (props ∪ list_to_set (dedup_key <$> ps)) qs.
Proof.
  revert props. induction ps as [|p ps IH]; intros props; simpl.
  - f_equal. set_solver.
  - case_decide; simpl; rewrite IH.
    + f_equal. f_equal. set_solver.
    + simpl. do 3 f_equal. set_solver.
Qed.

(** [Deduplicate] keeps, in order, the first property of every (type, value
    bytes) pair and nothing else: the result is a sublist of the input without
    two equal keys, every key of the input still occurs, a property is kept if
    and only if no earlier one has its key, and deduplicating again changes
    nothing. *)
Theorem Deduplicate_spec ps :
  sublist (Deduplicate ps) ps ∧
  NoDup (dedup_key <$> Deduplicate ps) ∧
  (∀ k, k ∈ dedup_key <$> Deduplicate ps ↔ k ∈ dedup_key <$> ps) ∧
  (∀ pre p, Deduplicate (pre ++ [p]) =
            Deduplicate pre ++ (if decide (dedup_key p ∈ dedup_key <$> pre) then [] else [p])) ∧
  Deduplicate (Deduplicate ps) = Deduplicate ps.
Proof.
  destruct (Deduplicate_loop_spec ∅ ps) as (Hs & Hn & Hk). split_and!; [done|done| | |].
  - intros k. rewrite Hk. set_solver.
  - intros pre p. unfold Deduplicate. rewrite Deduplicate_loop_app. f_equal. simpl.
    apply decide_ext. rewrite elem_of_union, elem_of_list_to_set, elem_of_empty. tauto.
  - apply Deduplicate_loop_id; [done|set_solver].
Qed.
