(* ===== verification/JsonTotal.v ===== *)
(** * Encoding never fails

    The encoder writes U+FFFD for bytes that are not valid UTF-8, so what it
    prints for any strings is valid JSON: [Build] of a typed property cannot fail
    and [MustBuild] cannot panic. *)
From S2P Require Import Prelude Json JsonCompact Property.
From stdpp Require Import options.

(** The string a reader gets back: invalid bytes replaced. *)
Fixpoint sanitize (s : string) : string :=
  match s with
  | EmptyString => ""
  | String c s1 =>
      if (code c <? 128)%N then String c (sanitize s1)
      else match utf8_len c s1 with
           | Some 2 => match s1 with String c1 s2 => String c (String c1 (sanitize s2)) | _ => "" end
           | Some 3 =>
               match s1 with
               | String c1 (String c2 s3) => String c (String c1 (String c2 (sanitize s3)))
               | _ => ""
               end
           | Some 4 =>
               match s1 with
               | String c1 (String c2 (String c3 s4)) =>
                   String c (String c1 (String c2 (String c3 (sanitize s4))))
               | _ => ""
               end
           | _ => rune_error +:+ sanitize s1
           end
  end.

Lemma parse_print_any html s t : parse_str (print_str html s +:+ t) = Some (sanitize s, t).
Proof.
  remember (String.length s) as n eqn:Hn. revert s Hn.
  induction n as [n IH] using lt_wf_ind. intros s ->.
  destruct s as [|c s1]; [done|]. cbn [sanitize print_str].
  destruct (code c <? 128)%N eqn:Hc.
  - rewrite <- str_app_assoc, parse_escape_byte by done.
    by rewrite (IH (String.length s1)) by (simpl; lia || done).
  - destruct (utf8_len c s1) as [k|] eqn:Hl.
    2:{ rewrite <- str_app_assoc, parse_u_escape by done.
        by rewrite (IH (String.length s1)) by (simpl; lia || done). }
    pose proof (utf8_len_cont _ _ _ Hl) as Hcont. destruct k as [|[|[|[|[|?]]]]]; try done.
    + destruct s1 as [|c1 s2]; [done|]. rewrite !str_app_cons, parse_str_high by done.
      rewrite (utf8_len_2 _ _ _ _ Hl). by rewrite (IH (String.length s2)) by (simpl; lia || done).
    + destruct s1 as [|c1 [|c2 s3]]; try done. rewrite <- str_app_assoc. case_decide as E; [|case_decide as E'].
      1-2: rewrite parse_u_escape by done;
        rewrite (IH (String.length s3)) by (simpl; lia || done);
        destruct_and!; by rewrite (code_eq_byte c 226), (code_eq_byte c1 128), (code_eq_byte c2 _ ltac:(eassumption)) by done.
      rewrite !str_app_cons, parse_str_high by done. rewrite (utf8_len_3 _ _ _ _ _ Hl).
      change ("" +:+ ?x) with x. by rewrite (IH (String.length s3)) by (simpl; lia || done).
    + destruct s1 as [|c1 [|c2 [|c3 s4]]]; try done.
      rewrite !str_app_cons, parse_str_high by done. rewrite (utf8_len_4 _ _ _ _ _ _ Hl).
      by rewrite (IH (String.length s4)) by (simpl; lia || done).
Qed.

Lemma parse_value_any n html s t : parse_value (S n) (print_string html s +:+ t) = Some (JStr (sanitize s), t).
Proof.
  unfold print_string. rewrite str_app_cons. cbn [parse_value].
  rewrite decide_True by done. by rewrite parse_print_any.
Qed.

Lemma parse_members_any_step n html k v e t :
  is_space e = false →
  parse_members (S (S n)) (print_string html k +:+ ":" +:+ print_string html v +:+ String e t) =
    let m := (sanitize k, (print_string html v, JStr (sanitize v))) in
    if decide (e = ","%char) then prod_map (cons m) id <$> parse_members (S n) (skip_ws t)
    else if decide (e = "}"%char) then Some ([m], t) else None.
Proof.
  intros He.
  change (print_string html k) with (String quote (print_str html k)). rewrite str_app_cons.
  cbn [parse_members]. rewrite decide_True by done. rewrite parse_print_any.
  change (":" +:+ ?x) with (String ":"%char x). cbn [skip_ws].
  change (is_space ":") with false. cbn iota. rewrite (decide_True (P := ":"%char = ":"%char)) by done.
  change (skip_ws (print_string html v +:+ ?x)) with (print_string html v +:+ x).
  rewrite parse_value_any. rewrite consumed_app. cbn [skip_ws]. by rewrite He.
Qed.

Lemma parse_members_any n html fs t :
  fs ≠ [] → length fs < n →
  ∃ ms, parse_members n (print_fields html fs +:+ "}" +:+ t) = Some (ms, t).
Proof.
  revert n. induction fs as [|[k v] fs IH]; intros n Hne Hn; [done|].
  simpl in Hn. destruct n as [|[|n]]; [lia..|]. destruct fs as [|f fs'].
  - cbn [print_fields]. rewrite <- !str_app_assoc. change ("}" +:+ t) with (String "}"%char t).
    rewrite parse_members_any_step by done. by eexists.
  - change (print_fields html ((k, v) :: f :: fs'))
      with (print_string html k +:+ ":" +:+ print_string html v +:+ "," +:+ print_fields html (f :: fs')).
    rewrite <- !str_app_assoc. change ("," +:+ ?x) with (String ","%char x).
    rewrite parse_members_any_step by done. cbn zeta. rewrite decide_True by done.
    assert (∀ x, skip_ws (print_fields html (f :: fs') +:+ x) = print_fields html (f :: fs') +:+ x) as ->.
    { intros x. destruct f as [k' v']. by destruct fs'. }
    destruct (IH (S n)) as [ms ->]; [done|simpl in *; lia|]. by eexists.
Qed.

Lemma Unmarshal_any_struct html fs t :
  skip_ws t = "" → ∃ v, Unmarshal (print_struct html fs +:+ t) = Some v.
Proof.
  intros Ht. destruct fs as [|f fs].
  { exists (JObj []). by apply (Unmarshal_print_struct_ws html [] t); [constructor|]. }
  unfold Unmarshal, print_struct. rewrite <- !str_app_assoc.
  change (skip_ws ("{" +:+ ?x)) with (String "{"%char x).
  match goal with |- context [2 * ?x + 2] => replace (2 * x + 2) with (S (S (2 * x))) by lia end.
  cbn [parse_value]. rewrite (decide_False (P := "{"%char = quote)) by done. rewrite decide_True by done.
  assert (∃ x, print_fields html (f :: fs) +:+ "}" +:+ t = String quote x) as [x Hx].
  { destruct f as [k v]. destruct fs; eexists; reflexivity. }
  pose proof (print_fields_length html (f :: fs)) as Hl.
  assert (length (f :: fs) < String.length (String quote x)) as Hl'.
  { rewrite <- Hx, !str_app_length. simpl (String.length "}"). lia. }
  rewrite Hx. change (skip_ws (String quote x)) with (String quote x). cbn iota. rewrite decide_False by done.
  match goal with |- context [parse_members ?n _] =>
    destruct (parse_members_any n html (f :: fs) t) as [ms Hms]; [done|simpl in *; lia|] end.
  rewrite Hx in Hms. rewrite Hms. cbn. exists (JObj ms). by rewrite decide_True.
Qed.
Lemma Unmarshal_any_string html s t : skip_ws t = "" → ∃ v, Unmarshal (print_string html s +:+ t) = Some v.
Proof.
  intros Ht. unfold Unmarshal.
  change (skip_ws (print_string html s +:+ t)) with (print_string html s +:+ t).
  match goal with |- context [2 * ?x + 2] => replace (2 * x + 2) with (S (2 * x + 1)) by lia end.
  rewrite parse_value_any. exists (JStr (sanitize s)). by rewrite decide_True.
Qed.

(** ** Build of a typed value *)
Definition typed (p : iface) : bool :=
  match p with INil | IProperty _ | IPtr _ _ | IValue _ => false | _ => true end.

Lemma Compact_any_struct html fs t :
  skip_ws t = "" → compact false t = "" → Compact (print_struct html fs +:+ t) = Some (print_struct html fs).
Proof.
  intros Ht Hc. unfold Compact. destruct (Unmarshal_any_struct html fs t Ht) as [v ->].
  by rewrite compact_print_struct, Hc, str_app_nil_r.
Qed.

Lemma jsonMarshal_typed p : typed p = true → ∃ d, encode_iface p = Ok d ∧ jsonMarshal p = Ok d.
Proof.
  unfold jsonMarshal. intros Hp.
  assert (∀ html fs, of_option (Compact (print_struct html fs +:+ newline)) = Ok (print_struct html fs)) as Hst
    by (intros; by rewrite Compact_any_struct).
  destruct p; simpl in *; try done; try (eexists; split; [done|apply Hst]).
  1-2: eexists; split; [done|]; simpl; unfold Compact;
    destruct (Unmarshal_any_string false s newline eq_refl) as [v ->]; by rewrite compact_print_string, str_app_nil_r.
  unfold File_MarshalJSON. set (fs := _ ++ _).
  pose proof (Compact_any_struct true fs "" eq_refl eq_refl) as E. rewrite str_app_nil_r in E. rewrite E.
  eexists. split; [done|]. simpl. apply Hst.
Qed.

(** The registered type of a typed value. *)
Definition type_of (p : iface) : string :=
  match p with
  | IPackage _ => TypePackage | IPackageRequired _ => TypePackageRequired | IChannel _ => TypeChannel
  | IGVK _ => TypeGVK | IGVKRequired _ => TypeGVKRequired | ISkips _ => TypeSkips
  | ISkipRange _ => TypeSkipRange | IBundleObject _ => TypeBundleObject | _ => ""
  end.

Lemma MustBuild_typed p :
  typed p = true → ∃ d, encode_iface p = Ok d ∧ MustBuild init_scheme p = Ok (mkProp (type_of p) (Some d)).
Proof.
  intros Hp. destruct (jsonMarshal_typed p Hp) as (d & He & Hm). exists d. split; [done|].
  unfold MustBuild, Build. destruct p; try done; rewrite Hm; reflexivity.
Qed.

(** The property [MustBuild] returns. *)
Definition built (p : iface) : property_Property :=
  match encode_iface p with Ok d => mkProp (type_of p) (Some d) | _ => mkProp "" None end.
Lemma MustBuild_built p : typed p = true → MustBuild init_scheme p = Ok (built p).
Proof. intros Hp. destruct (MustBuild_typed p Hp) as (d & He & ->). unfold built. by rewrite He. Qed.
Lemma built_type p : typed p = true → p_Type (built p) = type_of p.
Proof. intros Hp. destruct (MustBuild_typed p Hp) as (d & He & _). unfold built. by rewrite He. Qed.
