(* ===== verification/Model.v ===== *)
(** * The operator graph in memory

    [internal/model]: packages, channels and bundles are Go structs that point
    at each other.  The heap is explicit: a pointer is a location, a nil pointer
    field is [None], and the comparisons [ch == m.DefaultChannel],
    [ch.Package != m] and [b.Channel != c] of the validators compare locations.
    A nil pointer stored in a map is a location outside the heap; using it
    panics.  The maps [Channels] and [Bundles] are [None] when nil: reading a
    nil map finds nothing, storing into it panics.

    The order of [range] over a map comes from the [GoRuntime]; the theorems
    hold for each. *)
From S2P Require Import Prelude Json JsonCompact Property.
From stdpp Require Import options.

Definition loc : Type := positive.

Record model_Icon := mkIcon { ic_Data : string; ic_MediaType : string }.
Record model_RelatedImage := mkRI { ri_Name : string; ri_Image : string }.
Record model_Package := mkPackage {
  Package_Name : string;
  Package_Description : string;
  Package_Icon : option model_Icon;
  Package_DefaultChannel : option loc;
  Package_Channels : option (gmap string loc)
}.
Record model_Channel := mkChannel {
  Channel_Package : option loc;
  Channel_Name : string;
  Channel_Bundles : option (gmap string loc)
}.
Record model_Bundle := mkBundle {
  Bundle_Package : option loc;
  Bundle_Channel : option loc;
  Bundle_Name : string;
  Bundle_Image : string;
  Bundle_Replaces : string;
  Bundle_Skips : list string;
  Bundle_Properties : list property_Property;
  Bundle_RelatedImages : list model_RelatedImage;
  Bundle_Objects : list string;
  Bundle_CsvJSON : string
}.
Record heap := mkHeap {
  h_packages : gmap loc model_Package;
  h_channels : gmap loc model_Channel;
  h_bundles : gmap loc model_Bundle
}.
Abbreviation model_Model := (gmap string loc) (only parsing).

Definition entries (m : option (gmap string loc)) : gmap string loc := default ∅ m.
Definition channels_of (p : model_Package) : gmap string loc := entries (Package_Channels p).
Definition bundles_of (c : model_Channel) : gmap string loc := entries (Channel_Bundles c).

(** [newValidationError(fmt.Sprintf(...))], its sub-errors, and [orNil] *)
Definition orNil (format : string) (args : list errarg) (subErrors : list error) : option error :=
  match subErrors with [] => None | _ => Some (ValidationError format args subErrors) end.
(** [if err := ...; err != nil { result.subErrors = append(result.subErrors, err) }] *)
Definition sub (o : option error) : list error := match o with None => [] | Some e => [e] end.

Definition Icon_Validate (i : option model_Icon) : option error :=
  match i with
  | None => None
  | Some _ => orNil "invalid icon" [] []
  end.
Definition RelatedImage_Validate (i : model_RelatedImage) : option error :=
  orNil "invalid related image" [] (err_if (bool_decide (ri_Image i = "")) (ErrNew "image must be set")).

(** [validateData]: the image detection is the filetype library's. *)
Definition Icon_validateData (IsImage : string → bool) (Match : string → res string) (i : model_Icon)
    : res (option error) :=
  if negb (IsImage (ic_Data i)) then Ok (Some (ErrNew "icon data is not an image"))
  else match Match (ic_Data i) with
       | Ok mime =>
           Ok (if decide (mime = ic_MediaType i) then None
               else Some (Errorf "icon media type %q does not match detected media type %q"
                            [AStr (ic_MediaType i); AStr mime]))
       | Err e => Ok (Some e)
       | Panic => Panic
       end.

Fixpoint skip_errors (i : Z) (skips : list string) : list error :=
  match skips with
  | [] => []
  | s :: l => err_if (bool_decide (s = "")) (Errorf "skip[%d] is empty" [AInt i]) ++ skip_errors (i + 1) l
  end.

Definition Bundle_Validate (h : heap) (b : model_Bundle) : res (option error) :=
  link ← match Bundle_Channel b, Bundle_Package b with
         | Some c, Some p =>
             ch ← deref (h_channels h !! c);
             Ok (err_if (negb (bool_decide (Some p = Channel_Package ch)))
                   (ErrNew "package does not match channel's package"))
         | _, _ => Ok []
         end;
  parsed ← match property_Parse (Bundle_Properties b) with
           | Ok props =>
               Ok (err_if (negb (bool_decide (length (ps_Packages props) = 1)))
                     (Errorf "must be exactly one property with type %q" [AStr TypePackage]), [])
           | Err e => Ok ([], [e])
           | Panic => Panic
           end;
  Ok (orNil "invalid bundle %q" [AStr (Bundle_Name b)] (
    err_if (bool_decide (Bundle_Name b = "")) (ErrNew "name must be set") ++
    err_if (bool_decide (Bundle_Channel b = None)) (ErrNew "channel must be set") ++
    err_if (bool_decide (Bundle_Package b = None)) (ErrNew "package must be set") ++
    link ++ parsed.2 ++ skip_errors 0 (Bundle_Skips b) ++ parsed.1 ++
    err_if (bool_decide (Bundle_Image b = "") && bool_decide (Bundle_Objects b = []))
      (ErrNew "bundle image must be set"))).

(** ** The channel head *)
Definition incr (k : string) (m : gmap string Z) : gmap string Z := <[k := (default 0 (m !! k) + 1)%Z]> m.
Definition count_edges (incoming : gmap string Z) (b : model_Bundle) : gmap string Z :=
  foldl (flip incr)
    (if decide (Bundle_Replaces b = "") then incoming else incr (Bundle_Replaces b) incoming)
    (Bundle_Skips b).

Section validate.
Context `{GoRuntime}.

(** The [*Bundle]s of a channel, with what they point to, in [range] order. *)
Definition range_bundles (h : heap) (c : model_Channel) : res (list (loc * model_Bundle)) :=
  mapR (λ '(_, l), b ← deref (h_bundles h !! l); Ok (l, b)) (range (bundles_of c)).

Definition Channel_Head (h : heap) (c : model_Channel) : res loc :=
  bs ← range_bundles h c;
  let incoming := foldl count_edges ∅ bs.*2 in
  let heads := filter (λ lb, incoming !! Bundle_Name lb.2 = None) bs in
  match heads with
  | [] => Err (ErrNew "no channel head found in graph")
  | [(l, _)] => Ok l
  | _ => Err (Errorf "multiple channel heads found in graph: %s"
                [AStr (Join (Bundle_Name <$> heads.*2) ", ")])
  end.

Definition Channel_Validate (h : heap) (cl : loc) : res (option error) :=
  c ← deref (h_channels h !! cl);
  head ← (if decide (bundles_of c = ∅) then Ok []
          else match Channel_Head h c with
               | Ok _ => Ok []
               | Err e => Ok [e]
               | Panic => Panic
               end);
  subs ← collect (λ '(name, bl),
            b ← deref (h_bundles h !! bl);
            err ← Bundle_Validate h b;
            Ok (err_if (negb (bool_decide (name = Bundle_Name b)))
                  (Errorf "bundle key %q does not match bundle name %q" [AStr name; AStr (Bundle_Name b)]) ++
                sub err ++
                err_if (negb (bool_decide (Bundle_Channel b = Some cl)))
                  (Errorf "bundle %q not correctly linked to parent channel" [AStr (Bundle_Name b)])))
          (range (bundles_of c));
  Ok (orNil "invalid channel %q" [AStr (Channel_Name c)] (
    err_if (bool_decide (Channel_Name c = "")) (ErrNew "channel name must not be empty") ++
    err_if (bool_decide (Channel_Package c = None)) (ErrNew "package must be set") ++
    err_if (bool_decide (bundles_of c = ∅)) (ErrNew "channel must contain at least one bundle") ++
    head ++ subs)).

Definition Package_Validate (h : heap) (pl : loc) : res (option error) :=
  m ← deref (h_packages h !! pl);
  subs ← collect (λ '(name, cl),
            ch ← deref (h_channels h !! cl);
            err ← Channel_Validate h cl;
            Ok (err_if (negb (bool_decide (name = Channel_Name ch)))
                  (Errorf "channel key %q does not match channel name %q" [AStr name; AStr (Channel_Name ch)]) ++
                sub err ++
                err_if (negb (bool_decide (Channel_Package ch = Some pl)))
                  (Errorf "channel %q not correctly linked to parent package" [AStr (Channel_Name ch)])))
          (range (channels_of m));
  let foundDefault := existsb (λ '(_, cl), bool_decide (Some cl = Package_DefaultChannel m))
                        (range (channels_of m)) in
  dflt ← match Package_DefaultChannel m with
         | Some d =>
             if foundDefault then Ok []
             else ch ← deref (h_channels h !! d);
                  Ok [Errorf "default channel %q not found in channels list" [AStr (Channel_Name ch)]]
         | None => Ok []
         end;
  Ok (orNil "invalid package %q" [AStr (Package_Name m)] (
    err_if (bool_decide (Package_Name m = "")) (ErrNew "package name must not be empty") ++
    sub (Icon_Validate (Package_Icon m)) ++
    err_if (bool_decide (Package_DefaultChannel m = None)) (ErrNew "default channel must be set") ++
    err_if (bool_decide (channels_of m = ∅)) (ErrNew "package must contain at least one channel") ++
    subs ++ dflt)).

Definition Model_Validate (h : heap) (m : model_Model) : res (option error) :=
  subs ← collect (λ '(name, pl),
            pkg ← deref (h_packages h !! pl);
            err ← Package_Validate h pl;
            Ok (err_if (negb (bool_decide (name = Package_Name pkg)))
                  (Errorf "package key %q does not match package name %q" [AStr name; AStr (Package_Name pkg)]) ++
                sub err))
          (range m);
  Ok (orNil "invalid index" [] subs).
End validate.

(** ** What a valid model is

    The declarative reading of the validators: no error is collected anywhere,
    and no nil pointer is met. *)
Definition has_incoming (bs : list model_Bundle) (name : string) : Prop :=
  ∃ b, b ∈ bs ∧ ((Bundle_Replaces b ≠ "" ∧ Bundle_Replaces b = name) ∨ name ∈ Bundle_Skips b).

(** The bundles of [c] are allocated; [head] is the entry of the only one that
    no bundle of the channel replaces or skips. *)
Definition is_head (h : heap) (c : model_Channel) (head : loc) : Prop :=
  (∀ k l, bundles_of c !! k = Some l → is_Some (h_bundles h !! l)) ∧
  let orphan k l := bundles_of c !! k = Some l ∧
    ∃ b, h_bundles h !! l = Some b ∧
      ∀ k' l' b', bundles_of c !! k' = Some l' → h_bundles h !! l' = Some b' →
        ¬ has_incoming [b'] (Bundle_Name b) in
  ∃ k, orphan k head ∧ ∀ k' l', orphan k' l' → k' = k.

Record bundle_wf (h : heap) (b : model_Bundle) : Prop := {
  bwf_name : Bundle_Name b ≠ "";
  bwf_links : ∃ c p ch, Bundle_Channel b = Some c ∧ Bundle_Package b = Some p ∧
    h_channels h !! c = Some ch ∧ Channel_Package ch = Some p;
  bwf_props : ∃ props, property_Parse (Bundle_Properties b) = Ok props ∧ length (ps_Packages props) = 1;
  bwf_skips : "" ∉ Bundle_Skips b;
  bwf_image : Bundle_Image b ≠ "" ∨ Bundle_Objects b ≠ []
}.
Record channel_wf (h : heap) (cl : loc) (c : model_Channel) : Prop := {
  cwf_name : Channel_Name c ≠ "";
  cwf_package : Channel_Package c ≠ None;
  cwf_head : ∃ l, is_head h c l;
  cwf_bundles : ∀ name bl, bundles_of c !! name = Some bl →
    ∃ b, h_bundles h !! bl = Some b ∧ Bundle_Name b = name ∧ bundle_wf h b ∧ Bundle_Channel b = Some cl
}.
Record package_wf (h : heap) (pl : loc) (m : model_Package) : Prop := {
  pwf_name : Package_Name m ≠ "";
  pwf_default : ∃ name d, Package_DefaultChannel m = Some d ∧ channels_of m !! name = Some d;
  pwf_channels : ∀ name cl, channels_of m !! name = Some cl →
    ∃ c, h_channels h !! cl = Some c ∧ Channel_Name c = name ∧ channel_wf h cl c ∧ Channel_Package c = Some pl
}.
Definition model_wf (h : heap) (m : model_Model) : Prop :=
  ∀ name pl, m !! name = Some pl →
    ∃ pkg, h_packages h !! pl = Some pkg ∧ Package_Name pkg = name ∧ package_wf h pl pkg.

(** ** Correctness of the validators *)
Lemma orNil_None f a es : orNil f a es = None ↔ es = [].
Proof. by destruct es. Qed.
Lemma sub_nil o : sub o = [] ↔ o = None.
Proof. by destruct o. Qed.

Create Rewrite HintDb validate.
#[export] Hint Rewrite @bind_Ok @deref_Ok @Ok_inj @app_nil orNil_None sub_nil err_if_nil
  negb_false_iff @bool_decide_eq_false @bool_decide_eq_true @collect_nil : validate.

Lemma skip_errors_nil i skips : skip_errors i skips = [] ↔ "" ∉ skips.
Proof.
  revert i. induction skips as [|s l IH]; intros i; simpl; [set_solver|].
  rewrite app_nil, err_if_nil, bool_decide_eq_false, IH, not_elem_of_cons. naive_solver.
Qed.

Lemma Bundle_Validate_wf h b : Bundle_Validate h b = Ok None ↔ bundle_wf h b.
Proof.
  unfold Bundle_Validate. split.
  - intros Hv. rewrite bind_Ok in Hv. destruct Hv as (link & Hlink & Hv).
    rewrite bind_Ok in Hv. destruct Hv as ([np perr] & Hp & Hv). injection Hv as Hv.
    apply orNil_None in Hv. simpl in Hv.
    autorewrite with validate in Hv. rewrite skip_errors_nil in Hv.
    rewrite andb_false_iff, !bool_decide_eq_false in Hv.
    destruct Hv as (Hname & Hch & Hpk & -> & -> & Hsk & -> & Himg).
    destruct (Bundle_Channel b) as [c|] eqn:Ec; [|done]. destruct (Bundle_Package b) as [p|] eqn:Ep; [|done].
    apply bind_Ok in Hlink as (ch & Hd & Hl). apply deref_Ok in Hd.
    autorewrite with validate in Hl.
    split; [done| | |done|done].
    + exists c, p, ch. auto.
    + destruct (property_Parse _) as [props| |]; simplify_eq. exists props.
      autorewrite with validate in Hp. by simplify_eq.
  - intros [Hn (c & p & ch & -> & -> & Hc & Hp) (props & -> & Hl) Hs Hi]. rewrite Hc. simpl.
    rewrite Hp. autorewrite with validate.
    rewrite skip_errors_nil, andb_false_iff, !bool_decide_eq_false. auto.
Qed.

(** *** The head *)
Lemma incr_None k n m : incr k m !! n = None ↔ m !! n = None ∧ n ≠ k.
Proof. unfold incr. destruct (decide (n = k)) as [->|]; simplify_map_eq; naive_solver. Qed.

Lemma foldl_incr_None l n m : foldl (flip incr) m l !! n = None ↔ m !! n = None ∧ n ∉ l.
Proof.
  revert m. induction l as [|k l IH]; intros m; simpl; [set_solver|].
  rewrite IH. unfold flip. rewrite incr_None, not_elem_of_cons. tauto.
Qed.

Lemma count_edges_None inc b n :
  count_edges inc b !! n = None ↔ inc !! n = None ∧ ¬ has_incoming [b] n.
Proof.
  unfold count_edges, has_incoming. rewrite foldl_incr_None.
  setoid_rewrite list_elem_of_singleton. case_decide as E; rewrite ?incr_None; split.
  - intros [? ?]. split; [done|]. intros (? & -> & [[? ?]|?]); done.
  - intros [? Hn]. split; [done|]. intros ?. apply Hn. eauto.
  - intros [[? ?] ?]. split; [done|]. intros (? & -> & [[? ?]|?]); congruence.
  - intros [? Hn]. split_and!; [done|..]; intros ?; apply Hn; subst; eauto.
Qed.

Lemma incoming_None bs n :
  foldl count_edges ∅ bs !! n = None ↔ ∀ b, b ∈ bs → ¬ has_incoming [b] n.
Proof.
  assert (∀ inc, foldl count_edges inc bs !! n = None ↔ inc !! n = None ∧ ∀ b, b ∈ bs → ¬ has_incoming [b] n) as E.
  { induction bs as [|b bs IH]; intros inc; simpl; [set_solver|].
    rewrite IH, count_edges_None. setoid_rewrite elem_of_cons. naive_solver. }
  rewrite E. rewrite lookup_empty. naive_solver.
Qed.

(** A list has exactly one element, when its keys are distinct, iff one key is left. *)
Lemma singleton_by_key {K V} (l : list (K * V)) :
  NoDup l.*1 →
  (∃ k v, (k, v) ∈ l ∧ ∀ k' v', (k', v') ∈ l → k' = k) ↔ ∃ x, l = [x].
Proof.
  intros Hn. split.
  - intros (k & v & Hin & Hu). destruct l as [|[k1 v1] [|[k2 v2] l]]; [by apply elem_of_nil in Hin|eauto|].
    assert (k1 = k) as -> by (eapply Hu; left). assert (k2 = k) as -> by (eapply Hu; right; left).
    simpl in Hn. apply NoDup_cons in Hn as [Hn _]. destruct Hn. left.
  - intros [[k v] ->]. exists k, v. split; [left|]. intros k' v' [= -> ->]%list_elem_of_singleton. done.
Qed.

Section head.
Context `{GoRuntime}.
Variables (h : heap) (c : model_Channel).
Let zero_bundle : model_Bundle := mkBundle None None "" "" "" [] [] [] [] "".
Let bundle_at (l : loc) : model_Bundle := default zero_bundle (h_bundles h !! l).
Let allocated : Prop := ∀ k l, bundles_of c !! k = Some l → is_Some (h_bundles h !! l).
Let orphan (kl : string * loc) : Prop :=
  foldl count_edges ∅ (bundle_at <$> (range (bundles_of c)).*2) !! Bundle_Name (bundle_at kl.2) = None.

Lemma range_bundles_eq :
  range_bundles h c =
    if decide (Forall (λ kl, is_Some (h_bundles h !! kl.2)) (range (bundles_of c)))
    then Ok ((λ kl, (kl.2, bundle_at kl.2)) <$> range (bundles_of c)) else Panic.
Proof.
  unfold range_bundles, bundle_at. induction (range (bundles_of c)) as [|[k l] es IH]; simpl; [done|].
  rewrite IH. destruct (h_bundles h !! l) as [b|] eqn:E; simpl.
  - case_decide as Ha; case_decide as Hb; simpl; try done.
    + destruct Hb. constructor; [|done]. simpl. by rewrite E.
    + by apply Forall_cons in Hb as [? ?].
  - rewrite decide_False; [done|]. rewrite Forall_cons. simpl. rewrite E. intros [[? ?] _]. done.
Qed.

Lemma allocated_range :
  Forall (λ kl, is_Some (h_bundles h !! kl.2)) (range (bundles_of c)) ↔ allocated.
Proof.
  rewrite Forall_forall. unfold allocated. split.
  - intros Hf k l Hk%range_elem. apply (Hf (k, l) Hk).
  - intros Ha [k l] Hk%range_elem. eauto.
Qed.

Lemma orphan_spec k l :
  allocated → bundles_of c !! k = Some l →
  orphan (k, l) ↔
  ∃ b, h_bundles h !! l = Some b ∧
    ∀ k' l' b', bundles_of c !! k' = Some l' → h_bundles h !! l' = Some b' →
      ¬ has_incoming [b'] (Bundle_Name b).
Proof.
  intros Ha Hk. unfold orphan, bundle_at. rewrite incoming_None. simpl.
  destruct (Ha k l Hk) as [b Hb]. rewrite Hb. simpl. split.
  - intros Ho. exists b. split; [done|]. intros k' l' b' Hk' Hb'. apply Ho.
    apply list_elem_of_fmap. exists l'. rewrite Hb'. split; [done|].
    apply list_elem_of_fmap. exists (k', l'). by rewrite range_elem.
  - intros (b2 & [= <-] & Ho) b' Hin.
    apply list_elem_of_fmap in Hin as (l' & -> & Hl'). apply list_elem_of_fmap in Hl' as ([k' l''] & -> & Hk').
    apply range_elem in Hk'. simpl. destruct (Ha _ _ Hk') as [b' Hb']. rewrite Hb'. simpl. eauto.
Qed.

Lemma Channel_Head_unfold :
  Channel_Head h c =
    if decide (Forall (λ kl, is_Some (h_bundles h !! kl.2)) (range (bundles_of c))) then
      match filter orphan (range (bundles_of c)) with
      | [] => Err (ErrNew "no channel head found in graph")
      | [kl] => Ok kl.2
      | heads => Err (Errorf "multiple channel heads found in graph: %s"
                   [AStr (Join ((λ kl, Bundle_Name (bundle_at kl.2)) <$> heads) ", ")])
      end
    else Panic.
Proof.
  unfold Channel_Head. rewrite range_bundles_eq. case_decide; [|done]. simpl.
  rewrite filter_fmap.
  assert (((λ kl, (kl.2, bundle_at kl.2)) <$> range (bundles_of c)).*2
          = bundle_at <$> (range (bundles_of c)).*2) as -> by (by rewrite <- !list_fmap_compose).
  simpl. fold orphan. destruct (filter _ _) as [|kl [|kl' heads]]; simpl; [done|done|].
  by rewrite <- !list_fmap_compose.
Qed.

Lemma Channel_Head_Ok l : Channel_Head h c = Ok l ↔ is_head h c l.
Proof.
  rewrite Channel_Head_unfold. unfold is_head. split.
  - case_decide as Ha; [|done]. rewrite allocated_range in Ha.
    destruct (filter orphan (range (bundles_of c))) as [|[k l'] [|? ?]] eqn:E; try done.
    intros [= ->]. split; [done|].
    assert (∀ k' l', bundles_of c !! k' = Some l' ∧ orphan (k', l') ↔ (k', l') = (k, l)) as Hu.
    { intros k' l'. rewrite <- range_elem, <- list_elem_of_singleton, <- E, list_elem_of_filter. tauto. }
    exists k. destruct (proj2 (Hu k l) eq_refl) as [Hk Ho].
    split; [split; [done|]; by apply (orphan_spec k l)|].
    intros k' l' [Hk' Ho']. apply (orphan_spec k' l') in Ho'; [|done..].
    pose proof (proj1 (Hu k' l') (conj Hk' Ho')). congruence.
  - intros (Ha & k & [Hk Ho] & Hu). rewrite decide_True by by apply allocated_range.
    assert ((k, l) ∈ filter orphan (range (bundles_of c))) as Hin.
    { rewrite list_elem_of_filter, range_elem. split; [by apply orphan_spec|done]. }
    assert (∃ x, filter orphan (range (bundles_of c)) = [x]) as [[k' l'] E].
    { apply singleton_by_key.
      - eapply sublist_NoDup; [exact (range_NoDup (bundles_of c))|]. apply sublist_map, sublist_filter.
      - exists k, l. split; [done|]. intros k' l'. rewrite list_elem_of_filter, range_elem. intros [Ho' Hk'].
        apply (Hu k' l'). split; [done|]. by apply (orphan_spec k' l'). }
    rewrite E in *. by apply list_elem_of_singleton in Hin as [= -> ->].
Qed.
End head.

Section validators.
Context `{GoRuntime}.

(** *** Channels, packages, models *)
Lemma Channel_Validate_wf h cl :
  Channel_Validate h cl = Ok None ↔ ∃ c, h_channels h !! cl = Some c ∧ channel_wf h cl c.
Proof.
  unfold Channel_Validate. rewrite bind_Ok. setoid_rewrite deref_Ok.
  apply exist_proper. intros c. apply and_iff_compat_l.
  rewrite bind_Ok. setoid_rewrite bind_Ok. setoid_rewrite Ok_inj. setoid_rewrite orNil_None.
  split.
  - intros (hd & Hhd & subs & Hsubs & Hes). autorewrite with validate in Hes.
    destruct Hes as (Hn & Hp & Hb & -> & ->). rewrite decide_False in Hhd by done.
    rewrite collect_nil in Hsubs. split; [done|done| |].
    + destruct (Channel_Head h c) as [l| |] eqn:E; try done. exists l. by apply Channel_Head_Ok.
    + intros name bl Hbl%range_elem. specialize (Hsubs _ Hbl). simpl in Hsubs.
      apply bind_Ok in Hsubs as (b & Hb' & Hes). apply bind_Ok in Hes as (err & Herr & Hes).
      autorewrite with validate in Hb', Hes.
      destruct Hes as (Hname & -> & Hch). apply Bundle_Validate_wf in Herr. exists b. by rewrite Hname.
  - intros [Hn Hp [l Hl] Hb]. exists [].
    assert (bundles_of c ≠ ∅) as Hne.
    { destruct Hl as (_ & k & [Hk _] & _). intros E. by rewrite E in Hk. }
    rewrite decide_False by done. apply Channel_Head_Ok in Hl. rewrite Hl. split; [done|].
    exists []. rewrite collect_nil. split; [|by autorewrite with validate].
    intros [name bl] Hbl%range_elem. destruct (Hb _ _ Hbl) as (b & E & Hname & Hwf & Hc).
    rewrite E. simpl. apply Bundle_Validate_wf in Hwf. rewrite Hwf. simpl.
    by autorewrite with validate.
Qed.

Lemma Package_Validate_wf h pl :
  Package_Validate h pl = Ok None ↔ ∃ m, h_packages h !! pl = Some m ∧ package_wf h pl m.
Proof.
  unfold Package_Validate. rewrite bind_Ok. setoid_rewrite deref_Ok.
  apply exist_proper. intros m. apply and_iff_compat_l.
  assert (existsb (λ '(_, cl), bool_decide (Some cl = Package_DefaultChannel m)) (range (channels_of m)) = true
          ↔ ∃ name d, Package_DefaultChannel m = Some d ∧ channels_of m !! name = Some d) as Hfound.
  { rewrite existsb_exists. setoid_rewrite <- list_elem_of_In. split.
    - intros ([name d] & Hin%range_elem & Hd%bool_decide_eq_true). eauto.
    - intros (name & d & Hd & Hin%range_elem). exists (name, d). split; [done|]. by apply bool_decide_eq_true. }
  rewrite bind_Ok. setoid_rewrite bind_Ok. setoid_rewrite Ok_inj. setoid_rewrite orNil_None.
  split.
  - intros (subs & Hsubs & dflt & Hdf & Hes). autorewrite with validate in Hes.
    destruct Hes as (Hn & _ & Hd & Hb & -> & ->).
    rewrite collect_nil in Hsubs. split; [done| |].
    + apply Hfound. destruct (Package_DefaultChannel m) as [d|]; [|done].
      destruct (existsb _ _); [done|]. autorewrite with validate in Hdf. naive_solver.
    + intros name cl Hcl%range_elem. specialize (Hsubs _ Hcl). simpl in Hsubs.
      apply bind_Ok in Hsubs as (c & Hc & Hes). apply bind_Ok in Hes as (err & Herr & Hes).
      autorewrite with validate in Hc, Hes.
      destruct Hes as (Hname & -> & Hch). apply Channel_Validate_wf in Herr as (c' & Hc' & Hwf).
      simplify_eq. by exists c.
  - intros [Hn Hd Hc]. exists []. rewrite collect_nil. split.
    { intros [name cl] Hcl%range_elem. destruct (Hc _ _ Hcl) as (c & E & Hname & Hwf & Hp).
      rewrite E. simpl. assert (Channel_Validate h cl = Ok None) as -> by (apply Channel_Validate_wf; eauto).
      simpl. by autorewrite with validate. }
    exists []. rewrite <- Hfound in Hd. pose proof Hd as Hd'. rewrite Hfound in Hd'.
    destruct Hd' as (name & d & Hd1 & Hd2). rewrite Hd1 in *. rewrite Hd. split; [done|].
    autorewrite with validate. split_and!; try done; [by destruct (Package_Icon m)|].
    intros E. by rewrite E in Hd2.
Qed.

Lemma Model_Validate_model_wf h m : Model_Validate h m = Ok None ↔ model_wf h m.
Proof.
  unfold Model_Validate, model_wf. rewrite bind_Ok. setoid_rewrite Ok_inj. setoid_rewrite orNil_None.
  split.
  - intros (subs & Hsubs & ->). rewrite collect_nil in Hsubs.
    intros name pl Hpl%range_elem. specialize (Hsubs _ Hpl). simpl in Hsubs.
    apply bind_Ok in Hsubs as (pkg & Hp & Hes). apply bind_Ok in Hes as (err & Herr & Hes).
    autorewrite with validate in Hp, Hes.
    destruct Hes as (Hname & ->). apply Package_Validate_wf in Herr as (p' & Hp' & Hwf). simplify_eq. by exists pkg.
  - intros Hm. exists []. rewrite collect_nil. split; [|done].
    intros [name pl] Hpl%range_elem. destruct (Hm _ _ Hpl) as (pkg & E & Hname & Hwf).
    rewrite E. simpl. assert (Package_Validate h pl = Ok None) as -> by (apply Package_Validate_wf; eauto).
    simpl. by autorewrite with validate.
Qed.
End validators.

(** ** Properties *)

(** C4. [Model.Validate] returns nil exactly for the well-formed models, for
    every order in which the runtime visits the maps: keys equal names, names
    are set, every channel and bundle points back to its parent, the default
    channel is one of the package's channels, every channel has exactly one head,
    and every bundle has parsable properties with exactly one package, no empty
    skip, and an image or objects. *)
Theorem Model_Validate_iff `{GoRuntime} h m : Model_Validate h m = Ok None ↔ model_wf h m.
Proof. apply Model_Validate_model_wf. Qed.

(** [Channel.Head] returns a bundle exactly when it is the only one of the
    channel that no bundle of the channel replaces or skips, it panics exactly
    when the channel holds a nil bundle, and otherwise it returns an error. *)
Theorem Channel_Head_spec `{GoRuntime} h c :
  (∀ l, Channel_Head h c = Ok l ↔ is_head h c l) ∧
  (Channel_Head h c = Panic ↔ ∃ k l, bundles_of c !! k = Some l ∧ h_bundles h !! l = None).
Proof.
  split; [apply Channel_Head_Ok|]. rewrite Channel_Head_unfold. case_decide as Ha.
  - split; [intros E; by repeat case_match|]. intros (k & l & Hk & Hl).
    destruct (proj1 (allocated_range h c) Ha k l Hk) as [b Hb]. congruence.
  - split; [intros _|done]. apply not_Forall_Exists, Exists_exists in Ha; [|tc_solve].
    destruct Ha as ([k l] & Hin%range_elem & Hl). exists k, l. split; [done|]. by apply eq_None_not_Some.
Qed.

(** ** A small model, for evaluating the definitions

    Package [p] with the default channel [c], in which [p.v2] replaces [p.v1]. *)
Definition ex_props : list property_Property :=
  [mkProp TypePackage (Some (print_struct false [("packageName", "p"); ("version", "1.0.0")]))].
Definition ex_bundle (name replaces : string) : model_Bundle :=
  mkBundle (Some 1%positive) (Some 1%positive) name "img" replaces [] ex_props [] [] "".
Definition ex_heap : heap := mkHeap
  {[1%positive := mkPackage "p" "" None (Some 1%positive) (Some {["c" := 1%positive]})]}
  {[1%positive := mkChannel (Some 1%positive) "c"
      (Some (list_to_map [("p.v1", 1%positive); ("p.v2", 2%positive)]))]}
  (list_to_map [(1%positive, ex_bundle "p.v1" ""); (2%positive, ex_bundle "p.v2" "p.v1")]).
Definition ex_model : model_Model := {["p" := 1%positive]}.

Example ex_model_valid : Model_Validate (H := go_default) ex_heap ex_model = Ok None.
Proof. vm_compute. reflexivity. Qed.
