(* ===== verification/ModelOps.v ===== *)
(** * Operations on the operator graph

    [Model.AddBundle] and [Model.Normalize] of internal/model, which mutate the
    shared structs, and the rendering of a validation error.  The invariant is
    that every pointer of the graph leads back where it came from. *)
From S2P Require Import Prelude Json JsonCompact Property Model.
From stdpp Require Import options.

(** ** AddBundle *)
Definition with_links (b : model_Bundle) (p c : loc) : model_Bundle :=
  mkBundle (Some p) (Some c) (Bundle_Name b) (Bundle_Image b) (Bundle_Replaces b) (Bundle_Skips b)
    (Bundle_Properties b) (Bundle_RelatedImages b) (Bundle_Objects b) (Bundle_CsvJSON b).

Definition AddBundle (h : heap) (m : model_Model) (b : model_Bundle) : res (heap * model_Model) :=
  pl0 ← deref (Bundle_Package b);
  pkg0 ← deref (h_packages h !! pl0);
  let name := Package_Name pkg0 in
  let m' := match m !! name with Some _ => m | None => <[name := pl0]> m end in
  p ← deref (m' !! name);
  pkg ← deref (h_packages h !! p);
  cl0 ← deref (Bundle_Channel b);
  ch0 ← deref (h_channels h !! cl0);
  let bl := fresh (dom (h_bundles h)) in
  hc ← match channels_of pkg !! Channel_Name ch0 with
       | Some cl =>
           ch ← deref (h_channels h !! cl);
           bs ← deref (Channel_Bundles ch);
           let ch' := mkChannel (Channel_Package ch) (Channel_Name ch) (Some (<[Bundle_Name b := bl]> bs)) in
           Ok (mkHeap (h_packages h) (<[cl := ch']> (h_channels h))
                 (<[bl := with_links b p cl]> (h_bundles h)), cl)
       | None =>
           let cl := fresh (dom (h_channels h)) in
           let newCh := mkChannel (Some p) (Channel_Name ch0) (Some {[Bundle_Name b := bl]}) in
           chs ← deref (Package_Channels pkg);
           let pkg' := mkPackage (Package_Name pkg) (Package_Description pkg) (Package_Icon pkg)
                         (Package_DefaultChannel pkg) (Some (<[Channel_Name ch0 := cl]> chs)) in
           Ok (mkHeap (<[p := pkg']> (h_packages h)) (<[cl := newCh]> (h_channels h))
                 (<[bl := with_links b p cl]> (h_bundles h)), cl)
       end;
  let '(h1, c) := hc in
  pkg1 ← deref (h_packages h1 !! p);
  Ok (match Package_DefaultChannel pkg1 with
      | None =>
          mkHeap (<[p := mkPackage (Package_Name pkg1) (Package_Description pkg1) (Package_Icon pkg1)
                          (Some c) (Package_Channels pkg1)]> (h_packages h1)) (h_channels h1) (h_bundles h1)
      | Some _ => h1
      end, m').

(** ** The invariant *)
Definition bundle_linked (h : heap) (pl cl : loc) (n : string) (bl : loc) : Prop :=
  ∃ b, h_bundles h !! bl = Some b ∧ Bundle_Name b = n ∧
       Bundle_Channel b = Some cl ∧ Bundle_Package b = Some pl.
Definition channel_linked (h : heap) (pl : loc) (k : string) (cl : loc) : Prop :=
  ∃ ch bs, h_channels h !! cl = Some ch ∧ Channel_Name ch = k ∧ Channel_Package ch = Some pl ∧
           Channel_Bundles ch = Some bs ∧ map_Forall (bundle_linked h pl cl) bs.
Definition package_linked (h : heap) (name : string) (pl : loc) : Prop :=
  ∃ pkg chs, h_packages h !! pl = Some pkg ∧ Package_Name pkg = name ∧
             Package_Channels pkg = Some chs ∧
             (∀ d, Package_DefaultChannel pkg = Some d → ∃ k, chs !! k = Some d) ∧
             map_Forall (channel_linked h pl) chs.
Definition linked (h : heap) (m : model_Model) : Prop := map_Forall (package_linked h) m.

(** The bundle at [m[p].Channels[c].Bundles[n]]. *)
Definition find_bundle (h : heap) (m : model_Model) (p c n : string) : option model_Bundle :=
  pl ← m !! p; pkg ← h_packages h !! pl;
  cl ← channels_of pkg !! c; ch ← h_channels h !! cl;
  bl ← bundles_of ch !! n; h_bundles h !! bl.

(** ** Writing one bundle slot

    [AddBundle] and the conversion from a declarative config change the graph in
    the same way: the bundle [n] of channel [cn] of the package at [p] becomes a
    new object [b'], in the channel object [c], which either is already the
    channel [cn] with the bundles [bs] or is new. *)
Definition slot (h : heap) (chs : gmap string loc) (cn : string) (c : loc) (bs : gmap string loc) : Prop :=
  (∃ ch, chs !! cn = Some c ∧ h_channels h !! c = Some ch ∧ Channel_Bundles ch = Some bs) ∨
  (chs !! cn = None ∧ h_channels h !! c = None ∧ bs = ∅).
Definition write_slot (h : heap) (p : loc) (pkg : model_Package) (d : option loc) (chs : gmap string loc)
    (cn : string) (c : loc) (bs : gmap string loc) (n : string) (bl : loc) (b' : model_Bundle) : heap :=
  mkHeap
    (<[p := mkPackage (Package_Name pkg) (Package_Description pkg) (Package_Icon pkg) d (Some (<[cn := c]> chs))]>
       (h_packages h))
    (<[c := mkChannel (Some p) cn (Some (<[n := bl]> bs))]> (h_channels h))
    (<[bl := b']> (h_bundles h)).

Lemma channel_linked_inj h pl (chs : gmap string loc) k1 k2 cl :
  map_Forall (channel_linked h pl) chs → chs !! k1 = Some cl → chs !! k2 = Some cl → k1 = k2.
Proof.
  intros Hall H1%Hall H2%Hall. destruct H1 as (? & ? & ? & ? & _), H2 as (? & ? & ? & ? & _). congruence.
Qed.
Lemma package_linked_inj h m n1 n2 pl : linked h m → m !! n1 = Some pl → m !! n2 = Some pl → n1 = n2.
Proof.
  intros Hall H1%Hall H2%Hall. destruct H1 as (? & ? & ? & ? & _), H2 as (? & ? & ? & ? & _). congruence.
Qed.

(** The bundle [n] of the channel object [cl]. *)
Definition channel_bundle (h : heap) (cl : loc) (n : string) : option model_Bundle :=
  ch ← h_channels h !! cl; bl ← bundles_of ch !! n; h_bundles h !! bl.
Lemma find_bundle_eq h m p c n :
  find_bundle h m p c n = (pl ← m !! p; pkg ← h_packages h !! pl; cl ← channels_of pkg !! c; channel_bundle h cl n).
Proof. done. Qed.

(** Projections of a heap and its structs, without unfolding the maps. *)
Ltac heap_simpl :=
  cbn [h_packages h_channels h_bundles mbind option_bind channels_of bundles_of entries Package_Channels
       Channel_Bundles default from_option id write_slot].

Section write.
Variables (h : heap) (m : model_Model) (name : string) (p : loc) (pkg : model_Package) (d : option loc)
  (chs : gmap string loc) (cn : string) (c : loc) (bs : gmap string loc) (n : string) (bl : loc)
  (b' : model_Bundle).
Let h' := write_slot h p pkg d chs cn c bs n bl b'.
Hypothesis Hl : linked h m.
Hypothesis Hp : m !! name = Some p.
Hypothesis Hpkg : h_packages h !! p = Some pkg.
Hypothesis Hchs : Package_Channels pkg = Some chs.
Hypothesis Hc : slot h chs cn c bs.
Hypothesis Hd : ∀ x, d = Some x → Package_DefaultChannel pkg = Some x ∨ x = c.
Hypothesis Hfresh : h_bundles h !! bl = None.
Hypothesis Hb' : Bundle_Name b' = n ∧ Bundle_Channel b' = Some c ∧ Bundle_Package b' = Some p.
#[local] Set Default Proof Using "All".

Lemma write_package :
  Package_Name pkg = name ∧ (∀ x, Package_DefaultChannel pkg = Some x → ∃ k, chs !! k = Some x) ∧
  map_Forall (channel_linked h p) chs.
Proof.
  destruct (Hl _ _ Hp) as (pkg1 & chs1 & Hpkg1 & Hname & Hchs1 & Hdef & Hall).
  assert (pkg1 = pkg) as -> by congruence. assert (chs1 = chs) as -> by congruence. done.
Qed.
(** The channel object belongs to the slot and to no other. *)
Lemma write_slot_only k cl : chs !! k = Some cl → k ≠ cn → cl ≠ c.
Proof.
  destruct write_package as (_ & _ & Hall). intros Hk Hne ->. destruct Hc as [(ch & Hk' & _)|(_ & Hcn & _)].
  - apply Hne. exact (channel_linked_inj _ _ _ _ _ _ Hall Hk Hk').
  - destruct (Hall _ _ Hk) as (ch & ? & Hch & _). congruence.
Qed.
Lemma write_other_package k pl cl : pl ≠ p → channel_linked h pl k cl → cl ≠ c.
Proof.
  destruct write_package as (_ & _ & Hall). intros Hne (ch & bs' & Hch & _ & Hpp & _) ->.
  destruct Hc as [(ch1 & Hk' & Hch1 & _)|(_ & Hcn & _)]; [|congruence].
  destruct (Hall _ _ Hk') as (ch2 & ? & Hch2 & _ & Hpp2 & _). congruence.
Qed.
Lemma write_old_bundles k bl' : bs !! k = Some bl' → bundle_linked h p c k bl'.
Proof.
  destruct write_package as (_ & _ & Hall). intros Hk.
  destruct Hc as [(ch & Hk' & Hch & Hbs)|(_ & _ & ->)]; [|by rewrite lookup_empty in Hk].
  destruct (Hall _ _ Hk') as (ch1 & bs1 & Hch1 & _ & _ & Hbs1 & Hb). apply Hb. congruence.
Qed.
Lemma write_bundle_linked pl cl k l : bundle_linked h pl cl k l → bundle_linked h' pl cl k l.
Proof. intros (b & Hb & ?). exists b. split; [|done]. simpl. rewrite lookup_insert_ne; [done|]. congruence. Qed.
Lemma write_channel_linked pl k cl : cl ≠ c → channel_linked h pl k cl → channel_linked h' pl k cl.
Proof.
  intros Hne (ch & bs' & Hch & Hk & Hpl & Hbs & Hall). exists ch, bs'. split_and!; try done.
  - simpl. by rewrite lookup_insert_ne.
  - intros k' l Hk'. apply write_bundle_linked. by apply Hall.
Qed.

Lemma write_linked : linked h' m.
Proof.
  destruct write_package as (Hname & Hdef & Hall).
  intros name' pl Hpl. destruct (decide (pl = p)) as [->|Hne].
  - rewrite (package_linked_inj h _ _ _ _ Hl Hpl Hp). eexists _, _. split; [apply lookup_insert_eq|].
    split_and!; [done|done| |].
    + intros x Hx. destruct (Hd x Hx) as [Hx'| ->]; [|by exists cn; apply lookup_insert_eq].
      destruct (Hdef _ Hx') as [k Hk]. exists k. destruct (decide (k = cn)) as [->|].
      * rewrite lookup_insert_eq. destruct Hc as [(ch & Hk' & _)|(Hk' & _)]; congruence.
      * by rewrite lookup_insert_ne.
    + intros k cl [[<- <-]|[Hne Hk]]%lookup_insert_Some.
      * eexists _, _. split; [apply lookup_insert_eq|]. split_and!; try done. apply map_Forall_insert_2.
        -- exists b'. split; [apply lookup_insert_eq|done].
        -- intros k l Hk. by apply write_bundle_linked, write_old_bundles.
      * apply write_channel_linked; [|by apply Hall]. eapply write_slot_only; [done|congruence].
  - destruct (Hl _ _ Hpl) as (pkg1 & chs1 & Hpkg1 & Hname1 & Hchs1 & Hdef1 & Hall1).
    exists pkg1, chs1. split_and!; try done; [simpl; by rewrite lookup_insert_ne|].
    intros k cl Hk. specialize (Hall1 k cl Hk). apply write_channel_linked; [|done]. by eapply write_other_package.
Qed.

Lemma write_channel_bundle k pl cl n' :
  cl ≠ c → channel_linked h pl k cl → channel_bundle h' cl n' = channel_bundle h cl n'.
Proof.
  intros Hne (ch & bs' & Hch & _ & _ & Hbs & Hall). unfold channel_bundle, h', write_slot. heap_simpl.
  rewrite lookup_insert_ne by done. rewrite Hch. heap_simpl. unfold bundles_of. rewrite Hbs. heap_simpl.
  destruct (bs' !! n') as [l|] eqn:Hn; heap_simpl; [|done]. destruct (Hall _ _ Hn) as (b & Hb & _).
  rewrite lookup_insert_ne; congruence.
Qed.

Lemma write_find p' c' n' :
  find_bundle h' m p' c' n' =
    if decide ((p', c', n') = (name, cn, n)) then Some b' else find_bundle h m p' c' n'.
Proof.
  destruct write_package as (Hname & Hdef & Hall). rewrite !find_bundle_eq.
  destruct (m !! p') as [pl|] eqn:Hpl; heap_simpl; [|case_decide; naive_solver].
  destruct (Hl _ _ Hpl) as (pkg1 & chs1 & Hpkg1 & Hname1 & Hchs1 & _ & Hall1). rewrite Hpkg1.
  assert (h_packages h' = <[p := mkPackage (Package_Name pkg) (Package_Description pkg) (Package_Icon pkg) d
    (Some (<[cn := c]> chs))]> (h_packages h)) as -> by done.
  destruct (decide (pl = p)) as [->|Hne].
  - assert (pkg1 = pkg) as -> by congruence. assert (p' = name) as -> by congruence.
    rewrite lookup_insert_eq. heap_simpl. unfold channels_of. rewrite Hchs. heap_simpl.
    destruct (decide (c' = cn)) as [->|Hcn].
    + rewrite lookup_insert_eq. heap_simpl. unfold channel_bundle at 1, h', write_slot. heap_simpl.
      rewrite lookup_insert_eq. heap_simpl. destruct (decide (n' = n)) as [->|Hn].
      * rewrite lookup_insert_eq. heap_simpl. rewrite lookup_insert_eq. by rewrite decide_True.
      * rewrite lookup_insert_ne by done. rewrite decide_False by congruence.
        destruct (bs !! n') as [l|] eqn:Hbl; heap_simpl.
        -- destruct (write_old_bundles _ _ Hbl) as (b & Hb & _). rewrite lookup_insert_ne by congruence.
           destruct Hc as [(ch & Hk' & Hch & Hbs)|(_ & _ & ->)]; [|by rewrite lookup_empty in Hbl].
           rewrite Hk'. heap_simpl. unfold channel_bundle. rewrite Hch. heap_simpl. unfold bundles_of. rewrite Hbs. heap_simpl.
           by rewrite Hbl.
        -- destruct Hc as [(ch & Hk' & Hch & Hbs)|(Hk' & _ & ->)]; rewrite Hk'; heap_simpl; [|done].
           unfold channel_bundle. rewrite Hch. heap_simpl. unfold bundles_of. rewrite Hbs. heap_simpl. by rewrite Hbl.
    + rewrite decide_False by congruence. rewrite lookup_insert_ne by done.
      destruct (chs !! c') as [cl|] eqn:Hcl; heap_simpl; [|done].
      eapply write_channel_bundle; [by eapply write_slot_only|by apply Hall].
  - rewrite decide_False by congruence. rewrite lookup_insert_ne by done. rewrite Hpkg1. heap_simpl.
    unfold channels_of. rewrite Hchs1. heap_simpl. destruct (chs1 !! c') as [cl|] eqn:Hcl; heap_simpl; [|done].
    specialize (Hall1 _ _ Hcl). eapply write_channel_bundle; [by eapply write_other_package|done].
Qed.
End write.

(** What [AddBundle] does, both cases together: one package, one channel and
    one new bundle are written. *)
Lemma AddBundle_shape h m b pl0 pkg0 cl0 ch0 :
  Bundle_Package b = Some pl0 → h_packages h !! pl0 = Some pkg0 →
  Bundle_Channel b = Some cl0 → h_channels h !! cl0 = Some ch0 →
  linked h m → (m !! Package_Name pkg0 = None → package_linked h (Package_Name pkg0) pl0) →
  ∃ m' p pkg chs c bs d,
    let name := Package_Name pkg0 in
    let cn := Channel_Name ch0 in
    let bl := fresh (dom (h_bundles h)) in
    m' = (match m !! name with Some _ => m | None => <[name := pl0]> m end) ∧
    m' !! name = Some p ∧ linked h m' ∧
    h_packages h !! p = Some pkg ∧ Package_Name pkg = name ∧ Package_Channels pkg = Some chs ∧
    slot h chs cn c bs ∧
    (Package_DefaultChannel pkg = Some d ∨ Package_DefaultChannel pkg = None ∧ d = c) ∧
    AddBundle h m b =
      Ok (write_slot h p pkg (Some d) chs cn c bs (Bundle_Name b) bl (with_links b p c), m').
Proof.
  intros Hbp Hpkg0 Hbc Hch0 Hl Hnew.
  set (m' := match m !! Package_Name pkg0 with Some _ => m | None => <[Package_Name pkg0 := pl0]> m end).
  assert (linked h m' ∧ ∃ p, m' !! Package_Name pkg0 = Some p) as [Hl' [p Hp]].
  { subst m'. destruct (m !! Package_Name pkg0) as [p|] eqn:E; [by eauto|].
    split; [|eexists; apply lookup_insert_eq]. apply map_Forall_insert_2; auto. }
  destruct (Hl' _ _ Hp) as (pkg & chs & Hpkg & Hname & Hchs & Hdef & Hchl).
  assert (∀ pl, h_packages h !! pl = Some pkg → <[pl := pkg]> (h_packages h) = h_packages h) as Hid
    by (intros; by apply insert_id).
  destruct (chs !! Channel_Name ch0) as [cl|] eqn:Ecl.
  - destruct (Hchl _ _ Ecl) as (ch & bs & Hch & Hcn & Hcp & Hbs & _).
    exists m', p, pkg, chs, cl, bs, (default cl (Package_DefaultChannel pkg)).
    simpl. split_and!; try done; [left; eauto|destruct (Package_DefaultChannel pkg); auto|].
    unfold AddBundle, write_slot. rewrite Hbp. cbn -[fresh]. rewrite Hpkg0. cbn -[fresh]. fold m'. rewrite Hp.
    cbn -[fresh]. rewrite Hpkg, Hbc. cbn -[fresh]. rewrite Hch0. cbn -[fresh].
    unfold channels_of. rewrite Hchs. cbn -[fresh]. rewrite Ecl, Hch. cbn -[fresh].
    rewrite Hbs. cbn -[fresh]. rewrite Hpkg. cbn -[fresh]. rewrite (insert_id chs) by done.
    rewrite Hcn, Hcp. do 2 f_equal.
    destruct (Package_DefaultChannel pkg) as [d|] eqn:Ed; cbn -[fresh]; rewrite <- Hchs; [|done].
    destruct pkg; simpl in *; simplify_eq. by rewrite Hid.
  - exists m', p, pkg, chs, (fresh (dom (h_channels h))), ∅, (default (fresh (dom (h_channels h))) (Package_DefaultChannel pkg)).
    simpl. split_and!; try done.
    { right. split_and!; [done| |done]. apply not_elem_of_dom, is_fresh. }
    { destruct (Package_DefaultChannel pkg); auto. }
    unfold AddBundle, write_slot. rewrite Hbp. cbn -[fresh]. rewrite Hpkg0. cbn -[fresh]. fold m'. rewrite Hp.
    cbn -[fresh]. rewrite Hpkg, Hbc. cbn -[fresh]. rewrite Hch0. cbn -[fresh].
    unfold channels_of. rewrite Hchs. cbn -[fresh]. rewrite Ecl. cbn -[fresh].
    rewrite lookup_insert_eq. cbn -[fresh].
    rewrite insert_empty. do 2 f_equal.
    destruct (Package_DefaultChannel pkg) as [d|] eqn:Ed; cbn -[fresh]; [done|].
    by rewrite insert_insert_eq.
Qed.

(** ** Normalize

    [Build] of a [*Property] re-encodes its value.  The property slices of
    bundles may share their backing array, so a value may be normalized more
    than once; [normalize_property_idem] shows that this makes no difference, so
    slices are values here. *)
Definition normalize_property (p : property_Property) : property_Property :=
  match Build init_scheme (IProperty (Some p)) with Ok q => q | _ => p end.
Definition normalize_bundle (b : model_Bundle) : model_Bundle :=
  mkBundle (Bundle_Package b) (Bundle_Channel b) (Bundle_Name b) (Bundle_Image b) (Bundle_Replaces b)
    (Bundle_Skips b) (normalize_property <$> Bundle_Properties b) (Bundle_RelatedImages b)
    (Bundle_Objects b) (Bundle_CsvJSON b).

Definition normalize_at (h : heap) (bl : loc) : res heap :=
  b ← deref (h_bundles h !! bl);
  Ok (mkHeap (h_packages h) (h_channels h) (<[bl := normalize_bundle b]> (h_bundles h))).

Section normalize.
Context `{GoRuntime}.

Definition Normalize (h : heap) (m : model_Model) : res heap :=
  foldR (λ h '(_, pl),
    pkg ← deref (h_packages h !! pl);
    foldR (λ h '(_, cl),
      ch ← deref (h_channels h !! cl);
      foldR (λ h '(_, bl), normalize_at h bl) h (range (bundles_of ch)))
    h (range (channels_of pkg)))
  h (range m).
End normalize.

Lemma jsonMarshal_Property p d :
  jsonMarshal (IProperty (Some p)) = Ok d → Compact (default "null" (p_Value p)) = Some d.
Proof.
  unfold jsonMarshal. simpl. destruct (Compact (default "null" (p_Value p))) as [c|] eqn:E; simpl; [|done].
  destruct (Compact (c +:+ newline)) as [e|] eqn:E2; simpl; [|done]. intros [= <-].
  by rewrite (Compact_newline _ _ _ E E2).
Qed.

Lemma normalize_property_idem p : normalize_property (normalize_property p) = normalize_property p.
Proof.
  unfold normalize_property at 2 3. unfold Build.
  destruct (jsonMarshal (IProperty (Some p))) as [d| |] eqn:E; simpl;
    [|by unfold normalize_property, Build; rewrite E..].
  apply jsonMarshal_Property in E. unfold normalize_property, Build.
  destruct (jsonMarshal (IProperty (Some (mkProp (p_Type p) (Some d))))) as [e| |] eqn:E2; simpl; [|done..].
  apply jsonMarshal_Property in E2. simpl in E2. by rewrite (Compact_again _ _ _ E E2).
Qed.

Lemma normalize_bundle_idem b : normalize_bundle (normalize_bundle b) = normalize_bundle b.
Proof.
  unfold normalize_bundle. simpl. f_equal. rewrite <- list_fmap_compose.
  apply list_fmap_ext. intros. apply normalize_property_idem.
Qed.

(** The bundles reachable from [m], in the order they are visited. *)
Section reachable.
Context `{GoRuntime}.
Variables (h : heap) (m : model_Model).

Definition reach_channels (pl : loc) : list loc :=
  match h_packages h !! pl with Some pkg => (range (channels_of pkg)).*2 | None => [] end.
Definition reach_bundles (cl : loc) : list loc :=
  match h_channels h !! cl with Some ch => (range (bundles_of ch)).*2 | None => [] end.
Definition reachable : list loc :=
  pl ← (range m).*2; cl ← reach_channels pl; reach_bundles cl.
End reachable.

(** Normalizing a list of allocated bundles. *)
Definition normalized (ls : list loc) (bs : gmap loc model_Bundle) : gmap loc model_Bundle :=
  map_imap (λ l b, Some (if decide (l ∈ ls) then normalize_bundle b else b)) bs.

Lemma normalized_lookup ls bs l :
  normalized ls bs !! l = (λ b, if decide (l ∈ ls) then normalize_bundle b else b) <$> bs !! l.
Proof. unfold normalized. rewrite map_lookup_imap. by destruct (bs !! l). Qed.

Lemma normalize_at_fold ls h :
  Forall (λ l, is_Some (h_bundles h !! l)) ls →
  foldR normalize_at h ls = Ok (mkHeap (h_packages h) (h_channels h) (normalized ls (h_bundles h))).
Proof.
  revert h. induction ls as [|l ls IH]; intros h Hls; simpl.
  - destruct h as [ps cs bs]. simpl. do 2 f_equal. apply map_eq. intros l. rewrite normalized_lookup.
    by destruct (bs !! l).
  - apply Forall_cons in Hls as [[b Hb] Hls]. 
    assert (normalize_at h l = Ok (mkHeap (h_packages h) (h_channels h) (<[l := normalize_bundle b]> (h_bundles h)))) as ->
      by (unfold normalize_at; by rewrite Hb).
    cbn [mbind res_bind]. rewrite IH; simpl.
    + do 2 f_equal. apply map_eq. intros l'. rewrite !normalized_lookup.
      destruct (decide (l' = l)) as [->|Hne].
      * rewrite lookup_insert_eq, Hb. simpl. rewrite (decide_True (P := l ∈ l :: ls)) by left.
        case_decide; [by rewrite normalize_bundle_idem|done].
      * rewrite lookup_insert_ne by done. destruct (h_bundles h !! l'); [|done]. simpl. f_equal.
        apply decide_ext. rewrite elem_of_cons. naive_solver.
    + eapply Forall_impl; [exact Hls|]. intros l' [b' Hb']. simpl.
      destruct (decide (l' = l)) as [->|]; [rewrite lookup_insert_eq; eauto|rewrite lookup_insert_ne; eauto].
Qed.

Lemma normalize_at_frame ls h h' :
  foldR normalize_at h ls = Ok h' → h_packages h' = h_packages h ∧ h_channels h' = h_channels h.
Proof.
  intros Hf. eapply (foldR_inv (λ x, h_packages x = h_packages h ∧ h_channels x = h_channels h)); [|done|exact Hf].
  intros s l s' _ Hs Hn. unfold normalize_at in Hn. inv_ok. by subst.
Qed.

Section normalize_spec.
Context `{GoRuntime}.

Lemma fold_bundles h es :
  foldR (λ h '(_, bl), normalize_at h bl) h es = foldR normalize_at h (es : list (string * loc)).*2.
Proof. revert h. induction es as [|[k bl] es IH]; intros h; simpl; [done|]. destruct (normalize_at h bl); simpl; auto. Qed.

Lemma fold_channels h0 h es :
  h_packages h = h_packages h0 → h_channels h = h_channels h0 →
  Forall (λ kl, is_Some (h_channels h0 !! kl.2)) (es : list (string * loc)) →
  foldR (λ h '(_, cl), ch ← deref (h_channels h !! cl);
    foldR (λ h '(_, bl), normalize_at h bl) h (range (bundles_of ch))) h es =
  foldR normalize_at h (cl ← es.*2; reach_bundles h0 cl).
Proof.
  intros Hp Hc Hes. revert h Hp Hc. induction Hes as [|[k cl] es [ch Hch] Hes IH]; intros h Hp Hc; simpl; [done|].
  simpl in Hch. rewrite Hc, Hch. simpl. rewrite fold_bundles, foldR_app.
  replace (reach_bundles h0 cl) with (range (bundles_of ch)).*2 by (unfold reach_bundles; by rewrite Hch).
  destruct (foldR normalize_at h _) as [h1| |] eqn:E; simpl; try done.
  apply normalize_at_frame in E as [E1 E2]. apply IH; congruence.
Qed.

Lemma fold_packages h0 h es :
  h_packages h = h_packages h0 → h_channels h = h_channels h0 →
  Forall (λ kl, ∃ pkg, h_packages h0 !! kl.2 = Some pkg ∧
    Forall (λ kl, is_Some (h_channels h0 !! kl.2)) (range (channels_of pkg))) (es : list (string * loc)) →
  foldR (λ h '(_, pl), pkg ← deref (h_packages h !! pl);
    foldR (λ h '(_, cl), ch ← deref (h_channels h !! cl);
      foldR (λ h '(_, bl), normalize_at h bl) h (range (bundles_of ch))) h (range (channels_of pkg))) h es =
  foldR normalize_at h (pl ← es.*2; cl ← reach_channels h0 pl; reach_bundles h0 cl).
Proof.
  intros Hp Hc Hes. revert h Hp Hc.
  induction Hes as [|[k pl] es (pkg & Hpkg & Hchs) Hes IH]; intros h Hp Hc; simpl; [done|].
  simpl in Hpkg. rewrite Hp, Hpkg. cbn [deref mbind res_bind].
  rewrite (fold_channels h0) by done. rewrite foldR_app.
  replace (reach_channels h0 pl) with (range (channels_of pkg)).*2 by (unfold reach_channels; by rewrite Hpkg).
  destruct (foldR normalize_at h _) as [h1| |] eqn:E; simpl; try done.
  apply normalize_at_frame in E as [E1 E2]. apply IH; congruence.
Qed.

(** In a valid model every pointer that is followed is allocated. *)
Lemma model_wf_packages h m :
  model_wf h m →
  Forall (λ kl, ∃ pkg, h_packages h !! kl.2 = Some pkg ∧
    Forall (λ kl, is_Some (h_channels h !! kl.2)) (range (channels_of pkg))) (range m).
Proof.
  intros Hm. apply Forall_forall. intros [n pl] Hpl%range_elem.
  destruct (Hm _ _ Hpl) as (pkg & Hpkg & _ & Hwf). exists pkg. split; [done|].
  apply Forall_forall. intros [k cl] Hcl%range_elem. destruct (pwf_channels _ _ _ Hwf _ _ Hcl) as (c & Hc & _). by exists c.
Qed.

Lemma elem_of_reachable h m bl :
  model_wf h m →
  bl ∈ reachable h m ↔
    ∃ p c n pl pkg cl ch, m !! p = Some pl ∧ h_packages h !! pl = Some pkg ∧ channels_of pkg !! c = Some cl ∧
      h_channels h !! cl = Some ch ∧ bundles_of ch !! n = Some bl.
Proof.
  intros Hm. unfold reachable. rewrite list_elem_of_bind. setoid_rewrite list_elem_of_bind. split.
  - intros (pl & (cl & Hbl & Hcl) & Hpl). apply list_elem_of_fmap in Hpl as ([p pl'] & -> & Hpl%range_elem).
    unfold reach_channels in Hcl. simpl in Hcl. destruct (h_packages h !! pl') as [pkg|] eqn:Hpkg; [|by apply elem_of_nil in Hcl].
    apply list_elem_of_fmap in Hcl as ([c cl'] & -> & Hcl%range_elem).
    unfold reach_bundles in Hbl. simpl in Hbl. destruct (h_channels h !! cl') as [ch|] eqn:Hch; [|by apply elem_of_nil in Hbl].
    apply list_elem_of_fmap in Hbl as ([n bl'] & -> & Hbl%range_elem).
    exists p, c, n, pl', pkg, cl', ch. done.
  - intros (p & c & n & pl & pkg & cl & ch & Hp & Hpkg & Hc & Hch & Hn).
    exists pl. split.
    + exists cl. unfold reach_channels, reach_bundles. rewrite Hpkg, Hch. split.
      * apply list_elem_of_fmap. exists (n, bl). by rewrite range_elem.
      * apply list_elem_of_fmap. exists (c, cl). by rewrite range_elem.
    + apply list_elem_of_fmap. exists (p, pl). by rewrite range_elem.
Qed.

Lemma Normalize_eq h m :
  model_wf h m →
  Normalize h m = Ok (mkHeap (h_packages h) (h_channels h) (normalized (reachable h m) (h_bundles h))).
Proof.
  intros Hm. unfold Normalize. rewrite (fold_packages h) by (done || by apply model_wf_packages).
  apply normalize_at_fold. apply Forall_forall. intros bl Hbl.
  apply (elem_of_reachable h m bl Hm) in Hbl as (p & c & n & pl & pkg & cl & ch & Hp & Hpkg & Hc & Hch & Hn).
  destruct (Hm _ _ Hp) as (pkg' & Hpkg' & _ & Hwf). assert (pkg' = pkg) as -> by congruence.
  destruct (pwf_channels _ _ _ Hwf _ _ Hc) as (ch' & Hch' & _ & Hcwf & _). assert (ch' = ch) as -> by congruence.
  destruct (cwf_bundles _ _ _ Hcwf _ _ Hn) as (b & Hb & _). by exists b.
Qed.
End normalize_spec.

(** ** Rendering a validation error

    [Sprintf] renders a format with its arguments.  A prefix is a list of runes
    (each as its bytes).  A node is never its own ancestor in a tree of errors,
    so the [seen] check of the source does not fire. *)
Definition runes_blank : list string := [" "; " "; " "; " "].
Definition runes_bar : list string := ["│"; " "; " "; " "].
Definition runes_last : list string := ["└"; "─"; "─"; " "].
Definition runes_tee : list string := ["├"; "─"; "─"; " "].

Definition subPrefix (prefix : list string) (last subLast : bool) : list string :=
  (if decide (4 ≤ length prefix) then
     take (length prefix - 4) prefix ++ (if last then runes_blank else runes_bar)
   else prefix) ++ (if subLast then runes_last else runes_tee).

Section render.
Variable Sprintf : string → list errarg → string.

Fixpoint errorPrefix (prefix : list string) (last : bool) (e : error) : string :=
  match e with
  | Errorf f a => String.concat "" prefix +:+ Sprintf f a +:+ newline
  | ValidationError f a subs =>
      String.concat "" prefix +:+ Sprintf f a +:+
      (if decide (length subs = 0) then newline else ":" +:+ newline) +:+
      (fix go (l : list error) : string :=
         match l with
         | [] => ""
         | s :: rest =>
             let subLast := bool_decide (length rest = 0) in
             errorPrefix (subPrefix prefix last subLast) subLast s +:+ go rest
         end) subs
  end.
End render.

Fixpoint count_newlines (s : string) : nat :=
  match s with
  | EmptyString => 0
  | String c s' => (if decide (c = byte_of 10) then 1 else 0) + count_newlines s'
  end.
Fixpoint error_nodes (e : error) : nat :=
  match e with
  | Errorf _ _ => 1
  | ValidationError _ _ subs => S ((fix go l := match l with [] => 0 | s :: l' => error_nodes s + go l' end) subs)
  end.

Lemma count_newlines_app s t : count_newlines (s +:+ t) = count_newlines s + count_newlines t.
Proof. induction s as [|c s IH]; [done|]. rewrite str_app_cons. simpl. rewrite IH. lia. Qed.

Lemma concat_newlines (l : list string) :
  Forall (λ r, count_newlines r = 0) l → count_newlines (String.concat "" l) = 0.
Proof.
  induction l as [|r [|r' l] IH]; intros Hl; [done|by apply Forall_cons in Hl as [? ?]|].
  apply Forall_cons in Hl as [Hr Hl]. change (String.concat "" (r :: r' :: l)) with (r +:+ "" +:+ String.concat "" (r' :: l)).
  rewrite !count_newlines_app, Hr, IH by done. done.
Qed.

Lemma subPrefix_newlines prefix last subLast :
  Forall (λ r, count_newlines r = 0) prefix → Forall (λ r, count_newlines r = 0) (subPrefix prefix last subLast).
Proof.
  intros Hp. unfold subPrefix. apply Forall_app. split; [|by destruct subLast; repeat constructor].
  case_decide; [|done]. apply Forall_app. split; [by apply Forall_take|by destruct last; repeat constructor].
Qed.

Lemma errorPrefix_newlines Sprintf :
  (∀ f a, count_newlines (Sprintf f a) = 0) →
  ∀ e prefix last, Forall (λ r, count_newlines r = 0) prefix →
    count_newlines (errorPrefix Sprintf prefix last e) = error_nodes e.
Proof.
  intros Hf. fix IH 1. intros [f a|f a subs] prefix last Hp.
  - simpl. rewrite !count_newlines_app, concat_newlines, Hf by done. done.
  - cbn [errorPrefix error_nodes]. rewrite !count_newlines_app, concat_newlines, Hf by done. cbn [Nat.add].
    assert (count_newlines (if decide (length subs = 0) then newline else ":" +:+ newline) = 1) as ->
      by (by case_decide).
    cbn [Nat.add]. f_equal. induction subs as [|s subs IHs]; [done|]. cbn zeta.
    rewrite count_newlines_app. rewrite IH by by apply subPrefix_newlines.
    f_equal. exact IHs.
Qed.

(** ** Properties *)

(** C36. [AddBundle] keeps the graph linked and adds exactly the bundle: on a
    linked model, for a bundle whose package and channel pointers are set (and
    whose package, if new to the model, is itself linked), it does not panic,
    every parent pointer still leads back to its parent, the bundle is found
    under its package, channel and name with its fields, and every other bundle
    of the packages already present is found as before. *)
Theorem AddBundle_spec h m b pl0 pkg0 cl0 ch0 :
  Bundle_Package b = Some pl0 → h_packages h !! pl0 = Some pkg0 →
  Bundle_Channel b = Some cl0 → h_channels h !! cl0 = Some ch0 →
  linked h m → (m !! Package_Name pkg0 = None → package_linked h (Package_Name pkg0) pl0) →
  ∃ h' m', AddBundle h m b = Ok (h', m') ∧ linked h' m' ∧
    (∃ p c, find_bundle h' m' (Package_Name pkg0) (Channel_Name ch0) (Bundle_Name b) = Some (with_links b p c)) ∧
    (∀ p' c' n', (p', c', n') ≠ (Package_Name pkg0, Channel_Name ch0, Bundle_Name b) → is_Some (m !! p') →
       find_bundle h' m' p' c' n' = find_bundle h m p' c' n').
Proof.
  intros H1 H2 H3 H4 H5 H6.
  destruct (AddBundle_shape h m b pl0 pkg0 cl0 ch0)
    as (m' & p & pkg & chs & c & bs & d & Hm' & Hp & Hl' & Hpkg & Hname & Hchs & Hc & Hd & HA); try done.
  assert (h_bundles h !! fresh (dom (h_bundles h)) = None) as Hfresh by (apply not_elem_of_dom, is_fresh).
  assert (∀ x, Some d = Some x → Package_DefaultChannel pkg = Some x ∨ x = c) as Hd' by naive_solver.
  eexists _, m'. split; [exact HA|]. split; [by eapply write_linked|].
  assert (∀ p' c' n', find_bundle (write_slot h p pkg (Some d) chs (Channel_Name ch0) c bs (Bundle_Name b)
    (fresh (dom (h_bundles h))) (with_links b p c)) m' p' c' n' =
    if decide ((p', c', n') = (Package_Name pkg0, Channel_Name ch0, Bundle_Name b))
    then Some (with_links b p c) else find_bundle h m' p' c' n') as Hfind by (intros; by eapply write_find).
  split; [exists p, c; rewrite Hfind; by rewrite decide_True|].
  intros p' c' n' Hne [pl Hpl]. rewrite Hfind, decide_False by done. rewrite !find_bundle_eq.
  assert (m' !! p' = Some pl) as Hpl'; [|by rewrite Hpl, Hpl'].
  rewrite Hm'. destruct (m !! Package_Name pkg0) eqn:E; [done|].
  apply lookup_insert_Some. right. split; [intros Heq; by rewrite Heq, Hpl in E|done].
Qed.

Lemma AddBundle_spec_witness :
  ∃ h' m', AddBundle ex_heap ex_model (ex_bundle "p.v3" "p.v2") = Ok (h', m') ∧ linked h' m' ∧
    (∃ p c, find_bundle h' m' "p" "c" "p.v3" = Some (with_links (ex_bundle "p.v3" "p.v2") p c)) ∧
    (∀ p' c' n', (p', c', n') ≠ ("p", "c", "p.v3") → is_Some (ex_model !! p') →
       find_bundle h' m' p' c' n' = find_bundle ex_heap ex_model p' c' n').
Proof.
  apply (AddBundle_spec ex_heap ex_model (ex_bundle "p.v3" "p.v2") 1%positive
    (mkPackage "p" "" None (Some 1%positive) (Some {["c" := 1%positive]})) 1%positive
    (mkChannel (Some 1%positive) "c" (Some (list_to_map [("p.v1", 1%positive); ("p.v2", 2%positive)]))));
    [reflexivity..| |by vm_compute].
  apply map_Forall_singleton. eexists _, _. split; [reflexivity|]. split; [reflexivity|]. split; [reflexivity|].
  split; [intros d [= <-]; by exists "c"|].
  apply map_Forall_singleton. eexists _, _. split; [reflexivity|]. split; [reflexivity|]. split; [reflexivity|].
  split; [reflexivity|].
  apply map_Forall_insert_2; [|apply map_Forall_insert_2; [|apply map_Forall_empty]];
    eexists; repeat split; reflexivity.
Defined.

(** On a valid model [Normalize] does not panic; it replaces the properties
    of exactly the bundles reachable through the model's packages and channels
    by their normal form, changes nothing else, and the order in which the maps
    are visited does not matter.  Normalizing a normal form changes nothing. *)
Theorem Normalize_spec `{GoRuntime} h m :
  model_wf h m →
  ∃ bs', Normalize h m = Ok (mkHeap (h_packages h) (h_channels h) bs') ∧
    dom bs' = dom (h_bundles h) ∧
    (∀ bl b, h_bundles h !! bl = Some b →
      ((∃ p c n pl pkg cl ch, m !! p = Some pl ∧ h_packages h !! pl = Some pkg ∧
          channels_of pkg !! c = Some cl ∧ h_channels h !! cl = Some ch ∧ bundles_of ch !! n = Some bl) ∧
        bs' !! bl = Some (normalize_bundle b)) ∨
      (¬ (∃ p c n pl pkg cl ch, m !! p = Some pl ∧ h_packages h !! pl = Some pkg ∧
          channels_of pkg !! c = Some cl ∧ h_channels h !! cl = Some ch ∧ bundles_of ch !! n = Some bl) ∧
        bs' !! bl = Some b)) ∧
    (∀ b, normalize_bundle (normalize_bundle b) = normalize_bundle b).
Proof.
  intros Hm. exists (normalized (reachable h m) (h_bundles h)). split_and!.
  - by apply Normalize_eq.
  - apply set_eq. intros l. rewrite !elem_of_dom, normalized_lookup. by destruct (h_bundles h !! l).
  - intros bl b Hb. rewrite <- (elem_of_reachable h m bl) by done. rewrite normalized_lookup, Hb. simpl.
    case_decide; auto.
  - apply normalize_bundle_idem.
Qed.

Lemma Normalize_spec_witness :
  ∃ bs', Normalize (H := go_default) ex_heap ex_model = Ok (mkHeap (h_packages ex_heap) (h_channels ex_heap) bs').
Proof.
  destruct (@Normalize_spec go_default ex_heap ex_model) as (bs' & Hn & _).
  - apply (@Model_Validate_model_wf go_default). vm_compute. reflexivity.
  - exists bs'. exact Hn.
Defined.

(** The rendering of a validation error has one line per error: when the
    rendered messages contain no newline, [errorPrefix] writes exactly one
    newline for every node of the error tree, at every depth. *)
Theorem errorPrefix_one_line_per_error Sprintf e last :
  (∀ f a, count_newlines (Sprintf f a) = 0) →
  count_newlines (errorPrefix Sprintf [] last e) = error_nodes e.
Proof. intros Hf. by apply errorPrefix_newlines. Qed.

Lemma errorPrefix_one_line_per_error_witness :
  count_newlines (errorPrefix (λ _ _, "m") [] true
    (ValidationError "a" [] [ErrNew "b"; ValidationError "c" [] [ErrNew "d"]])) = 4.
Proof.
  exact (errorPrefix_one_line_per_error (λ _ _, "m")
    (ValidationError "a" [] [ErrNew "b"; ValidationError "c" [] [ErrNew "d"]]) true (λ _ _, eq_refl)).
Defined.
