(* ===== verification/Declcfg.v ===== *)
(** * Declarative configs

    [internal/declcfg]: the config data, its conversion to the operator graph
    and back ([ConvertToModel], [ConvertFromModel]), and the property checks of
    the conversion.

    [ConvertToModel] allocates its objects in an empty heap and returns the heap
    with the model. *)
From S2P Require Import Prelude Json JsonCompact Property Model ModelOps.
From stdpp Require Import options.

Definition schemaPackage : string := "olm.package".
Definition schemaBundle : string := "olm.bundle".

Record declcfg_Icon := mkDIcon { di_Data : string; di_MediaType : string }.
Record declcfg_RelatedImage := mkDRI { dri_Name : string; dri_Image : string }.
Record declcfg_Package := mkDPackage {
  dp_Schema : string;
  dp_Name : string;
  dp_DefaultChannel : string;
  dp_Icon : option declcfg_Icon;
  dp_Description : string
}.
Record declcfg_Bundle := mkDBundle {
  db_Schema : string;
  db_Name : string;
  db_Package : string;
  db_Image : string;
  db_Properties : list property_Property;
  db_RelatedImages : list declcfg_RelatedImage;
  db_CsvJSON : string;
  db_Objects : list string
}.
Record declcfg_Meta := mkMeta { dm_Schema : string; dm_Package : string; dm_Blob : RawMessage }.
Record DeclarativeConfig := mkCfg {
  cfg_Packages : list declcfg_Package;
  cfg_Bundles : list declcfg_Bundle;
  cfg_Others : list declcfg_Meta
}.

(** ** properties.go *)
Definition propertyDuplicateError (typ key : string) : error :=
  Errorf "duplicate property of type %q found with key %q" [AStr typ; AStr key].

Fixpoint check_channels (seen : gset string) (chs : list property_Channel) : option error :=
  match chs with
  | [] => None
  | ch :: chs' =>
      if decide (pc_Name ch ∈ seen) then Some (propertyDuplicateError TypeChannel (pc_Name ch))
      else check_channels ({[pc_Name ch]} ∪ seen) chs'
  end.
Definition parseProperties (props : list property_Property) : res property_Properties :=
  out ← property_Parse props;
  _ ← check (check_channels ∅ (ps_Channels out));
  Ok out.

(** ** declcfg_to_model.go *)
Definition skipsToStrings (l : list string) : list string := l.
Definition relatedImagesToModelRelatedImages (l : list declcfg_RelatedImage) : list model_RelatedImage :=
  (λ p, mkRI (dri_Name p) (dri_Image p)) <$> l.

Definition add_package (s : heap * model_Model * gmap string string) (p : declcfg_Package)
    : heap * model_Model * gmap string string :=
  let '(h, mpkgs, defaultChannels) := s in
  let pl := fresh (dom (h_packages h)) in
  let mpkg := mkPackage (dp_Name p) (dp_Description p)
                ((λ i, mkIcon (di_Data i) (di_MediaType i)) <$> dp_Icon p) None (Some ∅) in
  (mkHeap (<[pl := mpkg]> (h_packages h)) (h_channels h) (h_bundles h),
   <[dp_Name p := pl]> mpkgs,
   <[dp_Name p := dp_DefaultChannel p]> defaultChannels).

Definition to_model_bundle (b : declcfg_Bundle) (props : property_Properties) (ch : property_Channel)
    (mpkg pkgChannel : option loc) : model_Bundle :=
  mkBundle mpkg pkgChannel (db_Name b) (db_Image b) (pc_Replaces ch) (skipsToStrings (ps_Skips props))
    (db_Properties b) (relatedImagesToModelRelatedImages (db_RelatedImages b)) (db_Objects b) (db_CsvJSON b).

(** One iteration of the loop over a bundle's channels. *)
Definition add_to_channel (mpkg : loc) (defaultChannelName : string) (b : declcfg_Bundle)
    (props : property_Properties) (h : heap) (bundleChannel : property_Channel) : res heap :=
  pkg ← deref (h_packages h !! mpkg);
  hc ← match channels_of pkg !! pc_Name bundleChannel with
       | Some cl => Ok (h, cl)
       | None =>
           let cl := fresh (dom (h_channels h)) in
           chs ← deref (Package_Channels pkg);
           let d := if decide (pc_Name bundleChannel = defaultChannelName) then Some cl
                    else Package_DefaultChannel pkg in
           Ok (mkHeap
                 (<[mpkg := mkPackage (Package_Name pkg) (Package_Description pkg) (Package_Icon pkg) d
                              (Some (<[pc_Name bundleChannel := cl]> chs))]> (h_packages h))
                 (<[cl := mkChannel (Some mpkg) (pc_Name bundleChannel) (Some ∅)]> (h_channels h))
                 (h_bundles h), cl)
       end;
  let '(h1, pkgChannel) := hc in
  ch ← deref (h_channels h1 !! pkgChannel);
  bs ← deref (Channel_Bundles ch);
  let bl := fresh (dom (h_bundles h1)) in
  Ok (mkHeap (h_packages h1)
        (<[pkgChannel := mkChannel (Channel_Package ch) (Channel_Name ch) (Some (<[db_Name b := bl]> bs))]>
           (h_channels h1))
        (<[bl := to_model_bundle b props bundleChannel (Some mpkg) (Some pkgChannel)]> (h_bundles h1))).

(** The checks on one bundle, and its entries. *)
Definition bundle_properties (b : declcfg_Bundle) : res property_Properties :=
  props ← wrap_err (λ e, Errorf "parse properties for bundle %q: %v" [AStr (db_Name b); AErr e])
            (parseProperties (db_Properties b));
  match ps_Packages props with
  | [] => Err (Errorf "missing package property for bundle %q" [AStr (db_Name b)])
  | p :: _ =>
      if decide (db_Package b = pp_PackageName p) then
        if decide (ps_Channels props = []) then
          Err (Errorf "bundle %q is missing channel information" [AStr (db_Name b)])
        else Ok props
      else Err (Errorf "package %q does not match %q property %q"
                  [AStr (db_Package b); AStr TypePackage; AStr (pp_PackageName p)])
  end.
Definition add_bundle (mpkgs : model_Model) (defaultChannels : gmap string string) (h : heap)
    (b : declcfg_Bundle) : res heap :=
  let defaultChannelName := default "" (defaultChannels !! db_Package b) in
  if decide (db_Package b = "") then Err (Errorf "package name must be set for bundle %q" [AStr (db_Name b)])
  else match mpkgs !! db_Package b with
       | None => Err (Errorf "unknown package %q for bundle %q" [AStr (db_Package b); AStr (db_Name b)])
       | Some mpkg =>
           props ← bundle_properties b;
           foldR (add_to_channel mpkg defaultChannelName b props) h (ps_Channels props)
       end.

Definition add_default (defaultChannels : gmap string string) (h : heap) (kv : string * loc) : res heap :=
  let mpkg := kv.2 in
  pkg ← deref (h_packages h !! mpkg);
  let defaultChannelName := default "" (defaultChannels !! Package_Name pkg) in
  if decide (defaultChannelName ≠ "" ∧ Package_DefaultChannel pkg = None) then
    let dch := fresh (dom (h_channels h)) in
    chs ← deref (Package_Channels pkg);
    Ok (mkHeap
          (<[mpkg := mkPackage (Package_Name pkg) (Package_Description pkg) (Package_Icon pkg) (Some dch)
                       (Some (<[defaultChannelName := dch]> chs))]> (h_packages h))
          (<[dch := mkChannel (Some mpkg) defaultChannelName (Some ∅)]> (h_channels h))
          (h_bundles h))
  else Ok h.

Definition empty_heap : heap := mkHeap ∅ ∅ ∅.

(** ** model_to_declcfg.go *)
Definition modelRelatedImagesToRelatedImages (l : list model_RelatedImage) : list declcfg_RelatedImage :=
  (λ ri, mkDRI (ri_Name ri) (ri_Image ri)) <$> l.

Definition with_properties (b : declcfg_Bundle) (ps : list property_Property) : declcfg_Bundle :=
  mkDBundle (db_Schema b) (db_Name b) (db_Package b) (db_Image b) ps (db_RelatedImages b)
    (db_CsvJSON b) (db_Objects b).

(** One bundle of one channel: created when its name is new, then its
    properties are appended. *)
Definition traverse_bundle (h : heap) (bundles : gmap string declcfg_Bundle) (chb : model_Bundle)
    : res (gmap string declcfg_Bundle) :=
  b ← match bundles !! Bundle_Name chb with
      | Some b => Ok b
      | None =>
          pl ← deref (Bundle_Package chb);
          pkg ← deref (h_packages h !! pl);
          Ok (mkDBundle schemaBundle (Bundle_Name chb) (Package_Name pkg) (Bundle_Image chb) []
                (modelRelatedImagesToRelatedImages (Bundle_RelatedImages chb))
                (Bundle_CsvJSON chb) (Bundle_Objects chb))
      end;
  Ok (<[Bundle_Name chb := with_properties b (db_Properties b ++ Bundle_Properties chb)]> bundles).

Section convert.
Context `{GoRuntime}.

Definition ConvertToModel (cfg : DeclarativeConfig) : res (heap * model_Model) :=
  let '(h1, mpkgs, defaultChannels) := foldl add_package (empty_heap, ∅, ∅) (cfg_Packages cfg) in
  h2 ← foldR (add_bundle mpkgs defaultChannels) h1 (cfg_Bundles cfg);
  h3 ← foldR (add_default defaultChannels) h2 (range mpkgs);
  err ← Model_Validate h3 mpkgs;
  _ ← check err;
  h4 ← Normalize h3 mpkgs;
  Ok (h4, mpkgs).

Definition traverseModelChannels (h : heap) (mpkg : model_Package) : res (list declcfg_Bundle) :=
  bundles ← foldR (λ bundles '(_, cl),
      ch ← deref (h_channels h !! cl);
      foldR (λ bundles '(_, bl), chb ← deref (h_bundles h !! bl); traverse_bundle h bundles chb)
        bundles (range (bundles_of ch)))
    ∅ (range (channels_of mpkg));
  Ok ((λ '(_, b), with_properties b (Deduplicate (db_Properties b))) <$> range bundles).

Definition from_model_package (h : heap) (cfg : DeclarativeConfig) (kv : string * loc) : res DeclarativeConfig :=
  mpkg ← deref (h_packages h !! kv.2);
  bundles ← traverseModelChannels h mpkg;
  defaultChannel ← match Package_DefaultChannel mpkg with
                   | Some d => ch ← deref (h_channels h !! d); Ok (Channel_Name ch)
                   | None => Ok ""
                   end;
  Ok (mkCfg (cfg_Packages cfg ++
               [mkDPackage schemaPackage (Package_Name mpkg) defaultChannel
                  ((λ i, mkDIcon (ic_Data i) (ic_MediaType i)) <$> Package_Icon mpkg)
                  (Package_Description mpkg)])
            (cfg_Bundles cfg ++ bundles) (cfg_Others cfg)).

Definition ConvertFromModel (h : heap) (mpkgs : model_Model) : res DeclarativeConfig :=
  cfg ← foldR (from_model_package h) (mkCfg [] [] []) (range mpkgs);
  Ok (mkCfg (sort_slice (λ x y, str_lt (dp_Name x) (dp_Name y)) (cfg_Packages cfg))
            (sort_slice (λ x y, str_lt (db_Name x) (db_Name y)) (cfg_Bundles cfg))
            (cfg_Others cfg)).
End convert.

(** A config with one package and two bundles in one channel. *)
Definition ex_dbundle (name replaces version : string) : declcfg_Bundle :=
  mkDBundle schemaBundle name "p" "img"
    [mkProp TypePackage (Some (print_struct false [("packageName", "p"); ("version", version)]));
     mkProp TypeChannel (Some (print_struct false [("name", "c"); ("replaces", replaces)]))] [] "" [].
Definition ex_cfg : DeclarativeConfig :=
  mkCfg [mkDPackage schemaPackage "p" "c" None "d"] [ex_dbundle "p.v2" "p.v1" "2.0.0"; ex_dbundle "p.v1" "" "1.0.0"] [].

Example ex_cfg_converts :
  (hm ← ConvertToModel (H := go_default) ex_cfg; ConvertFromModel (H := go_default) hm.1 hm.2) =
  Ok (mkCfg (cfg_Packages ex_cfg) (rev (cfg_Bundles ex_cfg)) []).
Proof. vm_compute. reflexivity. Qed.
