(* ===== verification/DeclcfgConv.v ===== *)
(** * Correctness of the conversions of declarative configs

    [ConvertToModel] is shown to build the graph its config describes: an
    abstract map from (package, channel, bundle) to bundle contents, computed by
    a fold over the config, is what the heap represents. *)
From S2P Require Import Prelude Json JsonCompact Property Model ModelOps Declcfg.
From stdpp Require Import options.

(** ** parseProperties *)
Lemma check_channels_None seen chs :
  check_channels seen chs = None ↔
  NoDup (pc_Name <$> chs) ∧ ∀ ch, ch ∈ chs → pc_Name ch ∉ seen.
Proof.
  revert seen. induction chs as [|ch chs IH]; intros seen; simpl.
  - split; [|done]. intros _. split; [constructor|]. intros ch Hin. by apply elem_of_nil in Hin.
  - case_decide as Hin.
    + split; [done|]. intros [_ Hs]. destruct (Hs ch); [left|done].
    + rewrite IH, NoDup_cons. setoid_rewrite elem_of_cons. setoid_rewrite elem_of_union.
      setoid_rewrite elem_of_singleton. rewrite list_elem_of_fmap. split.
      * intros [Hn Hs]. split_and!; [|done|].
        -- intros (ch' & E & Hch'). apply (Hs ch' Hch'). auto.
        -- intros ch' [->|Hch']; [done|]. intros ?. apply (Hs ch' Hch'). auto.
      * intros [[Hn1 Hn2] Hs]. split; [done|]. intros ch' Hch' [E|?]; [|by eapply Hs; eauto].
        apply Hn1. eauto.
Qed.

Lemma property_Parse_no_panic ps : property_Parse ps ≠ Panic.
Proof.
  unfold property_Parse. destruct (Parse_loop_cases 0 no_properties ps) as [[_ [o ->]]|(j & p & e & _ & _ & _ & _ & ->)]; done.
Qed.

Lemma parseProperties_Ok ps props :
  parseProperties ps = Ok props ↔ property_Parse ps = Ok props ∧ NoDup (pc_Name <$> ps_Channels props).
Proof.
  unfold parseProperties. rewrite bind_Ok. setoid_rewrite bind_Ok. setoid_rewrite check_Ok.
  setoid_rewrite check_channels_None. setoid_rewrite Ok_inj. split.
  - intros (o & Hp & [] & [Hn _] & ->). done.
  - intros [Hp Hn]. exists props. split; [done|]. exists tt. split; [|done]. split; [done|]. set_solver.
Qed.

(** ** The abstract graph of a config *)
Definition unlink (b : model_Bundle) : model_Bundle :=
  mkBundle None None (Bundle_Name b) (Bundle_Image b) (Bundle_Replaces b) (Bundle_Skips b)
    (Bundle_Properties b) (Bundle_RelatedImages b) (Bundle_Objects b) (Bundle_CsvJSON b).

Abbreviation slots := (gmap (string * string * string) model_Bundle).
Definition bundle_slots (b : declcfg_Bundle) : list ((string * string * string) * model_Bundle) :=
  match parseProperties (db_Properties b) with
  | Ok props =>
      (λ ch, ((db_Package b, pc_Name ch, db_Name b),
              mkBundle None None (db_Name b) (db_Image b) (pc_Replaces ch) (ps_Skips props) (db_Properties b)
                ((λ i, mkRI (dri_Name i) (dri_Image i)) <$> db_RelatedImages b) (db_Objects b) (db_CsvJSON b)))
        <$> ps_Channels props
  | _ => []
  end.
Definition insert_all (M : slots) (l : list ((string * string * string) * model_Bundle)) : slots :=
  foldl (λ M kv, <[kv.1 := kv.2]> M) M l.
Definition cfg_slots (bs : list declcfg_Bundle) : slots := foldl (λ M b, insert_all M (bundle_slots b)) ∅ bs.
Definition cfg_packages (ps : list declcfg_Package) : gmap string declcfg_Package :=
  foldl (λ P p, <[dp_Name p := p]> P) ∅ ps.

(** ** What the loops maintain *)
Record conv_inv (h : heap) (m : model_Model) (P : gmap string declcfg_Package) (M : slots) : Prop := {
  ci_linked : linked h m;
  ci_dom : ∀ name, is_Some (m !! name) ↔ is_Some (P !! name);
  ci_package : ∀ name pl, m !! name = Some pl →
    ∃ pkg dp, h_packages h !! pl = Some pkg ∧ P !! name = Some dp ∧
      Package_Description pkg = dp_Description dp ∧
      Package_Icon pkg = (λ i, mkIcon (di_Data i) (di_MediaType i)) <$> dp_Icon dp ∧
      (∀ d, Package_DefaultChannel pkg = Some d → channels_of pkg !! dp_DefaultChannel dp = Some d);
  ci_find : ∀ p c n, unlink <$> find_bundle h m p c n = M !! (p, c, n)
}.

(** *** Packages *)
Lemma add_package_inv h m P D p :
  conv_inv h m P ∅ → D = dp_DefaultChannel <$> P →
  ∃ h' m' D', add_package (h, m, D) p = (h', m', D') ∧
    conv_inv h' m' (<[dp_Name p := p]> P) ∅ ∧ D' = dp_DefaultChannel <$> (<[dp_Name p := p]> P).
Proof.
  intros [Hl Hdom Hpk Hf] ->. eexists _, _, _. split; [reflexivity|]. split; [|by rewrite fmap_insert].
  set (pl := fresh (dom (h_packages h))).
  assert (h_packages h !! pl = None) as Hfresh by (apply not_elem_of_dom, is_fresh).
  split.
  - intros name pl' [[<- <-]|[Hne Hm]]%lookup_insert_Some.
    + eexists _, ∅. split; [apply lookup_insert_eq|]. split_and!; try done.
    + destruct (Hl _ _ Hm) as (pkg & chs & Hpkg & Hrest). exists pkg, chs. split; [|done]. simpl.
      rewrite lookup_insert_ne; [done|]. intros <-. congruence.
  - intros name. destruct (decide (name = dp_Name p)) as [->|].
    + rewrite !lookup_insert_eq. split; intros _; eauto.
    + rewrite !lookup_insert_ne by done. apply Hdom.
  - intros name pl' [[<- <-]|[Hne Hm]]%lookup_insert_Some.
    + eexists _, p. split; [apply lookup_insert_eq|]. rewrite lookup_insert_eq. done.
    + destruct (Hpk _ _ Hm) as (pkg & dp & Hpkg & Hrest). exists pkg, dp. rewrite lookup_insert_ne by done.
      split; [|done]. simpl. rewrite lookup_insert_ne; [done|]. intros <-. congruence.
  - intros p' c n. rewrite lookup_empty, fmap_None, find_bundle_eq.
    destruct (decide (p' = dp_Name p)) as [->|Hne].
    + rewrite lookup_insert_eq. heap_simpl. by rewrite lookup_insert_eq.
    + rewrite lookup_insert_ne by done. specialize (Hf p' c n). rewrite lookup_empty, fmap_None, find_bundle_eq in Hf.
      destruct (m !! p') as [pl'|] eqn:E; [|done]. heap_simpl. cbn [mbind option_bind] in Hf.
      destruct (Hl _ _ E) as (pkg & chs & Hpkg & _).
      rewrite lookup_insert_ne by (intros <-; congruence). exact Hf.
Qed.

(** *** Bundles *)
Lemma add_to_channel_shape h m name p pkg chs dn b props ch :
  linked h m → m !! name = Some p → h_packages h !! p = Some pkg → Package_Channels pkg = Some chs →
  ∃ d c bs bl,
    slot h chs (pc_Name ch) c bs ∧ h_bundles h !! bl = None ∧
    d = (if decide (chs !! pc_Name ch = None ∧ pc_Name ch = dn) then Some c else Package_DefaultChannel pkg) ∧
    add_to_channel p dn b props h ch =
      Ok (write_slot h p pkg d chs (pc_Name ch) c bs (db_Name b) bl
            (to_model_bundle b props ch (Some p) (Some c))).
Proof.
  intros Hl Hp Hpkg Hchs. destruct (Hl _ _ Hp) as (pkg1 & chs1 & Hpkg1 & _ & Hchs1 & _ & Hall).
  assert (pkg1 = pkg) as -> by congruence. assert (chs1 = chs) as -> by congruence.
  set (bl := fresh (dom (h_bundles h))).
  assert (h_bundles h !! bl = None) as Hfresh by (apply not_elem_of_dom, is_fresh).
  unfold add_to_channel. rewrite Hpkg. cbn [deref mbind res_bind]. unfold channels_of. rewrite Hchs. simpl entries.
  destruct (chs !! pc_Name ch) as [c|] eqn:Hc; cbn [deref mbind res_bind].
  - destruct (Hall _ _ Hc) as (mch & bs & Hch & Hcn & Hcp & Hbs & _).
    eexists _, c, bs, bl. split; [left; eauto|]. split; [done|]. split; [reflexivity|].
    rewrite Hch. cbn [deref mbind res_bind]. rewrite Hbs. cbn [deref mbind res_bind].
    rewrite decide_False by naive_solver. unfold write_slot. rewrite (insert_id chs) by done.
    rewrite (insert_id (h_packages h)) by (rewrite Hpkg, <- Hchs; by destruct pkg).
    by rewrite Hcn, Hcp.
  - set (c := fresh (dom (h_channels h))).
    assert (h_channels h !! c = None) as Hcf by (apply not_elem_of_dom, is_fresh).
    eexists _, c, ∅, bl. split; [right; done|]. split; [done|]. split; [reflexivity|].
    cbn [h_channels h_bundles h_packages]. rewrite lookup_insert_eq. cbn [deref mbind res_bind Channel_Bundles].
    unfold write_slot. rewrite insert_insert_eq.
    repeat case_decide; try naive_solver.
Qed.

Lemma add_to_channel_inv h m P M name p dp b props ch :
  conv_inv h m P M → m !! name = Some p → P !! name = Some dp →
  ∃ h', add_to_channel p (dp_DefaultChannel dp) b props h ch = Ok h' ∧
    conv_inv h' m P (<[(name, pc_Name ch, db_Name b) := to_model_bundle b props ch None None]> M).
Proof.
  intros [Hl Hdom Hpk Hf] Hp Hdp. destruct (Hl _ _ Hp) as (pkg & chs & Hpkg & Hname & Hchs & _).
  destruct (add_to_channel_shape h m name p pkg chs (dp_DefaultChannel dp) b props ch)
    as (d & c & bs & bl & Hslot & Hfresh & Hd & HA); [done..|].
  eexists. split; [exact HA|]. clear HA.
  assert (∀ x, d = Some x → Package_DefaultChannel pkg = Some x ∨ x = c) as Hd'.
  { intros x ->. case_decide; [right; congruence|by left]. }
  split.
  - by eapply write_linked.
  - done.
  - intros name' pl Hpl. destruct (decide (pl = p)) as [->|Hne].
    + assert (name' = name) as -> by (by eapply package_linked_inj).
      destruct (Hpk _ _ Hp) as (pkg1 & dp1 & Hpkg1 & Hdp1 & Hdesc & Hicon & Hdef).
      assert (pkg1 = pkg) as -> by congruence. assert (dp1 = dp) as -> by congruence.
      eexists _, dp. split; [apply lookup_insert_eq|]. split_and!; [done..|].
      intros x Hx. cbn [Package_DefaultChannel] in Hx. change (channels_of _) with (<[pc_Name ch := c]> chs).
      rewrite Hd in Hx. destruct (decide (chs !! pc_Name ch = None ∧ pc_Name ch = dp_DefaultChannel dp)) as [Hcase|Hcase].
      * injection Hx as <-. destruct Hcase as [_ <-]. apply lookup_insert_eq.
      * specialize (Hdef _ Hx). unfold channels_of in Hdef. rewrite Hchs in Hdef. simpl in Hdef.
        apply lookup_insert_Some. destruct (decide (pc_Name ch = dp_DefaultChannel dp)) as [E|]; [left|by right].
        split; [done|]. destruct Hslot as [(ch' & Hc & _)|(Hc & _)]; [congruence|]. naive_solver.
    + destruct (Hpk _ _ Hpl) as (pkg1 & dp1 & Hpkg1 & Hrest). exists pkg1, dp1. split; [|done].
      simpl. by rewrite lookup_insert_ne.
  - intros p' c' n'. erewrite write_find by done.
    destruct (decide ((p', c', n') = (name, pc_Name ch, db_Name b))) as [E|Hne].
    + injection E as -> -> ->. by rewrite lookup_insert_eq.
    + rewrite lookup_insert_ne by congruence. apply Hf.
Qed.

Lemma add_channels_inv h m P M name p dp b props chs :
  conv_inv h m P M → m !! name = Some p → P !! name = Some dp →
  ∃ h', foldR (add_to_channel p (dp_DefaultChannel dp) b props) h chs = Ok h' ∧
    conv_inv h' m P (insert_all M ((λ ch, ((name, pc_Name ch, db_Name b), to_model_bundle b props ch None None)) <$> chs)).
Proof.
  intros Hi Hp Hdp. revert h M Hi. induction chs as [|ch chs IH]; intros h M Hi; [by exists h|].
  destruct (add_to_channel_inv h m P M name p dp b props ch) as (h1 & H1 & Hi1); [done..|].
  destruct (IH h1 _ Hi1) as (h2 & H2 & Hi2). exists h2. simpl. rewrite H1. done.
Qed.

(** What the conversion demands of a bundle. *)
Definition bundle_ok (P : gmap string declcfg_Package) (b : declcfg_Bundle) : Prop :=
  db_Package b ≠ "" ∧ is_Some (P !! db_Package b) ∧ ∃ props, bundle_properties b = Ok props.

Lemma bundle_properties_Ok b props :
  bundle_properties b = Ok props ↔
  parseProperties (db_Properties b) = Ok props ∧ ps_Channels props ≠ [] ∧
  ∃ p rest, ps_Packages props = p :: rest ∧ pp_PackageName p = db_Package b.
Proof.
  unfold bundle_properties. rewrite bind_Ok. setoid_rewrite wrap_err_Ok. split.
  - intros (o & Ho & Hm). repeat (case_match || case_decide); inv_ok; subst; eauto 10.
  - intros (Ho & Hc & p & rest & Hp & <-). exists props. split; [done|]. rewrite Hp.
    rewrite decide_True by done. by rewrite decide_False.
Qed.
Lemma bundle_properties_no_panic b : bundle_properties b ≠ Panic.
Proof.
  unfold bundle_properties, parseProperties. pose proof (property_Parse_no_panic (db_Properties b)).
  destruct (property_Parse (db_Properties b)); [|done..]. simpl.
  destruct (check_channels ∅ (ps_Channels a)); simpl; [done|]. repeat (case_match || case_decide); done.
Qed.

Lemma add_bundle_inv h m P M D b :
  conv_inv h m P M → D = dp_DefaultChannel <$> P →
  (bundle_ok P b ∧ ∃ h', add_bundle m D h b = Ok h' ∧ conv_inv h' m P (insert_all M (bundle_slots b))) ∨
  (¬ bundle_ok P b ∧ ∃ e, add_bundle m D h b = Err e).
Proof.
  intros Hi ->. unfold add_bundle, bundle_ok.
  destruct (decide (db_Package b = "")) as [|Hne]; [right; naive_solver|].
  destruct (m !! db_Package b) as [p|] eqn:Hp.
  2:{ right. split; [|by eexists]. intros (_ & HP & _). apply (ci_dom _ _ _ _ Hi) in HP. rewrite Hp in HP. by destruct HP. }
  destruct (ci_package _ _ _ _ Hi _ _ Hp) as (pkg & dp & _ & Hdp & _).
  pose proof (bundle_properties_no_panic b).
  destruct (bundle_properties b) as [props|e|] eqn:Hprops; [left|right; naive_solver|done].
  split; [rewrite Hdp; naive_solver|]. rewrite lookup_fmap, Hdp. cbn [fmap option_fmap option_map default mbind res_bind].
  destruct (add_channels_inv h m P M (db_Package b) p dp b props (ps_Channels props)) as (h' & H1 & H2); [done..|].
  exists h'. split; [done|]. apply bundle_properties_Ok in Hprops as [Hpp _].
  unfold bundle_slots. by rewrite Hpp.
Qed.

(** *** Default channels

    The last loop only adds channels without bundles, which the validation then
    rejects: in a conversion that succeeds it did nothing. *)
Definition bad_default (h : heap) (m : model_Model) : Prop :=
  ∃ name pl pkg k d ch, m !! name = Some pl ∧ h_packages h !! pl = Some pkg ∧
    Package_DefaultChannel pkg = Some d ∧ channels_of pkg !! k = Some d ∧
    h_channels h !! d = Some ch ∧ bundles_of ch = ∅.

Lemma bad_default_not_wf h m : bad_default h m → ¬ model_wf h m.
Proof.
  intros (name & pl & pkg & k & d & ch & Hm & Hpkg & _ & Hk & Hch & Hb) Hwf.
  destruct (Hwf _ _ Hm) as (pkg' & Hpkg' & _ & Hpwf). assert (pkg' = pkg) as -> by congruence.
  destruct (pwf_channels _ _ _ Hpwf _ _ Hk) as (ch' & Hch' & _ & Hcwf & _). assert (ch' = ch) as -> by congruence.
  destruct (cwf_head _ _ _ Hcwf) as (l & _ & k' & [Hk' _] & _). by rewrite Hb in Hk'.
Qed.

Lemma linked_frame h p pkg' c ch' chs' name m :
  linked h m → m !! name = Some p → h_channels h !! c = None →
  Package_Name pkg' = name → Package_Channels pkg' = Some chs' →
  (∀ x, Package_DefaultChannel pkg' = Some x → ∃ k, chs' !! k = Some x) →
  (∀ k cl, chs' !! k = Some cl → cl = c ∧ Channel_Name ch' = k ∨ cl ≠ c ∧ channel_linked h p k cl) →
  Channel_Package ch' = Some p → Channel_Bundles ch' = Some ∅ →
  linked (mkHeap (<[p := pkg']> (h_packages h)) (<[c := ch']> (h_channels h)) (h_bundles h)) m.
Proof.
  intros Hl Hp Hc Hname Hchs Hdef Hall Hcp Hcb.
  assert (∀ pl k cl, cl ≠ c → channel_linked h pl k cl → channel_linked
    (mkHeap (<[p := pkg']> (h_packages h)) (<[c := ch']> (h_channels h)) (h_bundles h)) pl k cl) as Hframe.
  { intros pl k cl Hne (ch & bs & Hch & Hrest). exists ch, bs. split; [simpl; by rewrite lookup_insert_ne|done]. }
  intros name' pl Hpl. destruct (decide (pl = p)) as [->|Hne].
  - rewrite (package_linked_inj h _ _ _ _ Hl Hpl Hp). exists pkg', chs'.
    split; [simpl; apply lookup_insert_eq|]. split_and!; [done|done|done|].
    intros k cl Hk. destruct (Hall _ _ Hk) as [[-> Hk']|[Hcl Hlk]]; [|by apply Hframe].
    exists ch', ∅. split; [simpl; apply lookup_insert_eq|]. split_and!; try done.
  - destruct (Hl _ _ Hpl) as (pkg1 & chs1 & Hpkg1 & Hn1 & Hchs1 & Hd1 & Hall1).
    exists pkg1, chs1. split; [simpl; by rewrite lookup_insert_ne|]. split_and!; try done.
    intros k cl Hk. specialize (Hall1 _ _ Hk). apply Hframe; [|done].
    intros ->. destruct Hall1 as (ch & ? & Hch & _). congruence.
Qed.

Lemma add_default_spec h m D name pl :
  linked h m → m !! name = Some pl →
  ∃ h', add_default D h (name, pl) = Ok h' ∧ linked h' m ∧ (h' = h ∨ bad_default h' m) ∧
    (bad_default h m → bad_default h' m).
Proof.
  intros Hl Hm. destruct (Hl _ _ Hm) as (pkg & chs & Hpkg & Hname & Hchs & Hdef & Hall).
  unfold add_default. cbn [snd]. rewrite Hpkg. cbn [deref mbind res_bind].
  case_decide as Hcond; [|exists h; split_and!; auto]. destruct Hcond as [Hdn Hnone].
  rewrite Hchs. cbn [deref mbind res_bind]. set (dn := default "" (D !! Package_Name pkg)) in *.
  set (c := fresh (dom (h_channels h))).
  assert (h_channels h !! c = None) as Hcf by (apply not_elem_of_dom, is_fresh).
  eexists. split; [reflexivity|]. split_and!.
  - eapply linked_frame; try done.
    + intros x [= <-]. exists dn. apply lookup_insert_eq.
    + intros k cl [[<- <-]|[Hne Hk]]%lookup_insert_Some; [by left|right].
      specialize (Hall _ _ Hk). split; [|done]. intros ->. destruct Hall as (ch & ? & Hch & _). congruence.
  - right. eexists name, pl, _, dn, c, _. split; [done|]. split; [simpl; apply lookup_insert_eq|].
    split; [done|]. split; [apply lookup_insert_eq|]. split; [simpl; apply lookup_insert_eq|done].
  - intros (name1 & pl1 & pkg1 & k1 & d1 & ch1 & Hm1 & Hpkg1 & Hd1 & Hk1 & Hch1 & Hb1).
    assert (pl1 ≠ pl) by (intros ->; congruence). assert (d1 ≠ c) by (intros ->; congruence).
    exists name1, pl1, pkg1, k1, d1, ch1. split_and!; try done; simpl; by rewrite lookup_insert_ne.
Qed.

Lemma add_defaults_spec h m D l :
  linked h m → (∀ name pl, (name, pl) ∈ l → m !! name = Some pl) →
  ∃ h', foldR (add_default D) h l = Ok h' ∧ linked h' m ∧ (h' = h ∨ bad_default h' m) ∧
    (bad_default h m → bad_default h' m).
Proof.
  revert h. induction l as [|[name pl] l IH]; intros h Hl Hin; [exists h; split_and!; auto|].
  destruct (add_default_spec h m D name pl) as (h1 & H1 & Hl1 & Hc1 & Hb1); [done|apply Hin; left|].
  destruct (IH h1 Hl1) as (h2 & H2 & Hl2 & Hc2 & Hb2); [intros; apply Hin; by right|].
  exists h2. simpl. rewrite H1. split_and!; [done|done| |auto].
  destruct Hc1 as [->|Hc1]; [done|right; auto].
Qed.

(** ** Validation of a linked graph does not panic *)
Lemma collect_is_Ok {A} (f : A → res (list error)) l :
  (∀ x, x ∈ l → is_Ok (f x)) → is_Ok (collect f l).
Proof.
  induction l as [|x l IH]; intros Hf; simpl; [by eexists|].
  destruct (Hf x) as [es ->]; [left|]. destruct IH as [es' ->]; [intros; apply Hf; by right|]. by eexists.
Qed.

Lemma Bundle_Validate_is_Ok h pl cl n bl b :
  bundle_linked h pl cl n bl → is_Some (h_channels h !! cl) → h_bundles h !! bl = Some b →
  is_Ok (Bundle_Validate h b).
Proof.
  intros (b' & Hb' & _ & Hc & Hp) [ch Hch] Hb. assert (b' = b) as -> by congruence.
  unfold Bundle_Validate. rewrite Hc, Hp, Hch. cbn [deref mbind res_bind].
  pose proof (property_Parse_no_panic (Bundle_Properties b)).
  destruct (property_Parse (Bundle_Properties b)); [by eexists..|done].
Qed.

Section no_panic.
Context `{GoRuntime}.

Lemma Channel_Validate_is_Ok h pl k cl : channel_linked h pl k cl → is_Ok (Channel_Validate h cl).
Proof.
  intros (ch & bs & Hch & _ & _ & Hbs & Hall). unfold Channel_Validate. rewrite Hch. cbn [deref mbind res_bind].
  assert (bundles_of ch = bs) as Hb by (unfold bundles_of; by rewrite Hbs).
  assert (Channel_Head h ch ≠ Panic) as Hhd.
  { rewrite Channel_Head_unfold. rewrite decide_True; [by repeat case_match|]. apply Forall_forall.
    intros [n bl] Hin%range_elem. rewrite Hb in Hin. destruct (Hall _ _ Hin) as (b & ? & _). by exists b. }
  assert (∃ e, (if decide (bundles_of ch = ∅) then Ok [] else
    match Channel_Head h ch with Ok _ => Ok [] | Err e => Ok [e] | Panic => Panic end) = Ok e) as [e ->].
  { case_decide; [by eexists|]. destruct (Channel_Head h ch); [by eexists..|done]. }
  cbn [mbind res_bind].
  match goal with |- context [collect ?f ?l] => assert (is_Ok (collect f l)) as [es ->] end; [|by eexists].
  apply collect_is_Ok. intros [n bl] Hin%range_elem. rewrite Hb in Hin.
  pose proof (Hall _ _ Hin) as Hbl. destruct Hbl as (b & Hbb & _). rewrite Hbb. cbn [deref mbind res_bind].
  destruct (Bundle_Validate_is_Ok h pl cl n bl b) as [r ->]; [by apply Hall|by exists ch|done|]. by eexists.
Qed.

Lemma Package_Validate_is_Ok h name pl : package_linked h name pl → is_Ok (Package_Validate h pl).
Proof.
  intros (pkg & chs & Hpkg & Hname & Hchs & Hdef & Hall). unfold Package_Validate. rewrite Hpkg. cbn [deref mbind res_bind].
  assert (channels_of pkg = chs) as Hc by (unfold channels_of; by rewrite Hchs). rewrite Hc.
  match goal with |- context [collect ?f ?l] => assert (is_Ok (collect f l)) as [es ->] end.
  { apply collect_is_Ok. intros [k cl] Hin%range_elem. pose proof (Hall _ _ Hin) as (ch & ? & Hch & _).
    rewrite Hch. cbn [deref mbind res_bind]. destruct (Channel_Validate_is_Ok h pl k cl) as [r ->]; [by apply Hall|]. by eexists. }
  cbn [mbind res_bind]. destruct (Package_DefaultChannel pkg) as [d|] eqn:Hd; [|by eexists].
  case_match; [by eexists|]. destruct (Hdef d eq_refl) as [k Hk]. destruct (Hall _ _ Hk) as (ch & ? & Hch & _).
  rewrite Hch. by eexists.
Qed.

Lemma Model_Validate_is_Ok h m : linked h m → is_Ok (Model_Validate h m).
Proof.
  intros Hl. unfold Model_Validate.
  match goal with |- context [collect ?f ?l] => assert (is_Ok (collect f l)) as [es ->] end; [|by eexists].
  apply collect_is_Ok. intros [name pl] Hin%range_elem. pose proof (Hl _ _ Hin) as (pkg & ? & Hpkg & _).
  rewrite Hpkg. cbn [deref mbind res_bind]. destruct (Package_Validate_is_Ok h name pl) as [r ->]; [by apply Hl|]. by eexists.
Qed.
End no_panic.

(** ** ConvertToModel *)
Lemma add_packages_inv ps h m P D :
  conv_inv h m P ∅ → D = dp_DefaultChannel <$> P →
  ∃ h' m', foldl add_package (h, m, D) ps = (h', m', dp_DefaultChannel <$> foldl (λ P p, <[dp_Name p := p]> P) P ps) ∧
    conv_inv h' m' (foldl (λ P p, <[dp_Name p := p]> P) P ps) ∅.
Proof.
  revert h m P D. induction ps as [|p ps IH]; intros h m P D Hi ->; simpl; [eauto|].
  destruct (add_package_inv h m P _ p Hi eq_refl) as (h1 & m1 & D1 & E & Hi1 & ->).
  unfold add_package in E. injection E as E1 E2 E3. rewrite E1, E2, E3. by apply IH.
Qed.

Lemma add_bundles_inv h m P M bs :
  conv_inv h m P M →
  (Forall (bundle_ok P) bs ∧ ∃ h', foldR (add_bundle m (dp_DefaultChannel <$> P)) h bs = Ok h' ∧
     conv_inv h' m P (foldl (λ M b, insert_all M (bundle_slots b)) M bs)) ∨
  (¬ Forall (bundle_ok P) bs ∧ ∃ e, foldR (add_bundle m (dp_DefaultChannel <$> P)) h bs = Err e).
Proof.
  revert h M. induction bs as [|b bs IH]; intros h M Hi; [left; split; [done|by exists h]|].
  destruct (add_bundle_inv h m P M _ b Hi eq_refl) as [[Hok (h1 & H1 & Hi1)]|[Hok [e He]]].
  - simpl. rewrite H1. cbn [mbind res_bind]. destruct (IH h1 _ Hi1) as [[Hall ?]|[Hall ?]]; [left|right].
    + split; [by constructor|done].
    + split; [|done]. intros [? ?]%Forall_cons. done.
  - right. simpl. rewrite He. split; [|by exists e]. intros [? ?]%Forall_cons. done.
Qed.

Lemma conv_inv_empty : conv_inv empty_heap ∅ ∅ ∅.
Proof.
  split; [apply map_Forall_empty|intros name; by rewrite !lookup_empty|intros ? ? [=]|].
  intros p c n. rewrite find_bundle_eq. by rewrite !lookup_empty.
Qed.

Section to_model.
Context `{GoRuntime}.
Variable cfg : DeclarativeConfig.
Let P := cfg_packages (cfg_Packages cfg).

Lemma ConvertToModel_cases :
  (∃ h m, conv_inv h m P (cfg_slots (cfg_Bundles cfg)) ∧ Forall (bundle_ok P) (cfg_Bundles cfg) ∧ model_wf h m ∧
     ConvertToModel cfg = Ok (mkHeap (h_packages h) (h_channels h) (normalized (reachable h m) (h_bundles h)), m)) ∨
  (∃ e, ConvertToModel cfg = Err e).
Proof.
  unfold ConvertToModel.
  destruct (add_packages_inv (cfg_Packages cfg) empty_heap ∅ ∅ ∅ conv_inv_empty) as (h1 & m & E & Hi1).
  { by rewrite fmap_empty. }
  rewrite E. fold P in Hi1 |- *. clear E.
  destruct (add_bundles_inv h1 m P ∅ (cfg_Bundles cfg) Hi1) as [[Hok (h2 & H2 & Hi2)]|[_ [e He]]];
    [|right; unfold P, cfg_packages in *; rewrite He; by exists e].
  unfold P, cfg_packages in H2 |- *. rewrite H2. cbn [mbind res_bind]. fold P.
  destruct (add_defaults_spec h2 m (dp_DefaultChannel <$> P) (range m)) as (h3 & H3 & Hl3 & Hc3 & _).
  { apply Hi2. } { intros. by apply range_elem. }
  unfold P, cfg_packages in H3. rewrite H3. cbn [mbind res_bind].
  destruct (Model_Validate_is_Ok h3 m Hl3) as [[e|] Hv]; rewrite Hv; cbn [check mbind res_bind]; [right; by exists e|].
  apply Model_Validate_model_wf in Hv as Hwf. left. exists h2, m.
  destruct Hc3 as [->|Hbad]; [|by apply bad_default_not_wf in Hbad].
  split_and!; [done|done|done|]. by rewrite Normalize_eq.
Qed.
End to_model.

(** Normalizing rewrites the bundles one finds. *)
Lemma find_normalized `{GoRuntime} h m p c n :
  model_wf h m →
  find_bundle (mkHeap (h_packages h) (h_channels h) (normalized (reachable h m) (h_bundles h))) m p c n =
  normalize_bundle <$> find_bundle h m p c n.
Proof.
  intros Hwf. unfold find_bundle. destruct (m !! p) as [pl|] eqn:Hp; [|done]. heap_simpl.
  destruct (h_packages h !! pl) as [pkg|] eqn:Hpkg; [|done]. heap_simpl.
  destruct (channels_of pkg !! c) as [cl|] eqn:Hc; [|done]. heap_simpl.
  destruct (h_channels h !! cl) as [ch|] eqn:Hch; [|done]. heap_simpl.
  destruct (bundles_of ch !! n) as [bl|] eqn:Hn; [|done]. heap_simpl.
  rewrite normalized_lookup. destruct (h_bundles h !! bl); [|done]. simpl. rewrite decide_True; [done|].
  apply elem_of_reachable; [done|]. exists p, c, n, pl, pkg, cl, ch. done.
Qed.

Lemma linked_normalized ls h m :
  linked h m → linked (mkHeap (h_packages h) (h_channels h) (normalized ls (h_bundles h))) m.
Proof.
  intros Hl name pl Hpl. destruct (Hl _ _ Hpl) as (pkg & chs & ? & ? & ? & ? & Hall).
  exists pkg, chs. split_and!; try done. intros k cl Hk. destruct (Hall _ _ Hk) as (ch & bs & ? & ? & ? & ? & Hb).
  exists ch, bs. split_and!; try done. intros n bl Hn. destruct (Hb _ _ Hn) as (b & Hbl & Hrest).
  eexists. simpl. rewrite normalized_lookup, Hbl. simpl. split; [reflexivity|]. by case_decide.
Qed.
