(* ===== verification/DeclcfgRoundtrip.v ===== *)
(** * From a config to the graph and back

    [ConvertFromModel] applied to the result of [ConvertToModel] returns the
    config: the same packages and bundles, in order of their names, with
    normalized and deduplicated properties. *)
From S2P Require Import Prelude Json JsonCompact Property Model ModelOps Declcfg DeclcfgConv.
From stdpp Require Import options.

(** ** The abstract graph when no bundle is declared twice *)
Lemma insert_all_lookup (l : list ((string * string * string) * model_Bundle)) (M : slots) k x :
  NoDup l.*1 → (∀ k, k ∈ l.*1 → M !! k = None) →
  insert_all M l !! k = Some x ↔ (k, x) ∈ l ∨ M !! k = Some x.
Proof.
  revert M. induction l as [|[k1 x1] l IH]; intros M Hn HM; simpl; [set_solver|].
  simpl in Hn. apply NoDup_cons in Hn as [Hn1 Hn].
  change (foldl _ ?M' l) with (insert_all M' l). rewrite IH; [|done|].
  - rewrite elem_of_cons. destruct (decide (k = k1)) as [->|].
    + rewrite lookup_insert_eq. rewrite (HM k1) by left. split; [|naive_solver].
      intros [Hin|[= ->]]; [|by auto]. destruct Hn1. apply list_elem_of_fmap. by exists (k1, x).
    + rewrite lookup_insert_ne by done. naive_solver.
  - intros k' Hk'. rewrite lookup_insert_ne by (intros ->; done). apply HM. by right.
Qed.

Lemma insert_all_app M l1 l2 : insert_all M (l1 ++ l2) = insert_all (insert_all M l1) l2.
Proof. apply foldl_app. Qed.
Lemma cfg_slots_eq bs : cfg_slots bs = insert_all ∅ (b ← bs; bundle_slots b).
Proof.
  unfold cfg_slots. generalize (∅ : slots). induction bs as [|b bs IH]; intros M; simpl; [done|].
  by rewrite IH, insert_all_app.
Qed.

Definition bundle_key (b : declcfg_Bundle) : string * string := (db_Package b, db_Name b).

Lemma bundle_slots_elem b k x :
  (k, x) ∈ bundle_slots b ↔
  ∃ props ch, parseProperties (db_Properties b) = Ok props ∧ ch ∈ ps_Channels props ∧
    k = (db_Package b, pc_Name ch, db_Name b) ∧ x = to_model_bundle b props ch None None.
Proof.
  unfold bundle_slots. destruct (parseProperties (db_Properties b)) as [props| |].
  - rewrite list_elem_of_fmap. split.
    + intros (ch & [= -> ->] & Hch). eauto 10.
    + intros (props' & ch & [= <-] & Hch & -> & ->). eauto.
  - split; [intros Hin%elem_of_nil; done|naive_solver].
  - split; [intros Hin%elem_of_nil; done|naive_solver].
Qed.

Lemma bundle_slots_NoDup b : NoDup (bundle_slots b).*1.
Proof.
  unfold bundle_slots. destruct (parseProperties (db_Properties b)) as [props| |] eqn:E; try constructor.
  apply parseProperties_Ok in E as [_ Hn]. rewrite <- list_fmap_compose.
  replace (_ <$> ps_Channels props) with ((λ c, (db_Package b, c, db_Name b)) <$> (pc_Name <$> ps_Channels props))
    by (by rewrite <- list_fmap_compose).
  apply NoDup_fmap_2; [|done]. intros c c' E. congruence.
Qed.

Lemma cfg_slots_lookup bs p c n x :
  NoDup (bundle_key <$> bs) →
  cfg_slots bs !! (p, c, n) = Some x ↔
  ∃ b props ch, b ∈ bs ∧ parseProperties (db_Properties b) = Ok props ∧ ch ∈ ps_Channels props ∧
    db_Package b = p ∧ db_Name b = n ∧ pc_Name ch = c ∧ x = to_model_bundle b props ch None None.
Proof.
  intros Hn. rewrite cfg_slots_eq, insert_all_lookup.
  - rewrite lookup_empty, list_elem_of_bind. setoid_rewrite bundle_slots_elem. split.
    + intros [(b & (props & ch & Hp & Hch & [= -> -> ->] & ->) & Hb)|?]; [|done]. exists b, props, ch. done.
    + intros (b & props & ch & Hb & Hp & Hch & <- & <- & <- & ->). left. exists b. eauto 10.
  - induction bs as [|b bs IH]; simpl; [constructor|]. simpl in Hn. apply NoDup_cons in Hn as [Hnb Hn].
    rewrite fmap_app. apply NoDup_app. split_and!; [apply bundle_slots_NoDup| |by apply IH].
    intros k Hk1 Hk2. apply list_elem_of_fmap in Hk1 as ([k1 x1] & -> & Hk1). apply list_elem_of_fmap in Hk2 as ([k2 x2] & E & Hk2).
    simpl in E. subst k2. apply bundle_slots_elem in Hk1 as (? & ch & _ & _ & -> & _).
    apply list_elem_of_bind in Hk2 as (b' & Hb' & Hin). apply bundle_slots_elem in Hb' as (? & ch' & _ & _ & E & _).
    apply Hnb. apply list_elem_of_fmap. exists b'. split; [|done]. unfold bundle_key. congruence.
  - intros k _. apply lookup_empty.
Qed.

(** ** Traversing the channels of a package *)
Lemma Deduplicate_loop_seen props ps : (∀ p, p ∈ ps → dedup_key p ∈ props) → Deduplicate_loop props ps = [].
Proof.
  induction ps as [|p ps IH]; intros Hin; simpl; [done|]. rewrite decide_True by (apply Hin; left).
  apply IH. intros. apply Hin. by right.
Qed.
Lemma Deduplicate_replicate k ps : Deduplicate (mjoin (replicate (S k) ps)) = Deduplicate ps.
Proof.
  unfold Deduplicate. simpl. rewrite Deduplicate_loop_app. rewrite (Deduplicate_loop_seen (_ ∪ _)); [apply app_nil_r|].
  intros p Hp. apply list_elem_of_join in Hp as (l & Hp & Hl). apply elem_of_replicate_inv in Hl as ->.
  apply elem_of_union. right. apply elem_of_list_to_set, list_elem_of_fmap. eauto.
Qed.

Section traverse.
Context `{GoRuntime}.
Variables (h : heap) (m : model_Model) (name : string) (p : loc) (pkg : model_Package) (chs : gmap string loc).
Hypothesis Hl : linked h m.
Hypothesis Hp : m !! name = Some p.
Hypothesis Hpkg : h_packages h !! p = Some pkg.
Hypothesis Hchs : Package_Channels pkg = Some chs.
#[local] Set Default Proof Using "Type*".

Definition visit_channel (cl : loc) : list model_Bundle :=
  match h_channels h !! cl with
  | Some ch => omap (λ kl, h_bundles h !! kl.2) (range (bundles_of ch))
  | None => []
  end.
Definition visited : list model_Bundle := cl ← (range chs).*2; visit_channel cl.

Lemma package_channels : Package_Name pkg = name ∧ map_Forall (channel_linked h p) chs.
Proof.
  destruct (Hl _ _ Hp) as (pkg1 & chs1 & Hpkg1 & Hname & Hchs1 & _ & Hall).
  assert (pkg1 = pkg) as -> by congruence. assert (chs1 = chs) as -> by congruence. done.
Qed.

Lemma visited_elem b : b ∈ visited ↔ ∃ c n, find_bundle h m name c n = Some b.
Proof.
  destruct package_channels as [Hname Hall]. unfold visited. rewrite list_elem_of_bind. split.
  - intros (cl & Hb & Hcl). apply list_elem_of_fmap in Hcl as ([c cl'] & -> & Hc%range_elem). simpl in Hb.
    unfold visit_channel in Hb. destruct (h_channels h !! cl') as [ch|] eqn:Hch; [|by apply elem_of_nil in Hb].
    apply list_elem_of_omap in Hb as ([n bl] & Hn%range_elem & Hbl). exists c, n. unfold find_bundle.
    rewrite Hp. heap_simpl. rewrite Hpkg. heap_simpl. unfold channels_of. rewrite Hchs. heap_simpl.
    rewrite Hc. heap_simpl. rewrite Hch. heap_simpl. rewrite Hn. done.
  - intros (c & n & Hf). unfold find_bundle in Hf. rewrite Hp in Hf. cbn [mbind option_bind] in Hf.
    rewrite Hpkg in Hf. cbn [mbind option_bind] in Hf. unfold channels_of in Hf. rewrite Hchs in Hf.
    cbn [entries default from_option id] in Hf.
    destruct (chs !! c) as [cl|] eqn:Hc; [|done]. cbn [mbind option_bind] in Hf.
    destruct (h_channels h !! cl) as [ch|] eqn:Hch; [|done]. cbn [mbind option_bind] in Hf.
    destruct (bundles_of ch !! n) as [bl|] eqn:Hn; [|done]. cbn [mbind option_bind] in Hf.
    exists cl. split.
    + unfold visit_channel. rewrite Hch. apply list_elem_of_omap. exists (n, bl). split; [by apply range_elem|done].
    + apply list_elem_of_fmap. exists (c, cl). split; [done|by apply range_elem].
Qed.

Lemma visited_package b : b ∈ visited → Bundle_Package b = Some p.
Proof.
  destruct package_channels as [Hname Hall]. unfold visited. rewrite list_elem_of_bind.
  intros (cl & Hb & Hcl). apply list_elem_of_fmap in Hcl as ([c cl'] & -> & Hc%range_elem). simpl in Hb.
  destruct (Hall _ _ Hc) as (ch & bs & Hch & _ & _ & Hbs & Hbl). unfold visit_channel in Hb. rewrite Hch in Hb.
  apply list_elem_of_omap in Hb as ([n bl] & Hn%range_elem & Hbb). unfold bundles_of in Hn. rewrite Hbs in Hn.
  destruct (Hbl _ _ Hn) as (b' & Hb' & _ & _ & Hpk). simpl in Hbb. congruence.
Qed.

(** The nested loops visit exactly that list. *)
Lemma traverse_channel_fold cl k M :
  channel_linked h p k cl →
  (ch ← deref (h_channels h !! cl);
   foldR (λ bundles '(_, bl), chb ← deref (h_bundles h !! bl); traverse_bundle h bundles chb)
     M (range (bundles_of ch))) = foldR (traverse_bundle h) M (visit_channel cl).
Proof.
  intros (ch & bs & Hch & _ & _ & Hbs & Hall). unfold visit_channel. rewrite Hch. cbn [deref mbind res_bind].
  assert (∀ n bl, (n, bl) ∈ range (bundles_of ch) → is_Some (h_bundles h !! bl)) as Halloc.
  { intros n bl Hn%range_elem. unfold bundles_of in Hn. rewrite Hbs in Hn. destruct (Hall _ _ Hn) as (b & ? & _). by exists b. }
  revert M Halloc. induction (range (bundles_of ch)) as [|[n bl] l IH]; intros M Halloc; [done|].
  destruct (Halloc n bl) as [b Hb]; [left|]. cbn [foldR omap list_omap]. simpl. rewrite Hb. cbn [deref mbind res_bind foldR].
  destruct (traverse_bundle h M b); cbn [mbind res_bind]; [|done..]. apply IH. intros. eapply Halloc. by right.
Qed.

Lemma traverse_fold :
  foldR (λ bundles '(_, cl),
      ch ← deref (h_channels h !! cl);
      foldR (λ bundles '(_, bl), chb ← deref (h_bundles h !! bl); traverse_bundle h bundles chb)
        bundles (range (bundles_of ch))) ∅ (range chs) = foldR (traverse_bundle h) ∅ visited.
Proof.
  destruct package_channels as [Hname Hall]. unfold visited. generalize (∅ : gmap string declcfg_Bundle).
  assert (∀ k cl, (k, cl) ∈ range chs → channel_linked h p k cl) as Hlk by (intros k cl Hk%range_elem; by apply Hall).
  revert Hlk. induction (range chs) as [|[k cl] l IH]; intros Hlk M; [done|].
  cbn [foldR]. rewrite (traverse_channel_fold cl k) by (apply Hlk; left). simpl. rewrite foldR_app.
  destruct (foldR (traverse_bundle h) M (visit_channel cl)); cbn [mbind res_bind]; [|done..].
  apply IH. intros. apply Hlk. by right.
Qed.
End traverse.

(** ** The bundles of one package *)

(** The config form of a graph bundle, its properties as they are. *)
Definition from_bundle (name : string) (b : model_Bundle) : declcfg_Bundle :=
  mkDBundle schemaBundle (Bundle_Name b) name (Bundle_Image b) (Bundle_Properties b)
    (modelRelatedImagesToRelatedImages (Bundle_RelatedImages b)) (Bundle_CsvJSON b) (Bundle_Objects b).
Definition dedup_bundle (d : declcfg_Bundle) : declcfg_Bundle :=
  with_properties d (Deduplicate (db_Properties d)).
Definition copies (F : string → declcfg_Bundle) (L : list model_Bundle) (n : string) : option declcfg_Bundle :=
  match length (filter (λ b, Bundle_Name b = n) L) with
  | 0 => None
  | S k => Some (with_properties (F n) (mjoin (replicate (S k) (db_Properties (F n)))))
  end.

Lemma with_properties_twice d ps qs : with_properties (with_properties d ps) qs = with_properties d qs.
Proof. done. Qed.
Lemma with_properties_id d : with_properties d (db_Properties d) = d.
Proof. by destruct d. Qed.

Lemma replicate_join_S {A} k (l : list A) : mjoin (replicate (S k) l) = mjoin (replicate k l) ++ l.
Proof.
  induction k as [|k IH]; simpl; [apply app_nil_r|]. simpl in IH. rewrite IH at 1. apply app_assoc.
Qed.

Lemma traverse_bundles h p pkg F L :
  h_packages h !! p = Some pkg →
  (∀ b, b ∈ L → Bundle_Package b = Some p ∧ F (Bundle_Name b) = from_bundle (Package_Name pkg) b) →
  ∃ R, foldR (traverse_bundle h) ∅ L = Ok R ∧ ∀ n, R !! n = copies F L n.
Proof.
  intros Hpkg. induction L as [|b L IH] using rev_ind; intros HL;
    [exists ∅; split; [done|intros n; by rewrite lookup_empty]|].
  destruct IH as (R & HR & Hcp); [intros; apply HL, elem_of_app; by left|].
  destruct (HL b) as [Hbp HF]; [apply elem_of_app; right; by left|].
  rewrite foldR_app, HR. cbn [mbind res_bind foldR]. unfold traverse_bundle. rewrite Hcp.
  set (n := Bundle_Name b) in *.
  assert (∀ n', copies F (L ++ [b]) n' =
    if decide (n' = n) then Some (with_properties (F n) (mjoin (replicate (length (filter (λ b, Bundle_Name b = n) L)) (db_Properties (F n))) ++ Bundle_Properties b))
    else copies F L n') as Hstep.
  { intros n'. unfold copies. rewrite filter_app, length_app. rewrite filter_cons, filter_nil.
    destruct (decide (n' = n)) as [->|Hne].
    - rewrite decide_True by done. cbn [length]. rewrite Nat.add_1_r.
      rewrite replicate_join_S. do 3 f_equal. by rewrite HF.
    - rewrite decide_False by (intros <-; done). cbn [length]. by rewrite Nat.add_0_r. }
  unfold copies at 1. destruct (length (filter (λ b0, Bundle_Name b0 = n) L)) as [|k] eqn:Ek.
  - rewrite Hbp. cbn [deref mbind res_bind]. rewrite Hpkg. cbn [deref mbind res_bind].
    eexists. split; [reflexivity|]. intros n'. rewrite Hstep. destruct (decide (n' = n)) as [->|].
    + rewrite lookup_insert_eq. rewrite HF. done.
    + by rewrite lookup_insert_ne.
  - cbn [mbind res_bind]. eexists. split; [reflexivity|]. intros n'. rewrite Hstep. destruct (decide (n' = n)) as [->|].
    + rewrite lookup_insert_eq. done.
    + by rewrite lookup_insert_ne.
Qed.

Lemma copies_is_Some F L n : is_Some (copies F L n) ↔ ∃ b, b ∈ L ∧ Bundle_Name b = n.
Proof.
  unfold copies. destruct (filter (λ b, Bundle_Name b = n) L) as [|b l] eqn:E; simpl.
  - split; [by intros [? ?]|]. intros (b & Hb & Hn). assert (b ∈ filter (λ b, Bundle_Name b = n) L) as Hin
      by by apply list_elem_of_filter. rewrite E in Hin. by apply elem_of_nil in Hin.
  - split; [|by eauto]. intros _. assert (b ∈ filter (λ b, Bundle_Name b = n) L) as Hin by (rewrite E; left).
    apply list_elem_of_filter in Hin as [? ?]. eauto.
Qed.
Lemma copies_dedup F L n x : copies F L n = Some x → dedup_bundle x = dedup_bundle (F n).
Proof.
  unfold copies. destruct (length _); [done|]. intros [= <-]. unfold dedup_bundle.
  rewrite with_properties_twice. f_equal. apply Deduplicate_replicate.
Qed.

(** [B] lists the bundles of the package as a config would. *)
Lemma traverseModelChannels_perm `{GoRuntime} h m name p pkg (B : list declcfg_Bundle) :
  linked h m → m !! name = Some p → h_packages h !! p = Some pkg →
  NoDup (db_Name <$> B) →
  (∀ c n b, find_bundle h m name c n = Some b → ∃ d, d ∈ B ∧ d = from_bundle name b) →
  (∀ d, d ∈ B → ∃ c n b, find_bundle h m name c n = Some b ∧ Bundle_Name b = db_Name d) →
  ∃ out, traverseModelChannels h pkg = Ok out ∧ out ≡ₚ dedup_bundle <$> B.
Proof.
  intros Hl Hp Hpkg HB Hin1 Hin2. destruct (Hl _ _ Hp) as (pkg1 & chs & Hpkg1 & Hname & Hchs & _).
  assert (pkg1 = pkg) as -> by congruence.
  set (F n := default (mkDBundle "" "" "" "" [] [] "" [])
                ((list_to_map ((λ d, (db_Name d, d)) <$> B) : gmap string declcfg_Bundle) !! n)).
  assert (NoDup ((λ d, (db_Name d, d)) <$> B).*1) as HB' by (by rewrite <- list_fmap_compose).
  assert (∀ d, d ∈ B → F (db_Name d) = d) as HF.
  { intros d Hd. unfold F. rewrite (elem_of_list_to_map_1 _ (db_Name d) d); [done|done|].
    apply list_elem_of_fmap. by exists d. }
  destruct (traverse_bundles h p pkg F (visited h chs)) as (R & HR & Hcp); [done| |].
  { intros b Hb. split; [by eapply visited_package|]. rewrite Hname.
    apply (visited_elem h m name p pkg chs) in Hb as (c & n & Hb); [|done..].
    destruct (Hin1 _ _ _ Hb) as (d & Hd & E). rewrite <- E, <- (HF d Hd). by rewrite E. }
  eexists. unfold traverseModelChannels, channels_of. rewrite Hchs. cbn [entries default from_option id].
  split; [erewrite traverse_fold by done; rewrite HR; reflexivity|].
  assert (range R ≡ₚ (λ d, (db_Name d, default d (R !! db_Name d))) <$> B) as HRp.
  { apply NoDup_Permutation.
    - apply (NoDup_fmap_1 fst), range_NoDup.
    - apply (NoDup_fmap_1 fst). by rewrite <- list_fmap_compose.
    - intros [n x]. rewrite range_elem, Hcp, list_elem_of_fmap. split.
      + intros Hx. assert (is_Some (copies F (visited h chs) n)) as Hs by eauto.
        apply copies_is_Some in Hs as (b & Hb & Hn). apply (visited_elem h m name p pkg chs) in Hb as (c & n' & Hb); [|done..].
        destruct (Hin1 _ _ _ Hb) as (d & Hd & E). exists d. split; [|done].
        assert (db_Name d = n) as -> by (by rewrite E). by rewrite Hcp, Hx.
      + intros (d & [= -> ->] & Hd). destruct (Hin2 d Hd) as (c & n & b & Hb & Hn).
        assert (is_Some (copies F (visited h chs) (db_Name d))) as [x Hx].
        { apply copies_is_Some. exists b. split; [|done]. apply (visited_elem h m name p pkg chs); eauto. }
        by rewrite Hcp, Hx. }
  rewrite HRp. rewrite <- list_fmap_compose. apply Permutation_refl'. apply list_fmap_ext. intros i d Hi.
  assert (d ∈ B) as Hd by (by eapply list_elem_of_lookup_2). simpl.
  destruct (R !! db_Name d) as [x|] eqn:Hx; simpl; [|done]. rewrite Hcp in Hx.
  change (dedup_bundle x = dedup_bundle d). rewrite (copies_dedup F _ _ _ Hx). by rewrite HF.
Qed.

(** ** Grouping by package *)
Lemma bind_insert_perm {A K} `{EqDecision K} (f : A → K) (g : K → list A) x ks :
  NoDup ks → f x ∈ ks →
  (k ← ks; (if decide (f x = k) then [x] else []) ++ g k) ≡ₚ x :: (k ← ks; g k).
Proof.
  intros Hn. induction Hn as [|k ks Hk Hn IH]; intros Hx; [by apply elem_of_nil in Hx|]. simpl.
  apply elem_of_cons in Hx as [Hx|Hx].
  - rewrite decide_True by done. simpl. f_equiv. f_equiv.
    apply Permutation_refl'. apply Forall_bind_ext, Forall_forall. intros k' Hk'.
    by rewrite decide_False by (intros E; rewrite <- E, Hx in Hk'; done).
  - rewrite decide_False by (intros E; by rewrite E in Hx). simpl. rewrite IH by done. symmetry. apply Permutation_middle.
Qed.

Lemma bucket_perm {A K} `{EqDecision K} (f : A → K) (l : list A) (ks : list K) :
  NoDup ks → (∀ x, x ∈ l → f x ∈ ks) → (k ← ks; filter (λ x, f x = k) l) ≡ₚ l.
Proof.
  intros Hn. induction l as [|x l IH]; intros Hin.
  - replace (k ← ks; filter (λ x, f x = k) []) with ([] : list A); [done|].
    clear. by induction ks.
  - transitivity (x :: (k ← ks; filter (λ x, f x = k) l)); [|by rewrite IH by (intros; apply Hin; by right)].
    rewrite <- (bind_insert_perm f (λ k, filter (λ x, f x = k) l)) by (done || apply Hin; left).
    apply Permutation_refl'. apply Forall_bind_ext, Forall_forall. intros k _. rewrite filter_cons. by case_decide.
Qed.

(** ** ConvertFromModel *)
Definition from_package (h : heap) (pkg : model_Package) (dflt : string) : declcfg_Package :=
  mkDPackage schemaPackage (Package_Name pkg) dflt
    ((λ i, mkDIcon (ic_Data i) (ic_MediaType i)) <$> Package_Icon pkg) (Package_Description pkg).

Lemma from_model_packages `{GoRuntime} h (B : string → list declcfg_Bundle) (Q : string → declcfg_Package) l cfg :
  (∀ name pl, (name, pl) ∈ l → ∃ pkg d ch out,
     h_packages h !! pl = Some pkg ∧ Package_DefaultChannel pkg = Some d ∧ h_channels h !! d = Some ch ∧
     Q name = from_package h pkg (Channel_Name ch) ∧
     traverseModelChannels h pkg = Ok out ∧ out ≡ₚ B name) →
  ∃ cfg', foldR (from_model_package h) cfg l = Ok cfg' ∧
    cfg_Packages cfg' = cfg_Packages cfg ++ (Q <$> l.*1) ∧
    cfg_Bundles cfg' ≡ₚ cfg_Bundles cfg ++ (n ← l.*1; B n) ∧ cfg_Others cfg' = cfg_Others cfg.
Proof.
  revert cfg. induction l as [|[name pl] l IH]; intros cfg Hl; simpl.
  - exists cfg. rewrite !app_nil_r. done.
  - destruct (Hl name pl) as (pkg & d & ch & out & Hpkg & Hd & Hch & HQ & Hout & Hperm); [left|].
    assert (from_model_package h cfg (name, pl) =
      Ok (mkCfg (cfg_Packages cfg ++ [from_package h pkg (Channel_Name ch)]) (cfg_Bundles cfg ++ out) (cfg_Others cfg))) as ->.
    { unfold from_model_package. cbn [snd]. rewrite Hpkg. cbn [deref mbind res_bind]. rewrite Hout. cbn [mbind res_bind].
      rewrite Hd, Hch. done. }
    cbn [mbind res_bind].
    destruct (IH (mkCfg (cfg_Packages cfg ++ [from_package h pkg (Channel_Name ch)]) (cfg_Bundles cfg ++ out) (cfg_Others cfg)))
      as (cfg' & E & H1 & H2 & H3); [intros; apply Hl; by right|].
    exists cfg'. split; [exact E|]. rewrite H1, H2, H3. simpl. rewrite HQ, <- !app_assoc. split_and!; [done| |done].
    by rewrite Hperm.
Qed.

(** ** The round trip *)
Definition norm_package (p : declcfg_Package) : declcfg_Package :=
  mkDPackage schemaPackage (dp_Name p) (dp_DefaultChannel p) (dp_Icon p) (dp_Description p).
Definition norm_bundle (b : declcfg_Bundle) : declcfg_Bundle :=
  mkDBundle schemaBundle (db_Name b) (db_Package b) (db_Image b)
    (Deduplicate (normalize_property <$> db_Properties b)) (db_RelatedImages b) (db_CsvJSON b) (db_Objects b).
Definition raw_bundle (b : declcfg_Bundle) : declcfg_Bundle :=
  mkDBundle schemaBundle (db_Name b) (db_Package b) (db_Image b)
    (normalize_property <$> db_Properties b) (db_RelatedImages b) (db_CsvJSON b) (db_Objects b).

Lemma related_images_back l : modelRelatedImagesToRelatedImages (relatedImagesToModelRelatedImages l) = l.
Proof.
  unfold modelRelatedImagesToRelatedImages, relatedImagesToModelRelatedImages.
  rewrite <- list_fmap_compose. rewrite <- (list_fmap_id l) at 2. apply list_fmap_ext. intros ? [] _. done.
Qed.

Lemma from_bundle_unlinked name b b' props ch :
  unlink b = normalize_bundle (to_model_bundle b' props ch None None) → db_Package b' = name →
  from_bundle name b = raw_bundle b'.
Proof.
  intros E <-. replace (from_bundle (db_Package b') b) with (from_bundle (db_Package b') (unlink b)) by done.
  rewrite E. unfold from_bundle, raw_bundle. simpl. by rewrite related_images_back.
Qed.

Lemma cfg_packages_lookup ps name dp :
  NoDup (dp_Name <$> ps) → cfg_packages ps !! name = Some dp ↔ dp ∈ ps ∧ dp_Name dp = name.
Proof.
  unfold cfg_packages. intros Hn.
  assert (∀ P : gmap string declcfg_Package, (∀ p, p ∈ ps → P !! dp_Name p = None) →
    foldl (λ P p, <[dp_Name p := p]> P) P ps !! name = Some dp ↔ (dp ∈ ps ∧ dp_Name dp = name) ∨ P !! name = Some dp) as E.
  { induction ps as [|p ps IH]; intros P HP; simpl; [set_solver|]. simpl in Hn. apply NoDup_cons in Hn as [Hn1 Hn].
    rewrite IH; [|done|].
    - rewrite elem_of_cons. destruct (decide (name = dp_Name p)) as [->|].
      + rewrite lookup_insert_eq. rewrite (HP p) by left. split; [|naive_solver].
        intros [[Hin E]|[= ->]]; [|by auto]. destruct Hn1. apply list_elem_of_fmap. eauto.
      + rewrite lookup_insert_ne by done. naive_solver.
    - intros q Hq. rewrite lookup_insert_ne; [apply HP; by right|]. intros E. apply Hn1, list_elem_of_fmap. eauto. }
  rewrite E by (intros; apply lookup_empty). rewrite lookup_empty. naive_solver.
Qed.

Lemma NoDup_names (bs : list declcfg_Bundle) name :
  NoDup (bundle_key <$> bs) → NoDup (db_Name <$> filter (λ d, db_Package d = name) bs).
Proof.
  intros Hn. apply (NoDup_fmap_1 (pair name)). rewrite <- list_fmap_compose.
  replace (_ <$> _) with (bundle_key <$> filter (λ d, db_Package d = name) bs).
  - eapply sublist_NoDup; [exact Hn|]. apply sublist_map, sublist_filter.
  - apply list_fmap_ext. intros i d Hd%list_elem_of_lookup_2. apply list_elem_of_filter in Hd as [<- _]. done.
Qed.

Section roundtrip.
Context `{GoRuntime}.
Variable cfg : DeclarativeConfig.
Hypothesis HnP : NoDup (dp_Name <$> cfg_Packages cfg).
Hypothesis HnB : NoDup (bundle_key <$> cfg_Bundles cfg).
Let P := cfg_packages (cfg_Packages cfg).
Variables (h0 : heap) (m : model_Model).
Hypothesis Hi : conv_inv h0 m P (cfg_slots (cfg_Bundles cfg)).
Hypothesis Hok : Forall (bundle_ok P) (cfg_Bundles cfg).
Hypothesis Hwf : model_wf h0 m.
Let h := mkHeap (h_packages h0) (h_channels h0) (normalized (reachable h0 m) (h_bundles h0)).
#[local] Set Default Proof Using "All".

Lemma rt_find name c n b :
  find_bundle h m name c n = Some b →
  ∃ d props ch, d ∈ cfg_Bundles cfg ∧ db_Package d = name ∧
    unlink b = normalize_bundle (to_model_bundle d props ch None None).
Proof.
  unfold h. rewrite find_normalized by done. rewrite fmap_Some. intros (b0 & Hb0 & ->).
  assert (cfg_slots (cfg_Bundles cfg) !! (name, c, n) = Some (unlink b0)) as Hs
    by (by rewrite <- (ci_find _ _ _ _ Hi), Hb0).
  apply cfg_slots_lookup in Hs as (d & props & ch & Hd & _ & _ & Hp & _ & _ & E); [|done].
  exists d, props, ch. split_and!; [done|done|]. by rewrite <- E.
Qed.

Lemma rt_found d :
  d ∈ cfg_Bundles cfg → ∃ c n b, find_bundle h m (db_Package d) c n = Some b ∧ Bundle_Name b = db_Name d.
Proof.
  intros Hd. pose proof Hok as Hok'. rewrite Forall_forall in Hok'. destruct (Hok' d Hd) as (_ & _ & props & Hprops).
  apply bundle_properties_Ok in Hprops as (Hpp & Hne & _).
  destruct (ps_Channels props) as [|ch chs] eqn:Hch; [done|].
  assert (cfg_slots (cfg_Bundles cfg) !! (db_Package d, pc_Name ch, db_Name d) =
    Some (to_model_bundle d props ch None None)) as Hs.
  { apply cfg_slots_lookup; [done|]. exists d, props, ch. split_and!; try done. rewrite Hch. left. }
  rewrite <- (ci_find _ _ _ _ Hi) in Hs. apply fmap_Some in Hs as (b0 & Hb0 & E).
  exists (pc_Name ch), (db_Name d), (normalize_bundle b0). unfold h. rewrite find_normalized by done.
  rewrite Hb0. split; [done|]. change (Bundle_Name (normalize_bundle b0)) with (Bundle_Name (unlink b0)). by rewrite <- E.
Qed.

Let B (name : string) : list declcfg_Bundle :=
  filter (λ d, db_Package d = name) (raw_bundle <$> cfg_Bundles cfg).
Let Q (name : string) : declcfg_Package := norm_package (default (mkDPackage "" "" "" None "") (P !! name)).

Lemma rt_package name pl :
  (name, pl) ∈ range m → ∃ pkg d ch out,
     h_packages h !! pl = Some pkg ∧ Package_DefaultChannel pkg = Some d ∧ h_channels h !! d = Some ch ∧
     Q name = from_package h pkg (Channel_Name ch) ∧
     traverseModelChannels h pkg = Ok out ∧ out ≡ₚ dedup_bundle <$> B name.
Proof.
  intros Hpl%range_elem. destruct (ci_package _ _ _ _ Hi _ _ Hpl) as (pkg & dp & Hpkg & Hdp & Hdesc & Hicon & Hdef).
  destruct (Hwf _ _ Hpl) as (pkg1 & Hpkg1 & Hname & Hpwf). assert (pkg1 = pkg) as -> by congruence.
  destruct (pwf_default _ _ _ Hpwf) as (_ & d & Hd & _). specialize (Hdef _ Hd).
  destruct (pwf_channels _ _ _ Hpwf _ _ Hdef) as (ch & Hch & Hcn & _).
  assert (linked h m) as Hl by (apply linked_normalized, Hi).
  destruct (traverseModelChannels_perm h m name pl pkg (B name)) as (out & Hout & Hperm); try done.
  - apply NoDup_names. by rewrite <- list_fmap_compose.
  - intros c n b Hb. destruct (rt_find _ _ _ _ Hb) as (d' & props & ch' & Hd' & Hp' & E).
    exists (raw_bundle d'). split; [|by erewrite <- from_bundle_unlinked]. apply list_elem_of_filter. split; [done|].
    apply list_elem_of_fmap. eauto.
  - intros d' Hd'. apply list_elem_of_filter in Hd' as [<- Hd']. apply list_elem_of_fmap in Hd' as (d0 & -> & Hd0).
    exact (rt_found d0 Hd0).
  - exists pkg, d, ch, out. split_and!; try done. unfold Q. fold P in Hdp. rewrite Hdp. simpl.
    apply cfg_packages_lookup in Hdp as [_ Hdn]; [|done]. unfold norm_package, from_package.
    rewrite Hname, Hdn, Hcn, Hdesc, Hicon. f_equal. by destruct (dp_Icon dp) as [[]|].
Qed.

Lemma rt_names : (range m).*1 ≡ₚ dp_Name <$> cfg_Packages cfg.
Proof.
  apply NoDup_Permutation; [apply range_NoDup|done|]. intros name. rewrite !list_elem_of_fmap. split.
  - intros ([n pl] & -> & Hin%range_elem). destruct (ci_package _ _ _ _ Hi _ _ Hin) as (_ & dp & _ & Hdp & _).
    apply cfg_packages_lookup in Hdp as [? ?]; [|done]. eauto.
  - intros (dp & -> & Hdp). assert (P !! dp_Name dp = Some dp) as HP by (by apply cfg_packages_lookup).
    assert (is_Some (m !! dp_Name dp)) as [pl Hpl] by (apply (ci_dom _ _ _ _ Hi); eauto).
    exists (dp_Name dp, pl). split; [done|]. by apply range_elem.
Qed.

Lemma rt_convert :
  ∃ cfg', ConvertFromModel h m = Ok cfg' ∧
    cfg_Packages cfg' ≡ₚ norm_package <$> cfg_Packages cfg ∧
    cfg_Bundles cfg' ≡ₚ norm_bundle <$> cfg_Bundles cfg ∧ cfg_Others cfg' = [] ∧
    StronglySorted (λ x y, str_lt (dp_Name y) (dp_Name x) = false) (cfg_Packages cfg') ∧
    StronglySorted (λ x y, str_lt (db_Name y) (db_Name x) = false) (cfg_Bundles cfg').
Proof.
  destruct (from_model_packages h (λ n, dedup_bundle <$> B n) Q (range m) (mkCfg [] [] [])) as (cfg1 & E & H1 & H2 & H3).
  { intros name pl. apply rt_package. }
  unfold ConvertFromModel. rewrite E. eexists. split; [reflexivity|]. cbn [cfg_Packages cfg_Bundles cfg_Others].
  assert (∀ A (f : A → string), strict_weak (λ x y, str_lt (f x) (f y))) as Hsw.
  { intros A f. destruct str_lt_strict_weak as [Ha Ht]. split; [intros x y; apply Ha|intros x y z; apply Ht]. }
  split_and!.
  - rewrite sort_slice_perm, H1, rt_names. simpl. rewrite <- list_fmap_compose. apply Permutation_refl'.
    apply list_fmap_ext. intros i dp Hdp%list_elem_of_lookup_2. unfold Q. simpl.
    assert (P !! dp_Name dp = Some dp) as -> by (by apply cfg_packages_lookup). done.
  - rewrite sort_slice_perm, H2, rt_names. simpl.
    replace (n ← dp_Name <$> cfg_Packages cfg; dedup_bundle <$> B n)
      with (dedup_bundle <$> (n ← dp_Name <$> cfg_Packages cfg; B n)).
    2:{ generalize (dp_Name <$> cfg_Packages cfg). intros ns. induction ns as [|n ns IH]; simpl; [done|].
        rewrite fmap_app. f_equal. exact IH. }
    unfold B. rewrite (bucket_perm db_Package); [by rewrite <- list_fmap_compose|done|].
    intros d Hd. apply list_elem_of_fmap in Hd as (d0 & -> & Hd0). pose proof Hok as Hok'.
    rewrite Forall_forall in Hok'. destruct (Hok' d0 Hd0) as (_ & [dp Hdp] & _).
    apply cfg_packages_lookup in Hdp as [Hdp E0]; [|done]. apply list_elem_of_fmap. exists dp. by split.
  - by rewrite H3.
  - apply (sort_slice_sorted (λ x y, str_lt (_ x) (_ y))), Hsw.
  - apply (sort_slice_sorted (λ x y, str_lt (_ x) (_ y))), Hsw.
Qed.
End roundtrip.

(** ** Properties *)



(** [ConvertToModel] never panics: on every config it returns a model or an
    error.  (The pointer structures it builds and then validates, normalizes and
    returns are always linked.) *)
Theorem ConvertToModel_no_panic `{GoRuntime} cfg : ConvertToModel cfg ≠ Panic.
Proof. by destruct (ConvertToModel_cases cfg) as [(h0 & m0 & _ & _ & _ & ->)|[e ->]]. Qed.

(** C3. Converting a config to the graph and back returns the config.  When no
    package name and no bundle (package and name) is declared twice and the
    conversion succeeds, [ConvertFromModel] succeeds on the result, for every
    map order, and returns the same packages and the same bundles, sorted by
    name, with only the schema field set and the properties normalized and
    deduplicated; the other schemas are not part of the graph. *)
Theorem declcfg_model_roundtrip `{GoRuntime} cfg h m :
  NoDup (dp_Name <$> cfg_Packages cfg) → NoDup (bundle_key <$> cfg_Bundles cfg) →
  ConvertToModel cfg = Ok (h, m) →
  ∃ cfg', ConvertFromModel h m = Ok cfg' ∧
    cfg_Packages cfg' ≡ₚ norm_package <$> cfg_Packages cfg ∧
    cfg_Bundles cfg' ≡ₚ norm_bundle <$> cfg_Bundles cfg ∧ cfg_Others cfg' = [] ∧
    StronglySorted (λ x y, str_lt (dp_Name y) (dp_Name x) = false) (cfg_Packages cfg') ∧
    StronglySorted (λ x y, str_lt (db_Name y) (db_Name x) = false) (cfg_Bundles cfg').
Proof.
  intros HnP HnB Hc. destruct (ConvertToModel_cases cfg) as [(h0 & m0 & Hi & Hok & Hwf & E)|[e E]]; rewrite E in Hc; [|done].
  injection Hc as <- <-. by apply rt_convert.
Qed.

Lemma declcfg_model_roundtrip_witness :
  ∃ h m cfg', ConvertToModel (H := go_default) ex_cfg = Ok (h, m) ∧
    ConvertFromModel (H := go_default) h m = Ok cfg' ∧
    cfg_Bundles cfg' ≡ₚ norm_bundle <$> cfg_Bundles ex_cfg.
Proof.
  destruct (ConvertToModel (H := go_default) ex_cfg) as [[h m]| |] eqn:E; [|exfalso; vm_compute in E; discriminate..].
  destruct (@declcfg_model_roundtrip go_default ex_cfg h m) as (cfg' & Hc & _ & Hb & _);
    [apply (bool_decide_unpack _); vm_compute; exact I|apply (bool_decide_unpack _); vm_compute; exact I|exact E|].
  exists h, m, cfg'. split; [reflexivity|]. split; [exact Hc|exact Hb].
Defined.
