(* ===== verification/DeclcfgWrite.v ===== *)
(** * Writing a declarative config

    [writeToEncoder] of internal/declcfg/write.go, which [WriteJSON] and
    [WriteYAML] share.  The encoder is the interface [encoder] of the source: a
    state with a fallible [Encode]. *)
From S2P Require Import Prelude Property Declcfg DeclcfgRoundtrip.
From stdpp Require Import options.

Inductive item : Type :=
  | ItemPackage (p : declcfg_Package)
  | ItemBundle (b : declcfg_Bundle)
  | ItemMeta (m : declcfg_Meta).

(** [m[k] = append(m[k], x)] for every [x] of a list *)
Definition group_by {A} (key : A → string) (l : list A) : gmap string (list A) :=
  foldl (λ m x, <[key x := default [] (m !! key x) ++ [x]]> m) ∅ l.
(** [sets.String.List()] *)
Definition sorted_names (s : gset string) : list string := insertion_sort str_lt (elements s).

Class encoder (W : Type) := Encode : W → item → res W.

Section write.
Context `{GoRuntime} {W : Type} `{!encoder W}.

Definition writeToEncoder (cfg : DeclarativeConfig) (enc : W) : res W :=
  let pkgNames : gset string :=
    list_to_set (dp_Name <$> cfg_Packages cfg) ∪ list_to_set (db_Package <$> cfg_Bundles cfg) ∪
    list_to_set (dm_Package <$> cfg_Others cfg) in
  let packagesByName := group_by dp_Name (cfg_Packages cfg) in
  let bundlesByPackage := group_by db_Package (cfg_Bundles cfg) in
  let othersByPackage := group_by dm_Package (cfg_Others cfg) in
  enc ← foldR (λ enc pName,
    if decide (pName = "") then Ok enc
    else
      enc ← foldR Encode enc (ItemPackage <$> default [] (packagesByName !! pName));
      enc ← foldR Encode enc (ItemBundle <$>
              sort_slice (λ x y, str_lt (db_Name x) (db_Name y)) (default [] (bundlesByPackage !! pName)));
      foldR Encode enc (ItemMeta <$>
              insertion_sort (λ x y, str_lt (dm_Schema x) (dm_Schema y)) (default [] (othersByPackage !! pName))))
    enc (sorted_names pkgNames);
  foldR Encode enc (ItemMeta <$> default [] (othersByPackage !! "")).
End write.

(** ** The order of the output *)
Definition item_package (i : item) : string :=
  match i with ItemPackage p => dp_Name p | ItemBundle b => db_Package b | ItemMeta m => dm_Package m end.
Definition is_meta (i : item) : bool := match i with ItemMeta _ => true | _ => false end.

Lemma group_by_lookup {A} (key : A → string) l k :
  default [] (group_by key l !! k) = filter (λ x, key x = k) l.
Proof.
  unfold group_by. induction l as [|x l IH] using rev_ind; [done|].
  rewrite foldl_app, filter_app, filter_cons, filter_nil. simpl. destruct (decide (key x = k)) as [->|Hne].
  - rewrite lookup_insert_eq. simpl. by rewrite IH.
  - rewrite lookup_insert_ne by done. by rewrite IH, app_nil_r.
Qed.

Lemma foldR_flatten {S A B} (f : S → A → res S) (g : B → list A) s (l : list B) :
  foldR (λ s x, foldR f s (g x)) s l = foldR f s (x ← l; g x).
Proof.
  revert s. induction l as [|x l IH]; intros s; simpl; [done|]. rewrite foldR_app.
  destruct (foldR f s (g x)); simpl; auto.
Qed.

Section order.
Context `{GoRuntime}.
Variable cfg : DeclarativeConfig.

Definition package_items (pName : string) : list item :=
  if decide (pName = "") then []
  else (ItemPackage <$> filter (λ p, dp_Name p = pName) (cfg_Packages cfg)) ++
       (ItemBundle <$> sort_slice (λ x y, str_lt (db_Name x) (db_Name y))
                         (filter (λ b, db_Package b = pName) (cfg_Bundles cfg))) ++
       (ItemMeta <$> insertion_sort (λ x y, str_lt (dm_Schema x) (dm_Schema y))
                         (filter (λ o, dm_Package o = pName) (cfg_Others cfg))).
Definition all_items : list item :=
  (ItemPackage <$> cfg_Packages cfg) ++ (ItemBundle <$> cfg_Bundles cfg) ++ (ItemMeta <$> cfg_Others cfg).
Definition pkg_names : list string := sorted_names (list_to_set (item_package <$> all_items)).
Definition written : list item :=
  (p ← pkg_names; package_items p) ++ (ItemMeta <$> filter (λ o, dm_Package o = "") (cfg_Others cfg)).

Lemma sorted_names_perm s : sorted_names s ≡ₚ elements s.
Proof. apply insertion_sort_perm. Qed.
Lemma pkg_names_NoDup : NoDup pkg_names.
Proof. unfold pkg_names. rewrite sorted_names_perm. apply NoDup_elements. Qed.
Lemma pkg_names_elem n : n ∈ pkg_names ↔ ∃ i, i ∈ all_items ∧ item_package i = n.
Proof.
  unfold pkg_names. rewrite sorted_names_perm, elem_of_elements, elem_of_list_to_set, list_elem_of_fmap.
  naive_solver.
Qed.

Lemma writeToEncoder_written {W} `{!encoder W} (enc : W) : writeToEncoder cfg enc = foldR Encode enc written.
Proof.
  unfold writeToEncoder, written. rewrite foldR_app, group_by_lookup.
  replace (sorted_names _) with pkg_names.
  2:{ unfold pkg_names, all_items. f_equal. rewrite !fmap_app, <- !list_fmap_compose, !list_to_set_app_L.
      by rewrite assoc_L by apply _. }
  rewrite <- (foldR_flatten Encode package_items). f_equal. clear.
  revert enc. induction pkg_names as [|p l IH]; intros enc; [done|]. cbn [foldR].
  assert (∀ e : W, (if decide (p = "") then Ok e
    else
      e ← foldR Encode e (ItemPackage <$> default [] (group_by dp_Name (cfg_Packages cfg) !! p));
      e ← foldR Encode e (ItemBundle <$>
              sort_slice (λ x y, str_lt (db_Name x) (db_Name y)) (default [] (group_by db_Package (cfg_Bundles cfg) !! p)));
      foldR Encode e (ItemMeta <$>
              insertion_sort (λ x y, str_lt (dm_Schema x) (dm_Schema y)) (default [] (group_by dm_Package (cfg_Others cfg) !! p))))
    = foldR Encode e (package_items p)) as E.
  { intros e. unfold package_items. case_decide; [done|]. rewrite !group_by_lookup, !foldR_app.
    destruct (foldR Encode e _); [|done..]. cbn [mbind res_bind]. by rewrite foldR_app. }
  rewrite E. destruct (foldR Encode enc (package_items p)); cbn [mbind res_bind]; [|done..]. apply IH.
Qed.
End order.

(** ** Sortedness *)
Definition item_rank (i : item) : N := match i with ItemPackage _ => 0 | ItemBundle _ => 1 | ItemMeta _ => 2 end.
Definition item_key (i : item) : string :=
  match i with ItemPackage _ => "" | ItemBundle b => db_Name b | ItemMeta m => dm_Schema m end.
(** By package, then packages before bundles before others, then bundles by name
    and others by schema. *)
Definition item_cmp : item → item → Z :=
  cmp_lex (cmp_on item_package cmp_str) (cmp_lex (cmp_on item_rank cmp_N) (cmp_on item_key cmp_str)).

Lemma StronglySorted_join {A} (R : A → A → Prop) l k :
  StronglySorted R l → StronglySorted R k → (∀ x y, x ∈ l → y ∈ k → R x y) → StronglySorted R (l ++ k).
Proof.
  intros Hl Hk Hlk. induction Hl as [|x l Hl IH Hx]; simpl; [done|]. constructor.
  - apply IH. intros. apply Hlk; [by right|done].
  - apply Forall_app. split; [done|]. apply Forall_forall. intros y Hy. apply Hlk; [left|done].
Qed.
Lemma StronglySorted_map {A B} (f : A → B) (R : B → B → Prop) (R' : A → A → Prop) l :
  (∀ x y, x ∈ l → y ∈ l → R' x y → R (f x) (f y)) → StronglySorted R' l → StronglySorted R (f <$> l).
Proof.
  intros Hf Hl. induction Hl as [|x l Hl IH Hx]; simpl; constructor.
  - apply IH. intros. apply Hf; [by right|by right|done].
  - apply Forall_fmap. rewrite Forall_forall in Hx. apply Forall_forall. intros y Hy. apply Hf; [left|by right|auto].
Qed.
Lemma StronglySorted_all {A} (R : A → A → Prop) l : (∀ x y, x ∈ l → y ∈ l → R x y) → StronglySorted R l.
Proof.
  induction l as [|x l IH]; intros HR; constructor.
  - apply IH. intros. apply HR; by right.
  - apply Forall_forall. intros y Hy. apply HR; [left|by right].
Qed.
Lemma StronglySorted_bind {A B} (R : B → B → Prop) (R' : A → A → Prop) (f : A → list B) l :
  (∀ x, x ∈ l → StronglySorted R (f x)) →
  (∀ x y a b, R' x y → x ≠ y → a ∈ f x → b ∈ f y → R a b) →
  NoDup l → StronglySorted R' l → StronglySorted R (x ← l; f x).
Proof.
  intros Hf HR Hn Hl. induction Hl as [|x l Hl IH Hx]; simpl; [constructor|]. apply NoDup_cons in Hn as [Hnx Hn].
  apply StronglySorted_join; [apply Hf; left|apply IH; [|done]; intros; apply Hf; by right|].
  intros a b Ha Hb. apply list_elem_of_bind in Hb as (y & Hb & Hy). rewrite Forall_forall in Hx.
  eapply HR; [by apply Hx|by intros ->|done|done].
Qed.

Lemma cmp_str_le x y : str_lt y x = false → (cmp_str x y ≤ 0)%Z.
Proof. unfold cmp_str. intros ->. case_decide; lia. Qed.
Lemma item_cmp_le i j :
  item_package i = item_package j →
  (item_rank i < item_rank j)%N ∨ item_rank i = item_rank j ∧ str_lt (item_key j) (item_key i) = false →
  (item_cmp i j ≤ 0)%Z.
Proof.
  unfold item_cmp, cmp_lex, cmp_on. intros -> Hij. rewrite (cmp_refl cmp_str). cbn [Z.eqb].
  destruct Hij as [Hr|[-> Hk]].
  - unfold cmp_N. destruct (N.eqb_spec (item_rank i) (item_rank j)); [lia|].
    destruct (N.ltb_spec (item_rank j) (item_rank i)); [lia|]. done.
  - rewrite (cmp_refl cmp_N). cbn [Z.eqb]. by apply cmp_str_le.
Qed.
Lemma item_cmp_package i j :
  item_package i ≠ item_package j → str_lt (item_package j) (item_package i) = false → (item_cmp i j ≤ 0)%Z.
Proof.
  unfold item_cmp, cmp_lex, cmp_on. intros Hne Hlt.
  assert (cmp_str (item_package i) (item_package j) = (-1)%Z) as ->; [|done].
  unfold cmp_str. rewrite decide_False by done. by rewrite Hlt.
Qed.

Lemma str_lt_on {A} (f : A → string) : strict_weak (λ x y, str_lt (f x) (f y)).
Proof. destruct str_lt_strict_weak as [Ha Ht]. split; [intros x y; apply Ha|intros x y z; apply Ht]. Qed.

Lemma bind_app_perm {A B} (f g : A → list B) (l : list A) :
  (x ← l; f x ++ g x) ≡ₚ (x ← l; f x) ++ (x ← l; g x).
Proof.
  induction l as [|x l IH]; simpl; [done|]. rewrite IH. solve_Permutation.
Qed.
Lemma filter_all {A} (l : list A) : filter (λ _, True) l = l.
Proof. induction l as [|x l IH]; [done|]. rewrite filter_cons. case_decide; [|tauto]. by rewrite IH. Qed.
Lemma filter_split {A} (P : A → Prop) `{!∀ x, Decision (P x)} (l : list A) :
  filter (λ x, ¬ P x) l ++ filter P l ≡ₚ l.
Proof.
  induction l as [|x l IH]; [done|]. rewrite !filter_cons. destruct (decide (P x)).
  - rewrite decide_False by tauto. rewrite <- Permutation_middle. by rewrite IH.
  - rewrite decide_True by done. simpl. by rewrite IH.
Qed.

Section sorted.
Context `{GoRuntime}.
Variable cfg : DeclarativeConfig.

Lemma package_items_package n i : i ∈ package_items cfg n → item_package i = n.
Proof.
  unfold package_items. case_decide; [intros Hi; by apply elem_of_nil in Hi|].
  rewrite sort_slice_perm, insertion_sort_perm, !elem_of_app, !list_elem_of_fmap.
  setoid_rewrite list_elem_of_filter. naive_solver.
Qed.

Lemma package_items_sorted n : StronglySorted (λ i j, (item_cmp i j ≤ 0)%Z) (package_items cfg n).
Proof.
  pose proof (package_items_package n) as Hpkg. unfold package_items in *. case_decide as Hn; [constructor|].
  assert (∀ i j, i ∈ package_items cfg n → j ∈ package_items cfg n → item_package i = item_package j) as Hsame.
  { intros i j Hi%package_items_package Hj%package_items_package. congruence. }
  unfold package_items in Hsame. rewrite decide_False in Hsame by done.
  setoid_rewrite elem_of_app in Hsame. setoid_rewrite elem_of_app in Hsame.
  apply StronglySorted_join; [|apply StronglySorted_join|].
  - apply StronglySorted_all. intros i j Hi Hj. apply item_cmp_le; [apply Hsame; auto|].
    apply list_elem_of_fmap in Hi as (p & -> & _), Hj as (q & -> & _). by right.
  - eapply StronglySorted_map; [|apply (sort_slice_sorted (λ x y, str_lt (db_Name x) (db_Name y))), str_lt_on].
    intros x y Hx Hy Hxy. apply item_cmp_le; [|by right]. apply Hsame; right; left; apply list_elem_of_fmap; eauto.
  - eapply StronglySorted_map; [|apply (insertion_sort_sorted (λ x y, str_lt (dm_Schema x) (dm_Schema y))), str_lt_on].
    intros x y Hx Hy Hxy. apply item_cmp_le; [|by right]. apply Hsame; right; right; apply list_elem_of_fmap; eauto.
  - intros i j Hi Hj. apply item_cmp_le; [apply Hsame; auto|].
    apply list_elem_of_fmap in Hi as (p & -> & _), Hj as (q & -> & _). left. done.
  - intros i j Hi Hj. apply elem_of_app in Hj. apply item_cmp_le; [apply Hsame; auto|].
    apply list_elem_of_fmap in Hi as (p & -> & _).
    destruct Hj as [Hj|Hj]; apply list_elem_of_fmap in Hj as (q & -> & _); left; done.
Qed.

Lemma written_sorted : StronglySorted (λ i j, (item_cmp i j ≤ 0)%Z) (p ← pkg_names cfg; package_items cfg p).
Proof.
  eapply (StronglySorted_bind _ (λ x y, str_lt y x = false)).
  - intros. apply package_items_sorted.
  - intros x y a b Hxy Hne Ha%package_items_package Hb%package_items_package. subst. by apply item_cmp_package.
  - apply pkg_names_NoDup.
  - apply insertion_sort_sorted, str_lt_strict_weak.
Qed.

(** Grouping one kind of item by package, without the empty package. *)
Lemma groups_perm {A} (key : A → string) (mk : A → item) (l : list A) (ns : list string) (srt : string → list A) :
  NoDup ns → (∀ x, x ∈ l → key x ∈ ns) → (∀ n, srt n ≡ₚ filter (λ x, key x = n) l) →
  (n ← ns; if decide (n = "") then [] else mk <$> srt n) ≡ₚ mk <$> filter (λ x, key x ≠ "") l.
Proof.
  intros Hn Hin Hsrt.
  assert ((n ← ns; if decide (n = "") then [] else mk <$> srt n) ≡ₚ
          (n ← ns; mk <$> filter (λ x, key x = n) (filter (λ x, key x ≠ "") l))) as ->.
  { clear Hn Hin. induction ns as [|n ns IH]; simpl; [done|]. rewrite IH. apply Permutation_app_tail.
    rewrite list_filter_filter. case_decide as E.
    - rewrite filter_none by naive_solver. done.
    - rewrite Hsrt. apply Permutation_refl'. f_equal. apply list_filter_iff. naive_solver. }
  replace (n ← ns; mk <$> filter (λ x, key x = n) (filter (λ x, key x ≠ "") l))
    with (mk <$> (n ← ns; filter (λ x, key x = n) (filter (λ x, key x ≠ "") l))).
  2:{ clear. induction ns as [|n ns IH]; simpl; [done|]. rewrite fmap_app. f_equal. exact IH. }
  rewrite bucket_perm; [done|done|]. intros x Hx%list_elem_of_filter. apply Hin. tauto.
Qed.

Lemma written_perm :
  written cfg ≡ₚ filter (λ i, is_meta i = true ∨ item_package i ≠ "") (all_items cfg).
Proof.
  assert (∀ n, package_items cfg n =
    (if decide (n = "") then [] else ItemPackage <$> filter (λ p, dp_Name p = n) (cfg_Packages cfg)) ++
    (if decide (n = "") then [] else ItemBundle <$> sort_slice (λ x y, str_lt (db_Name x) (db_Name y))
                                        (filter (λ b, db_Package b = n) (cfg_Bundles cfg))) ++
    (if decide (n = "") then [] else ItemMeta <$> insertion_sort (λ x y, str_lt (dm_Schema x) (dm_Schema y))
                                        (filter (λ o, dm_Package o = n) (cfg_Others cfg)))) as Hsplit.
  { intros n. unfold package_items. by case_decide. }
  unfold written.
  assert ((n ← pkg_names cfg; package_items cfg n) ≡ₚ
    (ItemPackage <$> filter (λ p, dp_Name p ≠ "") (cfg_Packages cfg)) ++
    (ItemBundle <$> filter (λ b, db_Package b ≠ "") (cfg_Bundles cfg)) ++
    (ItemMeta <$> filter (λ o, dm_Package o ≠ "") (cfg_Others cfg))) as ->.
  { pose proof (pkg_names_NoDup cfg) as Hn. pose proof (pkg_names_elem cfg) as Hin. unfold all_items in Hin.
    setoid_rewrite elem_of_app in Hin. setoid_rewrite elem_of_app in Hin.
    rewrite <- (groups_perm dp_Name ItemPackage _ (pkg_names cfg) (λ n, filter (λ p, dp_Name p = n) (cfg_Packages cfg))).
    - rewrite <- (groups_perm db_Package ItemBundle _ (pkg_names cfg) (λ n, sort_slice (λ x y, str_lt (db_Name x) (db_Name y))
         (filter (λ b, db_Package b = n) (cfg_Bundles cfg)))).
      + rewrite <- (groups_perm dm_Package ItemMeta _ (pkg_names cfg) (λ n, insertion_sort (λ x y, str_lt (dm_Schema x) (dm_Schema y))
         (filter (λ o, dm_Package o = n) (cfg_Others cfg)))).
        * rewrite <- bind_app_perm. rewrite <- bind_app_perm. apply Permutation_refl'.
          apply Forall_bind_ext, Forall_forall. intros. apply Hsplit.
        * done.
        * intros x Hx. apply Hin. exists (ItemMeta x). rewrite !list_elem_of_fmap. naive_solver.
        * intros n. apply insertion_sort_perm.
      + done.
      + intros x Hx. apply Hin. exists (ItemBundle x). rewrite !list_elem_of_fmap. naive_solver.
      + intros n. apply sort_slice_perm.
    - done.
    - intros x Hx. apply Hin. exists (ItemPackage x). rewrite !list_elem_of_fmap. naive_solver.
    - done. }
  unfold all_items. rewrite !filter_app, !filter_fmap. rewrite <- !app_assoc. simpl.
  f_equiv; [|f_equiv].
  - apply Permutation_refl'. f_equal. apply list_filter_iff. naive_solver.
  - apply Permutation_refl'. f_equal. apply list_filter_iff. naive_solver.
  - rewrite <- fmap_app. f_equiv. etransitivity; [apply filter_split|]. apply Permutation_refl'.
    etransitivity; [symmetry; apply filter_all|]. apply list_filter_iff. naive_solver.
Qed.
End sorted.

(** ** Properties *)

(** What [WriteJSON] and [WriteYAML] write: for every encoder, the calls of
    [Encode] are, in this order, a list sorted by package (packages, then bundles
    by name, then other objects by schema), followed by the objects without a
    package in config order, stopping at the first error.  Every other object,
    every package with a name and every bundle with a package is written exactly
    once; packages without a name and bundles without a package are dropped. *)
Theorem writeToEncoder_order `{GoRuntime} {W} `{!encoder W} cfg (enc : W) :
  ∃ L, writeToEncoder cfg enc =
         foldR Encode enc (L ++ (ItemMeta <$> filter (λ o, dm_Package o = "") (cfg_Others cfg))) ∧
       StronglySorted (λ i j, (item_cmp i j ≤ 0)%Z) L ∧
       L ++ (ItemMeta <$> filter (λ o, dm_Package o = "") (cfg_Others cfg)) ≡ₚ
         filter (λ i, is_meta i = true ∨ item_package i ≠ "") (all_items cfg).
Proof.
  exists (p ← pkg_names cfg; package_items cfg p).
  split_and!; [apply writeToEncoder_written|apply written_sorted|apply written_perm].
Qed.
