(* ===== verification/DeclcfgLoad.v ===== *)
(** * Loading declarative configs

    [internal/declcfg/load.go]: decoding of the config objects from JSON, the
    dispatch on their schema, the reading of bundle objects, and the walk over
    the files of a directory.

    Outside the sources, and parameters here: the YAML library that splits a
    file into documents and converts them to JSON (a file is the list of its
    documents, followed by the end or a decoding error), the reading of files,
    the ignore-file matcher, and the kind of an object as the YAML library reads
    it.  The decoding of a JSON document into the config structs is the standard
    library's, modelled on the JSON values of [Json]; a key that occurs three
    times with a slice value may in Go see stale elements, which is not
    modelled. *)
From S2P Require Import Prelude Json JsonCompact Property Declcfg DeclcfgRoundtrip DeclcfgWrite.
From stdpp Require Import options.

(** ** Decoding structs

    Each member of the object is stored into the field its key selects; unknown
    keys are skipped; [null] leaves the destination alone. *)
Definition setter (S : Type) : Type := S → string → json → option S.
Fixpoint decode_members_with {S} (fields : list (string * setter S)) (s : S)
    (ms : list (string * (string * json))) : option S :=
  match ms with
  | [] => Some s
  | (k, (raw, v)) :: ms' =>
      match field_index fields.*1 k ≫= λ i, fields.*2 !! i with
      | None => decode_members_with fields s ms'
      | Some set => s' ← set s raw v; decode_members_with fields s' ms'
      end
  end.
Definition decode_with {S} (fields : list (string * setter S)) (s : S) (v : json) : option S :=
  match v with
  | JNull => Some s
  | JObj ms => decode_members_with fields s ms
  | _ => None
  end.
(** A slice destination: the elements present are decoded into first. *)
Fixpoint decode_elems {A} (dec : A → json → option A) (zero : A) (old : list A) (l : list (string * json))
    : option (list A) :=
  match l with
  | [] => Some []
  | (_, v) :: l' =>
      x ← dec (default zero (head old)) v;
      xs ← decode_elems dec zero (tail old) l';
      Some (x :: xs)
  end.
Definition decode_slice {A} (dec : A → json → option A) (zero : A) (old : list A) (v : json) : option (list A) :=
  match v with
  | JNull => Some []
  | JArr l => decode_elems dec zero old l
  | _ => None
  end.

Definition zero_property : property_Property := mkProp "" None.
Definition decode_Property (p : property_Property) (v : json) : option property_Property :=
  decode_with [("type", λ p _ v, (λ s, mkProp s (p_Value p)) <$> decode_string (p_Type p) v);
               ("value", λ p raw _, Some (mkProp (p_Type p) (Some raw)))] p v.
Definition decode_RelatedImage (r : declcfg_RelatedImage) (v : json) : option declcfg_RelatedImage :=
  decode_with [("name", λ r _ v, (λ s, mkDRI s (dri_Image r)) <$> decode_string (dri_Name r) v);
               ("image", λ r _ v, mkDRI (dri_Name r) <$> decode_string (dri_Image r) v)] r v.
Definition decode_Icon (i : option declcfg_Icon) (v : json) : option (option declcfg_Icon) :=
  match v with
  | JNull => Some None
  | _ =>
      Some <$> decode_with
        [("base64data", λ i _ v, (λ s, mkDIcon s (di_MediaType i)) <$> decode_bytes v);
         ("mediatype", λ i _ v, mkDIcon (di_Data i) <$> decode_string (di_MediaType i) v)]
        (default (mkDIcon "" "") i) v
  end.

Definition unmarshal_declcfg_Package (doc : string) : option declcfg_Package :=
  Unmarshal doc ≫= decode_with
    [("schema", λ p _ v, (λ s, mkDPackage s (dp_Name p) (dp_DefaultChannel p) (dp_Icon p) (dp_Description p))
                           <$> decode_string (dp_Schema p) v);
     ("name", λ p _ v, (λ s, mkDPackage (dp_Schema p) s (dp_DefaultChannel p) (dp_Icon p) (dp_Description p))
                           <$> decode_string (dp_Name p) v);
     ("defaultChannel", λ p _ v, (λ s, mkDPackage (dp_Schema p) (dp_Name p) s (dp_Icon p) (dp_Description p))
                           <$> decode_string (dp_DefaultChannel p) v);
     ("icon", λ p _ v, (λ i, mkDPackage (dp_Schema p) (dp_Name p) (dp_DefaultChannel p) i (dp_Description p))
                           <$> decode_Icon (dp_Icon p) v);
     ("description", λ p _ v, (λ s, mkDPackage (dp_Schema p) (dp_Name p) (dp_DefaultChannel p) (dp_Icon p) s)
                           <$> decode_string (dp_Description p) v)]
    (mkDPackage "" "" "" None "").

Definition bundle_set (b : declcfg_Bundle) (schema name pkg image : string) (ps : list property_Property)
    (ris : list declcfg_RelatedImage) : declcfg_Bundle :=
  mkDBundle schema name pkg image ps ris (db_CsvJSON b) (db_Objects b).
Definition unmarshal_declcfg_Bundle (doc : string) : option declcfg_Bundle :=
  Unmarshal doc ≫= decode_with
    [("schema", λ b _ v, (λ s, bundle_set b s (db_Name b) (db_Package b) (db_Image b) (db_Properties b) (db_RelatedImages b))
                           <$> decode_string (db_Schema b) v);
     ("name", λ b _ v, (λ s, bundle_set b (db_Schema b) s (db_Package b) (db_Image b) (db_Properties b) (db_RelatedImages b))
                           <$> decode_string (db_Name b) v);
     ("package", λ b _ v, (λ s, bundle_set b (db_Schema b) (db_Name b) s (db_Image b) (db_Properties b) (db_RelatedImages b))
                           <$> decode_string (db_Package b) v);
     ("image", λ b _ v, (λ s, bundle_set b (db_Schema b) (db_Name b) (db_Package b) s (db_Properties b) (db_RelatedImages b))
                           <$> decode_string (db_Image b) v);
     ("properties", λ b _ v, (λ l, bundle_set b (db_Schema b) (db_Name b) (db_Package b) (db_Image b) l (db_RelatedImages b))
                           <$> decode_slice decode_Property zero_property (db_Properties b) v);
     ("relatedImages", λ b _ v, bundle_set b (db_Schema b) (db_Name b) (db_Package b) (db_Image b) (db_Properties b)
                           <$> decode_slice decode_RelatedImage (mkDRI "" "") (db_RelatedImages b) v)]
    (mkDBundle "" "" "" "" [] [] "" []).

(** The local struct [tmp] of [Meta.UnmarshalJSON]. *)
Record meta_tmp := mkTmp { tmp_Schema : string; tmp_Package : string; tmp_Properties : list property_Property }.
Definition Meta_UnmarshalJSON (blob : string) : option declcfg_Meta :=
  t ← Unmarshal blob ≫= decode_with
    [("schema", λ t _ v, (λ s, mkTmp s (tmp_Package t) (tmp_Properties t)) <$> decode_string (tmp_Schema t) v);
     ("package", λ t _ v, (λ s, mkTmp (tmp_Schema t) s (tmp_Properties t)) <$> decode_string (tmp_Package t) v);
     ("properties", λ t _ v, mkTmp (tmp_Schema t) (tmp_Package t)
                              <$> decode_slice decode_Property zero_property (tmp_Properties t) v)]
    (mkTmp "" "" []);
  Some (mkMeta (tmp_Schema t) (tmp_Package t) (Some blob)).
Definition Meta_MarshalJSON (m : declcfg_Meta) : RawMessage := dm_Blob m.

(** ** readYAMLOrJSON *)

(** The [strings.Replacer] that undoes the HTML escapes. *)
Definition html_char (c4 c5 : ascii) : option ascii :=
  if decide (c4 = "3"%char ∧ c5 = "c"%char) then Some "<"%char
  else if decide (c4 = "3"%char ∧ c5 = "e"%char) then Some ">"%char
  else if decide (c4 = "2"%char ∧ c5 = "6"%char) then Some "&"%char
  else None.
Fixpoint unescape_html (s : string) : string :=
  match s with
  | EmptyString => ""
  | String c0 s1 =>
      match s1 with
      | String c1 (String c2 (String c3 (String c4 (String c5 s6)))) =>
          if decide (c0 = bslash ∧ c1 = "u"%char ∧ c2 = "0"%char ∧ c3 = "0"%char) then
            match html_char c4 c5 with
            | Some a => String a (unescape_html s6)
            | None => String c0 (unescape_html s1)
            end
          else String c0 (unescape_html s1)
      | _ => String c0 (unescape_html s1)
      end
  end.

(** One document, added to the config. *)
Definition read_doc (cfg : DeclarativeConfig) (raw : string) : res DeclarativeConfig :=
  let doc := unescape_html raw in
  match Meta_UnmarshalJSON doc with
  | None => Err json_error
  | Some meta =>
      if decide (dm_Schema meta = schemaPackage) then
        match unmarshal_declcfg_Package doc with
        | None => Err (Errorf "parse package: %v" [AErr json_error])
        | Some p => Ok (mkCfg (cfg_Packages cfg ++ [p]) (cfg_Bundles cfg) (cfg_Others cfg))
        end
      else if decide (dm_Schema meta = schemaBundle) then
        match unmarshal_declcfg_Bundle doc with
        | None => Err (Errorf "parse bundle: %v" [AErr json_error])
        | Some b => Ok (mkCfg (cfg_Packages cfg) (cfg_Bundles cfg ++ [b]) (cfg_Others cfg))
        end
      else if decide (dm_Schema meta = "") then
        Err (Errorf "object '%s' is missing root schema field" [AStr doc])
      else Ok (mkCfg (cfg_Packages cfg) (cfg_Bundles cfg) (cfg_Others cfg ++ [meta]))
  end.
(** A reader: the documents of the file, then a decoding error if there is one. *)
Definition reader : Type := list string * option error.
Definition readYAMLOrJSON (r : reader) : res DeclarativeConfig :=
  cfg ← foldR read_doc (mkCfg [] [] []) r.1;
  _ ← check r.2;
  Ok cfg.

(** ** Bundle objects *)
Section objects.
(** [kind obj]: [yaml.Unmarshal] into an unstructured object, then [GetKind]. *)
Variable kind : string → option string.

Fixpoint extractCSV (objs : list string) : string :=
  match objs with
  | [] => ""
  | obj :: objs' =>
      match kind obj with
      | None => extractCSV objs'
      | Some k => if decide (k = "ClusterServiceVersion") then obj else extractCSV objs'
      end
  end.

Variable read : string → string → res string.

(** [filepath.Dir] of a clean relative path *)
Fixpoint last_slash (s : string) : option string :=
  match s with
  | EmptyString => None
  | String c s' =>
      match last_slash s' with
      | Some d => Some (String c d)
      | None => if decide (c = "/"%char) then Some "" else None
      end
  end.
Definition filepath_Dir (path : string) : string := default "." (last_slash path).

Fixpoint append_objects (dir : string) (oi : Z) (acc : list string) (objs : list property_File) : res (list string) :=
  match objs with
  | [] => Ok acc
  | obj :: objs' =>
      d ← wrap_err (λ e, Errorf "get data for bundle object[%d]: %v" [AInt oi; AErr e]) (File_GetData read obj dir);
      append_objects dir (oi + 1) (acc ++ [d]) objs'
  end.
Definition with_objects (b : declcfg_Bundle) (objs : list string) : declcfg_Bundle :=
  mkDBundle (db_Schema b) (db_Name b) (db_Package b) (db_Image b) (db_Properties b) (db_RelatedImages b)
    (extractCSV objs) objs.
Definition readBundleObjects (bundles : list declcfg_Bundle) (path : string) : res (list declcfg_Bundle) :=
  mapR (λ b,
    props ← wrap_err (λ e, Errorf "parse properties for bundle %q: %v" [AStr (db_Name b); AErr e])
              (property_Parse (db_Properties b));
    objs ← append_objects (filepath_Dir path) 0 (db_Objects b) (ps_BundleObjects props);
    Ok (with_objects b objs)) bundles.

(** ** Walking the files

    What [fs.WalkDir] calls back with: an error, a directory, or a file that
    opens or fails to open. *)
Inductive walk_entry : Type :=
  | WalkErr (e : error)
  | WalkDir (path : string)
  | WalkFile (path : string) (opened : res reader).
Definition walkFiles {S} (f : S → string → reader → res S) (s : S) (entries : list walk_entry) : res S :=
  foldR (λ s e,
    match e with
    | WalkErr e => Err e
    | WalkDir _ => Ok s
    | WalkFile path opened => r ← opened; f s path r
    end) s entries.

Definition load_file (ignored : string → bool) (cfg : DeclarativeConfig) (path : string) (r : reader)
    : res DeclarativeConfig :=
  if ignored path then Ok cfg
  else
    fileCfg ← wrap_err (λ e, Errorf "could not load config file %q: %v" [AStr path; AErr e]) (readYAMLOrJSON r);
    bundles ← wrap_err (λ e, Errorf "read bundle objects: %v" [AErr e]) (readBundleObjects (cfg_Bundles fileCfg) path);
    Ok (mkCfg (cfg_Packages cfg ++ cfg_Packages fileCfg) (cfg_Bundles cfg ++ bundles)
              (cfg_Others cfg ++ cfg_Others fileCfg)).
(** [root] is the walk over the file system, [None] for a nil one. *)
Definition LoadFS (matcher : res (string → bool)) (root : option (list walk_entry)) : res DeclarativeConfig :=
  match root with
  | None => Err (ErrNew "no declarative config filesystem provided")
  | Some entries =>
      ignored ← matcher;
      wrap_err (λ e, Errorf "failed to read declarative configs dir: %v" [AErr e])
        (walkFiles (load_file ignored) (mkCfg [] [] []) entries)
  end.
End objects.

(** ** What reading a document means *)
Definition doc_item (raw : string) : res item :=
  let doc := unescape_html raw in
  match Meta_UnmarshalJSON doc with
  | None => Err json_error
  | Some meta =>
      if decide (dm_Schema meta = schemaPackage) then
        match unmarshal_declcfg_Package doc with
        | None => Err (Errorf "parse package: %v" [AErr json_error])
        | Some p => Ok (ItemPackage p)
        end
      else if decide (dm_Schema meta = schemaBundle) then
        match unmarshal_declcfg_Bundle doc with
        | None => Err (Errorf "parse bundle: %v" [AErr json_error])
        | Some b => Ok (ItemBundle b)
        end
      else if decide (dm_Schema meta = "") then
        Err (Errorf "object '%s' is missing root schema field" [AStr doc])
      else Ok (ItemMeta meta)
  end.
Definition item_package_opt (i : item) : option declcfg_Package := match i with ItemPackage p => Some p | _ => None end.
Definition item_bundle_opt (i : item) : option declcfg_Bundle := match i with ItemBundle b => Some b | _ => None end.
Definition item_meta_opt (i : item) : option declcfg_Meta := match i with ItemMeta m => Some m | _ => None end.
(** The config with these objects, each in its list, in order. *)
Definition cfg_of_items (l : list item) : DeclarativeConfig :=
  mkCfg (omap item_package_opt l) (omap item_bundle_opt l) (omap item_meta_opt l).

Lemma read_doc_item cfg raw :
  read_doc cfg raw = (i ← doc_item raw;
    Ok (mkCfg (cfg_Packages cfg ++ option_list (item_package_opt i))
              (cfg_Bundles cfg ++ option_list (item_bundle_opt i))
              (cfg_Others cfg ++ option_list (item_meta_opt i)))).
Proof.
  unfold read_doc, doc_item. destruct (Meta_UnmarshalJSON _); [|done].
  repeat (case_decide || case_match); try done; simpl; by rewrite !app_nil_r.
Qed.

Lemma omap_snoc {A B} (f : A → option B) l x : omap f (l ++ [x]) = omap f l ++ option_list (f x).
Proof. rewrite omap_app. simpl. by destruct (f x). Qed.

(** Reading stops at the first document that is not accepted. *)
Lemma read_docs_cases docs :
  (∃ items, Forall2 (λ d i, doc_item d = Ok i) docs items ∧
            foldR read_doc (mkCfg [] [] []) docs = Ok (cfg_of_items items)) ∨
  (∃ pre d post items e, docs = pre ++ d :: post ∧ Forall2 (λ d i, doc_item d = Ok i) pre items ∧
     doc_item d = Err e ∧ foldR read_doc (mkCfg [] [] []) docs = Err e).
Proof.
  induction docs as [|d docs IH] using rev_ind; [left; exists []; done|].
  rewrite foldR_app. destruct IH as [(items & Hf & E)|(pre & d' & post & items & e & -> & Hf & He & E)]; rewrite E.
  - cbn [mbind res_bind foldR]. rewrite read_doc_item. destruct (doc_item d) as [i|e|] eqn:Hd.
    + left. exists (items ++ [i]). split; [by apply Forall2_app; [|constructor]|].
      cbn [mbind res_bind cfg_of_items cfg_Packages cfg_Bundles cfg_Others].
      unfold cfg_of_items. by rewrite !omap_snoc.
    + right. exists docs, d, [], items, e. done.
    + exfalso. unfold doc_item in Hd. by repeat (case_decide || case_match).
  - right. exists pre, d', (post ++ [d]), items, e. by rewrite <- app_assoc.
Qed.

(** [readYAMLOrJSON] sorts the documents of a file by their root schema:
    either every document is an accepted package, bundle or other object and the
    result lists exactly these objects, each in its list in file order (and a
    decoding error at the end of the file is returned), or the error of the
    first document that is not accepted is returned: one that does not decode,
    or has no schema. *)
Theorem readYAMLOrJSON_spec docs err :
  (∃ items, Forall2 (λ d i, doc_item d = Ok i) docs items ∧
     readYAMLOrJSON (docs, err) = match err with None => Ok (cfg_of_items items) | Some e => Err e end) ∨
  (∃ pre d post items e, docs = pre ++ d :: post ∧ Forall2 (λ d i, doc_item d = Ok i) pre items ∧
     doc_item d = Err e ∧ readYAMLOrJSON (docs, err) = Err e).
Proof.
  unfold readYAMLOrJSON. cbn [fst snd].
  destruct (read_docs_cases docs) as [(items & Hf & E)|(pre & d & post & items & e & ? & ? & ? & E)]; rewrite E.
  - left. exists items. split; [done|]. by destruct err.
  - right. eauto 10.
Qed.

(** A document whose string value is a backslash followed by [u003c]. *)
Definition escaped_backslash_doc : string :=
  print_struct false [("schema", "x"); ("v", String bslash "u003c")].

(** The replacement of the HTML escapes is not aware of escaped
    backslashes.  For the valid document whose value is the six characters
    backslash, u, 0, 0, 3, c, the JSON text holds the escape of the backslash
    followed by [u003c]; the replacement turns it into an invalid escape, and the
    file is rejected although the document decodes. *)
Theorem unescape_html_breaks_document :
  Unmarshal escaped_backslash_doc =
    Some (JObj (printed_members false [("schema", "x"); ("v", String bslash "u003c")])) ∧
  readYAMLOrJSON ([escaped_backslash_doc], None) = Err json_error.
Proof. by vm_compute. Qed.

(** ** Bundle objects *)
Section objects_spec.
Variables (kind : string → option string) (read : string → string → res string).

Lemma append_objects_Ok dir oi acc objs out :
  append_objects read dir oi acc objs = Ok out ↔
  ∃ ds, Forall2 (λ o d, File_GetData read o dir = Ok d) objs ds ∧ out = acc ++ ds.
Proof.
  revert oi acc. induction objs as [|o objs IH]; intros oi acc; simpl.
  - split; [intros [= <-]; exists []; by rewrite app_nil_r|].
    intros (ds & ->%Forall2_nil_inv_l & ->). by rewrite app_nil_r.
  - rewrite bind_Ok. setoid_rewrite wrap_err_Ok. setoid_rewrite IH. split.
    + intros (d & Hd & ds & Hds & ->). exists (d :: ds). split; [by constructor|]. by rewrite <- app_assoc.
    + intros (ds' & (d & ds & Hd & Hds & ->)%Forall2_cons_inv_l & ->). exists d. split; [done|].
      exists ds. split; [done|]. by rewrite <- app_assoc.
Qed.

Lemma extractCSV_spec objs :
  (∃ pre csv post, objs = pre ++ csv :: post ∧ extractCSV kind objs = csv ∧
     kind csv = Some "ClusterServiceVersion" ∧ Forall (λ o, kind o ≠ Some "ClusterServiceVersion") pre) ∨
  (extractCSV kind objs = "" ∧ Forall (λ o, kind o ≠ Some "ClusterServiceVersion") objs).
Proof.
  induction objs as [|o objs IH]; simpl; [by right|].
  destruct (kind o) as [k|] eqn:Hk; [destruct (decide (k = "ClusterServiceVersion")) as [->|Hne]|].
  - left. exists [], o, objs. done.
  - destruct IH as [(pre & csv & post & -> & E & Hc & Hp)|[E Hp]].
    + left. exists (o :: pre), csv, post. split_and!; try done. constructor; [congruence|done].
    + right. split; [done|]. constructor; [congruence|done].
  - destruct IH as [(pre & csv & post & -> & E & Hc & Hp)|[E Hp]].
    + left. exists (o :: pre), csv, post. split_and!; try done. constructor; [congruence|done].
    + right. split; [done|]. constructor; [congruence|done].
Qed.

(** [readBundleObjects] succeeds exactly when the properties of every
    bundle parse and the data of each of its bundle objects can be read; each
    bundle then keeps its fields, its objects are the ones it had followed by
    the data of its bundle-object properties in order, and its CSV is the first
    object of kind ClusterServiceVersion. *)
Theorem readBundleObjects_spec bundles path out :
  (readBundleObjects kind read bundles path = Ok out ↔
  Forall2 (λ b b', ∃ props ds, property_Parse (db_Properties b) = Ok props ∧
    Forall2 (λ o d, File_GetData read o (filepath_Dir path) = Ok d) (ps_BundleObjects props) ds ∧
    b' = mkDBundle (db_Schema b) (db_Name b) (db_Package b) (db_Image b) (db_Properties b) (db_RelatedImages b)
           (extractCSV kind (db_Objects b ++ ds)) (db_Objects b ++ ds)) bundles out) ∧
  ∀ objs, (∃ pre csv post, objs = pre ++ csv :: post ∧ extractCSV kind objs = csv ∧
             kind csv = Some "ClusterServiceVersion" ∧ Forall (λ o, kind o ≠ Some "ClusterServiceVersion") pre) ∨
          (extractCSV kind objs = "" ∧ Forall (λ o, kind o ≠ Some "ClusterServiceVersion") objs).
Proof.
  split; [|apply extractCSV_spec].
  unfold readBundleObjects. rewrite mapR_Ok. split; intros HF; (eapply Forall2_impl; [exact HF|]); intros b b'; simpl.
  - intros Hb. inv_ok. subst. match goal with H : append_objects _ _ _ _ _ = _ |- _ => apply append_objects_Ok in H end.
    destruct_and?. naive_solver.
  - intros (props & ds & Hp & Hds & ->). rewrite Hp. cbn [wrap_err mbind res_bind].
    assert (append_objects read (filepath_Dir path) 0 (db_Objects b) (ps_BundleObjects props) = Ok (db_Objects b ++ ds)) as ->
      by (apply append_objects_Ok; eauto). done.
Qed.
End objects_spec.
