(* ===== verification/RegistryTypes.v ===== *)
(** * Registry data types and the CSV accessors

    [pkg/registry/types.go] and [pkg/registry/csv.go]: package manifests,
    annotations, dependencies and their validation, and the fields a bundle's
    ClusterServiceVersion keeps in its raw JSON spec.

    [semver.ParseRange] is a parameter of the one validator that calls it; the
    images of a deployment, which need the Kubernetes types, are a parameter of
    [GetOperatorImages]. *)
From S2P Require Import Prelude Json JsonCompact Property Declcfg DeclcfgRoundtrip DeclcfgWrite DeclcfgLoad.
From stdpp Require Import options.

(** ** types.go *)
Definition GVKType : string := "olm.gvk".
Definition PackageType : string := "olm.package".
Definition DeprecatedType : string := "olm.deprecated".
Definition LabelType : string := "olm.label".

Record APIKey := mkAPIKey { ak_Group : string; ak_Version : string; ak_Kind : string; ak_Plural : string }.
#[export] Instance APIKey_eq_dec : EqDecision APIKey.
Proof. solve_decision. Defined.
#[export] Instance APIKey_countable : Countable APIKey.
Proof.
  apply (inj_countable' (λ k, (ak_Group k, ak_Version k, ak_Kind k, ak_Plural k))
           (λ t, mkAPIKey t.1.1.1 t.1.1.2 t.1.2 t.2)). by intros [].
Defined.

Record DefinitionKey := mkDefKey { dk_Group : string; dk_Kind : string; dk_Name : string; dk_Version : string }.
Record PackageChannel := mkPkgChannel { pch_Name : string; pch_CurrentCSVName : string }.
Record PackageManifest := mkManifest {
  pm_PackageName : string;
  pm_Channels : list PackageChannel;
  pm_DefaultChannelName : string
}.
Record ChannelEntry := mkEntry { ce_PackageName : string; ce_ChannelName : string; ce_BundleName : string; ce_Replaces : string }.
Record ChannelEntryAnnotated := mkEntryA {
  cea_PackageName : string; cea_ChannelName : string; cea_BundleName : string; cea_BundlePath : string;
  cea_Version : string; cea_Replaces : string; cea_ReplacesVersion : string; cea_ReplacesBundlePath : string
}.
Record registry_Annotations := mkAnnotations { an_PackageName : string; an_Channels : string; an_DefaultChannelName : string }.
Record Dependency := mkDep { dep_Type : string; dep_Value : RawMessage }.
Record registry_Property := mkRProp { rp_Type : string; rp_Value : RawMessage }.
#[export] Instance registry_Property_eq_dec : EqDecision registry_Property.
Proof. solve_decision. Defined.
#[export] Instance ChannelEntry_eq_dec : EqDecision ChannelEntry.
Proof. solve_decision. Defined.

Record GVKDependency := mkGVKDep { gd_Group : string; gd_Kind : string; gd_Version : string }.
Record PackageDependency := mkPkgDep { pd_PackageName : string; pd_Version : string }.
Record LabelDependency := mkLabelDep { ld_Label : string }.

Definition GetDefaultChannel (m : PackageManifest) : string :=
  if decide (pm_DefaultChannelName m ≠ "") then pm_DefaultChannelName m
  else match pm_Channels m with [c] => pch_Name c | _ => "" end.
Definition IsDefaultChannel (pc : PackageChannel) (pm : PackageManifest) : bool :=
  bool_decide (pch_Name pc = pm_DefaultChannelName pm) || bool_decide (length (pm_Channels pm) = 1).

Definition GVKDependency_Validate (gd : GVKDependency) : list error :=
  err_if (bool_decide (gd_Group gd = "")) (ErrNew "API Group is empty") ++
  err_if (bool_decide (gd_Version gd = "")) (ErrNew "API Version is empty") ++
  err_if (bool_decide (gd_Kind gd = "")) (ErrNew "API Kind is empty").
Definition LabelDependency_Validate (ld : LabelDependency) : list error :=
  err_if (bool_decide (ld_Label ld = "")) (ErrNew "Label information is missing").
Definition PackageDependency_Validate (range_parses : string → bool) (pd : PackageDependency) : list error :=
  err_if (bool_decide (pd_PackageName pd = "")) (ErrNew "Package name is empty") ++
  (if decide (pd_Version pd = "") then [ErrNew "Package version is empty"]
   else err_if (negb (range_parses (pd_Version pd))) (ErrNew "Invalid semver format version")).

(** The dynamic type of the value [GetTypeValue] returns. *)
Inductive dep_value : Type :=
  | DepNil
  | DepGVK (d : GVKDependency)
  | DepPackage (d : PackageDependency)
  | DepLabel (d : LabelDependency).
Definition GetTypeValue (e : Dependency) : dep_value :=
  if decide (dep_Type e = GVKType) then
    match unmarshal_struct ["group"; "kind"; "version"] (dep_Value e) with
    | Some [g; k; v] => DepGVK (mkGVKDep g k v) | _ => DepNil end
  else if decide (dep_Type e = PackageType) then
    match unmarshal_struct ["packageName"; "version"] (dep_Value e) with
    | Some [p; v] => DepPackage (mkPkgDep p v) | _ => DepNil end
  else if decide (dep_Type e = LabelType) then
    match unmarshal_struct ["label"] (dep_Value e) with
    | Some [l] => DepLabel (mkLabelDep l) | _ => DepNil end
  else DepNil.

Definition AnnotationsFile_GetChannels (a : registry_Annotations) : list string :=
  if decide (an_Channels a ≠ "") then Split ","%char (an_Channels a) else [].
(** [sort.Strings] gives the one sorted list. *)
Definition SelectDefaultChannel (a : registry_Annotations) : string :=
  if decide (an_Channels a = "") then ""
  else match insertion_sort str_lt (Split ","%char (an_Channels a)) with
       | [] => ""
       | c :: _ => c
       end.

(** ** csv.go *)
Record ClusterServiceVersion := mkCSV {
  csv_Name : string;
  csv_Annotations : gmap string string;
  csv_Spec : RawMessage
}.
Record registry_Icon := mkRIcon { rico_MediaType : string; rico_Base64data : string }.

(** [json.Unmarshal] into a [map[string]*json.RawMessage]: a null member is a
    nil pointer, the last member of a key wins. *)
Definition objmap (spec : RawMessage) : res (gmap string (option string)) :=
  match Unmarshal (raw_bytes spec) with
  | Some JNull => Ok ∅
  | Some (JObj ms) =>
      Ok (foldl (λ m '(k, (raw, v)), <[k := match v with JNull => None | _ => Some raw end]> m) ∅ ms)
  | _ => Err json_error
  end.
(** The raw value of a field; [None] when it is missing or null. *)
Definition spec_field (csv : ClusterServiceVersion) (name : string) : res (option string) :=
  m ← objmap (csv_Spec csv); Ok (mjoin (m !! name)).
Definition unmarshal_with {A} (dec : json → option A) (raw : string) : res A :=
  of_option (Unmarshal raw ≫= dec).

Definition GetReplaces (csv : ClusterServiceVersion) : res string :=
  raw ← spec_field csv "replaces";
  match raw with None => Ok "" | Some r => unmarshal_with (decode_string "") r end.
Definition GetVersion (csv : ClusterServiceVersion) : res string :=
  raw ← spec_field csv "version";
  match raw with None => Ok "" | Some r => unmarshal_with (decode_string "") r end.
Definition GetDescription (csv : ClusterServiceVersion) : res string :=
  raw ← spec_field csv "description";
  match raw with None => Ok "" | Some r => unmarshal_with (decode_string "") r end.
Definition GetSkips (csv : ClusterServiceVersion) : res (list string) :=
  raw ← spec_field csv "skips";
  match raw with None => Ok [] | Some r => unmarshal_with (decode_slice decode_string "" []) r end.
Definition GetSkipRange (csv : ClusterServiceVersion) : string :=
  default "" (csv_Annotations csv !! "olm.skipRange").
Definition GetSubstitutesFor (csv : ClusterServiceVersion) : string :=
  default "" (csv_Annotations csv !! "olm.substitutesFor").

(** A [*DefinitionKey]: a null element is a nil pointer. *)
Definition decode_DefinitionKey (old : option DefinitionKey) (v : json) : option (option DefinitionKey) :=
  match v with
  | JNull => Some None
  | _ =>
      Some <$> decode_with
        [("group", λ d _ v, (λ s, mkDefKey s (dk_Kind d) (dk_Name d) (dk_Version d)) <$> decode_string (dk_Group d) v);
         ("kind", λ d _ v, (λ s, mkDefKey (dk_Group d) s (dk_Name d) (dk_Version d)) <$> decode_string (dk_Kind d) v);
         ("name", λ d _ v, (λ s, mkDefKey (dk_Group d) (dk_Kind d) s (dk_Version d)) <$> decode_string (dk_Name d) v);
         ("version", λ d _ v, mkDefKey (dk_Group d) (dk_Kind d) (dk_Name d) <$> decode_string (dk_Version d) v)]
        (default (mkDefKey "" "" "" "") old) v
  end.
Definition definitions : Type := list (option DefinitionKey) * list (option DefinitionKey).
Definition decode_definitions (v : json) : option definitions :=
  decode_with
    [("owned", λ (d : definitions) _ v, (λ l, (l, d.2)) <$> decode_slice decode_DefinitionKey None d.1 v);
     ("required", λ (d : definitions) _ v, (λ l, (d.1, l)) <$> decode_slice decode_DefinitionKey None d.2 v)]
    ([], []) v.
Definition GetCustomResourceDefintions (csv : ClusterServiceVersion) : res definitions :=
  raw ← spec_field csv "customresourcedefinitions";
  match raw with None => Ok ([], []) | Some r => unmarshal_with decode_definitions r end.
Definition GetApiServiceDefinitions (csv : ClusterServiceVersion) : res definitions :=
  m ← wrap_err (λ e, Errorf "error unmarshaling into object map: %s" [AErr e]) (objmap (csv_Spec csv));
  match mjoin (m !! "apiservicedefinitions") with
  | None => Ok ([], [])
  | Some r => unmarshal_with decode_definitions r
  end.

Record relatedImage := mkRelated { rel_Name : string; rel_Ref : string }.
Definition decode_relatedImage (r : relatedImage) (v : json) : option relatedImage :=
  decode_with [("name", λ r _ v, (λ s, mkRelated s (rel_Ref r)) <$> decode_string (rel_Name r) v);
               ("image", λ r _ v, mkRelated (rel_Name r) <$> decode_string (rel_Ref r) v)] r v.
Definition related_images (csv : ClusterServiceVersion) : res (list relatedImage) :=
  raw ← spec_field csv "relatedImages";
  match raw with
  | None => Ok []
  | Some r => unmarshal_with (decode_slice decode_relatedImage (mkRelated "" "") []) r
  end.
Definition GetRelatedImages (csv : ClusterServiceVersion) : res (gset string) :=
  l ← related_images csv; Ok (list_to_set (rel_Ref <$> l)).

Definition decode_registry_Icon (i : registry_Icon) (v : json) : option registry_Icon :=
  decode_with [("mediatype", λ i _ v, (λ s, mkRIcon s (rico_Base64data i)) <$> decode_string (rico_MediaType i) v);
               ("base64data", λ i _ v, mkRIcon (rico_MediaType i) <$> decode_bytes v)] i v.
Definition GetIcons (csv : ClusterServiceVersion) : res (list registry_Icon) :=
  raw ← spec_field csv "icon";
  match raw with
  | None => Ok []
  | Some r => unmarshal_with (decode_slice decode_registry_Icon (mkRIcon "" "") []) r
  end.

(** What the Kubernetes types decode of the install strategy: its name, and the
    images of the containers and init containers of its deployments. *)
Record install_strategy := mkStrategy { st_Name : string; st_Images : list (list string * list string) }.
Definition GetOperatorImages (decode_install : RawMessage → res install_strategy) (csv : ClusterServiceVersion)
    : res (gset string) :=
  spec ← decode_install (csv_Spec csv);
  if decide (st_Name spec ≠ "deployment") then Ok ∅
  else Ok (foldl (λ images d, images ∪ list_to_set d.1 ∪ list_to_set d.2) ∅ (st_Images spec)).

(** ** Properties of the accessors *)
Lemma insertion_sort_head l c rest :
  insertion_sort str_lt l = c :: rest → c ∈ l ∧ ∀ x, x ∈ l → str_lt x c = false.
Proof.
  intros E. pose proof (insertion_sort_perm str_lt l) as Hp. pose proof (insertion_sort_sorted str_lt l str_lt_strict_weak) as Hs.
  rewrite E in Hp, Hs. apply StronglySorted_inv in Hs as [_ Hs]. rewrite Forall_forall in Hs.
  split; [rewrite <- Hp; left|]. intros x Hx. rewrite <- Hp in Hx. apply elem_of_cons in Hx as [->|Hx]; [apply str_lt_irrefl|auto].
Qed.

(** When channels are annotated, [SelectDefaultChannel] returns the
    lexicographically least of the comma-separated channels, and the empty
    string when there are none. *)
Theorem SelectDefaultChannel_least a :
  (an_Channels a = "" ∧ SelectDefaultChannel a = "") ∨
  (SelectDefaultChannel a ∈ Split ","%char (an_Channels a) ∧
   ∀ c, c ∈ Split ","%char (an_Channels a) → str_lt c (SelectDefaultChannel a) = false).
Proof.
  unfold SelectDefaultChannel. case_decide; [by left|right].
  destruct (insertion_sort str_lt (Split "," (an_Channels a))) as [|c rest] eqn:E.
  - pose proof (insertion_sort_perm str_lt (Split "," (an_Channels a))) as Hp. rewrite E in Hp.
    apply Permutation_nil_l in Hp. symmetry in Hp. by apply Split_nonempty in Hp.
  - by apply insertion_sort_head in E.
Qed.
