(* ===== verification/RegistryBundle.v ===== *)
(** * Bundles of manifests

    [pkg/registry/bundle.go] and [pkg/registry/registry_to_model.go]: a bundle
    parses its CSV and CRDs lazily and caches them; the property list of a bundle
    is assembled from its CSV, its properties and dependencies, and its APIs.

    A Kubernetes object is what the Kubernetes libraries make of it: its kind,
    version and name, and the outcome of converting it to a CSV, decoding it as a
    CRD and encoding it.  Methods that fill the cache change the bundle, also
    when they fail; they are computations in a state-and-error monad. *)
From S2P Require Import Prelude Json JsonCompact Property JsonTotal Model Declcfg DeclcfgRoundtrip DeclcfgWrite DeclcfgLoad RegistryTypes.
From stdpp Require Import options.

Record crd := mkCRD { crd_Group : string; crd_Versions : list string; crd_Version : string; crd_Kind : string; crd_Plural : string; crd_Name : string }.
Record k8s_object := mkObj {
  o_Kind : string;
  o_Version : string;
  o_Name : string;
  o_asCSV : ClusterServiceVersion + error;
  o_asV1CRD : crd + error;
  o_asV1beta1CRD : crd + error;
  o_encoded : string + error
}.
Record registry_Bundle := mkRBundle {
  rb_Name : string;
  rb_Objects : list k8s_object;
  rb_Package : string;
  rb_Channels : list string;
  rb_BundleImage : string;
  rb_version : string;
  rb_csv : option ClusterServiceVersion;
  rb_v1beta1crds : list crd;
  rb_v1crds : list crd;
  rb_Dependencies : list Dependency;
  rb_Properties : list registry_Property;
  rb_Annotations : option registry_Annotations;
  rb_cacheStale : bool
}.

Definition set_csv (b : registry_Bundle) c := mkRBundle (rb_Name b) (rb_Objects b) (rb_Package b) (rb_Channels b)
  (rb_BundleImage b) (rb_version b) c (rb_v1beta1crds b) (rb_v1crds b) (rb_Dependencies b) (rb_Properties b)
  (rb_Annotations b) (rb_cacheStale b).
Definition set_crds (b : registry_Bundle) v1beta1 v1 := mkRBundle (rb_Name b) (rb_Objects b) (rb_Package b) (rb_Channels b)
  (rb_BundleImage b) (rb_version b) (rb_csv b) v1beta1 v1 (rb_Dependencies b) (rb_Properties b)
  (rb_Annotations b) (rb_cacheStale b).
Definition set_stale (b : registry_Bundle) s := mkRBundle (rb_Name b) (rb_Objects b) (rb_Package b) (rb_Channels b)
  (rb_BundleImage b) (rb_version b) (rb_csv b) (rb_v1beta1crds b) (rb_v1crds b) (rb_Dependencies b) (rb_Properties b)
  (rb_Annotations b) s.
Definition set_version (b : registry_Bundle) v := mkRBundle (rb_Name b) (rb_Objects b) (rb_Package b) (rb_Channels b)
  (rb_BundleImage b) v (rb_csv b) (rb_v1beta1crds b) (rb_v1crds b) (rb_Dependencies b) (rb_Properties b)
  (rb_Annotations b) (rb_cacheStale b).
Definition set_channels (b : registry_Bundle) chs := mkRBundle (rb_Name b) (rb_Objects b) (rb_Package b) chs
  (rb_BundleImage b) (rb_version b) (rb_csv b) (rb_v1beta1crds b) (rb_v1crds b) (rb_Dependencies b) (rb_Properties b)
  (rb_Annotations b) (rb_cacheStale b).

(** ** The monad of methods that may fill the cache *)
Definition BM (A : Type) : Type := registry_Bundle → registry_Bundle * res A.
#[export] Instance BM_ret : MRet BM := λ A a b, (b, Ok a).
#[export] Instance BM_bind : MBind BM := λ A B f m b,
  match m b with
  | (b', Ok a) => f a b'
  | (b', Err e) => (b', Err e)
  | (b', Panic) => (b', Panic)
  end.
Definition lift {A} (r : res A) : BM A := λ b, (b, r).
Definition get {A} (f : registry_Bundle → A) : BM A := λ b, (b, Ok (f b)).
Definition wrap_bm {A} (f : error → error) (m : BM A) : BM A := λ b, let '(b', r) := m b in (b', wrap_err f r).

(** ** bundle.go *)
Definition Add (b : registry_Bundle) (obj : k8s_object) : registry_Bundle :=
  mkRBundle (rb_Name b) (rb_Objects b ++ [obj]) (rb_Package b) (rb_Channels b) (rb_BundleImage b) (rb_version b)
    (rb_csv b) (rb_v1beta1crds b) (rb_v1crds b) (rb_Dependencies b) (rb_Properties b) (rb_Annotations b) true.
Definition Size (b : registry_Bundle) : nat := length (rb_Objects b).

Definition NewBundle (name : string) (annotations : option registry_Annotations) (objs : list k8s_object)
    : res registry_Bundle :=
  an ← deref annotations;
  let bundle := mkRBundle name [] (an_PackageName an) [] "" "" None [] [] [] [] annotations false in
  let bundle := foldl Add bundle objs in
  Ok (set_channels bundle (Split ","%char (an_Channels an))).

Definition is_csv (o : k8s_object) : Prop := o_Kind o = "ClusterServiceVersion".
#[export] Instance is_csv_dec o : Decision (is_csv o).
Proof. unfold is_csv. apply _. Defined.

(** The CRD of one object, appended to the list of its version.  The object is
    encoded ([MarshalJSON], whatever its version) and decoded as a CRD. *)
Definition cache_crd (b : registry_Bundle) (o : k8s_object) : registry_Bundle * option error :=
  if decide (o_Kind o = "CustomResourceDefinition") then
    match o_encoded o with
    | inr e => (b, Some e)
    | inl _ =>
        if decide (o_Version o = "v1") then
          match o_asV1CRD o with
          | inl c => (set_crds b (rb_v1beta1crds b) (rb_v1crds b ++ [c]), None)
          | inr e => (b, Some (Errorf "error decoding v1 CRD: %v" [AErr e]))
          end
        else if decide (o_Version o = "v1beta1") then
          match o_asV1beta1CRD o with
          | inl c => (set_crds b (rb_v1beta1crds b ++ [c]) (rb_v1crds b), None)
          | inr e => (b, Some (Errorf "error decoding v1beta1 CRD: %v" [AErr e]))
          end
        else (b, None)
    end
  else (b, None).
Fixpoint cache_crds (b : registry_Bundle) (objs : list k8s_object) : registry_Bundle * option error :=
  match objs with
  | [] => (b, None)
  | o :: objs' =>
      match cache_crd b o with
      | (b', None) => cache_crds b' objs'
      | (b', Some e) => (b', Some e)
      end
  end.
Definition cache : BM unit := λ b,
  if negb (rb_cacheStale b) then (b, Ok tt)
  else
    match snd <$> list_find is_csv (rb_Objects b) with
    | Some o =>
        match o_asCSV o with
        | inr e => (b, Err e)
        | inl c =>
            match cache_crds (set_csv b (Some c)) (rb_Objects b) with
            | (b', None) => (set_stale b' false, Ok tt)
            | (b', Some e) => (b', Err e)
            end
        end
    | None =>
        match cache_crds b (rb_Objects b) with
        | (b', None) => (set_stale b' false, Ok tt)
        | (b', Some e) => (b', Err e)
        end
    end.

(** The CSV may be nil; a method call on a nil CSV panics. *)
Definition Bundle_ClusterServiceVersion : BM (option ClusterServiceVersion) := _ ← cache; get rb_csv.
Definition the_csv : BM ClusterServiceVersion := c ← Bundle_ClusterServiceVersion; lift (deref c).

Definition Bundle_Version : BM string := λ b,
  if decide (rb_version b ≠ "") then (b, Ok (rb_version b))
  else
    match cache b with
    | (b', Ok _) =>
        match rb_csv b' with
        | Some c =>
            match GetVersion c with
            | Ok v => (set_version b' v, Ok v)
            | Err e => (set_version b' "", Err e)
            | Panic => (b', Panic)
            end
        | None => (b', Ok (rb_version b'))
        end
    | (b', Err e) => (b', Err e)
    | (b', Panic) => (b', Panic)
    end.
Definition Bundle_SkipRange : BM string := c ← the_csv; lift (Ok (GetSkipRange c)).
Definition Bundle_Replaces' : BM string := c ← the_csv; lift (GetReplaces c).
Definition Bundle_Skips' : BM (list string) := c ← the_csv; lift (GetSkips c).
Definition Bundle_Icons : BM (list registry_Icon) := c ← the_csv; lift (GetIcons c).
Definition Bundle_Description : BM string := c ← the_csv; lift (GetDescription c).
Definition Bundle_SubstitutesFor : BM string := c ← the_csv; lift (Ok (GetSubstitutesFor c)).

(** A CRD of either version. *)
Definition CustomResourceDefinitions : BM (list (crd + crd)) :=
  _ ← cache; get (λ b, (inl <$> rb_v1crds b) ++ (inr <$> rb_v1beta1crds b)).
Definition crd_keys (c : crd + crd) : list APIKey :=
  match c with
  | inl c => (λ v, mkAPIKey (crd_Group c) v (crd_Kind c) (crd_Plural c)) <$> crd_Versions c
  | inr c =>
      ((λ v, mkAPIKey (crd_Group c) v (crd_Kind c) (crd_Plural c)) <$> crd_Versions c) ++
      (if decide (crd_Version c = "") then []
       else [mkAPIKey (crd_Group c) (crd_Version c) (crd_Kind c) (crd_Plural c)])
  end.
Definition service_key (d : option DefinitionKey) : res APIKey :=
  d ← deref d; Ok (mkAPIKey (dk_Group d) (dk_Version d) (dk_Kind d) (dk_Name d)).
Definition crd_name_key (d : option DefinitionKey) : res APIKey :=
  d ← deref d;
  match SplitN "."%char (dk_Name d) 1 with
  | [plural; group] => Ok (mkAPIKey group (dk_Version d) (dk_Kind d) plural)
  | _ => Err (Errorf "couldn't parse plural.group from crd name: %s" [AStr (dk_Name d)])
  end.

Definition ProvidedAPIs : BM (gset APIKey) :=
  crds ← wrap_bm (λ e, Errorf "error getting crds: %s" [AErr e]) CustomResourceDefinitions;
  let provided : gset APIKey := list_to_set (crds ≫= crd_keys) in
  csv ← the_csv;
  defs ← lift (wrap_err (λ e, Errorf "error getting apiservice definitions: %s" [AErr e]) (GetApiServiceDefinitions csv));
  keys ← lift (mapR service_key defs.1);
  lift (Ok (provided ∪ list_to_set keys)).
Definition RequiredAPIs : BM (gset APIKey) :=
  csv ← the_csv;
  defs ← lift (GetCustomResourceDefintions csv);
  keys ← lift (mapR crd_name_key defs.2);
  defs' ← lift (GetApiServiceDefinitions csv);
  keys' ← lift (mapR service_key defs'.2);
  lift (Ok (list_to_set keys ∪ list_to_set keys')).

Section apis.
Context `{GoRuntime}.
Definition AllProvidedAPIsInBundle : BM unit :=
  csv ← the_csv;
  bundleAPIs ← ProvidedAPIs;
  defs ← lift (GetCustomResourceDefintions csv);
  keys ← lift (mapR crd_name_key defs.1);
  lift (check (fst <$> head (omap (λ key,
    if decide (key ∈ bundleAPIs) then None
    else Some (Errorf "couldn't find %v in bundle. found: %v" [AStr (ak_Group key)], key))
    (range_set (list_to_set keys : gset APIKey))))).
End apis.

(** [csvName], [csvBytes] and [bundleBytes] while the objects are visited. *)
Record serialized := mkSer { ser_csvName : string; ser_csvBytes : string; ser_bundleBytes : string; ser_csvCount : nat }.
Definition serialize_object (s : serialized) (o : k8s_object) : res serialized :=
  match o_encoded o with
  | inr e => Err e
  | inl bytes =>
      let s := mkSer (ser_csvName s) (ser_csvBytes s) (ser_bundleBytes s +:+ bytes) (ser_csvCount s) in
      if decide (is_csv o) then
        if decide (0 < ser_csvCount s) then Err (ErrNew "two csvs found in one bundle")
        else Ok (mkSer (o_Name o) bytes (ser_bundleBytes s) (S (ser_csvCount s)))
      else Ok s
  end.
Definition Annotations_Marshal (an : registry_Annotations) : string :=
  print_struct true [("operators.operatorframework.io.bundle.package.v1", an_PackageName an);
                     ("operators.operatorframework.io.bundle.channels.v1", an_Channels an);
                     ("operators.operatorframework.io.bundle.channel.default.v1", an_DefaultChannelName an)].
Definition Serialize (b : registry_Bundle) : res (string * string * string * string * option string) :=
  s ← foldR serialize_object (mkSer "" "" "" 0) (rb_Objects b);
  Ok (ser_csvName s, rb_BundleImage b, ser_csvBytes s, ser_bundleBytes s, Annotations_Marshal <$> rb_Annotations b).

Definition Images (decode_install : RawMessage → res install_strategy) : BM (gset string) :=
  img ← get rb_BundleImage;
  let result : gset string := if decide (img = "") then ∅ else {[img]} in
  csv ← Bundle_ClusterServiceVersion;
  match csv with
  | None => lift (Ok result)
  | Some c =>
      images ← lift (GetOperatorImages decode_install c);
      related ← lift (GetRelatedImages c);
      lift (Ok (result ∪ images ∪ related))
  end.

(** ** registry_to_model.go *)
Record provided_state := mkProvided {
  pv_GVKs : gset property_GVK;
  pv_Package : option property_Property;
  pv_Others : list property_Property
}.
Definition provided_prop (i : Z) (s : provided_state) (p : registry_Property) : res provided_state :=
  if decide (rp_Type p = TypeGVK) then
    v ← wrap_err (ParseError i (rp_Type p)) (unmarshal_GVK (rp_Value p));
    Ok (mkProvided ({[mkGVK (gvk_Group v) (gvk_Kind v) (gvk_Version v)]} ∪ pv_GVKs s) (pv_Package s) (pv_Others s))
  else if decide (rp_Type p = TypePackage) then
    v ← wrap_err (ParseError i (rp_Type p)) (unmarshal_Package (rp_Value p));
    q ← MustBuildPackage init_scheme (pp_PackageName v) (pp_Version v);
    Ok (mkProvided (pv_GVKs s) (Some q) (pv_Others s))
  else Ok (mkProvided (pv_GVKs s) (pv_Package s) (pv_Others s ++ [mkProp (rp_Type p) (rp_Value p)])).
Fixpoint provided_props (i : Z) (s : provided_state) (ps : list registry_Property) : res provided_state :=
  match ps with
  | [] => Ok s
  | p :: ps' => s' ← provided_prop i s p; provided_props (i + 1) s' ps'
  end.

Record required_state := mkRequired { rq_GVKs : gset property_GVKRequired; rq_Packages : list property_Property }.
Definition required_prop (i : Z) (s : required_state) (p : Dependency) : res required_state :=
  if decide (dep_Type p = TypeGVK) then
    v ← wrap_err (ParseError i (dep_Type p)) (unmarshal_GVK (dep_Value p));
    Ok (mkRequired ({[mkGVKReq (gvk_Group v) (gvk_Kind v) (gvk_Version v)]} ∪ rq_GVKs s) (rq_Packages s))
  else if decide (dep_Type p = TypePackage) then
    v ← wrap_err (ParseError i (dep_Type p)) (unmarshal_Package (dep_Value p));
    q ← MustBuildPackageRequired init_scheme (pp_PackageName v) (pp_Version v);
    Ok (mkRequired (rq_GVKs s) (rq_Packages s ++ [q]))
  else Ok s.
Fixpoint required_props (i : Z) (s : required_state) (ps : list Dependency) : res required_state :=
  match ps with
  | [] => Ok s
  | p :: ps' => s' ← required_prop i s p; required_props (i + 1) s' ps'
  end.

Definition prop_lt (x y : property_Property) : bool :=
  if decide (p_Type x = p_Type y) then str_lt (raw_bytes (p_Value x)) (raw_bytes (p_Value y))
  else str_lt (p_Type x) (p_Type y).

(** [strings.TrimSpace], ASCII white space *)
Definition is_ascii_space (c : ascii) : bool :=
  is_space c || bool_decide (c = byte_of 11) || bool_decide (c = byte_of 12).
Fixpoint trim_left (s : string) : string :=
  match s with
  | String c s' => if is_ascii_space c then trim_left s' else s
  | EmptyString => ""
  end.
Fixpoint all_space (s : string) : bool :=
  match s with String c s' => is_ascii_space c && all_space s' | EmptyString => true end.
Fixpoint trim_right (s : string) : string :=
  match s with
  | String c s' => if all_space s then "" else String c (trim_right s')
  | EmptyString => ""
  end.
Definition TrimSpace (s : string) : string := trim_right (trim_left s).
Definition extractChannels (annotationChannels : string) : list string :=
  filter (λ ch, TrimSpace ch ≠ "") (Split ","%char annotationChannels).

Definition convertToModelRelatedImages (csv : ClusterServiceVersion) : res (list model_RelatedImage) :=
  l ← related_images csv; Ok ((λ i, mkRI (rel_Name i) (rel_Ref i)) <$> (l : list relatedImage)).

(** The first part of [PropertiesFromBundle]: everything that does not depend on
    the order in which the two GVK maps are visited. *)
Record gathered := mkGathered {
  g_package : property_Property;
  g_graph : list property_Property;
  g_provided : gset property_GVK;
  g_required : gset property_GVKRequired;
  g_packagesRequired : list property_Property;
  g_others : list property_Property
}.
Definition gather_properties : BM gathered :=
  c ← wrap_bm (λ e, Errorf "get csv: %v" [AErr e]) Bundle_ClusterServiceVersion;
  csv ← lift (deref c);
  skips ← lift (wrap_err (λ e, Errorf "get csv skips: %v" [AErr e]) (GetSkips csv));
  replaces ← lift (wrap_err (λ e, Errorf "get csv replaces: %v" [AErr e]) (GetReplaces csv));
  channels ← get rb_Channels;
  channelProps ← lift (mapR (λ ch, MustBuildChannel init_scheme ch replaces) channels);
  skipProps ← lift (mapR (MustBuildSkips init_scheme) skips);
  skipRangeProps ← lift (if decide (GetSkipRange csv = "") then Ok []
                          else p ← MustBuildSkipRange init_scheme (GetSkipRange csv); Ok [p]);
  bprops ← get rb_Properties;
  prov ← lift (provided_props 0 (mkProvided ∅ None []) bprops);
  bdeps ← get rb_Dependencies;
  req ← lift (required_props 0 (mkRequired ∅ []) bdeps);
  version ← wrap_bm (λ e, Errorf "get version: %v" [AErr e]) Bundle_Version;
  providedApis ← wrap_bm (λ e, Errorf "get provided apis: %v" [AErr e]) ProvidedAPIs;
  let providedGVKs : gset property_GVK :=
    pv_GVKs prov ∪ set_map (λ k, mkGVK (ak_Group k) (ak_Kind k) (ak_Version k)) providedApis in
  requiredApis ← wrap_bm (λ e, Errorf "get required apis: %v" [AErr e]) RequiredAPIs;
  let requiredGVKs : gset property_GVKRequired :=
    rq_GVKs req ∪ set_map (λ k, mkGVKReq (ak_Group k) (ak_Kind k) (ak_Version k)) requiredApis in
  pkg ← get rb_Package;
  packageProp ← lift (match pv_Package prov with
                      | Some p => Ok p
                      | None => MustBuildPackage init_scheme pkg version
                      end);
  lift (Ok (mkGathered packageProp (channelProps ++ skipProps ++ skipRangeProps) providedGVKs requiredGVKs
              (rq_Packages req) (pv_Others prov))).

Section properties.
Context `{GoRuntime}.

Definition PropertiesFromBundle : BM (list property_Property) :=
  g ← gather_properties;
  gvkProps ← lift (mapR (λ v, MustBuildGVK init_scheme (gvk_Group v) (gvk_Version v) (gvk_Kind v)) (range_set (g_provided g)));
  gvkReqProps ← lift (mapR (λ v, MustBuildGVKRequired init_scheme (gvkr_Group v) (gvkr_Version v) (gvkr_Kind v))
                        (range_set (g_required g)));
  lift (Ok (sort_slice prop_lt
    ([g_package g] ++ g_graph g ++ gvkProps ++ gvkReqProps ++ g_packagesRequired g ++ g_others g))).

(** [nil, err] on failure *)
Definition registryBundleToModelBundle : BM model_Bundle :=
  bundleProps ← wrap_bm (λ e, Errorf "error converting properties for internal model: %v" [AErr e]) PropertiesFromBundle;
  c ← wrap_bm (λ e, Errorf "Could not get CVS for bundle: %s" [AErr e]) Bundle_ClusterServiceVersion;
  csv ← lift (deref c);
  replaces ← lift (wrap_err (λ e, Errorf "Could not get Replaces from CSV for bundle: %s" [AErr e]) (GetReplaces csv));
  skips ← lift (wrap_err (λ e, Errorf "Could not get Skips from CSV for bundle: %s" [AErr e]) (GetSkips csv));
  relatedImages ← lift (wrap_err (λ e, Errorf "Could not get Related images from bundle: %v" [AErr e])
                          (convertToModelRelatedImages csv));
  image ← get rb_BundleImage;
  lift (Ok (mkBundle None None (csv_Name csv) image replaces skips bundleProps relatedImages [] "")).

(** The package and channels are values here: each bundle is returned with the
    name of its channel, and all share the package. *)
Definition ConvertRegistryBundleToModelBundles : BM (model_Package * list (string * model_Bundle)) :=
  c ← get rb_csv;
  csv ← lift (deref c);
  desc ← lift (wrap_err (λ e, Errorf "Could not get description from bundle CSV:%s" [AErr e]) (GetDescription csv));
  icons ← lift (wrap_err (λ e, Errorf "Could not get icon from bundle CSV:%s" [AErr e]) (GetIcons csv));
  let mIcon := match icons with
               | [] => mkIcon "" ""
               | i :: _ => mkIcon (rico_Base64data i) (rico_MediaType i)
               end in
  a ← get rb_Annotations;
  an ← lift (deref a);
  let pkg := mkPackage (an_PackageName an) desc (Some mIcon) None (Some ∅) in
  mb ← (λ b, match registryBundleToModelBundle b with
             | (b', Err _) => (b', Panic)
             | r => r
             end);
  lift (Ok (pkg, (λ ch, (ch, mb)) <$> extractChannels (an_Channels an))).
End properties.

(** ** The cache *)
Definition v1_crd (o : k8s_object) : option crd :=
  if decide (o_Kind o = "CustomResourceDefinition" ∧ o_Version o = "v1")
  then match o_asV1CRD o with inl c => Some c | inr _ => None end else None.
Definition v1beta1_crd (o : k8s_object) : option crd :=
  if decide (o_Kind o = "CustomResourceDefinition" ∧ o_Version o = "v1beta1")
  then match o_asV1beta1CRD o with inl c => Some c | inr _ => None end else None.
Definition decodes (o : k8s_object) : Prop :=
  o_Kind o = "CustomResourceDefinition" →
  (∃ bytes, o_encoded o = inl bytes) ∧
  (o_Version o = "v1" → ∃ c, o_asV1CRD o = inl c) ∧ (o_Version o = "v1beta1" → ∃ c, o_asV1beta1CRD o = inl c).

Lemma cache_crd_spec b o :
  (decodes o ∧ cache_crd b o = (set_crds b (rb_v1beta1crds b ++ option_list (v1beta1_crd o))
                                          (rb_v1crds b ++ option_list (v1_crd o)), None)) ∨
  (¬ decodes o ∧ ∃ e, cache_crd b o = (b, Some e)).
Proof.
  unfold cache_crd, decodes, v1_crd, v1beta1_crd.
  assert (∀ b', set_crds b' (rb_v1beta1crds b' ++ []) (rb_v1crds b' ++ []) = b') as Hid.
  { intros []. unfold set_crds. simpl. by rewrite !app_nil_r. }
  destruct (decide (o_Kind o = "CustomResourceDefinition")) as [Hk|Hk].
  2:{ left. rewrite !decide_False by tauto. simpl. rewrite Hid. tauto. }
  destruct (o_encoded o) as [bytes|e] eqn:Ee.
  2:{ right. split; [|eauto]. intros Hd. destruct (Hd Hk) as [[? ?] _]. congruence. }
  destruct (decide (o_Version o = "v1")) as [Hv|Hv].
  - rewrite (decide_False (P := _ ∧ o_Version o = "v1beta1")) by (rewrite Hv; intros [_ ?]; done).
    rewrite decide_True by done. destruct (o_asV1CRD o) as [c|e]; [left|right].
    + simpl. rewrite app_nil_r. split; [|done]. intros _. split_and!; [eauto..|]. rewrite Hv. done.
    + split; [|eauto]. intros Hd. destruct (Hd Hk) as (_ & [c ?] & _); done.
  - rewrite (decide_False (P := _ ∧ o_Version o = "v1")) by tauto.
    destruct (decide (o_Version o = "v1beta1")) as [Hb|Hb].
    + rewrite decide_True by done. destruct (o_asV1beta1CRD o) as [c|e]; [left|right].
      * simpl. rewrite app_nil_r. split; [|done]. intros _. split_and!; [eauto|done|eauto].
      * split; [|eauto]. intros Hd. destruct (Hd Hk) as (_ & _ & [c ?]); done.
    + rewrite decide_False by tauto. left. simpl. rewrite Hid. split; [|done]. intros _. split_and!; [eauto|done|done].
Qed.

Lemma cache_crds_spec b objs :
  (Forall decodes objs ∧
   cache_crds b objs = (set_crds b (rb_v1beta1crds b ++ omap v1beta1_crd objs) (rb_v1crds b ++ omap v1_crd objs), None)) ∨
  (¬ Forall decodes objs ∧ ∃ b' e, cache_crds b objs = (b', Some e)).
Proof.
  revert b. induction objs as [|o objs IH]; intros b; simpl.
  - left. split; [constructor|]. rewrite !app_nil_r. by destruct b.
  - destruct (cache_crd_spec b o) as [[Hd E]|[Hd [e E]]]; rewrite E.
    + destruct (IH (set_crds b (rb_v1beta1crds b ++ option_list (v1beta1_crd o)) (rb_v1crds b ++ option_list (v1_crd o))))
        as [[Hall E']|[Hall (b' & e & E')]]; rewrite E'.
      * left. split; [by constructor|]. simpl. rewrite <- !app_assoc. unfold set_crds. simpl.
        by destruct (v1_crd o), (v1beta1_crd o).
      * right. split; [|eauto]. intros [_ ?]%Forall_cons. done.
    + right. split; [|eauto]. intros [? _]%Forall_cons. done.
Qed.

(** The CSV an attempt to fill the cache finds. *)
Definition csv_outcome (b : registry_Bundle) : option ClusterServiceVersion + error :=
  match snd <$> list_find is_csv (rb_Objects b) with
  | None => inl (rb_csv b)
  | Some o => match o_asCSV o with inl c => inl (Some c) | inr e => inr e end
  end.
Lemma set_csv_same b : set_csv b (rb_csv b) = b.
Proof. by destruct b. Qed.

Lemma cache_spec b :
  rb_cacheStale b = true →
  (∃ c, csv_outcome b = inl c ∧ Forall decodes (rb_Objects b) ∧
     cache b = (set_stale (set_crds (set_csv b c) (rb_v1beta1crds b ++ omap v1beta1_crd (rb_Objects b))
                            (rb_v1crds b ++ omap v1_crd (rb_Objects b))) false, Ok tt)) ∨
  (((∃ e, csv_outcome b = inr e) ∨ ¬ Forall decodes (rb_Objects b)) ∧ ∃ b' e, cache b = (b', Err e) ∧ rb_cacheStale b' = true).
Proof.
  intros Hs. unfold cache, csv_outcome. rewrite Hs. cbn [negb].
  assert (∀ b0, rb_Objects b0 = rb_Objects b → rb_cacheStale b0 = true → ∀ b' e, cache_crds b0 (rb_Objects b) = (b', Some e) → rb_cacheStale b' = true) as Hstale.
  { intros b0 _. generalize (rb_Objects b). intros objs. revert b0. induction objs as [|o objs IH]; intros b0 Hb0 b' e; simpl; [done|].
    destruct (cache_crd_spec b0 o) as [[_ E]|[_ [e' E]]]; rewrite E; [by apply IH|]. by intros [= <- _]. }
  destruct (snd <$> list_find is_csv (rb_Objects b)) as [o|] eqn:Eo.
  - destruct (o_asCSV o) as [c|e]; [|right; split; [left; eauto|eauto]].
    destruct (cache_crds_spec (set_csv b (Some c)) (rb_Objects b)) as [[Hall E]|[Hall (b' & e & E)]]; rewrite E.
    + left. exists (Some c). done.
    + right. split; [by right|]. exists b', e. split; [done|]. by eapply Hstale; [| |exact E].
  - destruct (cache_crds_spec b (rb_Objects b)) as [[Hall E]|[Hall (b' & e & E)]]; rewrite E.
    + left. exists (rb_csv b). rewrite set_csv_same. done.
    + right. split; [by right|]. exists b', e. split; [done|]. by eapply Hstale; [| |exact E].
Qed.
