(* ===== verification/RegistryBundleSpec.v ===== *)
(** * Properties of manifest bundles

    The cache of a bundle, the property list assembled from it, and its
    serialization. *)
From S2P Require Import Prelude Json JsonCompact Property JsonTotal Model Declcfg DeclcfgRoundtrip DeclcfgWrite DeclcfgLoad RegistryTypes RegistryBundle.
From stdpp Require Import options.

(** ** Inversion of the monad *)
Lemma bm_bind_Ok {A B} (f : A → BM B) (m : BM A) b b' y :
  (m ≫= f) b = (b', Ok y) ↔ ∃ b1 x, m b = (b1, Ok x) ∧ f x b1 = (b', Ok y).
Proof.
  unfold mbind, BM_bind. destruct (m b) as [b1 [x|e|]]; split; try naive_solver.
Qed.
Lemma lift_Ok {A} (r : res A) b b' y : lift r b = (b', Ok y) ↔ b' = b ∧ r = Ok y.
Proof. unfold lift. naive_solver. Qed.
Lemma get_Ok {A} (f : registry_Bundle → A) b b' y : get f b = (b', Ok y) ↔ b' = b ∧ y = f b.
Proof. unfold get. naive_solver. Qed.
Lemma wrap_bm_Ok {A} f (m : BM A) b b' y : wrap_bm f m b = (b', Ok y) ↔ m b = (b', Ok y).
Proof. unfold wrap_bm. destruct (m b) as [b1 [x|e|]]; simpl; naive_solver. Qed.

Ltac inv_bm :=
  repeat match goal with
  | H : (_ ≫= _) _ = (_, Ok _) |- _ => apply bm_bind_Ok in H as (? & ? & ? & ?)
  | H : lift _ _ = (_, Ok _) |- _ => apply (proj1 (lift_Ok _ _ _ _)) in H as [? ?]
  | H : get _ _ = (_, Ok _) |- _ => apply (proj1 (get_Ok _ _ _ _)) in H as [? ?]
  | H : wrap_bm _ _ _ = (_, Ok _) |- _ => apply (proj1 (wrap_bm_Ok _ _ _ _ _)) in H
  end.

(** ** The order of properties *)
Definition key_lt (x y : string * string) : bool :=
  if decide (x.1 = y.1) then str_lt x.2 y.2 else str_lt x.1 y.1.
Lemma prop_lt_key x y : prop_lt x y = key_lt (dedup_key x) (dedup_key y).
Proof. done. Qed.
Lemma key_lt_strict_weak : strict_weak key_lt.
Proof.
  unfold key_lt. split.
  - intros [x1 x2] [y1 y2]; simpl. destruct (decide (x1 = y1)) as [->|]; [rewrite decide_True by done; apply str_lt_antisym|].
    rewrite decide_False by congruence. apply str_lt_antisym.
  - intros [x1 x2] [y1 y2] [z1 z2]; simpl.
    destruct (decide (y1 = x1)) as [->|H1].
    + intros H2. destruct (decide (z1 = x1)) as [->|]; [by apply str_ge_trans|done].
    + intros H2. destruct (decide (z1 = y1)) as [->|H3]; [by rewrite decide_False by congruence|].
      intros H4. destruct (decide (z1 = x1)) as [->|]; [|by eapply str_ge_trans].
      exfalso. apply H1. by apply str_lt_total.
Qed.
#[local] Instance key_le_antisymm : AntiSymm (=) (λ x y, key_lt y x = false).
Proof.
  intros [x1 x2] [y1 y2]. unfold key_lt. simpl. destruct (decide (y1 = x1)) as [->|].
  - rewrite decide_True by done. intros. f_equal. by apply str_lt_total.
  - rewrite decide_False by congruence. intros H1 H2. exfalso. apply n. by apply str_lt_total.
Qed.

Lemma sorted_props_unique l1 l2 :
  StronglySorted (λ x y, prop_lt y x = false) l1 → StronglySorted (λ x y, prop_lt y x = false) l2 → l1 ≡ₚ l2 →
  dedup_key <$> l1 = dedup_key <$> l2.
Proof.
  intros H1 H2 Hp. apply (StronglySorted_unique (λ x y, key_lt y x = false)); [| |by rewrite Hp].
  - eapply StronglySorted_map; [|exact H1]. by intros.
  - eapply StronglySorted_map; [|exact H2]. by intros.
Qed.
Lemma prop_lt_strict_weak : strict_weak prop_lt.
Proof. destruct key_lt_strict_weak as [Ha Ht]. split; intros *; rewrite !prop_lt_key; [apply Ha|apply Ht]. Qed.

(** ** Building lists of typed properties never panics *)
Lemma mapR_MustBuild {A} (f : A → iface) l :
  (∀ x, typed (f x) = true) → mapR (λ x, MustBuild init_scheme (f x)) l = Ok ((built ∘ f) <$> l).
Proof.
  intros Hf. induction l as [|x l IH]; simpl; [done|]. rewrite MustBuild_built by done. simpl. by rewrite IH.
Qed.

Section properties.
Context `{GoRuntime}.

(** The properties of a bundle, given what was gathered. *)
Definition assembled (g : gathered) : list property_Property :=
  [g_package g] ++ g_graph g ++
  (built ∘ (λ v, IGVK (mkGVK (gvk_Group v) (gvk_Kind v) (gvk_Version v))) <$> elements (g_provided g)) ++
  (built ∘ (λ v, IGVKRequired (mkGVKReq (gvkr_Group v) (gvkr_Kind v) (gvkr_Version v))) <$> elements (g_required g)) ++
  g_packagesRequired g ++ g_others g.

Lemma PropertiesFromBundle_eq b :
  ∃ perm, (∀ g, perm g ≡ₚ assembled g) ∧
  PropertiesFromBundle b = match gather_properties b with
                           | (b', Ok g) => (b', Ok (sort_slice prop_lt (perm g)))
                           | (b', Err e) => (b', Err e)
                           | (b', Panic) => (b', Panic)
                           end.
Proof.
  exists (λ g, [g_package g] ++ g_graph g ++
    (built ∘ (λ v, IGVK (mkGVK (gvk_Group v) (gvk_Kind v) (gvk_Version v))) <$> range_set (g_provided g)) ++
    (built ∘ (λ v, IGVKRequired (mkGVKReq (gvkr_Group v) (gvkr_Kind v) (gvkr_Version v))) <$> range_set (g_required g)) ++
    g_packagesRequired g ++ g_others g). split.
  - intros g. unfold assembled. by rewrite !range_set_perm.
  - unfold PropertiesFromBundle, mbind, BM_bind at 1. destruct (gather_properties b) as [b' [g| |]]; [|done..].
    unfold BM_bind, lift, MustBuildGVK, MustBuildGVKRequired.
    rewrite (mapR_MustBuild (λ v, IGVK (mkGVK (gvk_Group v) (gvk_Kind v) (gvk_Version v)))) by done.
    rewrite (mapR_MustBuild (λ v, IGVKRequired (mkGVKReq (gvkr_Group v) (gvkr_Kind v) (gvkr_Version v)))) by done.
    done.
Qed.
End properties.

(** ** What is gathered *)
(** The GVK an input property provides. *)
Definition gvk_of (p : registry_Property) : option property_GVK :=
  if decide (rp_Type p = TypeGVK)
  then match unmarshal_GVK (rp_Value p) with Ok v => Some v | _ => None end else None.

Lemma provided_props_spec i s ps s' :
  provided_props i s ps = Ok s' →
  pv_Others s' = pv_Others s ++ ((λ p, mkProp (rp_Type p) (rp_Value p)) <$>
                   filter (λ p, rp_Type p ≠ TypeGVK ∧ rp_Type p ≠ TypePackage) ps) ∧
  pv_GVKs s' = pv_GVKs s ∪ list_to_set (omap gvk_of ps) ∧
  ((∀ q, pv_Package s = Some q → p_Type q = TypePackage) → ∀ q, pv_Package s' = Some q → p_Type q = TypePackage).
Proof.
  revert i s. induction ps as [|p ps IH]; intros i s; simpl.
  - intros [= <-]. rewrite app_nil_r, union_empty_r_L. done.
  - intros Hb. apply bind_Ok in Hb as (s1 & H1 & H2). apply IH in H2 as (Ho & Hg & Hp).
    unfold provided_prop in H1. rewrite filter_cons. unfold gvk_of at 1.
    destruct (decide (rp_Type p = TypeGVK)) as [Et|Et]; [|destruct (decide (rp_Type p = TypePackage)) as [Ep|Ep]]; inv_ok; subst s1; simpl in *.
    + rewrite (decide_False (P := _ ∧ _)) by tauto. rewrite Ho, Hg. split; [done|]. split; [|done].
      match goal with H : unmarshal_GVK _ = Ok ?v |- _ => rewrite H; destruct v end. simpl. set_solver.
    + rewrite (decide_False (P := _ ∧ _)) by tauto. rewrite Ho, Hg. split; [done|]. split; [done|]. intros Hs. apply Hp.
      match goal with H : MustBuildPackage _ _ _ = Ok _ |- _ => unfold MustBuildPackage in H; rewrite MustBuild_built in H by done; injection H as <- end.
      intros q [= <-]. by apply built_type.
    + rewrite decide_True by tauto. rewrite Ho, Hg. rewrite <- app_assoc. split; [done|]. split; done.
Qed.

Lemma required_props_spec i s ps s' :
  required_props i s ps = Ok s' →
  Forall (λ p, p_Type p = TypePackageRequired) (rq_Packages s) → Forall (λ p, p_Type p = TypePackageRequired) (rq_Packages s').
Proof.
  revert i s. induction ps as [|p ps IH]; intros i s; simpl; [by intros [= <-]|].
  intros Hb Hs. apply bind_Ok in Hb as (s1 & H1 & H2). apply (IH _ _ H2).
  unfold required_prop in H1. repeat case_decide; inv_ok; subst s1; simpl; try done.
  apply Forall_app. split; [done|]. constructor; [|done].
  match goal with H : MustBuildPackageRequired _ _ _ = Ok _ |- _ => unfold MustBuildPackageRequired in H; rewrite MustBuild_built in H by done; injection H as <- end.
  by apply built_type.
Qed.

(** ** What methods leave alone

    No method changes the bundle's own fields: only the cached ones move. *)
Definition same_input (b b' : registry_Bundle) : Prop :=
  rb_Channels b' = rb_Channels b ∧ rb_Properties b' = rb_Properties b ∧ rb_Dependencies b' = rb_Dependencies b ∧
  rb_Package b' = rb_Package b ∧ rb_BundleImage b' = rb_BundleImage b ∧ rb_Objects b' = rb_Objects b ∧
  rb_Name b' = rb_Name b ∧ rb_Annotations b' = rb_Annotations b.
#[export] Instance same_input_preorder : PreOrder same_input.
Proof. split; [by intros b|]. unfold same_input. intros b1 b2 b3; naive_solver congruence. Qed.
Definition frame {A} (m : BM A) : Prop := ∀ b, same_input b (m b).1.

Create HintDb frame discriminated.
Lemma frame_lift {A} (r : res A) : frame (lift r).
Proof. by intros b. Qed.
Lemma frame_get {A} (f : registry_Bundle → A) : frame (get f).
Proof. by intros b. Qed.
Lemma frame_wrap {A} f (m : BM A) : frame m → frame (wrap_bm f m).
Proof. intros Hm b. specialize (Hm b). unfold wrap_bm. by destruct (m b). Qed.
Lemma frame_bind {A B} (m : BM A) (f : A → BM B) : frame m → (∀ a, frame (f a)) → frame (m ≫= f).
Proof.
  intros Hm Hf b. specialize (Hm b). unfold mbind, BM_bind. destruct (m b) as [b1 [a|e|]]; try exact Hm.
  etrans; [exact Hm|apply Hf].
Qed.
Lemma frame_cache : frame cache.
Proof.
  assert (∀ objs b0, same_input b0 (cache_crds b0 objs).1) as Hc.
  { induction objs as [|o objs IH]; intros b0; simpl; [done|].
    destruct (cache_crd_spec b0 o) as [[_ E]|[_ [e E]]]; rewrite E; [|done]. etrans; [|apply IH]. done. }
  intros b. unfold cache. repeat case_match; try done;
    match goal with H : cache_crds ?b0 ?l = _ |- _ => pose proof (Hc l b0) as Hs; rewrite H in Hs; exact Hs end.
Qed.
Lemma frame_Bundle_Version : frame Bundle_Version.
Proof.
  intros b. unfold Bundle_Version. pose proof (frame_cache b) as Hc. case_decide; [done|].
  destruct (cache b) as [b' [?| |]]; repeat case_match; done.
Qed.
#[export] Hint Resolve frame_lift frame_get frame_wrap frame_bind frame_cache frame_Bundle_Version : frame.
Lemma frame_csv : frame Bundle_ClusterServiceVersion.
Proof. unfold Bundle_ClusterServiceVersion. auto with frame. Qed.
#[export] Hint Resolve frame_csv : frame.
Lemma frame_the_csv : frame the_csv.
Proof. unfold the_csv. auto with frame. Qed.
#[export] Hint Resolve frame_the_csv : frame.
Lemma frame_ProvidedAPIs : frame ProvidedAPIs.
Proof. unfold ProvidedAPIs, CustomResourceDefinitions. auto 20 with frame. Qed.
Lemma frame_RequiredAPIs : frame RequiredAPIs.
Proof. unfold RequiredAPIs. auto 20 with frame. Qed.
#[export] Hint Resolve frame_ProvidedAPIs frame_RequiredAPIs : frame.
Lemma frame_Ok {A} (m : BM A) b b' x : frame m → m b = (b', Ok x) → same_input b b'.
Proof. intros Hf E. specialize (Hf b). by rewrite E in Hf. Qed.

(** Distinct methods of the same bundle see the same fields. *)
Ltac frames :=
  repeat match goal with
  | H : ?m ?b0 = (?b1, Ok _) |- _ =>
      lazymatch type of m with BM _ => idtac end;
      let F := fresh "F" in
      assert (same_input b0 b1) as F by (eapply frame_Ok; [|exact H]; auto 12 with frame);
      revert H F
  end; intros.

(** The properties of a bundle that its CSV and its channels describe. *)
Definition graph_ifaces (csv : ClusterServiceVersion) (replaces : string) (skips channels : list string) : list iface :=
  ((λ ch, IChannel (mkChProp ch replaces)) <$> channels) ++ (ISkips <$> skips) ++
  (if decide (GetSkipRange csv = "") then [] else [ISkipRange (GetSkipRange csv)]).
(** The input properties that are copied as they are. *)
Definition other_props (b : registry_Bundle) : list property_Property :=
  (λ p, mkProp (rp_Type p) (rp_Value p)) <$> filter (λ p, rp_Type p ≠ TypeGVK ∧ rp_Type p ≠ TypePackage) (rb_Properties b).

Lemma gather_spec b b' g :
  gather_properties b = (b', Ok g) →
  p_Type (g_package g) = TypePackage ∧
  (∃ csv skips replaces, GetSkips csv = Ok skips ∧ GetReplaces csv = Ok replaces ∧
     (Bundle_ClusterServiceVersion b).2 = Ok (Some csv) ∧
     g_graph g = built <$> graph_ifaces csv replaces skips (rb_Channels b)) ∧
  list_to_set (omap gvk_of (rb_Properties b)) ⊆ g_provided g ∧
  Forall (λ p, p_Type p = TypePackageRequired) (g_packagesRequired g) ∧
  g_others g = other_props b.
Proof.
  unfold gather_properties. intros Hg. inv_bm. subst. frames. inv_ok. subst. simpl.
  unfold MustBuildChannel, MustBuildSkips, MustBuildSkipRange, MustBuildPackage in *.
  repeat match goal with
  | H : mapR (λ x, MustBuild init_scheme (@?f x)) _ = Ok _ |- _ => rewrite (mapR_MustBuild f) in H by done; injection H as <-
  | H : provided_props _ _ _ = Ok _ |- _ => apply provided_props_spec in H as (Ho & Hgvk & Hpk)
  | H : required_props _ _ _ = Ok _ |- _ => apply required_props_spec in H; [|constructor]
  end.
  match goal with F : same_input b ?x |- _ => destruct F as (Hch & Hpr & _) end. rewrite Hch, Hpr in *.
  match goal with H : Bundle_ClusterServiceVersion _ = _ |- _ => rename H into Hcsv end.
  split_and!; [| |by rewrite Hgvk; set_solver|done|done].
  - destruct (pv_Package x18) as [q|]; inv_ok; subst; [by eapply Hpk|].
    rewrite MustBuild_built in * by done. inv_ok. subst. by apply built_type.
  - exists x2, x4, x6. rewrite Hcsv. split_and!; [done..|]. unfold graph_ifaces.
    rewrite !fmap_app, <- !list_fmap_compose. f_equal. f_equal.
    case_decide; inv_ok; subst; [done|]. rewrite MustBuild_built in * by done. inv_ok. by subst.
Qed.

(** ** Properties *)
Lemma cache_fresh b : rb_cacheStale b = false → cache b = (b, Ok tt).
Proof. intros Hs. unfold cache. by rewrite Hs. Qed.

(** Filling the stale cache of a bundle whose CRD lists are still empty
    (every bundle [NewBundle] makes) succeeds exactly when the first CSV object,
    if there is one, converts and every v1 and v1beta1 CRD object decodes.  Then
    the cached CSV and CRD lists are those of the objects, in order, and filling
    the cache again changes nothing; on failure the cache stays stale. *)
Theorem cache_new_bundle b :
  rb_cacheStale b = true → rb_v1crds b = [] → rb_v1beta1crds b = [] →
  ((cache b).2 = Ok tt ↔ (∃ c, csv_outcome b = inl c) ∧ Forall decodes (rb_Objects b)) ∧
  match cache b with
  | (b', Ok _) =>
      inl (rb_csv b') = csv_outcome b ∧ rb_v1crds b' = omap v1_crd (rb_Objects b) ∧
      rb_v1beta1crds b' = omap v1beta1_crd (rb_Objects b) ∧ cache b' = (b', Ok tt)
  | (b', Err _) => rb_cacheStale b' = true
  | (_, Panic) => False
  end.
Proof.
  intros Hs Hv1 Hv1b. destruct (cache_spec b Hs) as [(c & Hc & Hd & E)|(Hbad & b' & e & E & Hs')]; rewrite E; simpl.
  - rewrite Hv1, Hv1b. split; [split; [eauto|done]|]. split_and!; [done..|]. by apply cache_fresh.
  - split; [|done]. split; [done|]. intros [[c Hc] Hd]. destruct Hbad as [[e' He]|?]; [congruence|done].
Qed.

(** Adding an object to a bundle whose cache was filled makes the cache
    stale, and filling it again appends the CRDs of every object to the lists
    already there: each earlier CRD is then listed twice. *)
Theorem cache_after_Add b o b1 b2 :
  rb_cacheStale b = true → rb_v1crds b = [] →
  cache b = (b1, Ok tt) → cache (Add b1 o) = (b2, Ok tt) →
  rb_v1crds b2 = omap v1_crd (rb_Objects b) ++ omap v1_crd (rb_Objects b) ++ option_list (v1_crd o).
Proof.
  intros Hs Hv E1 E2. destruct (cache_spec b Hs) as [(c & _ & _ & E)|(_ & b' & e & E & _)]; rewrite E1 in E; [|done].
  injection E as ->.
  match type of E2 with cache ?x = _ => destruct (cache_spec x eq_refl) as [(c2 & _ & _ & E)|(_ & b' & e & E & _)] end;
    rewrite E2 in E; [|done]. injection E as ->. simpl. rewrite Hv, omap_app. simpl. by destruct (v1_crd o).
Qed.

Definition ex_crd (kind : string) : k8s_object :=
  mkObj "CustomResourceDefinition" "v1" (kind +:+ "s.example.com") (inr (ErrNew "not a CSV"))
    (inl (mkCRD "example.com" ["v1"] "" kind (kind +:+ "s") (kind +:+ "s.example.com"))) (inr (ErrNew "not v1beta1")) (inl ("{" +:+ kind +:+ "}")).
Definition ex_csv : ClusterServiceVersion := mkCSV "foo.v0.1.0" ∅ (Some "{}").
Definition ex_csv_object : k8s_object :=
  mkObj "ClusterServiceVersion" "v1alpha1" "foo.v0.1.0" (inl ex_csv) (inr (ErrNew "not a CRD")) (inr (ErrNew "not a CRD")) (inl "{csv}").
Definition ex_annotations : registry_Annotations := mkAnnotations "foo" "stable,beta" "".
Definition ex_bundle : registry_Bundle :=
  mkRBundle "foo.v0.1.0" [ex_csv_object; ex_crd "Bar"] "foo" ["stable"; "beta"] "" "" None [] [] [] [] (Some ex_annotations) true.
Example NewBundle_ex : NewBundle "foo.v0.1.0" (Some ex_annotations) [ex_csv_object; ex_crd "Bar"] = Ok ex_bundle.
Proof. reflexivity. Qed.

Lemma cache_new_bundle_witness : (cache ex_bundle).2 = Ok tt.
Proof.
  apply (cache_new_bundle ex_bundle); [reflexivity..|]. split; [by exists (Some ex_csv)|].
  repeat constructor; intros; eauto; discriminate.
Defined.
Lemma cache_after_Add_witness :
  rb_v1crds (cache (Add (cache ex_bundle).1 (ex_crd "Baz"))).1 =
    (λ k, mkCRD "example.com" ["v1"] "" k (k +:+ "s") (k +:+ "s.example.com")) <$> ["Bar"; "Bar"; "Baz"].
Proof. refine (cache_after_Add ex_bundle (ex_crd "Baz") (cache ex_bundle).1 _ _ _ _ _); reflexivity. Defined.

Section sorted_properties.
Context `{GoRuntime}.


(** When the properties of a bundle cannot be assembled,
    [registryBundleToModelBundle] returns a nil bundle with its error, and
    [ConvertRegistryBundleToModelBundles] sets a field of the nil bundle before
    it looks at the error: it panics instead of returning the error. *)
Theorem ConvertRegistryBundleToModelBundles_panics b csv an desc icons b1 e :
  rb_csv b = Some csv → rb_Annotations b = Some an → GetDescription csv = Ok desc → GetIcons csv = Ok icons →
  registryBundleToModelBundle b = (b1, Err e) →
  ConvertRegistryBundleToModelBundles b = (b1, Panic).
Proof.
  intros Hc Ha Hd Hi Hr. unfold ConvertRegistryBundleToModelBundles, mbind, BM_bind, get, lift.
  rewrite Hc. simpl. rewrite Hd. simpl. rewrite Hi. simpl. rewrite Ha. simpl. by rewrite Hr.
Qed.
End sorted_properties.

(** The list of properties of a bundle does not depend on the order in
    which Go visits its maps nor on how [sort.Slice] orders equal elements: two
    runs agree on the outcome, and their lists agree element by element on type
    and value. *)
Theorem PropertiesFromBundle_deterministic (R1 R2 : GoRuntime) b :
  (PropertiesFromBundle (H := R1) b).1 = (PropertiesFromBundle (H := R2) b).1 ∧
  match (PropertiesFromBundle (H := R1) b).2, (PropertiesFromBundle (H := R2) b).2 with
  | Ok l1, Ok l2 => dedup_key <$> l1 = dedup_key <$> l2
  | Err e1, Err e2 => e1 = e2
  | Panic, Panic => True
  | _, _ => False
  end.
Proof.
  destruct (@PropertiesFromBundle_eq R1 b) as (p1 & H1 & ->), (@PropertiesFromBundle_eq R2 b) as (p2 & H2 & ->).
  destruct (gather_properties b) as [b' [g| |]]; simpl; [|done..]. split; [done|].
  apply sorted_props_unique; [apply sort_slice_sorted, prop_lt_strict_weak..|].
  by rewrite !sort_slice_perm, H1, H2.
Qed.


(** A bundle with a cached CSV and a GVK property that does not decode. *)
Definition ex_bad_bundle : registry_Bundle :=
  mkRBundle "foo.v0.1.0" [] "foo" ["stable"] "" "" (Some ex_csv) [] [] [] [mkRProp TypeGVK (Some "{")] (Some ex_annotations) false.
Lemma ConvertRegistryBundleToModelBundles_panics_witness :
  (ConvertRegistryBundleToModelBundles (H := go_default) ex_bad_bundle).2 = Panic.
Proof.
  destruct (registryBundleToModelBundle (H := go_default) ex_bad_bundle) as [b1 [?|e|]] eqn:E;
    [exfalso; vm_compute in E; discriminate| |exfalso; vm_compute in E; discriminate].
  rewrite (@ConvertRegistryBundleToModelBundles_panics go_default ex_bad_bundle ex_csv ex_annotations "" [] b1 e);
    try reflexivity. exact E.
Defined.

(** ** Serialization *)
(** The bytes of an object that encodes. *)
Definition enc (o : k8s_object) : string := match o_encoded o with inl s => s | inr _ => "" end.
Definition encodes (o : k8s_object) : Prop := ∃ s, o_encoded o = inl s.

Lemma serialize_objects s objs :
  (∃ s', foldR serialize_object s objs = Ok s') ↔
  Forall encodes objs ∧ (ser_csvCount s + length (filter is_csv objs) ≤ 1 ∨ filter is_csv objs = []).
Proof.
  revert s. induction objs as [|o objs IH]; intros s; simpl.
  - split; [eauto|]. intros _. eauto.
  - rewrite filter_cons, Forall_cons. unfold encodes at 1.
    destruct (serialize_object s o) as [s1|e|] eqn:E1; unfold serialize_object in E1;
      (destruct (o_encoded o) as [bytes|e'] eqn:Eo; [|first [discriminate E1|split; [by intros [? ?]|intros [[[? ?] _] _]; congruence]]]);
      destruct (decide (is_csv o)) as [Hc|Hc]; simpl in *; try case_decide; try discriminate E1; simpl.
    + injection E1 as <-. rewrite IH. simpl. split; intros [? Hl]; (split; [naive_solver|]).
      * destruct Hl as [?|Hn]; [left; lia|left; rewrite Hn; simpl; lia].
      * destruct Hl as [?|?]; [|done]. destruct (filter is_csv objs); [by right|simpl in *; left; lia].
    + injection E1 as <-. rewrite IH. simpl. naive_solver.
    + split; [by intros [? ?]|]. intros [_ [?|?]]; [lia|done].
Qed.

Lemma serialize_bytes s objs s' :
  foldR serialize_object s objs = Ok s' →
  ser_bundleBytes s' = foldl (λ acc o, acc +:+ enc o) (ser_bundleBytes s) objs ∧
  ser_csvName s' = default (ser_csvName s) (o_Name <$> head (filter is_csv objs)) ∧
  ser_csvBytes s' = default (ser_csvBytes s) (enc <$> head (filter is_csv objs)).
Proof.
  revert s. induction objs as [|o objs IH]; intros s; simpl; [by intros [= <-]|].
  intros Hb. apply bind_Ok in Hb as (s1 & H1 & H2).
  pose proof (proj1 (serialize_objects s1 objs) (ex_intro _ _ H2)) as [_ Hn].
  apply IH in H2 as (-> & -> & ->). unfold serialize_object in H1. rewrite filter_cons.
  destruct (o_encoded o) as [bytes|e] eqn:Eo; [|done].
  assert (enc o = bytes) as <- by (unfold enc; by rewrite Eo).
  repeat case_decide; inv_ok; subst s1; simpl in *; try done.
  split; [done|]. assert (filter is_csv objs = []) as ->; [|done].
  destruct Hn as [Hn|?]; [|done]. apply length_zero_iff_nil. lia.
Qed.

(** Serializing a bundle succeeds exactly when every object encodes and at
    most one of them is a CSV.  Then the bundle's bytes are those of its objects
    in order, the CSV's name and bytes are those of the CSV, or empty when there
    is none, and the image and the annotations are the bundle's. *)
Theorem Serialize_spec b :
  ((∃ out, Serialize b = Ok out) ↔ Forall encodes (rb_Objects b) ∧ length (filter is_csv (rb_Objects b)) ≤ 1) ∧
  ∀ out, Serialize b = Ok out →
    out = (default "" (o_Name <$> head (filter is_csv (rb_Objects b))), rb_BundleImage b,
           default "" (enc <$> head (filter is_csv (rb_Objects b))),
           foldl (λ acc o, acc +:+ enc o) "" (rb_Objects b), Annotations_Marshal <$> rb_Annotations b).
Proof.
  unfold Serialize. pose proof (serialize_objects (mkSer "" "" "" 0) (rb_Objects b)) as Hiff. simpl in Hiff. split.
  - assert ((∃ out, (s ← foldR serialize_object (mkSer "" "" "" 0) (rb_Objects b);
        Ok (ser_csvName s, rb_BundleImage b, ser_csvBytes s, ser_bundleBytes s, Annotations_Marshal <$> rb_Annotations b)) = Ok out) ↔
      ∃ s', foldR serialize_object (mkSer "" "" "" 0) (rb_Objects b) = Ok s') as ->
      by (destruct (foldR _ _ _); simpl; naive_solver).
    rewrite Hiff. split; intros [? Hl]; (split; [done|]); [|by left].
    destruct Hl as [?|Hn]; [lia|rewrite Hn; simpl; lia].
  - intros out Hb. apply bind_Ok in Hb as (s & Hs & Ho). injection Ho as <-.
    apply serialize_bytes in Hs as (-> & -> & ->). done.
Qed.
