(* ===== verification/Api.v ===== *)
(** * The bundles of the registry API

    [pkg/api/model_to_api.go] and [pkg/api/api_to_model.go]: the messages the
    registry serves, and the conversions between them and the bundles of the
    model.  The messages are protobuf structs; the fields of interest are their
    exported ones, and a list of pointers to messages is a list of messages. *)
From S2P Require Import Prelude Json JsonCompact Property JsonTotal Model ModelOps Declcfg DeclcfgConv DeclcfgRoundtrip DeclcfgWrite DeclcfgLoad RegistryTypes RegistryBundle RegistryBundleSpec.
From stdpp Require Import options.

Record GroupVersionKind := mkAGVK { agvk_Group : string; agvk_Version : string; agvk_Kind : string; agvk_Plural : string }.
Record api_Dependency := mkADep { adep_Type : string; adep_Value : string }.
Record api_Property := mkAProp { aprop_Type : string; aprop_Value : string }.
Record api_Bundle := mkABundle {
  ab_CsvName : string;
  ab_PackageName : string;
  ab_ChannelName : string;
  ab_CsvJson : string;
  ab_Object : list string;
  ab_BundlePath : string;
  ab_ProvidedApis : list GroupVersionKind;
  ab_RequiredApis : list GroupVersionKind;
  ab_Version : string;
  ab_SkipRange : string;
  ab_Dependencies : list api_Dependency;
  ab_Properties : list api_Property;
  ab_Replaces : string;
  ab_Skips : list string
}.
#[export] Instance GroupVersionKind_eq_dec : EqDecision GroupVersionKind.
Proof. solve_decision. Defined.
#[export] Instance api_Dependency_eq_dec : EqDecision api_Dependency.
Proof. solve_decision. Defined.
#[export] Instance api_Property_eq_dec : EqDecision api_Property.
Proof. solve_decision. Defined.
#[export] Instance api_Bundle_eq_dec : EqDecision api_Bundle.
Proof. solve_decision. Defined.

(** ** model_to_api.go *)
Definition api_parseProperties (ps : list property_Property) : res property_Properties :=
  props ← property_Parse ps;
  if decide (length (ps_Packages props) ≠ 1) then
    Err (Errorf "expected exactly 1 property of type %q, found %d"
           [AStr TypePackage; AInt (Z.of_nat (length (ps_Packages props)))])
  else if decide (1 < length (ps_SkipRanges props)) then
    Err (Errorf "multiple properties of type %q not allowed" [AStr TypeSkipRange])
  else Ok props.

Definition gvksProvidedtoAPIGVKs (l : list property_GVK) : list GroupVersionKind :=
  (λ v, mkAGVK (gvk_Group v) (gvk_Version v) (gvk_Kind v) "") <$> l.
Definition gvksRequirestoAPIGVKs (l : list property_GVKRequired) : list GroupVersionKind :=
  (λ v, mkAGVK (gvkr_Group v) (gvkr_Version v) (gvkr_Kind v) "") <$> l.
Definition convertModelPropertiesToAPIProperties (ps : list property_Property) : list api_Property :=
  (λ p, mkAProp (p_Type p) (raw_bytes (p_Value p))) <$> filter (λ p, p_Type p ≠ TypeBundleObject) ps.
Definition api_dependency (acc : list api_Dependency) (p : property_Property) : res (list api_Dependency) :=
  if decide (p_Type p = TypeGVKRequired) then Ok (acc ++ [mkADep TypeGVK (raw_bytes (p_Value p))])
  else if decide (p_Type p = TypePackageRequired) then
    v ← unmarshal_PackageRequired (p_Value p);
    pkg ← MustBuildPackage init_scheme (pr_PackageName v) (pr_VersionRange v);
    Ok (acc ++ [mkADep (p_Type pkg) (raw_bytes (p_Value pkg))])
  else Ok acc.
Definition convertModelPropertiesToAPIDependencies (ps : list property_Property) : res (list api_Dependency) :=
  foldR api_dependency [] ps.

Definition ConvertModelBundleToAPIBundle (h : heap) (b : model_Bundle) : res api_Bundle :=
  props ← wrap_err (λ e, Errorf "parse properties: %v" [AErr e]) (api_parseProperties (Bundle_Properties b));
  let skipRange := match ps_SkipRanges props with s :: _ => s | [] => "" end in
  apiDeps ← wrap_err (λ e, Errorf "convert model properties to api dependencies: %v" [AErr e])
              (convertModelPropertiesToAPIDependencies (Bundle_Properties b));
  pl ← deref (Bundle_Package b); pkg ← deref (h_packages h !! pl);
  cl ← deref (Bundle_Channel b); ch ← deref (h_channels h !! cl);
  pk ← deref (head (ps_Packages props));
  Ok (mkABundle (Bundle_Name b) (Package_Name pkg) (Channel_Name ch) (Bundle_CsvJSON b) (Bundle_Objects b)
        (Bundle_Image b) (gvksProvidedtoAPIGVKs (ps_GVKs props)) (gvksRequirestoAPIGVKs (ps_GVKsRequired props))
        (pp_Version pk) skipRange apiDeps (convertModelPropertiesToAPIProperties (Bundle_Properties b))
        (Bundle_Replaces b) (Bundle_Skips b)).

(** ** api_to_model.go *)
Definition unmarshal_api_GVK (s : string) : res GroupVersionKind :=
  match unmarshal_struct ["group"; "version"; "kind"; "plural"] (Some s) with
  | Some [g; v; k; p] => Ok (mkAGVK g v k p) | _ => Err json_error end.

(** [out], [foundPackageProperty] and the two maps, while the bundle's properties
    and dependencies are visited. *)
Record api_props_state := mkAPS {
  aps_out : list property_Property;
  aps_found : bool;
  aps_provided : gset property_GVK;
  aps_required : gset property_GVKRequired
}.
Definition api_property_step (i : Z) (s : api_props_state) (p : api_Property) : res api_props_state :=
  let '(mkAPS out found prov req) := s in
  if decide (aprop_Type p = TypeGVK) then
    v ← wrap_err (ParseError i (aprop_Type p)) (unmarshal_api_GVK (aprop_Value p));
    Ok (mkAPS out found ({[mkGVK (agvk_Group v) (agvk_Kind v) (agvk_Version v)]} ∪ prov) req)
  else if decide (aprop_Type p = TypePackage) then
    Ok (mkAPS (out ++ [mkProp TypePackage (Some (aprop_Value p))]) true prov req)
  else Ok (mkAPS (out ++ [mkProp (aprop_Type p) (Some (aprop_Value p))]) found prov req).
Definition api_dependency_step (i : Z) (s : api_props_state) (p : api_Dependency) : res api_props_state :=
  let '(mkAPS out found prov req) := s in
  if decide (adep_Type p = TypeGVK) then
    v ← wrap_err (ParseError i (adep_Type p)) (unmarshal_api_GVK (adep_Value p));
    Ok (mkAPS out found prov ({[mkGVKReq (agvk_Group v) (agvk_Kind v) (agvk_Version v)]} ∪ req))
  else if decide (adep_Type p = TypePackage) then
    v ← wrap_err (ParseError i (adep_Type p)) (unmarshal_Package (Some (adep_Value p)));
    q ← MustBuildPackageRequired init_scheme (pp_PackageName v) (pp_Version v);
    Ok (mkAPS (out ++ [q]) found prov req)
  else Ok s.
Fixpoint indexed_loop {S A} (f : Z → S → A → res S) (i : Z) (s : S) (l : list A) : res S :=
  match l with
  | [] => Ok s
  | x :: l' => s' ← f i s x; indexed_loop f (i + 1) s' l'
  end.

Definition api_getRelatedImages (csvJSON : string) : res (list model_RelatedImage) :=
  if decide (csvJSON = "") then Ok []
  else
    match Unmarshal csvJSON ≫= decode_with
            [("spec", λ ris _ v, decode_with
               [("relatedImages", λ ris _ v, decode_slice decode_relatedImage (mkRelated "" "") ris v)] ris v)] [] with
    | None => Err (Errorf "unmarshal csv: %v" [AErr json_error])
    | Some ris => Ok ((λ r, mkRI (rel_Name r) (rel_Ref r)) <$> (ris : list relatedImage))
    end.

Section api_to_model.
Context `{GoRuntime}.

Definition convertAPIBundleToModelProperties (b : api_Bundle) : res (list property_Property) :=
  skips ← mapR (MustBuildSkips init_scheme) (ab_Skips b);
  skipRange ← (if decide (ab_SkipRange b = "") then Ok []
               else p ← MustBuildSkipRange init_scheme (ab_SkipRange b); Ok [p]);
  ch ← MustBuildChannel init_scheme (ab_ChannelName b) (ab_Replaces b);
  s ← indexed_loop api_property_step 0 (mkAPS (skips ++ skipRange ++ [ch]) false ∅ ∅) (ab_Properties b);
  s ← indexed_loop api_dependency_step 0 s (ab_Dependencies b);
  pkg ← (if aps_found s then Ok []
         else p ← MustBuildPackage init_scheme (ab_PackageName b) (ab_Version b); Ok [p]);
  let provided : gset property_GVK := aps_provided s ∪
    list_to_set ((λ v, mkGVK (agvk_Group v) (agvk_Kind v) (agvk_Version v)) <$> ab_ProvidedApis b) in
  let required : gset property_GVKRequired := aps_required s ∪
    list_to_set ((λ v, mkGVKReq (agvk_Group v) (agvk_Kind v) (agvk_Version v)) <$> ab_RequiredApis b) in
  gvks ← mapR (λ v, MustBuildGVK init_scheme (gvk_Group v) (gvk_Version v) (gvk_Kind v)) (range_set provided);
  reqs ← mapR (λ v, MustBuildGVKRequired init_scheme (gvkr_Group v) (gvkr_Version v) (gvkr_Kind v)) (range_set required);
  objs ← mapR (MustBuildBundleObjectData init_scheme) (ab_Object b);
  Ok (sort_slice prop_lt (aps_out s ++ pkg ++ gvks ++ reqs ++ objs)).

Definition ConvertAPIBundleToModelBundle (b : api_Bundle) : res model_Bundle :=
  bundleProps ← wrap_err (λ e, Errorf "convert properties: %v" [AErr e]) (convertAPIBundleToModelProperties b);
  relatedImages ← wrap_err (λ e, Errorf "get related iamges: %v" [AErr e]) (api_getRelatedImages (ab_CsvJson b));
  Ok (mkBundle None None (ab_CsvName b) (ab_BundlePath b) (ab_Replaces b) (ab_Skips b) bundleProps relatedImages
        (ab_Object b) (ab_CsvJson b)).
End api_to_model.

(** ** What Parse collects, field by field *)
Definition parsed_of {A} (typ : string) (dec : RawMessage → res A) (p : property_Property) : option A :=
  if decide (p_Type p = typ) then match dec (p_Value p) with Ok v => Some v | _ => None end else None.

Lemma Parse_one_fields out p out' :
  Parse_one out p = Ok out' →
  ps_Packages out' = ps_Packages out ++ option_list (parsed_of TypePackage unmarshal_Package p) ∧
  ps_GVKs out' = ps_GVKs out ++ option_list (parsed_of TypeGVK unmarshal_GVK p) ∧
  ps_GVKsRequired out' = ps_GVKsRequired out ++ option_list (parsed_of TypeGVKRequired unmarshal_GVKRequired p) ∧
  ps_SkipRanges out' = ps_SkipRanges out ++ option_list (parsed_of TypeSkipRange unmarshal_string p) ∧
  (p_Type p = TypePackageRequired → is_Ok (unmarshal_PackageRequired (p_Value p))).
Proof.
  destruct out as [pk pr ch gv gr sk sr bo ot]. unfold Parse_one, parsed_of.
  repeat match goal with
  | |- context [if decide (p_Type p = ?t) then (?m ≫= _) else _] =>
      destruct (decide (p_Type p = t)) as [E|?];
      [rewrite !E; destruct m as [v|?|] eqn:Ev; simpl; try discriminate;
       intros [= <-]; simpl; rewrite ?app_nil_r; split_and!; try done; unfold is_Ok; eauto|]
  end.
  destruct (Unmarshal _); [|done]. intros [= <-]. simpl.
  repeat (rewrite decide_False by done). simpl. rewrite !app_nil_r. done.
Qed.
Lemma Parse_fields ps props :
  property_Parse ps = Ok props →
  ps_Packages props = omap (parsed_of TypePackage unmarshal_Package) ps ∧
  ps_GVKs props = omap (parsed_of TypeGVK unmarshal_GVK) ps ∧
  ps_GVKsRequired props = omap (parsed_of TypeGVKRequired unmarshal_GVKRequired) ps ∧
  ps_SkipRanges props = omap (parsed_of TypeSkipRange unmarshal_string) ps ∧
  Forall (λ p, p_Type p = TypePackageRequired → is_Ok (unmarshal_PackageRequired (p_Value p))) ps.
Proof.
  unfold property_Parse.
  assert (∀ i out, Parse_loop i out ps = Ok props →
    ps_Packages props = ps_Packages out ++ omap (parsed_of TypePackage unmarshal_Package) ps ∧
    ps_GVKs props = ps_GVKs out ++ omap (parsed_of TypeGVK unmarshal_GVK) ps ∧
    ps_GVKsRequired props = ps_GVKsRequired out ++ omap (parsed_of TypeGVKRequired unmarshal_GVKRequired) ps ∧
    ps_SkipRanges props = ps_SkipRanges out ++ omap (parsed_of TypeSkipRange unmarshal_string) ps ∧
    Forall (λ p, p_Type p = TypePackageRequired → is_Ok (unmarshal_PackageRequired (p_Value p))) ps) as Hl.
  { induction ps as [|p ps IH]; intros i out; simpl; [intros [= ->]; by rewrite !app_nil_r|].
    intros Hb. inv_ok. match goal with H : Parse_one _ _ = Ok _ |- _ => apply Parse_one_fields in H as (E1 & E2 & E3 & E4 & E5) end.
    match goal with H : Parse_loop _ _ _ = Ok _ |- _ => apply IH in H as (F1 & F2 & F3 & F4 & F5) end.
    rewrite F1, F2, F3, F4, E1, E2, E3, E4, <- !app_assoc. split_and!; try (f_equal; by case_match). by constructor. }
  intros Hp. by apply Hl in Hp.
Qed.

(** ** Serving a bundle of the model *)
(** The dependency a property stands for. *)
Definition dependency_of (p : property_Property) : option api_Dependency :=
  if decide (p_Type p = TypeGVKRequired) then Some (mkADep TypeGVK (raw_bytes (p_Value p)))
  else if decide (p_Type p = TypePackageRequired) then
    match unmarshal_PackageRequired (p_Value p) with
    | Ok v => Some (mkADep TypePackage (raw_bytes (p_Value (built (IPackage (mkPkgProp (pr_PackageName v) (pr_VersionRange v)))))))
    | _ => None
    end
  else None.
Lemma api_dependencies_Ok ps :
  Forall (λ p, p_Type p = TypePackageRequired → is_Ok (unmarshal_PackageRequired (p_Value p))) ps →
  convertModelPropertiesToAPIDependencies ps = Ok (omap dependency_of ps).
Proof.
  unfold convertModelPropertiesToAPIDependencies. intros Hall.
  enough (∀ acc, foldR api_dependency acc ps = Ok (acc ++ omap dependency_of ps)) as E by apply (E []).
  induction Hall as [|p ps Hp _ IH]; intros acc; simpl; [by rewrite app_nil_r|].
  assert (api_dependency acc p = Ok (acc ++ option_list (dependency_of p))) as ->.
  { unfold api_dependency, dependency_of. case_decide; [done|]. case_decide as E; [|by rewrite app_nil_r].
    destruct (Hp E) as [v ->]. cbn [mbind res_bind]. unfold MustBuildPackage. rewrite MustBuild_built by done.
    set (q := IPackage _). assert (p_Type (built q) = TypePackage) as Ht by (by apply built_type).
    clearbody q. simpl. by rewrite Ht. }
  simpl. rewrite IH, <- app_assoc. by destruct (dependency_of p).
Qed.

Definition served (h : heap) (b : model_Bundle) (pkg : model_Package) (ch : model_Channel) (props : property_Properties)
    (pk : property_Package) : api_Bundle :=
  mkABundle (Bundle_Name b) (Package_Name pkg) (Channel_Name ch) (Bundle_CsvJSON b) (Bundle_Objects b)
    (Bundle_Image b) (gvksProvidedtoAPIGVKs (ps_GVKs props)) (gvksRequirestoAPIGVKs (ps_GVKsRequired props))
    (pp_Version pk) (default "" (head (ps_SkipRanges props))) (omap dependency_of (Bundle_Properties b))
    (convertModelPropertiesToAPIProperties (Bundle_Properties b)) (Bundle_Replaces b) (Bundle_Skips b).

Section serving.
Variables (h : heap) (b : model_Bundle) (pl cl : loc) (pkg : model_Package) (ch : model_Channel).
Hypotheses (Hpl : Bundle_Package b = Some pl) (Hpkg : h_packages h !! pl = Some pkg)
  (Hcl : Bundle_Channel b = Some cl) (Hch : h_channels h !! cl = Some ch).

Lemma Convert_Ok ab :
  ConvertModelBundleToAPIBundle h b = Ok ab ↔
  ∃ props pk, property_Parse (Bundle_Properties b) = Ok props ∧ ps_Packages props = [pk] ∧
    length (ps_SkipRanges props) ≤ 1 ∧ ab = served h b pkg ch props pk.
Proof using Type*.
  unfold ConvertModelBundleToAPIBundle, api_parseProperties.
  destruct (property_Parse (Bundle_Properties b)) as [props|e|] eqn:Ep; simpl; [|naive_solver..].
  case_decide as Hlen; simpl.
  { split; [done|]. intros (? & ? & [= <-] & E & _). by rewrite E in Hlen. }
  destruct (ps_Packages props) as [|pk [|]] eqn:Epk; simpl in Hlen; [lia| |lia].
  case_decide as Hs; simpl.
  { split; [done|]. intros (? & ? & [= <-] & _ & ? & _). lia. }
  rewrite api_dependencies_Ok by by apply Parse_fields in Ep as (_ & _ & _ & _ & ?). simpl.
  rewrite Hpl, Hcl. simpl. rewrite Hpkg, Hch. simpl. rewrite Epk. simpl. unfold served.
  destruct (ps_SkipRanges props) as [|sr [|]] eqn:Esr; simpl in *; try lia.
  all: split; [intros Hab; injection Hab as <-; exists props, pk; rewrite Esr; simpl; split_and!; first [done|lia]|].
  all: intros (? & ? & [= <-] & Epk' & _ & ->); rewrite Esr; simpl; rewrite Epk in Epk'; by injection Epk' as <-.
Qed.
Lemma Convert_no_panic : ConvertModelBundleToAPIBundle h b ≠ Panic.
Proof using Type*.
  unfold ConvertModelBundleToAPIBundle, api_parseProperties.
  pose proof (property_Parse_no_panic (Bundle_Properties b)) as Hn.
  destruct (property_Parse (Bundle_Properties b)) as [props|e|] eqn:Ep; simpl; [|done..].
  case_decide as Hlen; simpl; [done|]. case_decide; simpl; [done|].
  destruct (ps_Packages props) as [|pk [|]] eqn:Epk; simpl in Hlen; [lia| |lia].
  rewrite api_dependencies_Ok by by apply Parse_fields in Ep as (_ & _ & _ & _ & ?). simpl.
  rewrite Hpl, Hcl. simpl. rewrite Hpkg, Hch. done.
Qed.
End serving.

(** A bundle whose package and channel are allocated is served exactly when
    its properties parse, one of them is a package property, and at most one is a
    skip range; the conversion never panics, and the dependencies never fail to
    convert once the properties parsed.  The message then carries the bundle's
    names, image, edges and objects, the GVKs it provides and requires, and every
    property but the bundle objects. *)
Theorem ConvertModelBundleToAPIBundle_spec h b pl cl pkg ch :
  Bundle_Package b = Some pl → h_packages h !! pl = Some pkg → Bundle_Channel b = Some cl → h_channels h !! cl = Some ch →
  (∀ ab, ConvertModelBundleToAPIBundle h b = Ok ab ↔
     ∃ props pk, property_Parse (Bundle_Properties b) = Ok props ∧ ps_Packages props = [pk] ∧
       length (ps_SkipRanges props) ≤ 1 ∧ ab = served h b pkg ch props pk) ∧
  ConvertModelBundleToAPIBundle h b ≠ Panic.
Proof. intros Hpl Hpkg Hcl Hch. split; [intros ab; by eapply Convert_Ok|by eapply Convert_no_panic]. Qed.

Lemma ConvertModelBundleToAPIBundle_spec_witness :
  ∃ ab, ConvertModelBundleToAPIBundle ex_heap (Model.ex_bundle "p.v2" "p.v1") = Ok ab ∧ ab_PackageName ab = "p".
Proof.
  destruct (ConvertModelBundleToAPIBundle_spec ex_heap (Model.ex_bundle "p.v2" "p.v1") 1%positive 1%positive
    (mkPackage "p" "" None (Some 1%positive) (Some {["c" := 1%positive]}))
    (mkChannel (Some 1%positive) "c" (Some (list_to_map [("p.v1", 1%positive); ("p.v2", 2%positive)])))) as [Hiff _];
    [reflexivity..|].
  destruct (property_Parse (Bundle_Properties (Model.ex_bundle "p.v2" "p.v1"))) as [props| |] eqn:E;
    [|exfalso; vm_compute in E; discriminate..].
  eexists. split; [apply Hiff; exists props, (mkPkgProp "p" "1.0.0")|].
  - split; [done|]. vm_compute in E. injection E as <-. simpl. split_and!; [done|lia|done].
  - done.
Defined.

(** ** From the API and back *)
Lemma built_GVK_parsed v :
  iface_valid (IGVK v) → parsed_of TypeGVK unmarshal_GVK (built (IGVK v)) = Some v.
Proof.
  intros Hv. destruct (MustBuild_typed (IGVK v) eq_refl) as (d & He & _).
  pose proof (decode_encode _ d Hv He) as Hd. unfold parsed_of, built. rewrite He. simpl. by rewrite Hd.
Qed.

(** The GVKs an API bundle says it provides, in its properties or its APIs. *)
Definition api_gvk (p : api_Property) : option property_GVK :=
  if decide (aprop_Type p = TypeGVK) then
    match unmarshal_api_GVK (aprop_Value p) with
    | Ok v => Some (mkGVK (agvk_Group v) (agvk_Kind v) (agvk_Version v)) | _ => None end
  else None.
Definition provided_gvks (b : api_Bundle) : gset property_GVK :=
  list_to_set (omap api_gvk (ab_Properties b)) ∪
  list_to_set ((λ v, mkGVK (agvk_Group v) (agvk_Kind v) (agvk_Version v)) <$> ab_ProvidedApis b).

Lemma api_properties_loop i s l s' :
  indexed_loop api_property_step i s l = Ok s' →
  Forall (λ p, p_Type p ≠ TypeGVK) (aps_out s) →
  Forall (λ p, p_Type p ≠ TypeGVK) (aps_out s') ∧ aps_provided s' = aps_provided s ∪ list_to_set (omap api_gvk l).
Proof.
  revert i s. induction l as [|p l IH]; intros i s; simpl; [intros [= <-] ?; by rewrite union_empty_r_L|].
  intros Hb Hs. apply bind_Ok in Hb as (s1 & H1 & H2). destruct s as [out found prov req]. simpl in Hs.
  assert (Forall (λ p, p_Type p ≠ TypeGVK) (aps_out s1) ∧ aps_provided s1 = prov ∪ list_to_set (option_list (api_gvk p))) as [Ho Hp].
  { unfold api_property_step in H1. unfold api_gvk. repeat case_decide; inv_ok; subst s1; simpl.
    - match goal with H : unmarshal_api_GVK _ = Ok _ |- _ => rewrite H end. split; [done|set_solver].
    - split; [by apply Forall_app; repeat constructor|set_solver].
    - split; [apply Forall_app; split; [done|]; by constructor|set_solver]. }
  apply IH in H2 as [? ->]; [|done]. split; [done|]. rewrite Hp. destruct (api_gvk p); simpl; set_solver.
Qed.
Lemma api_dependencies_loop i s l s' :
  indexed_loop api_dependency_step i s l = Ok s' →
  Forall (λ p, p_Type p ≠ TypeGVK) (aps_out s) →
  Forall (λ p, p_Type p ≠ TypeGVK) (aps_out s') ∧ aps_provided s' = aps_provided s.
Proof.
  revert i s. induction l as [|p l IH]; intros i s; simpl; [by intros [= <-]|].
  intros Hb Hs. apply bind_Ok in Hb as (s1 & H1 & H2). destruct s as [out found prov req]. simpl in Hs.
  assert (Forall (λ p, p_Type p ≠ TypeGVK) (aps_out s1) ∧ aps_provided s1 = prov) as [Ho Hp].
  { unfold api_dependency_step in H1. repeat case_decide; inv_ok; subst s1; simpl; [done| |done].
    unfold MustBuildPackageRequired in *. rewrite MustBuild_built in * by done. inv_ok. subst.
    split; [|done]. apply Forall_app. split; [done|]. constructor; [|done]. by rewrite built_type. }
  apply IH in H2 as [? ->]; done.
Qed.

Lemma Forall_built {A} (f : A → iface) (l : list A) t :
  (∀ x, typed (f x) = true ∧ type_of (f x) ≠ t) → Forall (λ p, p_Type p ≠ t) (built ∘ f <$> l).
Proof. intros Hf. apply Forall_fmap, Forall_true. intros x. simpl. rewrite built_type by apply Hf. apply Hf. Qed.

Section api_roundtrip.
Context `{GoRuntime}.

(** The GVK properties of the converted bundle are those of [provided_gvks]. *)
Lemma converted_properties b l :
  convertAPIBundleToModelProperties b = Ok l →
  ∃ rest, l ≡ₚ rest ++ (built ∘ IGVK <$> elements (provided_gvks b)) ∧ Forall (λ p, p_Type p ≠ TypeGVK) rest.
Proof.
  unfold convertAPIBundleToModelProperties. intros Hb. inv_ok. subst.
  unfold MustBuildSkips, MustBuildSkipRange, MustBuildChannel, MustBuildPackage, MustBuildGVK, MustBuildGVKRequired,
    MustBuildBundleObjectData in *.
  repeat match goal with
  | H : mapR (λ x, MustBuild init_scheme (@?f x)) _ = Ok _ |- _ => rewrite (mapR_MustBuild f) in H by done; injection H as <-
  | H : MustBuild init_scheme _ = Ok _ |- _ => rewrite MustBuild_built in H by done; injection H as <-
  end.
  match goal with H : (if decide (ab_SkipRange b = "") then _ else _) = Ok ?x |- _ =>
    assert (Forall (λ p, p_Type p ≠ TypeGVK) x) as Hsr
      by (case_decide; inv_ok; subst; [done|]; rewrite MustBuild_built in * by done; inv_ok; subst;
          constructor; [by rewrite built_type|done]) end.
  match goal with H : (if aps_found _ then _ else _) = Ok ?x |- _ =>
    assert (Forall (λ p, p_Type p ≠ TypeGVK) x) as Hpk
      by (case_match; inv_ok; subst; [done|]; rewrite MustBuild_built in * by done; inv_ok; subst;
          constructor; [by rewrite built_type|done]) end.
  match goal with H : indexed_loop api_property_step _ _ _ = Ok _ |- _ => apply api_properties_loop in H as [Ho Hp] end.
  2:{ simpl. apply Forall_app. split; [by apply Forall_built|]. apply Forall_app. split; [done|]. constructor; [by rewrite built_type|done]. }
  match goal with H : indexed_loop api_dependency_step _ _ _ = Ok _ |- _ => apply api_dependencies_loop in H as [Ho2 Hp2] end; [|done].
  simpl in Hp. rewrite union_empty_l_L in Hp.
  eexists. split.
  - rewrite sort_slice_perm, Hp2, Hp, range_set_perm. fold (provided_gvks b).
    assert (∀ (a c d e : list property_Property) (f : property_GVK → property_Property) g, (∀ x, f x = g x) → ∀ k,
      a ++ c ++ (f <$> k) ++ d ++ e ≡ₚ (a ++ c ++ d ++ e) ++ (g <$> k)) as E.
    { intros a c d e f g Hfg k. rewrite (list_fmap_ext f g k) by (intros; apply Hfg).
      rewrite <- !app_assoc. do 2 apply Permutation_app_head. rewrite (app_assoc d e). apply Permutation_app_comm. }
    apply E. intros []. done.
  - rewrite !Forall_app. split_and!; [done|done|by apply Forall_built|by apply Forall_built].
Qed.

(** C34. A bundle received through the API and served again keeps its names,
    image, CSV, objects and edges, and provides exactly the GVKs it listed among
    its provided APIs or its GVK properties, each once. *)
Theorem API_model_API b mb h pl cl pkg ch b' :
  ConvertAPIBundleToModelBundle b = Ok mb →
  (∀ v, v ∈ provided_gvks b → iface_valid (IGVK v)) →
  h_packages h !! pl = Some pkg → Package_Name pkg = ab_PackageName b →
  h_channels h !! cl = Some ch → Channel_Name ch = ab_ChannelName b →
  ConvertModelBundleToAPIBundle h (with_links mb pl cl) = Ok b' →
  (ab_CsvName b', ab_PackageName b', ab_ChannelName b', ab_CsvJson b', ab_Object b', ab_BundlePath b', ab_Replaces b', ab_Skips b') =
  (ab_CsvName b, ab_PackageName b, ab_ChannelName b, ab_CsvJson b, ab_Object b, ab_BundlePath b, ab_Replaces b, ab_Skips b) ∧
  ab_ProvidedApis b' ≡ₚ (λ v, mkAGVK (gvk_Group v) (gvk_Version v) (gvk_Kind v) "") <$> elements (provided_gvks b).
Proof.
  intros Hc Hv Hpl Hpn Hcl Hcn Hb'. unfold ConvertAPIBundleToModelBundle in Hc. inv_ok. subst mb.
  match goal with H : convertAPIBundleToModelProperties b = Ok _ |- _ => apply converted_properties in H as (rest & Hperm & Hrest) end.
  eapply Convert_Ok in Hb' as (props & pk & Hp & _ & _ & ->); [|done..].
  unfold served. simpl. rewrite Hpn, Hcn. split; [done|].
  apply Parse_fields in Hp as (_ & -> & _). simpl. unfold gvksProvidedtoAPIGVKs. rewrite Hperm.
  rewrite omap_app. assert (omap (parsed_of TypeGVK unmarshal_GVK) rest = []) as ->.
  { clear Hperm. induction Hrest as [|p l Hp _ IH]; simpl; [done|]. unfold parsed_of at 1. by rewrite decide_False. }
  simpl. f_equiv. assert (∀ l, (∀ v, v ∈ l → iface_valid (IGVK v)) →
    omap (parsed_of TypeGVK unmarshal_GVK) (built ∘ IGVK <$> l) = l) as ->; [|done|].
  { induction l as [|v l IH]; intros Hl; [done|]. cbn [omap list_omap fmap list_fmap]. simpl.
    rewrite built_GVK_parsed by (apply Hl; left). f_equal. apply IH. intros v' ?. apply Hl. by right. }
  intros v Hin. apply Hv. by apply elem_of_elements.
Qed.
End api_roundtrip.

Definition ex_api_bundle : api_Bundle :=
  mkABundle "p.v1" "p" "c" "" [] "img" [mkAGVK "example.com" "v1" "Foo" "foos"] [] "1.0.0" "" [] [] "" [].
Lemma API_model_API_witness :
  ∃ mb b', ConvertAPIBundleToModelBundle (H := go_default) ex_api_bundle = Ok mb ∧
    ConvertModelBundleToAPIBundle ex_heap (with_links mb 1%positive 1%positive) = Ok b' ∧
    ab_ProvidedApis b' ≡ₚ [mkAGVK "example.com" "v1" "Foo" ""].
Proof.
  destruct (ConvertAPIBundleToModelBundle (H := go_default) ex_api_bundle) as [mb| |] eqn:E1;
    [|exfalso; vm_compute in E1; discriminate..].
  destruct (ConvertModelBundleToAPIBundle ex_heap (with_links mb 1%positive 1%positive)) as [b'| |] eqn:E2;
    [|exfalso; vm_compute in E1; injection E1 as <-; vm_compute in E2; discriminate..].
  exists mb, b'. split; [done|]. split; [done|].
  assert (∀ v, v ∈ provided_gvks ex_api_bundle → iface_valid (IGVK v)) as Hv.
  { intros v Hv. apply elem_of_elements in Hv. vm_compute in Hv. apply list_elem_of_singleton in Hv as ->. vm_compute. auto. }
  destruct (@API_model_API go_default ex_api_bundle mb ex_heap 1%positive 1%positive
    (mkPackage "p" "" None (Some 1%positive) (Some {["c" := 1%positive]}))
    (mkChannel (Some 1%positive) "c" (Some (list_to_map [("p.v1", 1%positive); ("p.v2", 2%positive)]))) b') as [_ Hp];
    try reflexivity; try done.
Defined.
