(* ===== verification/Query.v ===== *)
(** * Queries

    [pkg/registry/interface.go], [query.go], [empty.go] and the message
    conversions of [conversion.go].  [GRPCQuery] is the interface the registry
    server is written against; [Querier] answers the queries from a model in
    memory, [EmptyQuery] refuses all of them. *)
From S2P Require Import Prelude Json JsonCompact Property JsonTotal Model ModelOps Declcfg DeclcfgConv DeclcfgRoundtrip DeclcfgWrite DeclcfgLoad RegistryTypes RegistryBundle RegistryBundleSpec Api.
From stdpp Require Import options.

(** ** The interface *)
Class GRPCQuery (Q : Type) := {
  ListPackages : Q → res (list string);
  ListBundles : Q → res (list api_Bundle);
  GetPackage : Q → string → res PackageManifest;
  GetBundle : Q → string → string → string → res api_Bundle;
  GetBundleForChannel : Q → string → string → res api_Bundle;
  GetChannelEntriesThatReplace : Q → string → res (list ChannelEntry);
  GetBundleThatReplaces : Q → string → string → string → res api_Bundle;
  GetChannelEntriesThatProvide : Q → string → string → string → res (list ChannelEntry);
  GetLatestChannelEntriesThatProvide : Q → string → string → string → res (list ChannelEntry);
  GetBundleThatProvides : Q → string → string → string → res api_Bundle
}.

(** What a client of the interface may rely on: no query panics, whatever its
    arguments. *)
Definition safe_query {Q} `{GRPCQuery Q} (q : Q) : Prop :=
  ∀ a b c : string,
  ListPackages q ≠ Panic ∧ ListBundles q ≠ Panic ∧ GetPackage q a ≠ Panic ∧ GetBundle q a b c ≠ Panic ∧
  GetBundleForChannel q a b ≠ Panic ∧ GetChannelEntriesThatReplace q a ≠ Panic ∧ GetBundleThatReplaces q a b c ≠ Panic ∧
  GetChannelEntriesThatProvide q a b c ≠ Panic ∧ GetLatestChannelEntriesThatProvide q a b c ≠ Panic ∧
  GetBundleThatProvides q a b c ≠ Panic.

Inductive EmptyQuery : Type := mkEmptyQuery.
#[export] Instance EmptyQuery_GRPCQuery : GRPCQuery EmptyQuery := {|
  ListPackages _ := Err (ErrNew "empty querier: cannot list packages");
  ListBundles _ := Err (ErrNew "empty querier: cannot list bundles");
  GetPackage _ _ := Err (ErrNew "empty querier: cannot get package");
  GetBundle _ _ _ _ := Err (ErrNew "empty querier: cannot get bundle");
  GetBundleForChannel _ _ _ := Err (ErrNew "empty querier: cannot get bundle for channel");
  GetChannelEntriesThatReplace _ _ := Err (ErrNew "empty querier: cannot get channel entries that replace");
  GetBundleThatReplaces _ _ _ _ := Err (ErrNew "empty querier: cannot get bundle that replaces");
  GetChannelEntriesThatProvide _ _ _ _ := Err (ErrNew "empty querier: cannot get channel entries that provide");
  GetLatestChannelEntriesThatProvide _ _ _ _ := Err (ErrNew "empty querier: cannot get latest channel entries that provide");
  GetBundleThatProvides _ _ _ _ := Err (ErrNew "empty querier: cannot get bundle that provides")
|}.

(** ** The querier of a model *)
Record Querier := mkQuerier { q_heap : heap; q_pkgs : model_Model }.
Definition NewQuerier (h : heap) (packages : model_Model) : Querier := mkQuerier h packages.

(** [apiBundle.Replaces = ""; apiBundle.Skips = nil] *)
Definition unset_edges (b : api_Bundle) : api_Bundle :=
  mkABundle (ab_CsvName b) (ab_PackageName b) (ab_ChannelName b) (ab_CsvJson b) (ab_Object b) (ab_BundlePath b)
    (ab_ProvidedApis b) (ab_RequiredApis b) (ab_Version b) (ab_SkipRange b) (ab_Dependencies b) (ab_Properties b) "" [].
Definition convert_bundle (h : heap) (b : model_Bundle) : res api_Bundle :=
  wrap_err (λ e, Errorf "convert bundle %q: %v" [AStr (Bundle_Name b); AErr e]) (ConvertModelBundleToAPIBundle h b).

Definition doesModelBundleProvide (h : heap) (b : model_Bundle) (group version kind : string) : res bool :=
  ab ← convert_bundle h b;
  Ok (existsb (λ v, bool_decide (agvk_Group v = group ∧ agvk_Version v = version ∧ agvk_Kind v = kind)) (ab_ProvidedApis ab)).
Definition bundleReplaces (b : model_Bundle) (name : string) : bool :=
  bool_decide (Bundle_Replaces b = name) || existsb (λ s, bool_decide (s = name)) (Bundle_Skips b).

(** [b.Package.Name] and [b.Channel] *)
Definition package_name (h : heap) (b : model_Bundle) : res string :=
  pl ← deref (Bundle_Package b); pkg ← deref (h_packages h !! pl); Ok (Package_Name pkg).
Definition channel_obj (h : heap) (b : model_Bundle) : res model_Channel :=
  cl ← deref (Bundle_Channel b); deref (h_channels h !! cl).
Definition entry_of (h : heap) (b : model_Bundle) (replaces : string) : res ChannelEntry :=
  p ← package_name h b; ch ← channel_obj h b; Ok (mkEntry p (Channel_Name ch) (Bundle_Name b) replaces).

Definition channelEntriesThatReplace (h : heap) (b : model_Bundle) (name : string) : res (list ChannelEntry) :=
  first ← (if decide (Bundle_Replaces b = name) then e ← entry_of h b (Bundle_Replaces b); Ok [e] else Ok []);
  more ← collect (λ s, if decide (s = name ∧ s ≠ Bundle_Replaces b) then e ← entry_of h b (Bundle_Replaces b); Ok [e]
                       else Ok []) (Bundle_Skips b);
  Ok (first ++ more).
Definition channelEntriesForBundle (h : heap) (b : model_Bundle) (ignoreChannel : bool) : res (list ChannelEntry) :=
  e ← entry_of h b (Bundle_Replaces b);
  more ← collect (λ s,
           ch ← channel_obj h b;
           if decide (s ≠ Bundle_Replaces b ∧ (ignoreChannel = true ∨ is_Some (bundles_of ch !! s))) then
             e ← entry_of h b s; Ok [e]
           else Ok []) (Bundle_Skips b);
  Ok (e :: more).

Section querier.
Context `{GoRuntime}.
Variable q : Querier.
Local Abbreviation h := (q_heap q).

(** [for _, pkg := range q.pkgs { for _, ch := range pkg.Channels { ... } }] *)
Definition each_channel {B} (f : model_Package → model_Channel → res (list B)) : res (list B) :=
  collect (λ '(_, pl),
    pkg ← deref (h_packages h !! pl);
    collect (λ '(_, cl), ch ← deref (h_channels h !! cl); f pkg ch) (range (channels_of pkg)))
  (range (q_pkgs q)).
Definition each_bundle {B} (f : model_Bundle → res (list B)) : res (list B) :=
  each_channel (λ _ ch, collect (λ '(_, bl), b ← deref (h_bundles h !! bl); f b) (range (bundles_of ch))).

Definition Querier_ListPackages : res (list string) := Ok (range (q_pkgs q)).*1.
Definition Querier_ListBundles : res (list api_Bundle) :=
  each_bundle (λ b, ab ← convert_bundle h b; Ok [ab]).

Definition find_package (name : string) : res model_Package :=
  match q_pkgs q !! name with
  | None => Err (Errorf "package %q not found" [AStr name])
  | Some pl => deref (h_packages h !! pl)
  end.
Definition find_channel (pkgName channelName : string) : res model_Channel :=
  pkg ← find_package pkgName;
  match channels_of pkg !! channelName with
  | None => Err (Errorf "package %q, channel %q not found" [AStr pkgName; AStr channelName])
  | Some cl => deref (h_channels h !! cl)
  end.
Definition head_bundle (pkgName : string) (ch : model_Channel) : res model_Bundle :=
  l ← wrap_err (λ e, Errorf "package %q, channel %q has invalid head: %v" [AStr pkgName; AStr (Channel_Name ch); AErr e])
        (Channel_Head h ch);
  deref (h_bundles h !! l).

Definition package_channel (name : string) (kl : string * loc) : res PackageChannel :=
  ch ← deref (h_channels h !! kl.2);
  hd ← head_bundle name ch;
  Ok (mkPkgChannel (Channel_Name ch) (Bundle_Name hd)).
Definition Querier_GetPackage (name : string) : res PackageManifest :=
  pkg ← find_package name;
  channels ← mapR (package_channel name) (range (channels_of pkg));
  dl ← deref (Package_DefaultChannel pkg); d ← deref (h_channels h !! dl);
  Ok (mkManifest (Package_Name pkg) channels (Channel_Name d)).

Definition Querier_GetBundle (pkgName channelName csvName : string) : res api_Bundle :=
  ch ← find_channel pkgName channelName;
  match bundles_of ch !! csvName with
  | None => Err (Errorf "package %q, channel %q, bundle %q not found" [AStr pkgName; AStr channelName; AStr csvName])
  | Some bl => b ← deref (h_bundles h !! bl); ab ← convert_bundle h b; Ok (unset_edges ab)
  end.
Definition Querier_GetBundleForChannel (pkgName channelName : string) : res api_Bundle :=
  ch ← find_channel pkgName channelName;
  l ← wrap_err (λ e, Errorf "package %q, channel %q has invalid head: %v" [AStr pkgName; AStr channelName; AErr e])
        (Channel_Head h ch);
  b ← deref (h_bundles h !! l); ab ← convert_bundle h b; Ok (unset_edges ab).

Definition or_none {B} (e : error) (l : list B) : res (list B) := match l with [] => Err e | _ => Ok l end.
Definition Querier_GetChannelEntriesThatReplace (name : string) : res (list ChannelEntry) :=
  entries ← each_bundle (λ b, channelEntriesThatReplace h b name);
  or_none (Errorf "no channel entries found that replace %s" [AStr name]) entries.

(** The first bundle visited that replaces [name], if any. *)
Fixpoint first_replacing (name : string) (es : list (string * loc)) : res (option model_Bundle) :=
  match es with
  | [] => Ok None
  | (_, bl) :: es' =>
      b ← deref (h_bundles h !! bl);
      if bundleReplaces b name then Ok (Some b) else first_replacing name es'
  end.
Definition Querier_GetBundleThatReplaces (name pkgName channelName : string) : res api_Bundle :=
  ch ← match q_pkgs q !! pkgName with
       | None => Err (Errorf "package %s not found" [AStr pkgName])
       | Some _ => find_channel pkgName channelName
       end;
  found ← first_replacing name (range (bundles_of ch));
  match found with
  | Some b => ab ← convert_bundle h b; Ok (unset_edges ab)
  | None => Err (Errorf "no entry found for package %q, channel %q" [AStr pkgName; AStr channelName])
  end.

Definition provides_error (group version kind : string) : error :=
  Errorf "no channel entries found that provide group:%q version:%q kind:%q" [AStr group; AStr version; AStr kind].
Definition Querier_GetChannelEntriesThatProvide (group version kind : string) : res (list ChannelEntry) :=
  entries ← each_bundle (λ b,
              provides ← doesModelBundleProvide h b group version kind;
              if (provides : bool) then channelEntriesForBundle h b true else Ok []);
  or_none (provides_error group version kind) entries.
Definition Querier_GetLatestChannelEntriesThatProvide (group version kind : string) : res (list ChannelEntry) :=
  entries ← each_channel (λ pkg ch,
              b ← head_bundle (Package_Name pkg) ch;
              provides ← doesModelBundleProvide h b group version kind;
              if (provides : bool) then channelEntriesForBundle h b false else Ok []);
  or_none (provides_error group version kind) entries.

(** The first entry of a default channel. *)
Fixpoint default_entry (es : list ChannelEntry) : res (option ChannelEntry) :=
  match es with
  | [] => Ok None
  | e :: es' =>
      match q_pkgs q !! ce_PackageName e with
      | None => default_entry es'
      | Some pl =>
          pkg ← deref (h_packages h !! pl);
          dl ← deref (Package_DefaultChannel pkg); d ← deref (h_channels h !! dl);
          if decide (ce_ChannelName e = Channel_Name d) then Ok (Some e) else default_entry es'
      end
  end.
Definition entry_lt (x y : ChannelEntry) : bool := str_lt (ce_PackageName x) (ce_PackageName y).
Definition Querier_GetBundleThatProvides (group version kind : string) : res api_Bundle :=
  latestEntries ← Querier_GetLatestChannelEntriesThatProvide group version kind;
  found ← default_entry (sort_slice entry_lt latestEntries);
  match found with
  | Some e => Querier_GetBundle (ce_PackageName e) (ce_ChannelName e) (ce_BundleName e)
  | None => Err (Errorf "no entry found that provides group:%q version:%q kind:%q" [AStr group; AStr version; AStr kind])
  end.
End querier.

#[export] Instance Querier_GRPCQuery `{GoRuntime} : GRPCQuery Querier := {|
  ListPackages := Querier_ListPackages;
  ListBundles := Querier_ListBundles;
  GetPackage := Querier_GetPackage;
  GetBundle := Querier_GetBundle;
  GetBundleForChannel := Querier_GetBundleForChannel;
  GetChannelEntriesThatReplace := Querier_GetChannelEntriesThatReplace;
  GetBundleThatReplaces := Querier_GetBundleThatReplaces;
  GetChannelEntriesThatProvide := Querier_GetChannelEntriesThatProvide;
  GetLatestChannelEntriesThatProvide := Querier_GetLatestChannelEntriesThatProvide;
  GetBundleThatProvides := Querier_GetBundleThatProvides
|}.
