(* ===== verification/QuerySpec.v ===== *)
(** * Properties of the queries

    On a model that passes [Model.Validate], for every order in which the maps
    are visited. *)
From S2P Require Import Prelude Json JsonCompact Property JsonTotal Model ModelOps Declcfg DeclcfgConv DeclcfgRoundtrip DeclcfgWrite DeclcfgLoad RegistryTypes RegistryBundle RegistryBundleSpec Api Query.
From stdpp Require Import options.

(** ** Loops that collect *)
Definition got {A} (r : res (list A)) : list A := match r with Ok l => l | _ => [] end.

Lemma collect_app {A B} (f : A → res (list B)) l k :
  collect f (l ++ k) = a ← collect f l; b ← collect f k; Ok (a ++ b).
Proof.
  induction l as [|x l IH]; simpl; [by destruct (collect f k)|]. rewrite IH.
  destruct (f x); simpl; [|done..]. destruct (collect f l); simpl; [|done..]. destruct (collect f k); simpl; [|done..].
  by rewrite app_assoc.
Qed.
Lemma collect_bind {A B C} (f : B → res (list C)) (g : A → list B) l :
  collect f (l ≫= g) = collect (λ x, collect f (g x)) l.
Proof. induction l as [|x l IH]; [done|]. rewrite bind_cons, collect_app, IH. done. Qed.
Lemma collect_ext {A B} (f g : A → res (list B)) l : (∀ x, x ∈ l → f x = g x) → collect f l = collect g l.
Proof.
  induction l as [|x l IH]; intros Hfg; simpl; [done|]. rewrite Hfg by left. rewrite IH; [done|].
  intros y ?. apply Hfg. by right.
Qed.
Lemma collect_is_Ok_iff {A B} (f : A → res (list B)) l : is_Ok (collect f l) ↔ ∀ x, x ∈ l → is_Ok (f x).
Proof.
  rewrite <- Forall_forall. induction l as [|x l IH]; simpl; [split; [constructor|by eexists]|].
  rewrite Forall_cons, <- IH. destruct (f x); simpl; [destruct (collect f l); simpl|..]; unfold is_Ok; naive_solver.
Qed.
Lemma collect_got {A B} (f : A → res (list B)) l r : collect f l = Ok r → r = l ≫= λ x, got (f x).
Proof.
  revert r. induction l as [|x l IH]; intros r; simpl; [by intros [= <-]|].
  intros Hb. apply bind_Ok in Hb as (es & E & Hb). apply bind_Ok in Hb as (es' & Hc & [= <-]). rewrite E. by rewrite (IH es').
Qed.
Lemma collect_no_panic {A B} (f : A → res (list B)) l : (∀ x, x ∈ l → f x ≠ Panic) → collect f l ≠ Panic.
Proof.
  induction l as [|x l IH]; intros Hf; simpl; [done|].
  specialize (IH (λ y Hy, Hf y (list_elem_of_further y x l Hy))). pose proof (Hf x (list_elem_of_here x l)).
  destruct (f x); simpl; [|done..]. by destruct (collect f l).
Qed.
Lemma collect_Permutation {A B} (f : A → res (list B)) l k r :
  l ≡ₚ k → collect f l = Ok r → ∃ r', collect f k = Ok r' ∧ r ≡ₚ r'.
Proof.
  intros Hlk Hl. assert (is_Ok (collect f k)) as [r' Hk].
  { apply collect_is_Ok_iff. intros x Hx. rewrite <- Hlk in Hx. by apply (collect_is_Ok_iff f l); [eexists|]. }
  exists r'. split; [done|]. rewrite (collect_got _ _ _ Hl), (collect_got _ _ _ Hk). by rewrite Hlk.
Qed.

Lemma Forall2_elem_l {A B} (P : A → B → Prop) l k x : Forall2 P l k → x ∈ l → ∃ y, y ∈ k ∧ P x y.
Proof. induction 1 as [|a b l k HP _ IH]; intros Hx; [set_solver|]. set_solver. Qed.
Lemma Forall2_elem_r {A B} (P : A → B → Prop) l k y : Forall2 P l k → y ∈ k → ∃ x, x ∈ l ∧ P x y.
Proof. induction 1 as [|a b l k HP _ IH]; intros Hx; [set_solver|]. set_solver. Qed.
Lemma elem_of_option_list {A} (x : A) (o : option A) : x ∈ option_list o ↔ o = Some x.
Proof. destruct o; simpl; set_solver. Qed.

(** ** What the nested loops visit *)
Section visited.
Context `{GoRuntime}.
Variables (h : heap) (m : model_Model).
Local Abbreviation q := (NewQuerier h m).

Definition vis_channels : list (string * string * (model_Package * model_Channel)) :=
  '(p, pl) ← range m; pkg ← option_list (h_packages h !! pl);
  '(c, cl) ← range (channels_of pkg); ch ← option_list (h_channels h !! cl);
  [((p, c), (pkg, ch))].
Definition vis_bundles : list (string * string * string * model_Bundle) :=
  '((p, c), (_, ch)) ← vis_channels;
  '(n, bl) ← range (bundles_of ch); b ← option_list (h_bundles h !! bl);
  [((p, c, n), b)].

Lemma elem_vis_channels p c pkg ch :
  ((p, c), (pkg, ch)) ∈ vis_channels ↔
  ∃ pl cl, m !! p = Some pl ∧ h_packages h !! pl = Some pkg ∧ channels_of pkg !! c = Some cl ∧ h_channels h !! cl = Some ch.
Proof.
  unfold vis_channels. rewrite list_elem_of_bind. split.
  - intros ([p' pl] & Hin & Hpl%range_elem). apply list_elem_of_bind in Hin as (pkg' & Hin & Hpkg).
    apply list_elem_of_bind in Hin as ([c' cl] & Hin & Hcl%range_elem). apply list_elem_of_bind in Hin as (ch' & Hin & Hch).
    apply list_elem_of_singleton in Hin as [= -> -> -> ->]. apply elem_of_option_list in Hpkg, Hch. eauto 10.
  - intros (pl & cl & Hp & Hpkg & Hc & Hch). exists (p, pl). rewrite range_elem. split; [|done].
    rewrite Hpkg. simpl. rewrite app_nil_r. apply list_elem_of_bind. exists (c, cl). rewrite range_elem. split; [|done].
    rewrite Hch. simpl. left.
Qed.
Lemma elem_vis_bundles p c n b :
  ((p, c, n), b) ∈ vis_bundles ↔ find_bundle h m p c n = Some b.
Proof.
  unfold vis_bundles. rewrite list_elem_of_bind. split.
  - intros ([[p' c'] [pkg ch]] & Hin & Hch). apply elem_vis_channels in Hch as (pl & cl & Hp & Hpkg & Hc & Hch).
    apply list_elem_of_bind in Hin as ([n' bl] & Hin & Hn%range_elem). apply list_elem_of_bind in Hin as (b' & Hin & Hb).
    apply list_elem_of_singleton in Hin as [= -> -> -> ->]. apply elem_of_option_list in Hb.
    unfold find_bundle. rewrite Hp. simpl. rewrite Hpkg. simpl. rewrite Hc. simpl. rewrite Hch. simpl. by rewrite Hn.
  - unfold find_bundle. intros Hf.
    destruct (m !! p) as [pl|] eqn:Hp; [|done]. simpl in Hf. destruct (h_packages h !! pl) as [pkg|] eqn:Hpkg; [|done].
    simpl in Hf. destruct (channels_of pkg !! c) as [cl|] eqn:Hc; [|done]. simpl in Hf.
    destruct (h_channels h !! cl) as [ch|] eqn:Hch; [|done]. simpl in Hf. destruct (bundles_of ch !! n) as [bl|] eqn:Hn; [|done].
    simpl in Hf. exists ((p, c), (pkg, ch)). split; [|apply elem_vis_channels; eauto 10].
    apply list_elem_of_bind. exists (n, bl). rewrite range_elem. split; [|done]. rewrite Hf. simpl. left.
Qed.

Lemma NoDup_vis_channels : NoDup vis_channels.
Proof.
  unfold vis_channels. apply NoDup_bind.
  - intros [p1 pl1] [p2 pl2] [[p c] ?] Hin1%range_elem Hin2%range_elem.
    rewrite !list_elem_of_bind. intros (? & H1 & _) (? & H2 & _).
    apply list_elem_of_bind in H1 as ([c1 cl1] & H1 & _). apply list_elem_of_bind in H2 as ([c2 cl2] & H2 & _).
    apply list_elem_of_bind in H1 as (? & H1 & _). apply list_elem_of_bind in H2 as (? & H2 & _).
    apply list_elem_of_singleton in H1, H2. congruence.
  - intros [p pl] _. destruct (h_packages h !! pl) as [pkg|]; simpl; [rewrite app_nil_r|constructor].
    apply NoDup_bind.
    + intros [c1 cl1] [c2 cl2] [[p' c'] ?] Hin1%range_elem Hin2%range_elem. rewrite !list_elem_of_bind.
      intros (? & H1 & _) (? & H2 & _). apply list_elem_of_singleton in H1, H2. congruence.
    + intros [c cl] _. destruct (h_channels h !! cl); simpl; [apply NoDup_singleton|constructor].
    + eapply NoDup_fmap_1, range_NoDup.
  - eapply NoDup_fmap_1, range_NoDup.
Qed.
Lemma NoDup_vis_bundles : NoDup vis_bundles.*1.
Proof.
  apply NoDup_fmap_2_strong.
  - intros [[[p c] n] b] [[[p' c'] n'] b'] H1%elem_vis_bundles H2%elem_vis_bundles [= <- <- <-]. congruence.
  - unfold vis_bundles. apply NoDup_bind; [| |apply NoDup_vis_channels].
    + intros [[p1 c1] [k1 ch1]] [[p2 c2] [k2 ch2]] [[[p c] n] ?] Hin1%elem_vis_channels Hin2%elem_vis_channels.
      rewrite !list_elem_of_bind. intros ([] & H1 & _) ([] & H2 & _).
      apply list_elem_of_bind in H1 as (? & H1 & _). apply list_elem_of_bind in H2 as (? & H2 & _).
      apply list_elem_of_singleton in H1, H2. destruct Hin1 as (? & ? & ? & ? & ? & ?), Hin2 as (? & ? & ? & ? & ? & ?).
      simplify_eq. done.
    + intros [[p c] [k ch]] _. apply NoDup_bind.
      * intros [n1 bl1] [n2 bl2] [[[p' c'] n'] ?] Hin1%range_elem Hin2%range_elem. rewrite !list_elem_of_bind.
        intros (? & H1 & _) (? & H2 & _). apply list_elem_of_singleton in H1, H2. congruence.
      * intros [n bl] _. destruct (h_bundles h !! bl); simpl; [apply NoDup_singleton|constructor].
      * eapply NoDup_fmap_1, range_NoDup.
Qed.

Hypothesis Hwf : model_wf h m.
Lemma each_channel_eq {B} (f : model_Package → model_Channel → res (list B)) :
  each_channel q f = collect (λ x, f x.2.1 x.2.2) vis_channels.
Proof using Hwf.
  unfold each_channel, vis_channels. rewrite collect_bind. apply collect_ext. intros [p pl] Hp%range_elem.
  destruct (Hwf _ _ Hp) as (pkg & Hpkg & _ & Hpwf). simpl in *. rewrite Hpkg. simpl. rewrite app_nil_r, collect_bind.
  apply collect_ext. intros [c cl] Hc%range_elem. destruct (pwf_channels _ _ _ Hpwf _ _ Hc) as (ch & Hch & _).
  rewrite Hch. simpl. by destruct (f pkg ch); simpl; rewrite ?app_nil_r.
Qed.
Lemma each_bundle_eq {B} (f : model_Bundle → res (list B)) :
  each_bundle q f = collect (λ x, f x.2) vis_bundles.
Proof using Hwf.
  unfold each_bundle. rewrite each_channel_eq. unfold vis_bundles. rewrite collect_bind. apply collect_ext.
  intros [[p c] [pkg ch]] Hin. simpl. rewrite collect_bind. apply collect_ext. intros [n bl] Hn%range_elem.
  apply elem_vis_channels in Hin as (pl & cl & Hp & Hpkg & Hc & Hch).
  destruct (Hwf _ _ Hp) as (pkg' & Hpkg' & _ & Hpwf). simplify_eq.
  destruct (pwf_channels _ _ _ Hpwf _ _ Hc) as (ch' & Hch' & _ & Hcwf & _). simplify_eq.
  destruct (cwf_bundles _ _ _ Hcwf _ _ Hn) as (b & Hb & _). rewrite Hb. simpl.
  by destruct (f b); simpl; rewrite ?app_nil_r.
Qed.
End visited.

(** ** Valid models *)
Section valid.
Context `{GoRuntime}.
Variables (h : heap) (m : model_Model).
Hypothesis Hwf : model_wf h m.
Local Abbreviation q := (NewQuerier h m).

Lemma wf_channel p c pkg ch :
  ((p, c), (pkg, ch)) ∈ vis_channels h m →
  ∃ pl cl, m !! p = Some pl ∧ h_packages h !! pl = Some pkg ∧ Package_Name pkg = p ∧ package_wf h pl pkg ∧
    channels_of pkg !! c = Some cl ∧ h_channels h !! cl = Some ch ∧ Channel_Name ch = c ∧ channel_wf h cl ch ∧
    Channel_Package ch = Some pl.
Proof using All.
  intros (pl & cl & Hp & Hpkg & Hc & Hch)%elem_vis_channels.
  destruct (Hwf _ _ Hp) as (pkg' & Hpkg' & Hpn & Hpwf). simplify_eq.
  destruct (pwf_channels _ _ _ Hpwf _ _ Hc) as (ch' & Hch' & Hcn & Hcwf & Hcp). simplify_eq. eauto 12.
Qed.
Lemma wf_channel_bundle p c pkg ch n bl :
  ((p, c), (pkg, ch)) ∈ vis_channels h m → bundles_of ch !! n = Some bl →
  ∃ pl cl b, h_bundles h !! bl = Some b ∧ Bundle_Name b = n ∧ Bundle_Package b = Some pl ∧ Bundle_Channel b = Some cl ∧
    h_packages h !! pl = Some pkg ∧ h_channels h !! cl = Some ch ∧ Package_Name pkg = p ∧ Channel_Name ch = c ∧
    find_bundle h m p c n = Some b.
Proof using All.
  intros Hin Hn. destruct (wf_channel _ _ _ _ Hin) as (pl & cl & Hp & Hpkg & Hpn & Hpwf & Hc & Hch & Hcn & Hcwf & Hcp).
  destruct (cwf_bundles _ _ _ Hcwf _ _ Hn) as (b & Hb & Hbn & Hbwf & Hbc).
  destruct (bwf_links _ _ Hbwf) as (cl' & pl' & ch' & Hbc' & Hbp & Hch' & Hcp'). simplify_eq.
  exists pl, cl, b. split_and!; try done. unfold find_bundle. rewrite Hp. simpl. rewrite Hpkg. simpl. rewrite Hc. simpl.
  rewrite Hch. simpl. by rewrite Hn.
Qed.
Lemma wf_bundle p c n b :
  find_bundle h m p c n = Some b →
  ∃ pl cl pkg ch, ((p, c), (pkg, ch)) ∈ vis_channels h m ∧ Bundle_Name b = n ∧ Bundle_Package b = Some pl ∧
    Bundle_Channel b = Some cl ∧ h_packages h !! pl = Some pkg ∧ h_channels h !! cl = Some ch ∧
    Package_Name pkg = p ∧ Channel_Name ch = c.
Proof using All.
  intros Hf. apply elem_vis_bundles in Hf. unfold vis_bundles in Hf.
  apply list_elem_of_bind in Hf as ([[p' c'] [pkg ch]] & Hin & Hch).
  apply list_elem_of_bind in Hin as ([n' bl] & Hin & Hn%range_elem). apply list_elem_of_bind in Hin as (b' & Hin & Hb).
  apply list_elem_of_singleton in Hin as [= -> -> -> ->]. apply elem_of_option_list in Hb.
  destruct (wf_channel_bundle _ _ _ _ _ _ Hch Hn) as (pl & cl & b0 & Hb0 & Hbn & Hbp & Hbc & Hpkg & Hchl & Hpn & Hcn & _).
  simplify_eq. eauto 12.
Qed.

(** The conversion and the entries of a bundle of the model. *)
Lemma wf_convert_no_panic p c n b : find_bundle h m p c n = Some b → convert_bundle h b ≠ Panic.
Proof using All.
  intros Hf. destruct (wf_bundle _ _ _ _ Hf) as (pl & cl & pkg & ch & _ & _ & Hp & Hc & Hpkg & Hch & _).
  pose proof (Convert_no_panic h b pl cl pkg ch Hp Hpkg Hc Hch). unfold convert_bundle. by destruct (ConvertModelBundleToAPIBundle h b).
Qed.
Lemma wf_convert_names p c n b ab :
  find_bundle h m p c n = Some b → ConvertModelBundleToAPIBundle h b = Ok ab →
  (ab_PackageName ab, ab_ChannelName ab, ab_CsvName ab) = (p, c, n).
Proof using All.
  intros Hf Hc. destruct (wf_bundle _ _ _ _ Hf) as (pl & cl & pkg & ch & _ & Hn & Hp & Hcl & Hpkg & Hch & Hpn & Hcn).
  apply (Convert_Ok h b pl cl pkg ch Hp Hpkg Hcl Hch) in Hc as (props & pk & _ & _ & _ & ->). simpl. congruence.
Qed.
Lemma wf_entry p c n b r : find_bundle h m p c n = Some b → entry_of h b r = Ok (mkEntry p c n r).
Proof using All.
  intros Hf. destruct (wf_bundle _ _ _ _ Hf) as (pl & cl & pkg & ch & _ & Hn & Hp & Hcl & Hpkg & Hch & Hpn & Hcn).
  unfold entry_of, package_name, channel_obj. rewrite Hp, Hcl. simpl. rewrite Hpkg, Hch. simpl. congruence.
Qed.
Lemma wf_channel_obj p c n b pkg ch :
  find_bundle h m p c n = Some b → ((p, c), (pkg, ch)) ∈ vis_channels h m → channel_obj h b = Ok ch.
Proof using All.
  intros Hf Hin. destruct (wf_bundle _ _ _ _ Hf) as (pl & cl & pkg' & ch' & Hin' & Hn & Hp & Hcl & Hpkg & Hch & _).
  apply elem_vis_channels in Hin as (? & ? & ? & ? & ? & ?), Hin' as (? & ? & ? & ? & ? & ?). simplify_eq.
  unfold channel_obj. rewrite Hcl. simpl. by rewrite Hch.
Qed.

(** The head of a channel of the model. *)
Lemma wf_head p c pkg ch :
  ((p, c), (pkg, ch)) ∈ vis_channels h m →
  ∃ n bl b, is_head h ch bl ∧ bundles_of ch !! n = Some bl ∧ h_bundles h !! bl = Some b ∧ find_bundle h m p c n = Some b ∧
    Channel_Head h ch = Ok bl.
Proof using All.
  intros Hin. destruct (wf_channel _ _ _ _ Hin) as (pl & cl & _ & _ & _ & _ & _ & _ & _ & Hcwf & _).
  destruct (cwf_head _ _ _ Hcwf) as [bl Hbl]. pose proof Hbl as (_ & n & [Hn _] & _).
  destruct (wf_channel_bundle _ _ _ _ _ _ Hin Hn) as (? & ? & b & Hb & _ & _ & _ & _ & _ & _ & _ & Hf).
  exists n, bl, b. split_and!; try done. by apply Channel_Head_Ok.
Qed.
Lemma wf_find_package p pkg ch c :
  ((p, c), (pkg, ch)) ∈ vis_channels h m → find_package q p = Ok pkg ∧ find_channel q p c = Ok ch.
Proof using All.
  intros (pl & cl & Hp & Hpkg & Hc & Hch)%elem_vis_channels. unfold find_channel, find_package. simpl.
  rewrite Hp, Hpkg. simpl. by rewrite Hc, Hch.
Qed.
Lemma find_channel_cases p c :
  (∃ pkg ch, ((p, c), (pkg, ch)) ∈ vis_channels h m ∧ find_channel q p c = Ok ch) ∨ ∃ e, find_channel q p c = Err e.
Proof using All.
  unfold find_channel, find_package. simpl. destruct (m !! p) as [pl|] eqn:Hp; [|right; by eexists].
  destruct (Hwf _ _ Hp) as (pkg & Hpkg & _ & Hpwf). rewrite Hpkg. simpl.
  destruct (channels_of pkg !! c) as [cl|] eqn:Hc; [|right; by eexists].
  destruct (pwf_channels _ _ _ Hpwf _ _ Hc) as (ch & Hch & _). rewrite Hch.
  left. exists pkg, ch. split; [|done]. apply elem_vis_channels. eauto 10.
Qed.

(** On a valid model, listing the bundles fails only if some bundle of the
    model does not convert.  Otherwise every bundle of every channel of every
    package is listed exactly once. *)
Theorem ListBundles_spec :
  (is_Ok (ListBundles q) ↔ ∀ p c n b, find_bundle h m p c n = Some b → is_Ok (ConvertModelBundleToAPIBundle h b)) ∧
  ∀ l, ListBundles q = Ok l →
    NoDup ((λ ab, (ab_PackageName ab, ab_ChannelName ab, ab_CsvName ab)) <$> l) ∧
    ∀ ab, ab ∈ l ↔ ∃ p c n b, find_bundle h m p c n = Some b ∧ ConvertModelBundleToAPIBundle h b = Ok ab.
Proof using All.
  simpl. unfold Querier_ListBundles. rewrite each_bundle_eq by done. simpl.
  assert (∀ b, is_Ok (ab ← convert_bundle h b; Ok [ab]) ↔ is_Ok (ConvertModelBundleToAPIBundle h b)) as Hok.
  { intros b. unfold convert_bundle. destruct (ConvertModelBundleToAPIBundle h b); simpl; unfold is_Ok; naive_solver. }
  split.
  - rewrite collect_is_Ok_iff. split.
    + intros Hl p c n b Hf. apply Hok, (Hl (p, c, n, b)). by apply elem_vis_bundles.
    + intros Hl [[[p c] n] b] Hf%elem_vis_bundles. simpl. apply Hok. eauto.
  - intros l Hl. pose proof (proj1 (collect_is_Ok_iff _ _) (ex_intro _ _ Hl)) as Hall. apply collect_got in Hl.
    assert (l = omap (λ x, match ConvertModelBundleToAPIBundle h x.2 with Ok ab => Some ab | _ => None end) (vis_bundles h m)) as ->.
    { rewrite Hl. clear. induction (vis_bundles h m) as [|[k b] vs IH]; [done|]. rewrite bind_cons, IH. clear IH. simpl.
      unfold convert_bundle. by destruct (ConvertModelBundleToAPIBundle h b). }
    clear Hl. split.
    + pose proof (NoDup_vis_bundles h m) as Hn.
      assert (Forall (λ x, find_bundle h m x.1.1.1 x.1.1.2 x.1.2 = Some x.2) (vis_bundles h m)) as Hf.
      { apply Forall_forall. intros [[[p c] n] b]. apply elem_vis_bundles. }
      assert ((λ ab, (ab_PackageName ab, ab_ChannelName ab, ab_CsvName ab)) <$>
        omap (λ x, match ConvertModelBundleToAPIBundle h x.2 with Ok ab => Some ab | _ => None end) (vis_bundles h m)
        = (vis_bundles h m).*1) as ->; [|done].
      clear Hn. induction (vis_bundles h m) as [|[[[p c] n] b] vs IH]; [done|]. simpl.
      apply Forall_cons in Hf as [Hb Hf]. simpl in Hb.
      destruct (proj1 (Hok b) (Hall ((p, c, n), b) (list_elem_of_here _ _))) as [ab Hab]. rewrite Hab. simpl.
      rewrite (wf_convert_names p c n b) by done. f_equal. apply IH; [|done]. intros x ?. apply Hall. by right.
    + intros ab. rewrite list_elem_of_omap. split.
      * intros ([[[p c] n] b] & Hin%elem_vis_bundles & Hc). simpl in Hc. exists p, c, n, b.
        split; [done|]. by destruct (ConvertModelBundleToAPIBundle h b); simplify_eq.
      * intros (p & c & n & b & Hf & Hc). exists ((p, c, n), b). rewrite elem_vis_bundles. simpl. by rewrite Hc.
Qed.

Lemma wf_head_bundle p c pkg ch name n bl b :
  ((p, c), (pkg, ch)) ∈ vis_channels h m → Channel_Head h ch = Ok bl → bundles_of ch !! n = Some bl →
  h_bundles h !! bl = Some b → head_bundle q name ch = Ok b ∧ Bundle_Name b = n.
Proof using All.
  intros Hin Hh Hn Hb. destruct (wf_channel_bundle _ _ _ _ _ _ Hin Hn) as (? & ? & b' & Hb' & Hbn & _). simplify_eq.
  unfold head_bundle. simpl. rewrite Hh. simpl. by rewrite Hb.
Qed.

Lemma GetBundle_channel p c pkg ch n bl b :
  ((p, c), (pkg, ch)) ∈ vis_channels h m → bundles_of ch !! n = Some bl → h_bundles h !! bl = Some b →
  GetBundle q p c n = (ab ← convert_bundle h b; Ok (unset_edges ab)).
Proof using All.
  intros Hin Hn Hb. destruct (wf_find_package _ _ _ _ Hin) as [_ Hfc]. simpl. unfold Querier_GetBundle.
  rewrite Hfc. simpl. rewrite Hn. simpl. by rewrite Hb.
Qed.

(** The manifest entry of a channel: its name and the name of its head. *)
Lemma wf_package_channel p pl pkg c cl :
  m !! p = Some pl → h_packages h !! pl = Some pkg → channels_of pkg !! c = Some cl →
  ∃ ch n bl b, h_channels h !! cl = Some ch ∧ ((p, c), (pkg, ch)) ∈ vis_channels h m ∧ Channel_Name ch = c ∧
    is_head h ch bl ∧ bundles_of ch !! n = Some bl ∧ h_bundles h !! bl = Some b ∧
    package_channel q p (c, cl) = Ok (mkPkgChannel c n).
Proof using All.
  intros Hp Hpkg Hc. destruct (Hwf _ _ Hp) as (pkg' & Hpkg' & Hpn & Hpwf). simplify_eq.
  destruct (pwf_channels _ _ _ Hpwf _ _ Hc) as (ch & Hch & Hcn & _).
  assert (((Package_Name pkg, c), (pkg, ch)) ∈ vis_channels h m) as Hin by (apply elem_vis_channels; eauto 10).
  destruct (wf_head _ _ _ _ Hin) as (n & bl & b & Hhd & Hn & Hb & _ & Hh).
  destruct (wf_head_bundle _ _ _ _ (Package_Name pkg) _ _ _ Hin Hh Hn Hb) as [Hhb Hbn].
  exists ch, n, bl, b. split_and!; try done. unfold package_channel. simpl. rewrite Hch. simpl. rewrite Hhb. simpl. congruence.
Qed.
Lemma is_head_unique ch bl1 bl2 : is_head h ch bl1 → is_head h ch bl2 → bl1 = bl2.
Proof using All. rewrite <- !Channel_Head_Ok. congruence. Qed.
Lemma wf_bundle_key p c pkg ch n n' bl :
  ((p, c), (pkg, ch)) ∈ vis_channels h m → bundles_of ch !! n = Some bl → bundles_of ch !! n' = Some bl → n = n'.
Proof using All.
  intros Hin Hn Hn'. destruct (wf_channel_bundle _ _ _ _ _ _ Hin Hn) as (_ & _ & b & Hb & Hbn & _).
  destruct (wf_channel_bundle _ _ _ _ _ _ Hin Hn') as (_ & _ & b' & Hb' & Hbn' & _). congruence.
Qed.

Lemma wf_GetPackage p pl pkg :
  m !! p = Some pl → h_packages h !! pl = Some pkg →
  ∃ cs dn d, Querier_GetPackage q p = Ok (mkManifest p cs dn) ∧ channels_of pkg !! dn = Some d ∧
    Forall2 (λ kl pc, package_channel q p kl = Ok pc) (range (channels_of pkg)) cs.
Proof using All.
  intros Hp Hpkg. destruct (Hwf _ _ Hp) as (pkg' & Hpkg' & Hpn & Hpwf). simplify_eq.
  destruct (pwf_default _ _ _ Hpwf) as (dn & d & Hd & Hdc).
  destruct (pwf_channels _ _ _ Hpwf _ _ Hdc) as (dch & Hdch & Hdn & _).
  assert (is_Ok (mapR (package_channel q (Package_Name pkg)) (range (channels_of pkg)))) as [cs Hcs].
  { eexists. apply (mapR_total _ (λ kl, match package_channel q (Package_Name pkg) kl with Ok pc => pc | _ => mkPkgChannel "" "" end)).
    intros [c cl] Hc%range_elem. destruct (wf_package_channel _ _ _ _ _ Hp Hpkg Hc) as (ch & n & bl & b & _ & _ & _ & _ & _ & _ & E).
    by rewrite E. }
  exists cs, dn, d. split_and!; [|done|by apply mapR_Ok].
  unfold Querier_GetPackage, find_package. simpl. rewrite Hp, Hpkg. simpl. rewrite Hcs. simpl.
  rewrite Hd. simpl. rewrite Hdch. simpl. by rewrite Hdn.
Qed.

(** On a valid model, the manifest of a package lists each of its channels
    with the name of the channel's head, its default channel is one of them, and
    the bundle served for a channel is the one served under the head's name. *)
Theorem GetPackage_spec p pl pkg :
  m !! p = Some pl → h_packages h !! pl = Some pkg →
  ∃ man, GetPackage q p = Ok man ∧ pm_PackageName man = p ∧ is_Some (channels_of pkg !! pm_DefaultChannelName man) ∧
    (∀ c n, mkPkgChannel c n ∈ pm_Channels man ↔
       ∃ cl ch bl, channels_of pkg !! c = Some cl ∧ h_channels h !! cl = Some ch ∧ is_head h ch bl ∧
                   bundles_of ch !! n = Some bl) ∧
    ∀ c n, mkPkgChannel c n ∈ pm_Channels man → GetBundleForChannel q p c = GetBundle q p c n.
Proof using All.
  intros Hp Hpkg. destruct (wf_GetPackage _ _ _ Hp Hpkg) as (cs & dn & d & E & Hd & Hcs).
  exists (mkManifest p cs dn). simpl. split; [done|]. split; [done|]. split; [by eexists|].
  assert (∀ c n, mkPkgChannel c n ∈ cs ↔ ∃ cl ch bl, channels_of pkg !! c = Some cl ∧ h_channels h !! cl = Some ch ∧
    is_head h ch bl ∧ bundles_of ch !! n = Some bl) as Hel.
  { intros c n. split.
    - intros Hin. apply (Forall2_elem_r _ _ _ _ Hcs) in Hin as ([c' cl] & Hcl%range_elem & HF).
      destruct (wf_package_channel _ _ _ _ _ Hp Hpkg Hcl) as (ch & n' & bl & b & Hch & _ & _ & Hhd & Hn & _ & E').
      rewrite E' in HF. simplify_eq. eauto 10.
    - intros (cl & ch & bl & Hcl & Hch & Hhd & Hn).
      destruct (wf_package_channel _ _ _ _ _ Hp Hpkg Hcl) as (ch' & n' & bl' & b & Hch' & Hvis & _ & Hhd' & Hn' & _ & E').
      simplify_eq. rewrite (is_head_unique _ _ _ Hhd' Hhd) in Hn'. rewrite (wf_bundle_key _ _ _ _ _ _ _ Hvis Hn Hn').
      apply range_elem in Hcl. apply (Forall2_elem_l _ _ _ _ Hcs) in Hcl as (y & Hy & HF). congruence. }
  split; [done|]. intros c n (cl & ch & bl & Hcl & Hch & Hhd & Hn)%Hel.
  assert (((p, c), (pkg, ch)) ∈ vis_channels h m) as Hvis by (apply elem_vis_channels; eauto 10).
  destruct (wf_channel_bundle _ _ _ _ _ _ Hvis Hn) as (_ & _ & b & Hb & _).
  etrans; [|symmetry; by eapply GetBundle_channel].
  unfold Querier_GetBundleForChannel. destruct (wf_find_package _ _ _ _ Hvis) as [_ ->]. simpl.
  apply Channel_Head_Ok in Hhd. rewrite Hhd. simpl. by rewrite Hb.
Qed.

(** *** Entries *)
Lemma wf_entriesThatReplace p c n b name :
  find_bundle h m p c n = Some b →
  channelEntriesThatReplace h b name =
    Ok (replicate ((if decide (Bundle_Replaces b = name) then 1 else 0) +
                   length (filter (λ s, s = name ∧ s ≠ Bundle_Replaces b) (Bundle_Skips b)))
                  (mkEntry p c n (Bundle_Replaces b))).
Proof using All.
  intros Hf. unfold channelEntriesThatReplace. rewrite (wf_entry _ _ _ _ _ Hf). simpl.
  assert (∀ l, collect (λ s, if decide (s = name ∧ s ≠ Bundle_Replaces b) then Ok [mkEntry p c n (Bundle_Replaces b)] else Ok []) l
    = Ok (replicate (length (filter (λ s, s = name ∧ s ≠ Bundle_Replaces b) l)) (mkEntry p c n (Bundle_Replaces b)))) as E.
  { induction l as [|s l IH]; [done|]. cbn [collect]. rewrite IH, filter_cons. by case_decide. }
  rewrite E. by case_decide.
Qed.
Lemma bundleReplaces_spec b name : bundleReplaces b name = true ↔ Bundle_Replaces b = name ∨ name ∈ Bundle_Skips b.
Proof.
  unfold bundleReplaces. rewrite orb_true_iff, bool_decide_eq_true, existsb_exists. setoid_rewrite bool_decide_eq_true.
  setoid_rewrite <- list_elem_of_In. naive_solver.
Qed.
Lemma replacing_count b name :
  0 < (if decide (Bundle_Replaces b = name) then 1 else 0) +
      length (filter (λ s, s = name ∧ s ≠ Bundle_Replaces b) (Bundle_Skips b)) ↔ bundleReplaces b name = true.
Proof.
  rewrite bundleReplaces_spec. case_decide as Hr; [split; [by left|lia]|]. simpl. split.
  - intros Hl. right. destruct (filter _ _) as [|s l] eqn:E; [simpl in Hl; lia|].
    assert (s ∈ filter (λ s, s = name ∧ s ≠ Bundle_Replaces b) (Bundle_Skips b)) as Hs by (rewrite E; left).
    apply list_elem_of_filter in Hs as [[-> _] ?]. done.
  - intros [?|Hs]; [done|]. destruct (filter _ _) as [|s l] eqn:E; [|simpl; lia].
    assert (name ∈ filter (λ s, s = name ∧ s ≠ Bundle_Replaces b) (Bundle_Skips b)) as Hs'
      by (apply list_elem_of_filter; auto). rewrite E in Hs'. by apply elem_of_nil in Hs'.
Qed.

(** On a valid model, the entries reported to replace a bundle are exactly
    those of the bundles that replace or skip it (each entry carrying what its
    bundle replaces), and an error is reported exactly when there is none. *)
Theorem GetChannelEntriesThatReplace_spec name :
  match GetChannelEntriesThatReplace q name with
  | Ok l => l ≠ [] ∧ ∀ e, e ∈ l ↔ ∃ p c n b, find_bundle h m p c n = Some b ∧
              (Bundle_Replaces b = name ∨ name ∈ Bundle_Skips b) ∧ e = mkEntry p c n (Bundle_Replaces b)
  | Err _ => ∀ p c n b, find_bundle h m p c n = Some b → Bundle_Replaces b ≠ name ∧ name ∉ Bundle_Skips b
  | Panic => False
  end.
Proof using All.
  simpl. unfold Querier_GetChannelEntriesThatReplace. rewrite each_bundle_eq by done. simpl.
  destruct (collect _ (vis_bundles h m)) as [l| |] eqn:E.
  2-3: exfalso; assert (is_Ok (collect (λ x, channelEntriesThatReplace h x.2 name) (vis_bundles h m))) as [? Hok]
    by (apply collect_is_Ok_iff; intros [[[p c] n] b] Hf%elem_vis_bundles; simpl; rewrite (wf_entriesThatReplace _ _ _ _ _ Hf);
        by eexists); by rewrite Hok in E.
  apply collect_got in E.
  assert (∀ e, e ∈ l ↔ ∃ p c n b, find_bundle h m p c n = Some b ∧ bundleReplaces b name = true ∧
                                  e = mkEntry p c n (Bundle_Replaces b)) as Hel.
  { intros e. rewrite E, list_elem_of_bind. split.
    - intros ([[[p c] n] b] & He & Hf%elem_vis_bundles). simpl in He. rewrite (wf_entriesThatReplace _ _ _ _ _ Hf) in He.
      simpl in He. apply elem_of_replicate in He as [-> Hk]. exists p, c, n, b. split_and!; [done| |done].
      apply replacing_count. lia.
    - intros (p & c & n & b & Hf & Hr & ->). exists ((p, c, n), b). rewrite elem_vis_bundles. split; [|done]. simpl.
      rewrite (wf_entriesThatReplace _ _ _ _ _ Hf). simpl. apply elem_of_replicate. split; [done|]. apply replacing_count in Hr. lia. }
  setoid_rewrite bundleReplaces_spec in Hel. simpl. clear E. destruct l as [|e l]; simpl.
  - intros p c n b Hf. assert (¬ (Bundle_Replaces b = name ∨ name ∈ Bundle_Skips b)) as Hn; [|tauto].
    intros Hr. apply (elem_of_nil (mkEntry p c n (Bundle_Replaces b))), Hel. eauto 10.
  - split; [done|]. exact Hel.
Qed.

Lemma wf_entriesForBundle p c n b ignore :
  find_bundle h m p c n = Some b →
  ∃ l, channelEntriesForBundle h b ignore = Ok l ∧ l ≠ [] ∧
    Forall (λ e, (ce_PackageName e, ce_ChannelName e, ce_BundleName e) = (p, c, n)) l.
Proof using All.
  intros Hf. destruct (wf_bundle _ _ _ _ Hf) as (_ & _ & pkg & ch & Hin & _).
  unfold channelEntriesForBundle. rewrite (wf_entry _ _ _ _ _ Hf), (wf_channel_obj _ _ _ _ _ _ Hf Hin). simpl.
  assert (∀ skips, ∃ l, collect (λ s, if decide (s ≠ Bundle_Replaces b ∧ (ignore = true ∨ is_Some (bundles_of ch !! s)))
     then e ← entry_of h b s; Ok [e] else Ok []) skips = Ok l ∧
     Forall (λ e, (ce_PackageName e, ce_ChannelName e, ce_BundleName e) = (p, c, n)) l) as Hl.
  { induction skips as [|s skips (l & IH & Hl)]; [by eexists|]. cbn [collect]. rewrite IH.
    destruct (decide (s ≠ Bundle_Replaces b ∧ (ignore = true ∨ is_Some (bundles_of ch !! s)))); [rewrite (wf_entry _ _ _ _ _ Hf)|]; simpl; eexists; (split; [done|]); [by constructor|done]. }
  destruct (Hl (Bundle_Skips b)) as (l & E & HF). rewrite E. simpl. eexists. split; [done|]. split; [done|]. by constructor.
Qed.
Lemma wf_provide_no_panic p c n b g v k : find_bundle h m p c n = Some b → doesModelBundleProvide h b g v k ≠ Panic.
Proof using All.
  intros Hf. unfold doesModelBundleProvide. pose proof (wf_convert_no_panic _ _ _ _ Hf). by destruct (convert_bundle h b).
Qed.

(** *** Latest entries *)
Lemma wf_latest p c pkg ch g v k :
  ((p, c), (pkg, ch)) ∈ vis_channels h m →
  ∃ n b, find_bundle h m p c n = Some b ∧ head_bundle q (Package_Name pkg) ch = Ok b ∧
    (∀ bl n', is_head h ch bl → bundles_of ch !! n' = Some bl → n' = n) ∧
    doesModelBundleProvide h b g v k ≠ Panic ∧ is_Ok (channelEntriesForBundle h b false).
Proof using All.
  intros Hin. destruct (wf_head _ _ _ _ Hin) as (n & bl & b & Hhd & Hn & Hb & Hf & Hh).
  destruct (wf_head_bundle _ _ _ _ (Package_Name pkg) _ _ _ Hin Hh Hn Hb) as [Hhb _].
  exists n, b. split_and!; try done.
  - intros bl' n' Hhd' Hn'. rewrite (is_head_unique _ _ _ Hhd' Hhd) in Hn'. by eapply wf_bundle_key.
  - by eapply wf_provide_no_panic.
  - destruct (wf_entriesForBundle _ _ _ _ false Hf) as (l & E & _). by eexists.
Qed.
(** Each latest entry belongs to the head of its channel. *)
Definition entry_ok (e : ChannelEntry) : Prop :=
  ∃ pkg ch bl, ((ce_PackageName e, ce_ChannelName e), (pkg, ch)) ∈ vis_channels h m ∧ is_head h ch bl ∧
    bundles_of ch !! ce_BundleName e = Some bl.
Lemma wf_latest_entries g v k l :
  Querier_GetLatestChannelEntriesThatProvide q g v k = Ok l → Forall entry_ok l.
Proof using All.
  unfold Querier_GetLatestChannelEntriesThatProvide. rewrite each_channel_eq by done. intros Hb.
  apply bind_Ok in Hb as (es & Hes & Hor). assert (l = es) as -> by (destruct es; simpl in Hor; congruence).
  apply collect_got in Hes. rewrite Hes. apply Forall_forall. intros e. rewrite list_elem_of_bind.
  intros ([[p c] [pkg ch]] & He & Hin). simpl in He.
  destruct (wf_head _ _ _ _ Hin) as (n & bl & b & Hhd & Hn & Hbb & Hf & Hh).
  destruct (wf_head_bundle _ _ _ _ (Package_Name pkg) _ _ _ Hin Hh Hn Hbb) as [Hhb _]. rewrite Hhb in He. simpl in He.
  destruct (doesModelBundleProvide h b g v k) as [[]| |]; simpl in He; try by apply elem_of_nil in He.
  destruct (wf_entriesForBundle _ _ _ _ false Hf) as (l & El & _ & HF). rewrite El in He. simpl in He.
  rewrite Forall_forall in HF. specialize (HF _ He). unfold entry_ok. simplify_eq. eauto 10.
Qed.
Lemma wf_latest_no_panic g v k : Querier_GetLatestChannelEntriesThatProvide q g v k ≠ Panic.
Proof using All.
  unfold Querier_GetLatestChannelEntriesThatProvide. rewrite each_channel_eq by done.
  assert (collect (λ x, b ← head_bundle q (Package_Name x.2.1) x.2.2; provides ← doesModelBundleProvide (q_heap q) b g v k;
    if (provides : bool) then channelEntriesForBundle (q_heap q) b false else Ok []) (vis_channels h m) ≠ Panic) as Hn.
  { apply collect_no_panic. intros [[p c] [pkg ch]] Hin. simpl.
    destruct (wf_latest _ _ _ _ g v k Hin) as (n & b & _ & Hhb & _ & Hp & [l Hl]). rewrite Hhb. simpl.
    destruct (doesModelBundleProvide h b g v k) as [[]| |]; simpl; try done. by rewrite Hl. }
  destruct (collect _ _) as [[]| |]; done.
Qed.

(** The default channel of a package, and the first entry of one. *)
Definition default_name (p : string) : option string :=
  pl ← m !! p; pkg ← h_packages h !! pl; d ← Package_DefaultChannel pkg; ch ← h_channels h !! d; Some (Channel_Name ch).
Lemma default_entry_eq es :
  default_entry q es = Ok (head (filter (λ e, default_name (ce_PackageName e) = Some (ce_ChannelName e)) es)).
Proof using All.
  induction es as [|e es IH]; [done|]. cbn [default_entry]. rewrite filter_cons, IH. simpl.
  destruct (m !! ce_PackageName e) as [pl|] eqn:Hp; simpl.
  2:{ by rewrite decide_False by (unfold default_name; by rewrite Hp). }
  destruct (Hwf _ _ Hp) as (pkg & Hpkg & _ & Hpwf). destruct (pwf_default _ _ _ Hpwf) as (dn & d & Hd & Hdc).
  destruct (pwf_channels _ _ _ Hpwf _ _ Hdc) as (ch & Hch & _).
  assert (default_name (ce_PackageName e) = Some (Channel_Name ch)) as Hdef.
  { unfold default_name. rewrite Hp. simpl. rewrite Hpkg. simpl. rewrite Hd. simpl. by rewrite Hch. }
  rewrite Hpkg. simpl. rewrite Hd. simpl. rewrite Hch. simpl.
  destruct (decide (ce_ChannelName e = Channel_Name ch)) as [E|E].
  - by rewrite decide_True by congruence.
  - by rewrite decide_False by congruence.
Qed.

Lemma wf_GetBundle_no_panic p c n : Querier_GetBundle q p c n ≠ Panic.
Proof using All.
  unfold Querier_GetBundle. destruct (find_channel_cases p c) as [(pkg & ch & Hin & E)|[e E]]; rewrite E; simpl; [|done].
  destruct (bundles_of ch !! n) as [bl|] eqn:Hn; [|done].
  destruct (wf_channel_bundle _ _ _ _ _ _ Hin Hn) as (_ & _ & b & Hb & _ & _ & _ & _ & _ & _ & _ & Hf). rewrite Hb. simpl.
  pose proof (wf_convert_no_panic _ _ _ _ Hf). by destruct (convert_bundle h b).
Qed.

(** No query panics on a valid model, whatever its arguments. *)
Theorem Querier_no_panic : safe_query (NewQuerier h m).
Proof using All.
  intros a b c. simpl. split_and!.
  - done.
  - unfold Querier_ListBundles. rewrite each_bundle_eq by done. apply collect_no_panic. intros [[[p ch] n] b'] Hf%elem_vis_bundles.
    simpl. pose proof (wf_convert_no_panic _ _ _ _ Hf). by destruct (convert_bundle h b').
  - destruct (m !! a) as [pl|] eqn:Hp; [|unfold Querier_GetPackage, find_package; simpl; by rewrite Hp].
    destruct (Hwf _ _ Hp) as (pkg & Hpkg & _). by destruct (wf_GetPackage _ _ _ Hp Hpkg) as (? & ? & ? & -> & _).
  - apply wf_GetBundle_no_panic.
  - unfold Querier_GetBundleForChannel. destruct (find_channel_cases a b) as [(pkg & ch & Hin & E)|[e E]]; rewrite E; simpl; [|done].
    destruct (wf_head _ _ _ _ Hin) as (n & bl & b' & _ & _ & Hb & Hf & Hh). rewrite Hh. simpl. rewrite Hb. simpl.
    pose proof (wf_convert_no_panic _ _ _ _ Hf). by destruct (convert_bundle h b').
  - pose proof (wf_entriesThatReplace) as He. unfold Querier_GetChannelEntriesThatReplace. rewrite each_bundle_eq by done.
    assert (collect (λ x, channelEntriesThatReplace (q_heap q) x.2 a) (vis_bundles h m) ≠ Panic) as Hn.
    { apply collect_no_panic. intros [[[p ch] n] b'] Hf%elem_vis_bundles. simpl. by rewrite (He _ _ _ _ _ Hf). }
    destruct (collect _ _) as [[]| |]; done.
  - unfold Querier_GetBundleThatReplaces. simpl. destruct (m !! b) as [pl|]; simpl; [|done].
    destruct (find_channel_cases b c) as [(pkg & ch & Hin & E)|[e E]]; rewrite E; simpl; [|done].
    assert (∀ es, (∀ n bl, (n, bl) ∈ es → bundles_of ch !! n = Some bl) →
      (∃ b' n, first_replacing q a es = Ok (Some b') ∧ find_bundle h m b c n = Some b') ∨ first_replacing q a es = Ok None) as Hfr.
    { induction es as [|[n bl] es IH]; intros Hes; [by right|]. cbn [first_replacing]. simpl.
      destruct (wf_channel_bundle _ _ _ _ _ _ Hin (Hes n bl (list_elem_of_here _ _))) as (_ & _ & b' & Hb & _ & _ & _ & _ & _ & _ & _ & Hf).
      rewrite Hb. simpl. destruct (bundleReplaces b' a); [left; eauto|]. apply IH. intros. apply Hes. by right. }
    destruct (Hfr (range (bundles_of ch))) as [(b' & n & -> & Hf)| ->]; [intros n bl; by rewrite range_elem| |done].
    simpl. pose proof (wf_convert_no_panic _ _ _ _ Hf). by destruct (convert_bundle h b').
  - unfold Querier_GetChannelEntriesThatProvide. rewrite each_bundle_eq by done.
    assert (collect (λ x, provides ← doesModelBundleProvide (q_heap q) x.2 a b c;
      if (provides : bool) then channelEntriesForBundle (q_heap q) x.2 true else Ok []) (vis_bundles h m) ≠ Panic) as Hn.
    { apply collect_no_panic. intros [[[p ch] n] b'] Hf%elem_vis_bundles. simpl.
      pose proof (wf_provide_no_panic _ _ _ _ a b c Hf). destruct (wf_entriesForBundle _ _ _ _ true Hf) as (l & El & _).
      destruct (doesModelBundleProvide h b' a b c) as [[]| |]; simpl; try done. by rewrite El. }
    destruct (collect _ _) as [[]| |]; done.
  - apply wf_latest_no_panic.
  - unfold Querier_GetBundleThatProvides. pose proof (wf_latest_no_panic a b c) as Hn.
    destruct (Querier_GetLatestChannelEntriesThatProvide q a b c); simpl; [|done..].
    rewrite default_entry_eq. simpl. destruct (head _); [apply wf_GetBundle_no_panic|done].
Qed.
End valid.

(** ** Two runs of the same query *)
Section two_runs.
Context (R1 R2 : GoRuntime) (h : heap) (m : model_Model).
Hypothesis Hwf : model_wf h m.
Local Abbreviation q := (NewQuerier h m).

Lemma vis_channels_perm : vis_channels (H := R1) h m ≡ₚ vis_channels (H := R2) h m.
Proof using All.
  apply NoDup_Permutation; [apply NoDup_vis_channels..|].
  intros [[p c] [pkg ch]]. by rewrite !elem_vis_channels.
Qed.
Lemma head_bundle_same p c pkg ch name :
  ((p, c), (pkg, ch)) ∈ vis_channels (H := R1) h m → head_bundle (H := R1) q name ch = head_bundle (H := R2) q name ch.
Proof using All.
  intros Hin. destruct (@wf_head R1 h m Hwf _ _ _ _ Hin) as (n & bl & b & Hhd & _ & _ & _ & E1).
  apply (@Channel_Head_Ok R2) in Hhd as E2. unfold head_bundle. simpl. by rewrite E1, E2.
Qed.
Lemma latest_perm g v k l :
  Querier_GetLatestChannelEntriesThatProvide (H := R1) q g v k = Ok l →
  ∃ l', Querier_GetLatestChannelEntriesThatProvide (H := R2) q g v k = Ok l' ∧ l ≡ₚ l'.
Proof using All.
  unfold Querier_GetLatestChannelEntriesThatProvide. rewrite !each_channel_eq by done. intros Hb.
  apply bind_Ok in Hb as (es & Hes & Hor). assert (l = es ∧ es ≠ []) as [-> Hne] by (destruct es; simpl in Hor; naive_solver).
  rewrite (collect_ext _ (λ x, b ← head_bundle (H := R2) q (Package_Name x.2.1) x.2.2; provides ← doesModelBundleProvide (q_heap q) b g v k;
    if (provides : bool) then channelEntriesForBundle (q_heap q) b false else Ok [])) in Hes.
  2:{ intros [[p c] [pkg ch]] Hin. simpl. by rewrite (head_bundle_same _ _ _ _ _ Hin). }
  destruct (collect_Permutation _ _ _ _ vis_channels_perm Hes) as (es' & -> & Hp). simpl.
  exists es'. split; [|done]. destruct es'; [by apply Permutation_nil_r in Hp|done].
Qed.

(** The default entries of one package all name the same bundle. *)
Lemma default_entry_unique e1 e2 :
  entry_ok (H := R1) h m e1 → entry_ok (H := R1) h m e2 → ce_PackageName e1 = ce_PackageName e2 →
  default_name h m (ce_PackageName e1) = Some (ce_ChannelName e1) →
  default_name h m (ce_PackageName e2) = Some (ce_ChannelName e2) →
  ce_ChannelName e1 = ce_ChannelName e2 ∧ ce_BundleName e1 = ce_BundleName e2.
Proof using All.
  intros (pkg1 & ch1 & bl1 & Hin1 & Hh1 & Hn1) (pkg2 & ch2 & bl2 & Hin2 & Hh2 & Hn2) Hp Hd1 Hd2.
  assert (ce_ChannelName e1 = ce_ChannelName e2) as Hc by congruence. split; [done|].
  rewrite <- Hp, <- Hc in Hin2. pose proof Hin1 as Hin.
  apply elem_vis_channels in Hin1 as (? & ? & ? & ? & ? & ?), Hin2 as (? & ? & ? & ? & ? & ?). simplify_eq.
  rewrite (@is_head_unique R1 h m Hwf _ _ _ Hh2 Hh1) in Hn2. by eapply (@wf_bundle_key R1 h m Hwf _ _ _ _ _ _ _ Hin).
Qed.
End two_runs.

Lemma entry_lt_strict_weak : strict_weak entry_lt.
Proof.
  unfold entry_lt. split; intros; [by apply str_lt_antisym|by eapply str_ge_trans].
Qed.
(** The first match in a sorted list is a least one. *)
Lemma head_filter_least {A} (P : A → Prop) `{!∀ x, Decision (P x)} (lt : A → A → bool) l x :
  StronglySorted (λ x y, lt y x = false) l → (∀ x, lt x x = false) →
  head (filter P l) = Some x → x ∈ l ∧ P x ∧ ∀ y, y ∈ l → P y → lt y x = false.
Proof.
  intros Hs Hirr. induction Hs as [|a l Hs IH Ha]; [done|]. rewrite filter_cons. case_decide as HP.
  - intros [= ->]. split_and!; [left|done|]. intros y [->|Hy]%elem_of_cons _; [done|].
    rewrite Forall_forall in Ha. by apply Ha.
  - intros (Hin & Hx & Hl)%IH. split_and!; [by right|done|]. intros y [->|Hy]%elem_of_cons ?; [done|]. by apply Hl.
Qed.

(** Selecting the default entry from two permutations of the latest entries. *)
Lemma select_same (R1 R2 : GoRuntime) h m l1 l2 :
  model_wf h m → Forall (entry_ok (H := R1) h m) l1 → l1 ≡ₚ l2 →
  let D e := default_name h m (ce_PackageName e) = Some (ce_ChannelName e) in
  match head (filter D (sort_slice (GoRuntime := R1) entry_lt l1)), head (filter D (sort_slice (GoRuntime := R2) entry_lt l2)) with
  | Some e1, Some e2 => (ce_PackageName e1, ce_ChannelName e1, ce_BundleName e1) = (ce_PackageName e2, ce_ChannelName e2, ce_BundleName e2)
  | None, None => True
  | _, _ => False
  end.
Proof.
  intros Hwf Hok Hp D.
  assert (∀ e, entry_lt e e = false) as Hirr.
  { intros e. destruct (entry_lt e e) eqn:E; [|done]. by rewrite (proj1 entry_lt_strict_weak e e E) in E. }
  assert (sort_slice (GoRuntime := R1) entry_lt l1 ≡ₚ sort_slice (GoRuntime := R2) entry_lt l2) as Hs by (by rewrite !sort_slice_perm).
  pose proof (sort_slice_sorted (GoRuntime := R1) entry_lt l1 entry_lt_strict_weak) as S1.
  pose proof (sort_slice_sorted (GoRuntime := R2) entry_lt l2 entry_lt_strict_weak) as S2.
  destruct (head (filter D (sort_slice (GoRuntime := R1) entry_lt l1))) as [e1|] eqn:E1,
    (head (filter D (sort_slice (GoRuntime := R2) entry_lt l2))) as [e2|] eqn:E2; [| | |done].
  - apply (head_filter_least D _ _ _ S1 Hirr) in E1 as (Hin1 & HD1 & Hl1).
    apply (head_filter_least D _ _ _ S2 Hirr) in E2 as (Hin2 & HD2 & Hl2).
    assert (ce_PackageName e1 = ce_PackageName e2) as Hpk.
    { apply str_lt_total; [apply Hl2; [by rewrite <- Hs|done]|apply Hl1; [by rewrite Hs|done]]. }
    rewrite Forall_forall in Hok.
    destruct (default_entry_unique R1 R2 h m Hwf e1 e2) as [-> ->]; try done; [apply Hok..|by rewrite Hpk].
    + by rewrite sort_slice_perm in Hin1.
    + by rewrite sort_slice_perm, <- Hp in Hin2.
  - apply (head_filter_least D _ _ _ S1 Hirr) in E1 as (Hin1 & HD1 & _).
    assert (e1 ∈ filter D (sort_slice (GoRuntime := R2) entry_lt l2)) as Hin by (apply list_elem_of_filter; by rewrite <- Hs).
    destruct (filter D (sort_slice (GoRuntime := R2) entry_lt l2)); [by apply elem_of_nil in Hin|done].
  - apply (head_filter_least D _ _ _ S2 Hirr) in E2 as (Hin2 & HD2 & _).
    assert (e2 ∈ filter D (sort_slice (GoRuntime := R1) entry_lt l1)) as Hin by (apply list_elem_of_filter; by rewrite Hs).
    destruct (filter D (sort_slice (GoRuntime := R1) entry_lt l1)); [by apply elem_of_nil in Hin|done].
Qed.

(** C10. On a valid model, [GetBundleThatProvides] picks the same bundle whatever
    the order in which the maps are visited and however the sort treats entries
    of the same package. *)
Theorem GetBundleThatProvides_deterministic (R1 R2 : GoRuntime) h m g v k :
  model_wf h m →
  match GetBundleThatProvides (GRPCQuery := @Querier_GRPCQuery R1) (NewQuerier h m) g v k,
        GetBundleThatProvides (GRPCQuery := @Querier_GRPCQuery R2) (NewQuerier h m) g v k with
  | Ok b1, Ok b2 => b1 = b2
  | Err _, Err _ => True
  | _, _ => False
  end.
Proof.
  intros Hwf. pose proof (@wf_latest_no_panic R1 h m Hwf g v k) as Hl1. pose proof (@wf_latest_no_panic R2 h m Hwf g v k) as Hl2.
  simpl. unfold Querier_GetBundleThatProvides.
  destruct (Querier_GetLatestChannelEntriesThatProvide (H := R1) (NewQuerier h m) g v k) as [l1|e1|] eqn:E1; [| |done].
  2:{ destruct (Querier_GetLatestChannelEntriesThatProvide (H := R2) (NewQuerier h m) g v k) as [l2|e2|] eqn:E2; [|done|done].
      destruct (latest_perm R2 R1 h m Hwf _ _ _ _ E2) as (? & ? & _). congruence. }
  destruct (latest_perm R1 R2 h m Hwf _ _ _ _ E1) as (l2 & E2 & Hp). rewrite E2. simpl.
  apply (@wf_latest_entries R1 h m Hwf) in E1. pose proof (select_same R1 R2 h m l1 l2 Hwf E1 Hp) as Hsel.
  rewrite !(@default_entry_eq R1 h m Hwf). simpl in *.
  destruct (head (filter _ (sort_slice (GoRuntime := R1) _ _))) as [e1|], (head (filter _ (sort_slice (GoRuntime := R2) _ _))) as [e2|]; try done.
  injection Hsel as -> -> ->. pose proof (@wf_GetBundle_no_panic R1 h m Hwf (ce_PackageName e2) (ce_ChannelName e2) (ce_BundleName e2)).
  by destruct (Querier_GetBundle _ _ _ _).
Qed.

(** ** The small model of [Model] *)
Lemma ex_wf : model_wf ex_heap ex_model.
Proof. apply (@Model_Validate_model_wf go_default), ex_model_valid. Qed.

Lemma ListBundles_spec_witness : is_Ok (ListBundles (GRPCQuery := @Querier_GRPCQuery go_default) (NewQuerier ex_heap ex_model)).
Proof.
  apply (@ListBundles_spec go_default ex_heap ex_model ex_wf). intros p c n b Hf.
  apply (@elem_vis_bundles go_default) in Hf. vm_compute in Hf.
  repeat (apply elem_of_cons in Hf as [Hf|Hf]; [injection Hf as -> -> -> ->; eexists; vm_compute; reflexivity|]).
  by apply elem_of_nil in Hf.
Defined.
Lemma GetPackage_spec_witness :
  ∃ man, GetPackage (GRPCQuery := @Querier_GRPCQuery go_default) (NewQuerier ex_heap ex_model) "p" = Ok man ∧ pm_PackageName man = "p".
Proof.
  destruct (@GetPackage_spec go_default ex_heap ex_model ex_wf "p" 1%positive
    (mkPackage "p" "" None (Some 1%positive) (Some {["c" := 1%positive]}))) as (man & E & Hn & _); [reflexivity..|]. eauto.
Defined.
Lemma GetChannelEntriesThatReplace_spec_witness :
  match GetChannelEntriesThatReplace (GRPCQuery := @Querier_GRPCQuery go_default) (NewQuerier ex_heap ex_model) "p.v1" with
  | Ok l => l ≠ []
  | _ => False
  end.
Proof.
  pose proof (@GetChannelEntriesThatReplace_spec go_default ex_heap ex_model ex_wf "p.v1") as Hs.
  destruct (GetChannelEntriesThatReplace _ _) as [l| |] eqn:E; [by destruct Hs| |done].
  vm_compute in E. discriminate.
Defined.
Lemma Querier_no_panic_witness :
  GetBundleThatReplaces (GRPCQuery := @Querier_GRPCQuery go_default) (NewQuerier ex_heap ex_model) "p.v1" "p" "c" ≠ Panic.
Proof. apply (@Querier_no_panic go_default ex_heap ex_model ex_wf "p.v1" "p" "c"). Defined.
Lemma GetBundleThatProvides_deterministic_witness :
  match GetBundleThatProvides (GRPCQuery := @Querier_GRPCQuery go_default) (NewQuerier ex_heap ex_model) "g" "v" "k" with
  | Panic => False | _ => True
  end.
Proof.
  pose proof (GetBundleThatProvides_deterministic go_default go_default ex_heap ex_model "g" "v" "k" ex_wf) as Hs.
  destruct (GetBundleThatProvides _ _ _ _); done.
Defined.
