(* ===== verification/Conversion.v ===== *)
(** * Messages and bundle strings

    [pkg/registry/conversion.go] and [NewBundleFromStrings] of [bundle.go]: the
    conversions of manifests and entries to messages, and the splitting of a
    bundle string (its objects, one JSON text after the other) into objects.

    A [json.Decoder] reads one value after the other from a text; a value is
    returned as the bytes it was written with.  Reading an object as a Kubernetes
    object is the Kubernetes libraries' and a parameter. *)
From S2P Require Import Prelude Json JsonCompact JsonStream Property JsonTotal Model ModelOps Declcfg DeclcfgConv DeclcfgRoundtrip DeclcfgWrite DeclcfgLoad RegistryTypes RegistryBundle RegistryBundleSpec Api Query.
From stdpp Require Import options.

Record api_Channel := mkAChannel { ac_Name : string; ac_CsvName : string }.
Record api_Package := mkAPackage { ap_Name : string; ap_Channels : list api_Channel; ap_DefaultChannelName : string }.
Record api_ChannelEntry := mkAEntry {
  ace_PackageName : string; ace_ChannelName : string; ace_BundleName : string; ace_Replaces : string
}.

Definition PackageChannelToAPIChannel (c : PackageChannel) : api_Channel := mkAChannel (pch_Name c) (pch_CurrentCSVName c).
Definition PackageManifestToAPIPackage (m : PackageManifest) : api_Package :=
  mkAPackage (pm_PackageName m) (PackageChannelToAPIChannel <$> pm_Channels m) (pm_DefaultChannelName m).
Definition ChannelEntryToAPIChannelEntry (e : ChannelEntry) : api_ChannelEntry :=
  mkAEntry (ce_PackageName e) (ce_ChannelName e) (ce_BundleName e) (ce_Replaces e).

(** [Decoder.More]: there is another value to read. *)
Definition more (s : string) : bool :=
  match skip_ws s with
  | EmptyString => false
  | String c _ => negb (bool_decide (c = "]"%char) || bool_decide (c = "}"%char))
  end.
(** [Decoder.Decode] into a [json.RawMessage]: the bytes of the next value and
    what follows it. *)
Definition decode_raw (s : string) : option (string * string) :=
  let s' := skip_ws s in
  match parse_value (2 * String.length s' + 2) s' with
  | Some (_, rest) => Some (consumed s' rest, rest)
  | None => None
  end.
(** Each value takes at least one byte: the length of the text is enough fuel. *)
Fixpoint decode_all (fuel : nat) (s : string) : res (list string) :=
  if more s then
    match fuel with
    | O => Err json_error
    | S n =>
        match decode_raw s with
        | Some (raw, rest) => objs ← decode_all n rest; Ok (raw :: objs)
        | None => Err json_error
        end
    end
  else Ok [].
Definition BundleStringToObjectStrings (bundleString : string) : res (list string) :=
  decode_all (String.length bundleString) bundleString.

(** [decode]: the kind and the name of an object. *)
Definition BundleStringToAPIBundle (decode : string → res (string * string)) (bundleString : string) : res api_Bundle :=
  objs ← BundleStringToObjectStrings bundleString;
  let fix find (l : list string) : res (option (string * string)) :=
    match l with
    | [] => Ok None
    | o :: l' =>
        u ← decode o;
        if decide (u.1 = "ClusterServiceVersion") then Ok (Some (u.2, o)) else find l'
    end in
  csv ← find objs;
  let '(name, json) := default ("", "") csv in
  if decide (name = "") then Err (ErrNew "no csv in bundle")
  else Ok (mkABundle name "" "" json objs "" [] [] "" "" [] [] "" []).

Definition NewBundleFromStrings (decode : string → res k8s_object) (name version pkg defaultChannel channels objs : string)
    : res registry_Bundle :=
  objStrs ← BundleStringToObjectStrings objs;
  unstObjs ← mapR decode objStrs;
  bundle ← NewBundle name (Some (mkAnnotations pkg channels defaultChannel)) unstObjs;
  Ok (set_version bundle version).

(** ** Splitting what was concatenated *)
(** A JSON object written without surrounding white space. *)
Definition object_text (s : string) : Prop :=
  ∃ n ms, parse_value n s = Some (JObj ms, "") ∧ n ≤ 2 * String.length s + 2 ∧ ∃ s', s = String "{" s'.

Lemma skip_ws_object s t : object_text s → skip_ws (s +:+ t) = s +:+ t.
Proof. intros (n & ms & _ & _ & s' & ->). done. Qed.
Lemma decode_raw_object s t : object_text s → decode_raw (s +:+ t) = Some (s, t).
Proof.
  intros Hs. unfold decode_raw. rewrite skip_ws_object by done. destruct Hs as (n & ms & Hp & Hn & s' & Es).
  pose proof (proj1 (parse_ext n t) _ _ _ Hp (or_intror eq_refl)) as He. change ("" +:+ t) with t in He.
  rewrite (proj1 (parse_fuel n) (2 * String.length (s +:+ t) + 2) _ _ ltac:(rewrite str_app_length; lia) He).
  by rewrite consumed_app.
Qed.
Lemma more_object s t : object_text s → more (s +:+ t) = true.
Proof. intros Hs. unfold more. rewrite skip_ws_object by done. by destruct Hs as (n & ms & _ & _ & s' & ->). Qed.
Lemma object_text_length s : object_text s → 1 ≤ String.length s.
Proof. intros (n & ms & _ & _ & s' & ->). simpl. lia. Qed.

Definition concat_strings (l : list string) : string := foldr (λ s acc, s +:+ acc) "" l.
Lemma decode_all_concat objs fuel t :
  Forall object_text objs → length objs ≤ fuel → more t = false →
  decode_all fuel (concat_strings objs +:+ t) = Ok objs.
Proof.
  intros Ho. revert fuel. induction Ho as [|o objs Ho _ IH]; intros fuel Hf Ht; simpl.
  - change ("" +:+ t) with t. destruct fuel; simpl; by rewrite Ht.
  - destruct fuel as [|n]; simpl in Hf; [lia|]. rewrite <- str_app_assoc. cbn [decode_all].
    rewrite more_object, decode_raw_object by done. rewrite IH by (done || lia). done.
Qed.
Lemma concat_strings_length objs : Forall object_text objs → length objs ≤ String.length (concat_strings objs).
Proof.
  induction 1 as [|o objs Ho _ IH]; simpl; [lia|]. rewrite str_app_length. apply object_text_length in Ho. lia.
Qed.

(** The bundle string [Serialize] writes, the bytes of its objects one after
    the other, is split by [BundleStringToObjectStrings] into exactly these
    objects, whatever white space follows. *)
Theorem bundle_string_roundtrip objs ws :
  Forall object_text objs → skip_ws ws = "" →
  BundleStringToObjectStrings (concat_strings objs +:+ ws) = Ok objs.
Proof.
  intros Ho Hw. unfold BundleStringToObjectStrings. apply decode_all_concat; [done| |].
  - rewrite str_app_length. pose proof (concat_strings_length objs Ho). lia.
  - unfold more. by rewrite Hw.
Qed.
Lemma bundle_string_roundtrip_witness :
  BundleStringToObjectStrings (concat_strings [print_struct true [("kind", "a}{b")]; "{ }"] +:+ newline) =
    Ok [print_struct true [("kind", "a}{b")]; "{ }"].
Proof.
  apply bundle_string_roundtrip; [|reflexivity].
  apply Forall_cons; split; [|apply Forall_cons; split; [|apply Forall_nil; exact I]].
  - exists 8. eexists. split; [vm_compute; reflexivity|]. split; [vm_compute; lia|]. eexists. reflexivity.
  - exists 8. eexists. split; [vm_compute; reflexivity|]. split; [vm_compute; lia|]. eexists. reflexivity.
Defined.

(** ** Termination *)
Lemma scans_length s r : scans s r → String.length r ≤ String.length s.
Proof. intros (p & -> & _). rewrite str_app_length. lia. Qed.
Lemma num_shorter s x r : parse_num s = Some (x, r) → String.length r < String.length s.
Proof.
  unfold parse_num. set (s0 := match s with EmptyString => s | String c s' => if decide (c = "-"%char) then s' else s end).
  assert (String.length s0 ≤ String.length s) as H0 by (unfold s0; destruct s; [done|]; case_decide; simpl; lia).
  destruct (num_int s0) as [s1|] eqn:E1; cbn [mbind option_bind]; [|done].
  destruct (num_frac s1) as [s2|] eqn:E2; cbn [mbind option_bind]; [|done]. destruct (num_exp s2) as [s3|] eqn:E3; cbn [mbind option_bind]; [|done]. intros [= _ <-].
  assert (String.length s1 < String.length s0) as H1.
  { destruct s0 as [|c s']; [done|]. simpl in *. pose proof (scans_length _ _ (skip_digits_scans s')).
    case_decide; [simplify_eq; lia|]. destruct (is_digit c); simplify_eq; lia. }
  assert (String.length s2 ≤ String.length s1) as H2.
  { destruct s1 as [|c s']; simpl in E2; [by simplify_eq|]. case_decide; [|by simplify_eq].
    apply digits1_scans, scans_length in E2. simpl. lia. }
  assert (String.length s3 ≤ String.length s2); [|lia].
  destruct s2 as [|c s']; simpl in E3; [by simplify_eq|]. case_decide; [|by simplify_eq].
  destruct s' as [|d s'']; [done|]. case_decide; apply digits1_scans, scans_length in E3; simpl in *; lia.
Qed.
Lemma parse_value_shorter n s v r : parse_value n s = Some (v, r) → String.length r < String.length s.
Proof.
  destruct n as [|n]; [done|]. cbn [parse_value]. destruct s as [|c s1]; [done|].
  assert (∀ A (f : A → json) (o : option (A * string)), prod_map f id <$> o = Some (v, r) → ∃ w, o = Some (w, r)) as Hinv.
  { intros A f [[w q]|]; simpl; [|done]. intros E. injection E as _ <-. by exists w. }
  pose proof (scans_length _ _ (skip_ws_scans s1)) as Hws.
  case_decide; [intros (w & Hw)%Hinv; apply parse_str_scans in Hw as (p & -> & _); simpl; rewrite str_app_length; lia|].
  case_decide.
  { destruct (skip_ws s1) as [|d s2]; [done|]. case_decide; [intros [= _ <-]; simpl in *; lia|].
    intros (w & Hw)%Hinv. apply (proj1 (proj2 (parse_scans n))), scans_length in Hw. simpl in *. lia. }
  case_decide.
  { destruct (skip_ws s1) as [|d s2]; [done|]. case_decide; [intros [= _ <-]; simpl in *; lia|].
    intros (w & Hw)%Hinv. apply (proj2 (proj2 (parse_scans n))), scans_length in Hw. simpl in *. lia. }
  do 3 (case_decide; [destruct (strip_prefix _ s1) as [q|] eqn:Hq; [|done]; intros [= _ <-];
    apply strip_prefix_scans, scans_length in Hq; [simpl; lia|done]|]).
  intros (w & Hw)%Hinv. by apply num_shorter in Hw.
Qed.
Lemma decode_raw_shorter s raw rest : decode_raw s = Some (raw, rest) → String.length rest < String.length s.
Proof.
  unfold decode_raw. destruct (parse_value _ (skip_ws s)) as [[v r]|] eqn:Hp; [|done]. intros [= _ <-].
  apply parse_value_shorter in Hp. pose proof (scans_length _ _ (skip_ws_scans s)). lia.
Qed.

(** Splitting a bundle string terminates on every text: with as much fuel as
    the text has bytes the decoder never runs out, so more fuel gives the same
    result, and each call is on a strictly shorter text. *)
Theorem decode_all_enough_fuel s fuel :
  String.length s ≤ fuel → decode_all fuel s = BundleStringToObjectStrings s.
Proof.
  unfold BundleStringToObjectStrings. remember (String.length s) as n eqn:Hn. intros Hf.
  assert (∀ k k' s, String.length s ≤ k → String.length s ≤ k' → decode_all k s = decode_all k' s) as E; [|apply E; lia].
  clear. induction k as [|k IH]; intros k' s Hk Hk'.
  - destruct s; [|simpl in Hk; lia]. by destruct k'.
  - destruct k' as [|k']; [destruct s; [done|simpl in Hk'; lia]|]. cbn [decode_all]. destruct (more s); [|done].
    destruct (decode_raw s) as [[raw rest]|] eqn:Hr; [|done]. apply decode_raw_shorter in Hr.
    by rewrite (IH k' rest) by lia.
Qed.
Lemma decode_all_enough_fuel_witness :
  decode_all 100 "{} {}" = BundleStringToObjectStrings "{} {}".
Proof. apply decode_all_enough_fuel. vm_compute. lia. Defined.
