(* ===== verification/Server.v ===== *)
(** * The registry server

    [pkg/server/server.go]: the gRPC handlers, written against the [GRPCQuery]
    interface.  A handler that streams sends the answer of the store message by
    message and stops at the first message the transport refuses.

    A request is its fields; the transport is a parameter: what it answers to a
    message after the messages already sent. *)
From S2P Require Import Prelude Json JsonCompact JsonStream Property JsonTotal Model ModelOps Declcfg DeclcfgConv DeclcfgRoundtrip DeclcfgWrite DeclcfgLoad RegistryTypes RegistryBundle RegistryBundleSpec Api Query QuerySpec Conversion.
From stdpp Require Import options.

(** ** Streams *)
Definition transport (M : Type) : Type := list M → M → option error.

(** [for _, x := range xs { if err := stream.Send(x); err != nil { return err } }; return nil] *)
Fixpoint send_all {M} (send : transport M) (sent xs : list M) : list M * option error :=
  match xs with
  | [] => (sent, None)
  | x :: xs' =>
      match send sent x with
      | Some err => (sent, Some err)
      | None => send_all send (sent ++ [x]) xs'
      end
  end.
(** The messages sent, and what the handler returns. *)
Definition stream_answer {A M} (send : transport M) (conv : A → M) (answer : res (list A)) : res (list M * option error) :=
  match answer with
  | Ok xs => Ok (send_all send [] (conv <$> xs))
  | Err e => Ok ([], Some e)
  | Panic => Panic
  end.

Record RegistryServer (Q : Type) := NewRegistryServer { store : Q }.
Arguments NewRegistryServer {Q}.
Arguments store {Q}.

Section handlers.
Context {Q : Type} `{!GRPCQuery Q}.
Variable s : RegistryServer Q.

(** [PackageName] messages are their name. *)
Definition RegistryServer_ListPackages (send : transport string) : res (list string * option error) :=
  stream_answer send id (ListPackages (store s)).
Definition RegistryServer_ListBundles (send : transport api_Bundle) : res (list api_Bundle * option error) :=
  stream_answer send id (ListBundles (store s)).
Definition RegistryServer_GetPackage (name : string) : res api_Package :=
  m ← GetPackage (store s) name; Ok (PackageManifestToAPIPackage m).
Definition RegistryServer_GetBundle (pkgName channelName csvName : string) : res api_Bundle :=
  GetBundle (store s) pkgName channelName csvName.
Definition RegistryServer_GetBundleForChannel (pkgName channelName : string) : res api_Bundle :=
  GetBundleForChannel (store s) pkgName channelName.
Definition RegistryServer_GetChannelEntriesThatReplace (send : transport api_ChannelEntry) (csvName : string)
    : res (list api_ChannelEntry * option error) :=
  stream_answer send ChannelEntryToAPIChannelEntry (GetChannelEntriesThatReplace (store s) csvName).
Definition RegistryServer_GetBundleThatReplaces (csvName pkgName channelName : string) : res api_Bundle :=
  GetBundleThatReplaces (store s) csvName pkgName channelName.
Definition RegistryServer_GetChannelEntriesThatProvide (send : transport api_ChannelEntry) (group version kind : string)
    : res (list api_ChannelEntry * option error) :=
  stream_answer send ChannelEntryToAPIChannelEntry (GetChannelEntriesThatProvide (store s) group version kind).
Definition RegistryServer_GetLatestChannelEntriesThatProvide (send : transport api_ChannelEntry) (group version kind : string)
    : res (list api_ChannelEntry * option error) :=
  stream_answer send ChannelEntryToAPIChannelEntry (GetLatestChannelEntriesThatProvide (store s) group version kind).
Definition RegistryServer_GetDefaultBundleThatProvides (group version kind : string) : res api_Bundle :=
  GetBundleThatProvides (store s) group version kind.
End handlers.

(** ** What is sent *)
Lemma send_all_spec {M} (send : transport M) sent xs :
  ∃ ys zs, xs = ys ++ zs ∧ (send_all send sent xs).1 = sent ++ ys ∧
    match (send_all send sent xs).2 with
    | None => zs = []
    | Some e => ∃ z zs', zs = z :: zs' ∧ send (sent ++ ys) z = Some e
    end.
Proof.
  revert sent. induction xs as [|x xs IH]; intros sent; simpl.
  - exists [], []. by rewrite !app_nil_r.
  - destruct (send sent x) as [e|] eqn:E; simpl.
    + exists [], (x :: xs). rewrite app_nil_r. split_and!; [done|done|]. eauto.
    + destruct (IH (sent ++ [x])) as (ys & zs & -> & E1 & E2). exists (x :: ys), zs.
      rewrite E1, <- app_assoc. rewrite <- app_assoc in E2. done.
Qed.

(** What a streaming handler did with an answer of the store: it sent a prefix
    of it, in order, and the whole of it when it returned nil; an error is the
    store's, before anything is sent, or the transport's for the next message. *)
Definition streamed {A M} (send : transport M) (conv : A → M) (answer : res (list A)) (sent : list M) (err : option error) : Prop :=
  (∃ xs rest, answer = Ok xs ∧ conv <$> xs = sent ++ rest ∧
     match err with
     | None => rest = []
     | Some e => ∃ z zs, rest = z :: zs ∧ send sent z = Some e
     end) ∨
  (∃ e, answer = Err e ∧ sent = [] ∧ err = Some e).

Lemma stream_answer_spec {A M} (send : transport M) (conv : A → M) answer :
  answer ≠ Panic →
  ∃ sent err, stream_answer send conv answer = Ok (sent, err) ∧ streamed send conv answer sent err.
Proof.
  intros Hp. destruct answer as [xs|e|]; [| |done]; simpl.
  - destruct (send_all_spec send [] (conv <$> xs)) as (ys & zs & E & E1 & E2).
    destruct (send_all send [] (conv <$> xs)) as [sent err]. simpl in *. subst sent.
    exists ys, err. split; [done|]. left. exists xs, zs. done.
  - exists [], (Some e). split; [done|]. right. eauto.
Qed.

Definition two_then_closed : transport string :=
  λ sent _, if decide (length sent < 2) then None else Some (ErrNew "transport is closing").
