(* ===== verification/Graph.v ===== *)
(** * Update graphs of packages

    [pkg/registry/graph.go], [bundlegraphloader.go], [directoryGraphLoader.go],
    [channelupdateoptions.go] and the readers of package manifests and CSVs of
    [decode.go] and [csv.go].

    A channel of a graph maps each of its nodes to the nodes it replaces.  A nil
    map and an empty one are not told apart: no code of these files stores into a
    map that may be nil.

    What a directory holds is a value: its entries in the order of
    [ioutil.ReadDir], with what opening and decoding a file gives. *)
From S2P Require Import Prelude Semver Json JsonCompact Property Model Declcfg DeclcfgRoundtrip DeclcfgWrite DeclcfgLoad RegistryTypes RegistryBundle.
From stdpp Require Import options.

(** ** graph.go *)
Record BundleKey := mkKey { bk_BundlePath : string; bk_Version : string; bk_CsvName : string }.
#[export] Instance BundleKey_eq_dec : EqDecision BundleKey.
Proof. solve_decision. Defined.
#[export] Instance BundleKey_countable : Countable BundleKey.
Proof.
  apply (inj_countable' (λ k, (bk_BundlePath k, bk_Version k, bk_CsvName k)) (λ t, mkKey t.1.1 t.1.2 t.2)). by intros [].
Defined.
Abbreviation graph_nodes := (gmap BundleKey (gset BundleKey)).
Record graph_Channel := mkGChannel { gc_Head : BundleKey; gc_Nodes : graph_nodes }.
Record graph_Package := mkGPackage { gp_Name : string; gp_DefaultChannel : string; gp_Channels : gmap string graph_Channel }.

Definition zero_key : BundleKey := mkKey "" "" "".
Definition IsEmpty (b : BundleKey) : bool :=
  bool_decide (bk_BundlePath b = "") && bool_decide (bk_Version b = "") && bool_decide (bk_CsvName b = "").
Definition HasChannel (p : graph_Package) (channel : string) : bool := bool_decide (is_Some (gp_Channels p !! channel)).
Definition set_gname (p : graph_Package) n := mkGPackage n (gp_DefaultChannel p) (gp_Channels p).
Definition set_gdefault (p : graph_Package) d := mkGPackage (gp_Name p) d (gp_Channels p).
Definition set_gchannel (p : graph_Package) c ch := mkGPackage (gp_Name p) (gp_DefaultChannel p) (<[c := ch]> (gp_Channels p)).

(** ** channelupdateoptions.go *)
Inductive Mode : Type := ReplacesMode | SemVerMode | SkipPatchMode.
Definition lower (a : ascii) : ascii :=
  let n := N_of_ascii a in if ((65 <=? n) && (n <=? 90))%N then ascii_of_N (n + 32) else a.
(** [strings.ToLower], as far as a comparison with an ASCII word can tell: the
    Kelvin sign and the dotted capital I are the only characters outside ASCII
    that lower to a letter of ASCII; any other stays outside it. *)
Fixpoint ToLower (s : string) : string :=
  match s with
  | String "226" (String "132" (String "170" s')) => String "k" (ToLower s')
  | String "196" (String "176" s') => String "i" (ToLower s')
  | String a s' => String (lower a) (ToLower s')
  | EmptyString => EmptyString
  end.
Definition GetModeFromString (mode : string) : res Mode :=
  if decide (ToLower mode = "replaces") then Ok ReplacesMode
  else if decide (ToLower mode = "semver") then Ok SemVerMode
  else if decide (ToLower mode = "semver-skippatch") then Ok SkipPatchMode
  else Err (Errorf "Invalid channel update mode %s specified" [AStr mode]).

(** ** bundlegraphloader.go *)
Definition isSkipPatchCandidate (version toCompare : Version) : bool :=
  (Major version =? Major toCompare)%N && (Minor version =? Minor toCompare)%N && Version_GT version toCompare.

(** [v, _ := semver.Make(s)] *)
Definition Make_or_zero (s : string) : Version := match Make s with Ok v => v | _ => zero_version end.

Record scan := mkScan {
  sc_lowestAhead : BundleKey;
  sc_greatestBehind : BundleKey;
  sc_skipPatchCandidates : list BundleKey;
  sc_replaces : gset BundleKey
}.
Definition scan_node (skippatch : bool) (bundleVersion : string) (versionToAdd : Version) (st : scan) (node : BundleKey)
    : res scan :=
  nodeVersion ← wrap_err (λ _, Errorf "Unable to parse existing bundle version stored in index %s %s %s"
                            [AStr (bk_CsvName node); AStr (bk_Version node); AStr (bk_BundlePath node)])
                  (Make (bk_Version node));
  let comparison := Version_Compare nodeVersion versionToAdd in
  if (comparison =? 0)%Z then Err (Errorf "Bundle version %s already added to index" [AStr bundleVersion])
  else
    let lowestAhead :=
      if (comparison =? 1)%Z then
        if IsEmpty (sc_lowestAhead st) then node
        else if Version_LT nodeVersion (Make_or_zero (bk_Version (sc_lowestAhead st))) then node
        else sc_lowestAhead st
      else sc_lowestAhead st in
    let greatestBehind :=
      if (comparison =? -1)%Z then
        if IsEmpty (sc_greatestBehind st) then node
        else if Version_GT nodeVersion (Make_or_zero (bk_Version (sc_greatestBehind st))) then node
        else sc_greatestBehind st
      else sc_greatestBehind st in
    if skippatch && isSkipPatchCandidate versionToAdd nodeVersion then
      Ok (mkScan lowestAhead greatestBehind (sc_skipPatchCandidates st ++ [node]) ({[node]} ∪ sc_replaces st))
    else Ok (mkScan lowestAhead greatestBehind (sc_skipPatchCandidates st) (sc_replaces st)).

Section graph_loader.
Context `{GoRuntime}.

(** The body of the loop over the channels of the bundle, for a channel the graph has. *)
Definition add_to_channel_graph (skippatch : bool) (bundleVersion : string) (versionToAdd : Version)
    (newBundleKey : BundleKey) (channelGraph : graph_Channel) : res graph_Channel :=
  st ← foldR (scan_node skippatch bundleVersion versionToAdd) (mkScan zero_key zero_key [] ∅)
         (range (gc_Nodes channelGraph)).*1;
  let replaces := if IsEmpty (sc_greatestBehind st) then sc_replaces st else {[sc_greatestBehind st]} ∪ sc_replaces st in
  let channelGraph :=
    if IsEmpty (sc_lowestAhead st) then mkGChannel newBundleKey (gc_Nodes channelGraph)
    else mkGChannel (gc_Head channelGraph) (<[sc_lowestAhead st := {[newBundleKey]}]> (gc_Nodes channelGraph)) in
  let nodes := if skippatch then foldl (λ m k, delete k m) (gc_Nodes channelGraph) (sc_skipPatchCandidates st)
               else gc_Nodes channelGraph in
  Ok (mkGChannel (gc_Head channelGraph) (<[newBundleKey := replaces]> nodes)).

(** On an error the channels already visited stay changed: the graph is returned
    with the outcome. *)
Fixpoint add_to_channels (skippatch : bool) (bundleVersion : string) (versionToAdd : Version) (newBundleKey : BundleKey)
    (graph : graph_Package) (channels : list string) : graph_Package * res unit :=
  match channels with
  | [] => (graph, Ok tt)
  | channel :: channels' =>
      match gp_Channels graph !! channel with
      | None =>
          add_to_channels skippatch bundleVersion versionToAdd newBundleKey
            (set_gchannel graph channel (mkGChannel newBundleKey {[newBundleKey := ∅]})) channels'
      | Some channelGraph =>
          match add_to_channel_graph skippatch bundleVersion versionToAdd newBundleKey channelGraph with
          | Ok ch => add_to_channels skippatch bundleVersion versionToAdd newBundleKey (set_gchannel graph channel ch) channels'
          | Err e => (graph, Err e)
          | Panic => (graph, Panic)
          end
      end
  end.

(** The bundle (its cache may be filled), the graph and the outcome. *)
Definition AddBundleToGraph (bundle : registry_Bundle) (graph : graph_Package) (annotations : registry_Annotations)
    (skippatch : bool) : registry_Bundle * graph_Package * res unit :=
  match Bundle_Version bundle with
  | (bundle', Panic) => (bundle', graph, Panic)
  | (bundle', Err _) =>
      (bundle', graph, Err (Errorf "Unable to extract bundle version from bundle %s, can't insert in semver mode"
                              [AStr (rb_BundleImage bundle')]))
  | (bundle', Ok bundleVersion) =>
      match Make bundleVersion with
      | Ok versionToAdd =>
          let newBundleKey := mkKey (rb_BundleImage bundle') (Version_String versionToAdd) (rb_Name bundle') in
          let graph := if decide (gp_Name graph = "") then set_gname graph (rb_Package bundle') else graph in
          let newDefaultChannel := an_DefaultChannelName annotations in
          let graph := if decide (newDefaultChannel ≠ "") then set_gdefault graph newDefaultChannel else graph in
          if decide (gp_DefaultChannel graph = "" ∧ SelectDefaultChannel annotations = "") then
            (bundle', graph, Err (ErrNew "Default channel is missing and can't be inferred"))
          else
            let graph := if decide (gp_DefaultChannel graph = "") then set_gdefault graph (SelectDefaultChannel annotations)
                         else graph in
            let '(graph', r) := add_to_channels skippatch bundleVersion versionToAdd newBundleKey graph (rb_Channels bundle') in
            (bundle', graph', r)
      | _ => (bundle', graph, Err (Errorf "Bundle version %s is not valid" [AStr bundleVersion]))
      end
  end.

(** [HasCsv] returns true as soon as a node has the name. *)
Definition HasCsv (p : graph_Package) (csv : string) : bool :=
  existsb (λ c, existsb (λ n, bool_decide (bk_CsvName n = csv)) (range (gc_Nodes c.2)).*1) (range (gp_Channels p)).
End graph_loader.
