(* ===== verification/GraphSpec.v ===== *)
(** * Semver graphs are sorted chains

    What [AddBundleToGraph] builds.  A channel filled in semver mode is a chain:
    its nodes sorted by version, newest first, each replacing the next one.
    Adding a bundle is insertion into the sorted list, for every order in which
    the nodes are visited.  In skippatch mode the nodes of the same minor version
    below the new one leave the graph. *)
From S2P Require Import Prelude Semver Json JsonCompact Property Model Declcfg DeclcfgRoundtrip DeclcfgWrite DeclcfgLoad RegistryTypes RegistryBundle Graph.
From stdpp Require Import options.

(** ** Chains *)
Definition key_version (k : BundleKey) : Version := Make_or_zero (bk_Version k).
Definition parses (k : BundleKey) : Prop := ∃ v, Make (bk_Version k) = Ok v.
Definition key_cmp (k : BundleKey) (v : Version) : Z := Version_Compare (key_version k) v.
Definition newer (x y : BundleKey) : Prop := key_cmp x (key_version y) = 1%Z.
Definition chain (ks : list BundleKey) : Prop := Forall parses ks ∧ StronglySorted newer ks.

(** The nodes [ks], each replacing the next one and the last replacing [next]. *)
Fixpoint links (ks : list BundleKey) (next : option BundleKey) (m : graph_nodes) : graph_nodes :=
  match ks with
  | [] => m
  | k :: t => <[k := match t with [] => list_to_set (option_list next) | k' :: _ => {[k']} end]> (links t next m)
  end.
(** A channel graph that is the chain [ks]. *)
Definition represents (ch : graph_Channel) (ks : list BundleKey) : Prop :=
  chain ks ∧ head ks = Some (gc_Head ch) ∧ gc_Nodes ch = links ks None ∅.

Definition above (v : Version) (ks : list BundleKey) : list BundleKey := filter (λ k, key_cmp k v = 1%Z) ks.
Definition below (v : Version) (ks : list BundleKey) : list BundleKey := filter (λ k, key_cmp k v = (-1)%Z) ks.
Definition fresh (v : Version) (ks : list BundleKey) : Prop := Forall (λ k, key_cmp k v ≠ 0%Z) ks.
Definition same_minor (v : Version) (k : BundleKey) : Prop := isSkipPatchCandidate v (key_version k) = true.
#[export] Instance same_minor_dec v k : Decision (same_minor v k).
Proof. unfold same_minor. apply _. Defined.

Lemma parses_nonempty k : parses k → IsEmpty k = false.
Proof.
  intros [v Hv]. unfold IsEmpty. destruct (decide (bk_Version k = "")) as [E|E].
  - rewrite E in Hv. discriminate Hv.
  - by rewrite (bool_decide_eq_false_2 (bk_Version k = "")), andb_false_r by done.
Qed.
Lemma parses_version k : parses k → Make (bk_Version k) = Ok (key_version k).
Proof. intros [v Hv]. unfold key_version, Make_or_zero. by rewrite Hv. Qed.
Lemma key_cmp_range k v : (key_cmp k v = -1 ∨ key_cmp k v = 0 ∨ key_cmp k v = 1)%Z.
Proof. apply (cmp_range (cmp := Version_Compare)). Qed.

(** Sorting by version splits at every version. *)
Lemma chain_split v ks : chain ks → fresh v ks → ks = above v ks ++ below v ks.
Proof.
  intros [_ Hs] Hf. unfold above, below. induction Hs as [|k ks Hs IH Hk]; [done|].
  apply Forall_cons in Hf as [Hne Hf]. rewrite !filter_cons.
  destruct (key_cmp_range k v) as [E|[E|E]]; [|done|].
  - rewrite (decide_False (P := key_cmp k v = 1%Z)) by lia. rewrite (decide_True (P := key_cmp k v = (-1)%Z)) by done.
    assert (Forall (λ k', key_cmp k' v = (-1)%Z) ks) as Hb.
    { eapply Forall_impl; [exact Hk|]. intros x Hx. unfold newer, key_cmp in *.
      pose proof (cmp_opp (cmp := Version_Compare) (key_version k) (key_version x)).
      pose proof (cmp_lt_trans Version_Compare (key_version x) (key_version k) v ltac:(lia) ltac:(lia)).
      pose proof (cmp_range (cmp := Version_Compare) (key_version x) v). lia. }
    rewrite (filter_none (λ k, key_cmp k v = 1%Z)) by (rewrite Forall_forall in Hb; intros x Hx%Hb; lia).
    simpl. f_equal. clear -Hb. induction Hb; [done|]. rewrite filter_cons, decide_True by done. by f_equal.
  - rewrite (decide_True (P := key_cmp k v = 1%Z)) by done. rewrite (decide_False (P := key_cmp k v = (-1)%Z)) by lia.
    simpl. f_equal. auto.
Qed.

Lemma newer_irrefl k : ¬ newer k k.
Proof. unfold newer, key_cmp. rewrite (cmp_refl Version_Compare). lia. Qed.
Lemma chain_NoDup ks : chain ks → NoDup ks.
Proof.
  intros [_ Hs]. induction Hs as [|k ks Hs IH Hk]; constructor; [|done].
  intros Hin. rewrite Forall_forall in Hk. by destruct (newer_irrefl k); apply Hk.
Qed.
Lemma Forall_sub {A} (P : A → Prop) l k : sublist l k → Forall P k → Forall P l.
Proof. rewrite !Forall_forall. intros Hs Hk x Hx. apply Hk. by eapply elem_of_sublist. Qed.
Lemma chain_sublist ks ks' : sublist ks ks' → chain ks' → chain ks.
Proof.
  intros Hsub [Hp Hs]. split; [by eapply Forall_sub|].
  clear Hp. induction Hsub as [|x l k Hsub IH|x l k Hsub IH]; [done|..]; apply StronglySorted_inv in Hs as [Hs Hx]; [|auto].
  constructor; [auto|]. by eapply Forall_sub.
Qed.

(** ** Links *)
Lemma links_app ks ks' m : links (ks ++ ks') None m = links ks (head ks') (links ks' None m).
Proof.
  induction ks as [|k ks IH]; [done|]. simpl app. cbn [links]. rewrite IH. f_equal.
  destruct ks, ks'; simpl; try done. apply leibniz_equiv. set_solver.
Qed.
Lemma links_insert_out k x ks next m : k ∉ ks → <[k := x]> (links ks next m) = links ks next (<[k := x]> m).
Proof.
  induction ks as [|k' ks IH]; intros Hk; [done|]. cbn [links]. rewrite insert_insert_ne by set_solver.
  rewrite IH by set_solver. done.
Qed.
Lemma links_insert_last k x next ks m : k ∉ ks → <[k := {[x]}]> (links (ks ++ [k]) next m) = links (ks ++ [k]) (Some x) m.
Proof.
  induction ks as [|k' ks IH]; intros Hk; simpl app; cbn [links].
  - rewrite insert_insert_eq. f_equal. simpl. apply leibniz_equiv. set_solver.
  - rewrite insert_insert_ne by set_solver. rewrite IH by set_solver. by destruct ks.
Qed.
Lemma links_lookup_out k ks next m : k ∉ ks → links ks next m !! k = m !! k.
Proof. induction ks as [|k' ks IH]; intros Hk; [done|]. cbn [links]. rewrite lookup_insert_ne by set_solver. set_solver. Qed.
Lemma links_lookup_in k ks next m : k ∈ ks → is_Some (links ks next m !! k).
Proof.
  induction ks as [|k' ks IH]; intros Hk; [set_solver|]. cbn [links].
  destruct (decide (k = k')) as [->|]; [rewrite lookup_insert_eq; eauto|]. rewrite lookup_insert_ne by done. set_solver.
Qed.
Lemma links_dom ks next m : dom (links ks next m) = list_to_set ks ∪ dom m.
Proof.
  induction ks as [|k ks IH]; cbn [links]; [set_solver|]. rewrite dom_insert_L, IH. simpl. set_solver.
Qed.

(** Every node replaces a later one, or the next. *)
Lemma links_values x ks next m reps :
  links ks next m !! x = Some reps →
  (∀ r, r ∈ reps → r ∈ tail ks ∨ next = Some r) ∨ m !! x = Some reps.
Proof.
  induction ks as [|k ks IH]; cbn [links tail]; [by right|].
  destruct (decide (x = k)) as [->|]; [rewrite lookup_insert_eq|rewrite lookup_insert_ne by done].
  - intros [= <-]. left. destruct ks as [|k' ks]; [destruct next; set_solver|set_solver].
  - intros [Hv|Hm]%IH; [left|by right]. intros r Hr. destruct (Hv r Hr) as [Ht|Hn]; [left|by right].
    destruct ks; [done|by right].
Qed.

Lemma foldl_delete_lookup {V} (l : list BundleKey) (m : gmap BundleKey V) k :
  foldl (λ m k, delete k m) m l !! k = if decide (k ∈ l) then None else m !! k.
Proof.
  revert m. induction l as [|x l IH]; intros m; simpl; [done|]. rewrite IH.
  destruct (decide (k = x)) as [->|Hne].
  - rewrite (decide_True (P := x ∈ x :: l)) by left. rewrite lookup_delete_eq. by case_decide.
  - rewrite lookup_delete_ne by done. destruct (decide (k ∈ l)); [rewrite decide_True by (by right)|rewrite decide_False by set_solver]; done.
Qed.
(** Deleting a middle part of a chain leaves the rest, whatever the order. *)
Lemma links_delete a n1 s n2 m l :
  l ≡ₚ s → (∀ k, k ∈ s → (k ∉ a) ∧ m !! k = None) →
  foldl (λ m k, delete k m) (links a n1 (links s n2 m)) l = links a n1 m.
Proof.
  intros Hl Hs. apply map_eq. intros k. rewrite foldl_delete_lookup.
  destruct (decide (k ∈ l)) as [Hk|Hk]; rewrite Hl in Hk.
  - destruct (Hs k Hk) as [??]. by rewrite links_lookup_out.
  - clear Hs. induction a as [|x a IH]; [simpl; by rewrite links_lookup_out|]. cbn [links].
    destruct (decide (k = x)) as [->|]; [by rewrite !lookup_insert_eq|]. by rewrite !lookup_insert_ne.
Qed.

(** ** The scan of a channel *)
(** [best] is the best, by [better], of the visited nodes on side [s] of the
    version, and the empty key when there is none. *)
Definition best (v : Version) (s : Z) (l : list BundleKey) (k : BundleKey) : Prop :=
  (k = zero_key ∧ ∀ x, x ∈ l → key_cmp x v ≠ s) ∨
  (k ∈ l ∧ parses k ∧ key_cmp k v = s ∧ ∀ x, x ∈ l → key_cmp x v = s → (s * key_cmp x (key_version k) ≠ -1)%Z).

Record scanned (skippatch : bool) (v : Version) (l : list BundleKey) (st : scan) : Prop := {
  scanned_ahead : best v 1 l (sc_lowestAhead st);
  scanned_behind : best v (-1) l (sc_greatestBehind st);
  scanned_candidates : sc_skipPatchCandidates st = if skippatch then filter (same_minor v) l else [];
  scanned_replaces : sc_replaces st = list_to_set (sc_skipPatchCandidates st)
}.

(** One more node: on the side [s], it takes over when there was none or when it
    is closer to the version. *)
Lemma best_step v s l k node (upd : bool) :
  (s = 1 ∨ s = -1)%Z → parses node → best v s l k →
  (upd = true ↔ IsEmpty k = true ∨ (s * key_cmp node (key_version k) = -1)%Z) →
  best v s (l ++ [node]) (if decide (key_cmp node v = s) then if upd then node else k else k).
Proof.
  intros Hs Hn Hb Hu. unfold best. setoid_rewrite elem_of_app. setoid_rewrite list_elem_of_singleton.
  assert (∀ x y : Version, Version_Compare x y = - Version_Compare y x)%Z as Hopp by (intros; apply cmp_opp).
  case_decide as E.
  - right. destruct upd.
    + split_and!; [by right|done|done|]. intros x [Hx|Hx] Hxs.
      * destruct Hb as [[-> Hb]|(_ & Hp & Hk & Hb)]; [by apply Hb in Hx|].
        destruct Hu as [Hu _]. destruct (Hu eq_refl) as [He|Hlt]; [by rewrite (parses_nonempty k Hp) in He|].
        specialize (Hb x Hx Hxs). unfold key_cmp in *. intros Hc.
        destruct Hs as [-> | ->].
        -- apply Hb. pose proof (cmp_lt_trans Version_Compare (key_version x) (key_version node) (key_version k) ltac:(lia) ltac:(lia)).
           pose proof (cmp_range (cmp := Version_Compare) (key_version x) (key_version k)). lia.
        -- apply Hb. pose proof (Hopp (key_version x) (key_version node)). pose proof (Hopp (key_version node) (key_version k)).
           pose proof (Hopp (key_version x) (key_version k)).
           pose proof (cmp_lt_trans Version_Compare (key_version k) (key_version node) (key_version x) ltac:(lia) ltac:(lia)).
           pose proof (cmp_range (cmp := Version_Compare) (key_version x) (key_version k)). lia.
      * subst x. unfold key_cmp. rewrite (cmp_refl Version_Compare). lia.
    + destruct Hb as [[-> _]|(Hin & Hp & Hk & Hb)].
      { destruct Hu as [_ Hu]. by discriminate Hu; left. }
      split_and!; [by left|done|done|]. intros x [Hx|Hx] Hxs; [by apply Hb|]. subst x. intros Hc.
      destruct Hu as [_ Hu]. by discriminate Hu; right.
  - destruct Hb as [[-> Hb]|(Hin & Hp & Hk & Hb)]; [left|right].
    + split; [done|]. intros x [Hx|Hx]; [by apply Hb|by subst x].
    + split_and!; [by left|done|done|]. intros x [Hx|Hx] Hxs; [by apply Hb|by subst x].
Qed.

Lemma if_orb {A} (a b : bool) (x y : A) : (if a || b then x else y) = if a then x else if b then x else y.
Proof. by destruct a. Qed.
Lemma scan_node_spec skippatch bv v l st node :
  scanned skippatch v l st → parses node → key_cmp node v ≠ 0%Z →
  ∃ st', scan_node skippatch bv v st node = Ok st' ∧ scanned skippatch v (l ++ [node]) st'.
Proof.
  intros [Ha Hb Hc Hr] Hn Hne. unfold scan_node. rewrite (parses_version node Hn). simpl.
  fold (key_cmp node v). destruct (key_cmp node v =? 0)%Z eqn:E0; [lia|]. clear E0.
  set (la := if (key_cmp node v =? 1)%Z then _ else _). set (gb := if (key_cmp node v =? -1)%Z then _ else _).
  assert (best v 1 (l ++ [node]) la) as Hla.
  { unfold la. replace (if (key_cmp node v =? 1)%Z then _ else _) with
      (if decide (key_cmp node v = 1%Z) then
         if IsEmpty (sc_lowestAhead st) || Version_LT (key_version node) (key_version (sc_lowestAhead st)) then node
         else sc_lowestAhead st
       else sc_lowestAhead st).
    - apply best_step; [auto|done..|]. rewrite orb_true_iff. unfold Version_LT. rewrite Z.eqb_eq, Z.mul_1_l. done.
    - unfold key_version at 2. case_decide; destruct (key_cmp node v =? 1)%Z eqn:?; try lia; [|done].
      apply if_orb. }
  assert (best v (-1) (l ++ [node]) gb) as Hgb.
  { unfold gb. replace (if (key_cmp node v =? -1)%Z then _ else _) with
      (if decide (key_cmp node v = (-1)%Z) then
         if IsEmpty (sc_greatestBehind st) || Version_GT (key_version node) (key_version (sc_greatestBehind st)) then node
         else sc_greatestBehind st
       else sc_greatestBehind st).
    - apply best_step; [auto|done..|]. rewrite orb_true_iff. unfold Version_GT. rewrite Z.eqb_eq. unfold key_cmp. intuition lia.
    - unfold key_version at 2. case_decide; destruct (key_cmp node v =? -1)%Z eqn:?; try lia; [|done].
      apply if_orb. }
  clearbody la gb. destruct skippatch; simpl; [destruct (isSkipPatchCandidate v (key_version node)) eqn:Es|];
    (eexists; split; [reflexivity|]); split; simpl; try done.
  - rewrite filter_app, filter_cons, decide_True by done. by rewrite Hc.
  - rewrite Hr, list_to_set_app_L. simpl. apply leibniz_equiv. set_solver.
  - rewrite filter_app, filter_cons, decide_False by (unfold same_minor; congruence). by rewrite app_nil_r, Hc.
Qed.

Lemma scan_spec skippatch bv v l :
  Forall parses l →
  (fresh v l ∧ ∃ st, foldR (scan_node skippatch bv v) (mkScan zero_key zero_key [] ∅) l = Ok st ∧ scanned skippatch v l st) ∨
  (¬ fresh v l ∧ foldR (scan_node skippatch bv v) (mkScan zero_key zero_key [] ∅) l =
                 Err (Errorf "Bundle version %s already added to index" [AStr bv])).
Proof.
  intros Hp. induction l as [|node l IH] using rev_ind.
  - left. split; [constructor|]. eexists. split; [reflexivity|]. split; simpl; [by left; split; [|set_solver]..|by destruct skippatch|done].
  - apply Forall_app in Hp as [Hp Hn]. rewrite Forall_singleton in Hn. unfold fresh. rewrite foldR_app, Forall_app, Forall_singleton.
    destruct (IH Hp) as [[Hf (st & -> & Hst)]|[Hf ->]]; simpl; [|right; tauto].
    destruct (decide (key_cmp node v = 0%Z)) as [E|E].
    + right. split; [tauto|]. unfold scan_node. rewrite (parses_version node Hn). simpl. fold (key_cmp node v). by rewrite E.
    + left. split; [done|]. destruct (scan_node_spec skippatch bv v l st node Hst Hn E) as (st' & -> & Hst'). simpl. eauto.
Qed.

(** ** One channel *)
Lemma compare_minor x y :
  Version_Compare x y ≠ 1%Z → (Major x < Major y ∨ (Major x = Major y ∧ Minor x ≤ Minor y))%N.
Proof.
  unfold Version_Compare. destruct (N.eqb_spec (Major x) (Major y)) as [E1|E1]; simpl.
  - destruct (N.eqb_spec (Minor x) (Minor y)) as [E2|E2]; simpl; [lia|]. destruct (N.ltb_spec (Minor y) (Minor x)); [done|lia].
  - destruct (N.ltb_spec (Major y) (Major x)); [done|lia].
Qed.

(** The nodes of the same minor version are the first ones below. *)
Lemma below_split v ks :
  chain ks → Forall (λ k, key_cmp k v = (-1)%Z) ks →
  ks = filter (same_minor v) ks ++ filter (λ k, ¬ same_minor v k) ks.
Proof.
  intros [_ Hs] Hb. induction Hs as [|k ks Hs IH Hk]; [done|]. apply Forall_cons in Hb as [Hkv Hb]. rewrite !filter_cons.
  destruct (decide (same_minor v k)) as [Hsm|Hsm].
  - rewrite (decide_False (P := ¬ _)) by tauto. simpl. f_equal. auto.
  - assert (∀ x, x ∈ ks → ¬ same_minor v x) as Hnone.
    { rewrite Forall_forall in Hk, Hb. intros x Hx [[E1 E2]%andb_true_iff E3]%andb_true_iff. apply Hsm.
      apply N.eqb_eq in E1, E2. specialize (Hk _ Hx). unfold newer, key_cmp in *.
      pose proof (cmp_opp (cmp := Version_Compare) (key_version k) (key_version x)).
      pose proof (cmp_opp (cmp := Version_Compare) (key_version k) v).
      pose proof (compare_minor (key_version x) (key_version k) ltac:(lia)).
      pose proof (compare_minor (key_version k) v ltac:(lia)).
      unfold same_minor, isSkipPatchCandidate, Version_GT. rewrite !andb_true_iff, !N.eqb_eq, Z.eqb_eq. lia. }
    rewrite (decide_True (P := ¬ _)) by done. rewrite (filter_none (same_minor v)) by done. simpl. f_equal.
    rewrite IH at 1 by done. by rewrite (filter_none (same_minor v)).
Qed.

(** What a channel becomes: the nodes above the new one stay and the last of
    them replaces it; the new node replaces the first node below and, in skippatch
    mode, the nodes of its minor version, which leave the graph. *)
Definition skipped (skippatch : bool) (v : Version) (ks : list BundleKey) : list BundleKey :=
  if skippatch then filter (same_minor v) (below v ks) else [].
Definition kept (skippatch : bool) (v : Version) (ks : list BundleKey) : list BundleKey :=
  if skippatch then filter (λ k, ¬ same_minor v k) (below v ks) else below v ks.
Definition channel_after (skippatch : bool) (new : BundleKey) (v : Version) (ks : list BundleKey) : graph_Channel :=
  mkGChannel (default new (head (above v ks)))
    (links (above v ks) (Some new)
       (<[new := list_to_set (option_list (head (below v ks))) ∪ list_to_set (skipped skippatch v ks)]>
          (links (kept skippatch v ks) None ∅))).

Lemma below_skipped skippatch v ks : chain ks → below v ks = skipped skippatch v ks ++ kept skippatch v ks.
Proof.
  intros Hc. unfold skipped, kept. destruct skippatch; [|done]. apply below_split.
  - eapply chain_sublist; [|exact Hc]. apply sublist_filter.
  - apply Forall_forall. intros k [? _]%list_elem_of_filter. done.
Qed.

(** In a chain the best node above is the last one above, and the best node
    below the first one below. *)
Lemma best_above v ks l la :
  chain ks → l ≡ₚ ks → best v 1 l la →
  (IsEmpty la = true ∧ above v ks = []) ∨ (IsEmpty la = false ∧ ∃ a, above v ks = a ++ [la]).
Proof.
  intros Hc Hl [[-> Hno]|(Hin & Hp & Hk & Hbest)].
  - left. split; [done|]. apply filter_none. intros x Hx. apply Hno. by rewrite Hl.
  - right. split; [by apply parses_nonempty|].
    assert (la ∈ above v ks) as Hla by (apply list_elem_of_filter; split; [done|by rewrite <- Hl]).
    apply list_elem_of_split in Hla as (a & b & E). exists a. rewrite E. f_equal. destruct b as [|x b]; [done|exfalso].
    assert (chain (above v ks)) as [_ Hs] by (eapply chain_sublist; [apply sublist_filter|done]).
    assert (x ∈ above v ks) as [Hxv Hx]%list_elem_of_filter by (rewrite E; set_solver).
    rewrite E in Hs. apply StronglySorted_app_1_r in Hs. apply StronglySorted_inv in Hs as [_ Hs].
    apply Forall_cons in Hs as [Hs _]. unfold newer, key_cmp in *. eapply (Hbest x); [by rewrite Hl|done|].
    pose proof (cmp_opp (cmp := Version_Compare) (key_version la) (key_version x)). lia.
Qed.
Lemma best_below v ks l gb :
  chain ks → l ≡ₚ ks → best v (-1) l gb →
  (IsEmpty gb = true ∧ below v ks = []) ∨ (IsEmpty gb = false ∧ head (below v ks) = Some gb).
Proof.
  intros Hc Hl [[-> Hno]|(Hin & Hp & Hk & Hbest)].
  - left. split; [done|]. apply filter_none. intros x Hx. apply Hno. by rewrite Hl.
  - right. split; [by apply parses_nonempty|].
    assert (gb ∈ below v ks) as Hgb by (apply list_elem_of_filter; split; [done|by rewrite <- Hl]).
    assert (chain (below v ks)) as [_ Hs] by (eapply chain_sublist; [apply sublist_filter|done]).
    destruct (below v ks) as [|x b] eqn:E; [set_solver|]. apply elem_of_cons in Hgb as [->|Hgb]; [done|exfalso].
    assert (x ∈ below v ks) as [Hxv Hx]%list_elem_of_filter by (rewrite E; set_solver).
    apply StronglySorted_inv in Hs as [_ Hs]. rewrite Forall_forall in Hs. specialize (Hs _ Hgb).
    unfold newer, key_cmp in *. eapply (Hbest x); [by rewrite Hl|done|]. lia.
Qed.

Section channel.
Context `{GoRuntime}.

Lemma represents_range ch ks : represents ch ks → (range (gc_Nodes ch)).*1 ≡ₚ ks.
Proof.
  intros (Hc & _ & Hnodes). apply NoDup_Permutation; [apply range_NoDup|by apply chain_NoDup|]. intros k.
  rewrite list_elem_of_fmap. trans (k ∈ dom (gc_Nodes ch)).
  - rewrite elem_of_dom. split; [intros ([k' x] & -> & Hk%range_elem); eauto|intros [x Hx]; exists (k, x); by rewrite range_elem].
  - rewrite Hnodes, links_dom. set_solver.
Qed.
Lemma add_to_channel_graph_spec skippatch bv v new ch ks :
  represents ch ks → key_version new = v →
  (fresh v ks ∧ add_to_channel_graph skippatch bv v new ch = Ok (channel_after skippatch new v ks)) ∨
  (¬ fresh v ks ∧ add_to_channel_graph skippatch bv v new ch =
                  Err (Errorf "Bundle version %s already added to index" [AStr bv])).
Proof.
  intros (Hc & Hhead & Hnodes) Hnew. unfold add_to_channel_graph.
  pose proof (represents_range ch ks (conj Hc (conj Hhead Hnodes))) as Hl. set (l := (range (gc_Nodes ch)).*1) in *.
  destruct (scan_spec skippatch bv v l) as [[Hf (st & E & Hst)]|[Hf E]]; [rewrite Hl; apply Hc| |]; rewrite E; simpl.
  2:{ right. split; [|done]. unfold fresh. by rewrite <- Hl. }
  left. unfold fresh in Hf. rewrite Hl in Hf. split; [done|]. f_equal.
  destruct Hst as [Ha Hb Hcand Hrep]. rewrite Hrep. clear E Hrep.
  assert (sc_skipPatchCandidates st ≡ₚ skipped skippatch v ks) as Hsk.
  { rewrite Hcand. unfold skipped. destruct skippatch; [|done]. rewrite Hl. unfold below. rewrite list_filter_filter.
    apply reflexive_eq. apply list_filter_iff. intros k. split; [|tauto]. intros Hk. split; [done|].
    apply andb_true_iff in Hk as [_ Hk]. unfold Version_GT in Hk. apply Z.eqb_eq in Hk. unfold key_cmp.
    pose proof (cmp_opp (cmp := Version_Compare) (key_version k) v). lia. }
  assert (∀ k, k ∈ ks → k ≠ new) as Hnk.
  { intros k Hk ->. rewrite Forall_forall in Hf. apply (Hf _ Hk). unfold key_cmp. rewrite Hnew. apply (cmp_refl Version_Compare). }
  unfold channel_after.
  replace (if IsEmpty (sc_greatestBehind st) then _ else _) with
    (list_to_set (option_list (head (below v ks))) ∪ list_to_set (skipped skippatch v ks) : gset BundleKey).
  2:{ apply leibniz_equiv. rewrite <- Hsk. destruct (best_below v ks l _ Hc Hl Hb) as [[-> ->]|[-> ->]]; simpl; set_solver. }
  set (reps := _ ∪ _ : gset BundleKey). clearbody reps.
  pose proof (chain_split v ks Hc Hf) as Hsplit. pose proof (below_skipped skippatch v ks Hc) as Hbs.
  pose proof (chain_NoDup ks Hc) as Hnd. rewrite Hbs in Hsplit. clear Hbs.
  set (K := kept skippatch v ks) in *. set (S := skipped skippatch v ks) in *.
  assert (∀ N : graph_nodes, (if skippatch then foldl (λ m k, delete k m) N (sc_skipPatchCandidates st) else N) =
    foldl (λ m k, delete k m) N (sc_skipPatchCandidates st)) as Hdel by (intros N; rewrite Hcand; by destruct skippatch).
  assert (∀ k, k ∈ S → (k ∉ above v ks) ∧ links K None ∅ !! k = None) as Hout.
  { pose proof Hnd as Hnd'. rewrite Hsplit in Hnd'. apply NoDup_app in Hnd' as (_ & HA & (_ & HS & _)%NoDup_app). intros k Hk. split.
    - intros HkA. apply (HA _ HkA). set_solver.
    - rewrite links_lookup_out; [done|]. by apply HS. }
  rewrite Hsplit in Hnodes, Hhead, Hnd. clearbody K S. rewrite Hdel. destruct (best_above v ks l _ Hc Hl Ha) as [[-> HA]|[-> [a HA]]]; simpl.
  - rewrite Hnodes, HA. simpl. rewrite links_app.
    pose proof (links_delete [] None S (head K) (links K None ∅) _ Hsk) as E. simpl in E. rewrite E; [done|].
    intros k Hk. split; [set_solver|by apply Hout].
  - assert (la_out : sc_lowestAhead st ∉ a).
    { rewrite HA, <- app_assoc in Hnd. apply NoDup_app in Hnd as (_ & Hd & _). intros Hin. apply (Hd _ Hin). set_solver. }
    rewrite Hnodes, HA, links_app, links_insert_last by done. rewrite links_app.
    rewrite (links_delete _ _ S _ _ _ Hsk) by (rewrite <- HA; done). f_equal.
    + rewrite HA in Hhead. destruct a; simpl in *; congruence.
    + rewrite links_insert_out; [done|]. intros Hin. rewrite <- HA in Hin. apply list_elem_of_filter in Hin as [_ Hin]. by apply (Hnk _ Hin).
Qed.

(** ** Packages of chains *)
Definition insert_chain (new : BundleKey) (ks : list BundleKey) : list BundleKey :=
  above (key_version new) ks ++ new :: below (key_version new) ks.
(** Adding a bundle to the chains of its channels; it stops at the first channel
    that has the version already. *)
Fixpoint chains_add (new : BundleKey) (A : gmap string (list BundleKey)) (channels : list string)
    : gmap string (list BundleKey) * bool :=
  match channels with
  | [] => (A, true)
  | c :: cs =>
      match A !! c with
      | None => chains_add new (<[c := [new]]> A) cs
      | Some ks => if decide (fresh (key_version new) ks) then chains_add new (<[c := insert_chain new ks]> A) cs else (A, false)
      end
  end.
Definition graph_chains (p : graph_Package) (A : gmap string (list BundleKey)) : Prop :=
  map_Forall2 (λ _, represents) (gp_Channels p) A.

Lemma insert_chain_chain new ks : parses new → chain ks → chain (insert_chain new ks).
Proof.
  intros Hn Hc. pose proof (chain_sublist (above (key_version new) ks) ks (sublist_filter _ _) Hc) as [Ha1 Ha2].
  pose proof (chain_sublist (below (key_version new) ks) ks (sublist_filter _ _) Hc) as [Hb1 Hb2].
  assert (Forall (λ k, newer k new) (above (key_version new) ks)) as Ha by (apply Forall_forall; by intros k [? _]%list_elem_of_filter).
  assert (Forall (newer new) (below (key_version new) ks)) as Hb.
  { apply Forall_forall. intros k [Hk _]%list_elem_of_filter. unfold newer, key_cmp in *.
    pose proof (cmp_opp (cmp := Version_Compare) (key_version k) (key_version new)). lia. }
  unfold insert_chain. split; [by rewrite Forall_app, Forall_cons|].
  clear Ha1. induction Ha2 as [|k a Hs IH Hk]; simpl; [by constructor|]. apply Forall_cons in Ha as [Hkn Ha].
  constructor; [auto|]. rewrite Forall_app, Forall_cons. split_and!; [done|done|].
  eapply Forall_impl; [exact Hb|]. intros x Hx. unfold newer, key_cmp in *.
  pose proof (cmp_opp (cmp := Version_Compare) (key_version k) (key_version new)).
  pose proof (cmp_opp (cmp := Version_Compare) (key_version new) (key_version x)).
  pose proof (cmp_opp (cmp := Version_Compare) (key_version k) (key_version x)).
  pose proof (cmp_lt_trans Version_Compare (key_version x) (key_version new) (key_version k) ltac:(lia) ltac:(lia)).
  pose proof (cmp_range (cmp := Version_Compare) (key_version k) (key_version x)). lia.
Qed.

(** Without skippatch a chain becomes the chain with the new node inserted. *)
Lemma channel_after_represents new ks :
  parses new → chain ks → represents (channel_after false new (key_version new) ks) (insert_chain new ks).
Proof.
  intros Hn Hc. split_and!; [by apply insert_chain_chain|unfold insert_chain; simpl; by destruct (above _ ks)|].
  unfold insert_chain. rewrite links_app. simpl. f_equal. f_equal. apply leibniz_equiv.
  destruct (below (key_version new) ks); simpl; set_solver.
Qed.
Lemma singleton_represents new : parses new → represents (mkGChannel new {[new := ∅]}) [new].
Proof.
  intros Hn. split_and!; [|done|done]. split; [by constructor|]. repeat constructor.
Qed.

Lemma add_to_channels_refines bv new p A channels :
  parses new → graph_chains p A →
  let '(p', r) := add_to_channels false bv (key_version new) new p channels in
  let '(A', ok) := chains_add new A channels in
  graph_chains p' A' ∧ gp_Name p' = gp_Name p ∧ gp_DefaultChannel p' = gp_DefaultChannel p ∧
  r = if ok then Ok tt else Err (Errorf "Bundle version %s already added to index" [AStr bv]).
Proof.
  intros Hn. revert p A. induction channels as [|c cs IH]; intros p A Hg; [done|]. cbn [add_to_channels chains_add].
  pose proof (Hg c) as Hgc. destruct (gp_Channels p !! c) as [ch|] eqn:Ep, (A !! c) as [ks|] eqn:EA; inversion Hgc as [? ? Hr|]; subst.
  - destruct (add_to_channel_graph_spec false bv (key_version new) new ch ks Hr eq_refl) as [[Hf E]|[Hf E]]; rewrite E.
    + rewrite decide_True by done.
      specialize (IH (set_gchannel p c (channel_after false new (key_version new) ks)) (<[c := insert_chain new ks]> A)).
      apply IH. apply map_Forall2_insert_2; [|done]. apply channel_after_represents; [done|apply Hr].
    + by rewrite decide_False.
  - apply (IH (set_gchannel p c (mkGChannel new {[new := ∅]})) (<[c := [new]]> A)).
    apply map_Forall2_insert_2; [|done]. by apply singleton_represents.
Qed.
End channel.

(** ** Adding a bundle *)
(** The default channel after an addition: the annotated one, the one the graph
    has, or the one inferred from the annotated channels. *)
Definition default_after (p : graph_Package) (an : registry_Annotations) : string :=
  if decide (an_DefaultChannelName an ≠ "") then an_DefaultChannelName an
  else if decide (gp_DefaultChannel p ≠ "") then gp_DefaultChannel p
  else SelectDefaultChannel an.
Definition new_key (b : registry_Bundle) (v : Version) : BundleKey :=
  mkKey (rb_BundleImage b) (Version_String v) (rb_Name b).

Lemma Make_new_key b s v : Make s = Ok v → Make (bk_Version (new_key b v)) = Ok v.
Proof. intros [Hv _]%Parse_spec. by apply Parse_spec. Qed.

(** C1. In semver mode [AddBundleToGraph] is insertion into sorted chains.
    When the channels of a graph are chains sorted by version and the version of
    the bundle and a default channel can be determined, then, whatever order the
    nodes are visited in, each channel of the bundle becomes the chain with the
    new node inserted by version (a channel the graph does not have becomes the
    node alone), up to the first channel that has the version already, for which
    the call fails; the name and the default channel of the graph are set as the
    annotations say, and every channel is again a sorted chain. *)
Theorem AddBundleToGraph_refines `{GoRuntime} b p an A b' s v :
  Bundle_Version b = (b', Ok s) → Make s = Ok v → default_after p an ≠ "" → graph_chains p A →
  ∃ p' r A' ok, AddBundleToGraph b p an false = (b', p', r) ∧
    chains_add (new_key b' v) A (rb_Channels b') = (A', ok) ∧
    graph_chains p' A' ∧
    gp_Name p' = (if decide (gp_Name p = "") then rb_Package b' else gp_Name p) ∧
    gp_DefaultChannel p' = default_after p an ∧
    r = if ok then Ok tt else Err (Errorf "Bundle version %s already added to index" [AStr s]).
Proof.
  intros Eb Ev Hd Hg. unfold AddBundleToGraph. rewrite Eb, Ev. fold (new_key b' v).
  assert (parses (new_key b' v)) as Hn by (exists v; by eapply Make_new_key).
  assert (key_version (new_key b' v) = v) as Hv by (unfold key_version, Make_or_zero; by erewrite Make_new_key).
  set (p1 := if decide (gp_Name p = "") then _ else _). set (p2 := if decide (an_DefaultChannelName an ≠ "") then _ else _).
  assert (gp_Channels p2 = gp_Channels p ∧ gp_Name p2 = (if decide (gp_Name p = "") then rb_Package b' else gp_Name p) ∧
    default_after p an = if decide (gp_DefaultChannel p2 = "") then SelectDefaultChannel an else gp_DefaultChannel p2) as (Hc2 & Hn2 & Hd2).
  { unfold p2, p1, default_after. repeat case_decide; simpl in *; naive_solver. }
  clearbody p2. clear p1.
  rewrite decide_False by (rewrite Hd2 in Hd; intros [E1 E2]; rewrite decide_True in Hd; done).
  set (p3 := if decide (gp_DefaultChannel p2 = "") then _ else _).
  assert (graph_chains p3 A ∧ gp_Name p3 = gp_Name p2 ∧ gp_DefaultChannel p3 = default_after p an) as (Hg3 & Hn3 & Hd3).
  { unfold p3, graph_chains in *. rewrite Hd2. case_decide; simpl; by rewrite Hc2. }
  pose proof (add_to_channels_refines s (new_key b' v) p3 A (rb_Channels b') Hn Hg3) as Hr. rewrite Hv in Hr.
  destruct (add_to_channels false s v (new_key b' v) p3 (rb_Channels b')) as [p' r] eqn:E.
  destruct (chains_add (new_key b' v) A (rb_Channels b')) as [A' ok] eqn:EA. destruct Hr as (? & ? & ? & ->).
  eexists p', _, A', ok. split_and!; [done|done|done|congruence|congruence|done].
Qed.

(** C38. In skippatch mode the older minor versions of a channel are cut off.
    When a patch release is added above at least one node of its minor version and
    the chain goes on below them, the newest of the remaining older nodes stays in
    the graph but is replaced by nothing: neither the head nor reachable from it. *)
Theorem skippatch_strands `{GoRuntime} bv new ch ks k r rest :
  represents ch ks → parses new → fresh (key_version new) ks →
  k ∈ skipped true (key_version new) ks → kept true (key_version new) ks = r :: rest →
  ∃ ch', add_to_channel_graph true bv (key_version new) new ch = Ok ch' ∧
    r ∈ dom (gc_Nodes ch') ∧ r ≠ gc_Head ch' ∧
    ∀ x reps, gc_Nodes ch' !! x = Some reps → r ∉ reps.
Proof.
  intros Hrep Hn Hf Hk Hkept.
  destruct (add_to_channel_graph_spec true bv (key_version new) new ch ks Hrep eq_refl) as [[_ E]|[? _]]; [|done].
  eexists. split; [exact E|]. destruct Hrep as [Hc _]. unfold channel_after. rewrite Hkept. cbn [gc_Head gc_Nodes].
  pose proof (chain_split _ ks Hc Hf) as Hs. pose proof (below_skipped true (key_version new) ks Hc) as Hb.
  pose proof (chain_NoDup ks Hc) as Hnd. rewrite Hs, Hb, Hkept in Hnd.
  apply NoDup_app in Hnd as (_ & HA & (_ & HS & [Hr _]%NoDup_cons)%NoDup_app).
  assert (r ∉ above (key_version new) ks) as HrA by (intros Hin; apply (HA _ Hin); set_solver).
  assert (r ∉ skipped true (key_version new) ks) as HrS by (intros Hin; apply (HS _ Hin); set_solver).
  assert (r ≠ new) as Hrn.
  { intros ->. unfold fresh in Hf. rewrite Forall_forall in Hf. apply (Hf new); [rewrite Hs, Hb, Hkept; set_solver|].
    unfold key_cmp. apply (cmp_refl Version_Compare). }
  split_and!.
  - rewrite links_dom, dom_insert_L, links_dom. set_solver.
  - destruct (above (key_version new) ks); [done|]. intros ->. apply HrA. left.
  - intros x reps [Hv|Hx]%links_values Hin.
    + destruct (Hv r Hin) as [Ht|[= ->]]; [|done]. destruct (above (key_version new) ks) as [|y l]; [by apply elem_of_nil in Ht|]. apply HrA. by right.
    + destruct (decide (x = new)) as [->|]; [rewrite lookup_insert_eq in Hx|rewrite lookup_insert_ne in Hx by done].
      * injection Hx as <-. apply elem_of_union in Hin as [Hin|Hin]; rewrite ?elem_of_list_to_set in Hin; [|done].
        rewrite Hb in Hin. destruct (skipped true (key_version new) ks) as [|y l]; [by apply elem_of_nil in Hk|].
        simpl in Hin. apply list_elem_of_singleton in Hin as ->. apply HrS. left.
      * apply links_values in Hx as [Hv|Hx]; [|done]. destruct (Hv r Hin); done.
Qed.

(** ** Examples *)
Definition ex_key (v : string) : BundleKey := mkKey ("img:" +:+ v) v ("op." +:+ v).
Definition ex_chain : list BundleKey := [ex_key "1.1.1"; ex_key "1.1.0"; ex_key "1.0.0"].
Definition ex_channel : graph_Channel := mkGChannel (ex_key "1.1.1") (links ex_chain None ∅).
Lemma ex_represents : represents ex_channel ex_chain.
Proof.
  split_and!; [split|done|done].
  - repeat constructor; eexists; vm_compute; reflexivity.
  - repeat constructor.
Defined.
Definition ex_bundle (v : string) : registry_Bundle :=
  mkRBundle ("op." +:+ v) [] "pkg" ["stable"; "beta"] ("img:" +:+ v) v None [] [] [] [] None false.
Definition ex_graph : graph_Package := mkGPackage "pkg" "stable" {[ "stable" := ex_channel ]}.

Lemma AddBundleToGraph_refines_witness :
  ∃ p' r, AddBundleToGraph (H := go_default) (ex_bundle "1.0.5") ex_graph (mkAnnotations "pkg" "stable,beta" "") false =
          (ex_bundle "1.0.5", p', r) ∧
    r = Ok tt ∧
    graph_chains p' {[ "stable" := [ex_key "1.1.1"; ex_key "1.1.0"; ex_key "1.0.5"; ex_key "1.0.0"]; "beta" := [ex_key "1.0.5"] ]}.
Proof.
  destruct (@AddBundleToGraph_refines go_default (ex_bundle "1.0.5") ex_graph (mkAnnotations "pkg" "stable,beta" "")
              {[ "stable" := ex_chain ]} (ex_bundle "1.0.5") "1.0.5" (mkVersion 1 0 5 [] []))
    as (p' & r & A' & ok & E & EA & Hg & _ & _ & Hr); [reflexivity|reflexivity|done| |].
  - apply map_Forall2_insert_2; [apply ex_represents|apply map_Forall2_empty].
  - exists p', r. assert (chains_add (new_key (ex_bundle "1.0.5") (mkVersion 1 0 5 [] [])) {[ "stable" := ex_chain ]}
      (rb_Channels (ex_bundle "1.0.5")) =
      ({[ "stable" := [ex_key "1.1.1"; ex_key "1.1.0"; ex_key "1.0.5"; ex_key "1.0.0"]; "beta" := [ex_key "1.0.5"] ]}, true))
      as EA' by (vm_compute; reflexivity).
    rewrite EA' in EA. injection EA as <- <-. split_and!; [exact E|exact Hr|exact Hg].
Defined.

Lemma skippatch_strands_witness :
  ∃ ch', add_to_channel_graph (H := go_default) true "1.1.2" (mkVersion 1 1 2 [] []) (ex_key "1.1.2") ex_channel = Ok ch' ∧
    ex_key "1.0.0" ∈ dom (gc_Nodes ch') ∧ ∀ x reps, gc_Nodes ch' !! x = Some reps → ex_key "1.0.0" ∉ reps.
Proof.
  destruct (@skippatch_strands go_default "1.1.2" (ex_key "1.1.2") ex_channel ex_chain (ex_key "1.1.1") (ex_key "1.0.0") [])
    as (ch' & E & Hd & _ & Hr); [apply ex_represents|eexists; vm_compute; reflexivity|repeat (constructor; [vm_compute; discriminate|]); constructor| |reflexivity|].
  - exact (list_elem_of_here (ex_key "1.1.1") [ex_key "1.1.0"]).
  - exists ch'. split_and!; [exact E|exact Hd|exact Hr].
Defined.
