(* ===== verification/DirGraph.v ===== *)
(** * Update graphs of package directories

    [pkg/registry/directoryGraphLoader.go] with the readers it calls,
    [ReadCSVFromBundleDirectory] of [csv.go] and [DecodePackageManifest] of
    [decode.go].

    A directory is a value: its entries in the order [ioutil.ReadDir] lists
    them, with the outcome of opening and decoding each file.  [semver.ParseRange]
    is a parameter.  The walk through a channel takes the CSVs that remain in the
    order of a map, which is unspecified and may change while the map grows: it is
    a step relation that picks any of them, and every run of it is considered. *)
From S2P Require Import Prelude Semver Json JsonCompact Property Model Declcfg DeclcfgRoundtrip DeclcfgWrite DeclcfgLoad RegistryTypes RegistryBundle Graph.
From stdpp Require Import options.

(** ** Directories *)
(** A file of a bundle directory: whether it opens, and the object it decodes to. *)
Inductive bundle_entry : Type :=
  | BDir (name : string)
  | BFile (name : string) (opens : bool) (decoded : option k8s_object).
(** An entry of a package directory. *)
Inductive package_entry : Type :=
  | PDir (name : string) (content : res (list bundle_entry))
  | PFile (name : string) (opens : option error) (decoded : res PackageManifest).

Definition DecodePackageManifest (decoded : res PackageManifest) : res PackageManifest :=
  obj ← wrap_err (λ e, Errorf "could not decode contents into package manifest - %v" [AErr e]) decoded;
  if decide (pm_PackageName obj = "") then Err (ErrNew "name of package (packageName) is missing") else Ok obj.

Definition read_csv_file (csv : option ClusterServiceVersion) (e : bundle_entry) : res (option ClusterServiceVersion) :=
  match e with
  | BFile _ true (Some obj) =>
      if decide (o_Kind obj ≠ "ClusterServiceVersion") then Ok csv
      else match csv with
           | Some _ => Err (ErrNew "more than one ClusterServiceVersion is found in bundle")
           | None => match o_asCSV obj with inl c => Ok (Some c) | inr e => Err e end
           end
  | _ => Ok csv
  end.
Definition ReadCSVFromBundleDirectory (bundleDir : string) (content : res (list bundle_entry)) : res ClusterServiceVersion :=
  dirContent ← wrap_err (λ e, Errorf "error reading bundle directory %s, %v" [AStr bundleDir; AErr e]) content;
  csv ← foldR read_csv_file None dirContent;
  match csv with
  | Some c => Ok c
  | None => Err (Errorf "no ClusterServiceVersion object found in %s" [AStr bundleDir])
  end.

(** ** The loader *)
Definition name_key (csv : string) : BundleKey := mkKey "" "" csv.
Lemma name_key_inj x y : name_key x = name_key y → x = y.
Proof. by intros [= ->]. Qed.

Lemma union_drop (D D' rem rem' : gset BundleKey) x y :
  D ⊆ D' → rem ⊆ rem' → x ∈ D' → y ∈ D ∪ rem → y ∈ D' ∪ rem' ∖ {[x]}.
Proof. intros. destruct (decide (y = x)) as [->|]; set_solver. Qed.
Lemma foldl_remaining (P : BundleKey → Prop) `{!∀ k, Decision (P k)} (rem : gset BundleKey) l k :
  k ∈ foldl (λ rem csv, if decide (P (name_key csv)) then rem else {[name_key csv]} ∪ rem) rem l ↔
  k ∈ rem ∨ (¬ P k ∧ ∃ y, k = name_key y ∧ y ∈ l).
Proof.
  revert rem. induction l as [|y l IH]; intros rem; simpl; [set_solver|]. rewrite IH. clear IH.
  case_decide; set_solver.
Qed.

Section loader.
Context `{GoRuntime} {R : Type} (ParseRange : string → res R).

Record csvReplaces := mkCsvReplaces { cr_replaces : list string; cr_skipRange : option R }.
Record csv := mkCsv { c_name : string; c_version : Version }.
Record DirGraphLoader := mkLoader {
  PackageDir : string;
  CsvNameAndReplaceMap : gmap string csvReplaces;
  SortedCSVs : list csv
}.
Definition csvs_Less (x y : csv) : bool := Version_LT (c_version x) (c_version y).

Definition NewPackageGraphLoaderFromDir (packageDir : string) (content : res (list package_entry)) : res DirGraphLoader :=
  _ ← wrap_err (λ e, Errorf "error reading from %s directory, %v" [AStr packageDir; AErr e]) content;
  Ok (mkLoader packageDir ∅ []).

(** What the loop notes of a CSV: its replaces, and its version when it parses. *)
Definition csv_replaces (c : ClusterServiceVersion) : csvReplaces :=
  let sr := match ParseRange (GetSkipRange c) with Ok r => Some r | _ => None end in
  let replaceStrings := match GetSkips c with Ok rs => rs | _ => [] end in
  let replaceStrings := match GetReplaces c with
                        | Ok r => if decide (r ≠ "") then replaceStrings ++ [r] else replaceStrings
                        | _ => replaceStrings
                        end in
  mkCsvReplaces replaceStrings sr.
Definition csv_versions (c : ClusterServiceVersion) : list csv :=
  match GetVersion c with
  | Ok version =>
      if decide (version ≠ "") then match Parse version with Ok v => [mkCsv (csv_Name c) v] | _ => [] end else []
  | _ => []
  end.
(** On an error the versions found so far stay in the loader. *)
Fixpoint load_csvs (dir : string) (m : gmap string csvReplaces) (sorted : list csv) (es : list package_entry)
    : gmap string csvReplaces * list csv * res unit :=
  match es with
  | [] => (m, sorted, Ok tt)
  | PFile _ _ _ :: es' => load_csvs dir m sorted es'
  | PDir name content :: es' =>
      match ReadCSVFromBundleDirectory (dir +:+ "/" +:+ name) content with
      | Ok c => load_csvs dir (<[csv_Name c := csv_replaces c]> m) (sorted ++ csv_versions c) es'
      | Err e => (m, sorted, Err e)
      | Panic => (m, sorted, Panic)
      end
  end.
Definition loadBundleCsvPathMap (g : DirGraphLoader) (content : res (list package_entry)) : DirGraphLoader * res unit :=
  match wrap_err (λ e, Errorf "error reading from %s directory, %v" [AStr (PackageDir g); AErr e]) content with
  | Ok bundleDirs =>
      match load_csvs (PackageDir g) ∅ (SortedCSVs g) bundleDirs with
      | (m, sorted, Ok _) => (mkLoader (PackageDir g) m (sort_slice csvs_Less sorted), Ok tt)
      | (_, sorted, r) => (mkLoader (PackageDir g) (CsvNameAndReplaceMap g) sorted, r)
      end
  | Err e => (g, Err e)
  | Panic => (g, Panic)
  end.

(** *** Channels *)
Record walk := mkWalk { w_nodes : graph_nodes; w_remaining : gset BundleKey }.
Definition replaces_of (g : DirGraphLoader) (csv : string) : list string :=
  match CsvNameAndReplaceMap g !! csv with Some r => cr_replaces r | None => [] end.
Definition walk_start (g : DirGraphLoader) (head : string) : walk :=
  mkWalk ∅ (foldl (λ rem csv, {[name_key csv]} ∪ rem) {[name_key head]} (replaces_of g head)).
(** One pass of the inner loop, for the CSV [bk]. *)
Definition visit (g : DirGraphLoader) (bk : BundleKey) (st : walk) : walk :=
  if decide (name_key (bk_CsvName bk) ∈ dom (w_nodes st)) then mkWalk (w_nodes st) (w_remaining st ∖ {[bk]})
  else
    let reps := replaces_of g (bk_CsvName bk) in
    let nodes := <[name_key (bk_CsvName bk) := list_to_set (name_key <$> reps)]> (w_nodes st) in
    mkWalk nodes
      (foldl (λ rem csv, if decide (name_key csv ∈ dom nodes) then rem else {[name_key csv]} ∪ rem) (w_remaining st) reps
       ∖ {[bk]}).
Inductive walk_step (g : DirGraphLoader) : walk → walk → Prop :=
  | walk_visit bk st : bk ∈ w_remaining st → walk_step g st (visit g bk st).

(** One run: the CSV visited next is the first the runtime gives. *)
Fixpoint walk_run (g : DirGraphLoader) (fuel : nat) (st : walk) : option graph_nodes :=
  match fuel with
  | O => None
  | S fuel' =>
      match range_set (w_remaining st) with
      | [] => Some (w_nodes st)
      | bk :: _ => walk_run g fuel' (visit g bk st)
      end
  end.
(** The CSVs a walk can meet. *)
Definition walk_universe (g : DirGraphLoader) (head : string) : gset BundleKey :=
  {[name_key head]} ∪ ⋃ ((λ r, list_to_set (name_key <$> cr_replaces r.2)) <$> map_to_list (CsvNameAndReplaceMap g)).
(** Each CSV is visited afresh at most once, and between two fresh visits each
    is dropped at most once. *)
Definition walk_fuel (g : DirGraphLoader) (head : string) : nat :=
  let n := size (walk_universe g head) in S ((n + 1) * (n + 1)).
Definition getChannelNodes (g : DirGraphLoader) (head : string) : option graph_nodes :=
  walk_run g (walk_fuel g head) (walk_start g head).

(** *** The package *)
Definition convertFromPackageManifest (m : PackageManifest) : graph_Package :=
  mkGPackage (pm_PackageName m) (GetDefaultChannel m)
    (foldl (λ chs c, <[pch_Name c := mkGChannel (name_key (pch_CurrentCSVName c)) ∅]> chs) ∅ (pm_Channels m)).
Fixpoint parse_files (dir : string) (errs : list error) (es : list package_entry) : res graph_Package :=
  match es with
  | [] => Err (Errorf "valid PackageManifest YAML file not found in %s, %s" (AStr dir :: (AErr <$> errs)))
  | PDir _ _ :: es' => parse_files dir errs es'
  | PFile name opens decoded :: es' =>
      let ymlFile := dir +:+ "/" +:+ name in
      match opens with
      | Some e => parse_files dir (errs ++ [Errorf "error opening %s file, %v" [AStr ymlFile; AErr e]]) es'
      | None =>
          match DecodePackageManifest decoded with
          | Ok m => Ok (convertFromPackageManifest m)
          | Err e => parse_files dir (errs ++ [Errorf "error parsing %s as package.yaml file, %v" [AStr ymlFile; AErr e]]) es'
          | Panic => Panic
          end
      end
  end.
Definition parsePackageYAMLFile (g : DirGraphLoader) (content : res (list package_entry)) : res graph_Package :=
  files ← wrap_err (λ e, Errorf "error reading bundle parent directory, %v" [AErr e]) content;
  parse_files (PackageDir g) [] files.

(** The directory is read twice; it may have changed in between. *)
Definition Generate (g : DirGraphLoader) (content content' : res (list package_entry)) : DirGraphLoader * res graph_Package :=
  let '(g', r) := loadBundleCsvPathMap g content in
  (g', _ ← wrap_err (λ e, Errorf "error geting CSVs from bundles in the package directory, %v" [AErr e]) r;
       pkg ← wrap_err (λ e, Errorf "error parsing package.yaml file in the package root directory, %v" [AErr e])
               (parsePackageYAMLFile g' content');
       Ok (mkGPackage (gp_Name pkg) (gp_DefaultChannel pkg)
             ((λ ch, mkGChannel (gc_Head ch) (default ∅ (getChannelNodes g' (bk_CsvName (gc_Head ch))))) <$> gp_Channels pkg))).

End loader.
Arguments DirGraphLoader : clear implicits.

(** ** What a walk computes *)
Section walks.
Context {R : Type}.
Variables (g : DirGraphLoader R) (head : string).

(** A CSV replaces another, and the CSVs the head leads to. *)
Definition csv_edge (x y : string) : Prop := y ∈ replaces_of g x.
Definition reaches (x : string) : Prop := rtc csv_edge head x.

Record walk_inv (st : walk) : Prop := {
  wi_nodes k s : w_nodes st !! k = Some s →
    ∃ x, k = name_key x ∧ reaches x ∧ s = list_to_set (name_key <$> replaces_of g x) ∧
      ∀ y, csv_edge x y → name_key y ∈ dom (w_nodes st) ∪ w_remaining st;
  wi_remaining k : k ∈ w_remaining st → ∃ x, k = name_key x ∧ reaches x;
  wi_head : name_key head ∈ dom (w_nodes st) ∪ w_remaining st
}.

Lemma walk_start_inv : walk_inv (walk_start g head).
Proof.
  assert (∀ k, k ∈ w_remaining (walk_start g head) ↔ k = name_key head ∨ ∃ y, k = name_key y ∧ y ∈ replaces_of g head) as Hrem.
  { intros k. unfold walk_start. simpl. generalize ({[name_key head]} : gset BundleKey) (elem_of_singleton k (name_key head) (C := gset BundleKey)).
    intros s Hs. rewrite <- Hs. clear Hs. revert s. induction (replaces_of g head) as [|y l IH]; intros s; simpl; [set_solver|].
    rewrite IH. set_solver. }
  split; [done| |].
  - intros k [->|(y & -> & Hy)]%Hrem; [exists head|exists y]; split; [done|apply rtc_refl|done|]. by apply rtc_once.
  - apply elem_of_union. right. apply Hrem. by left.
Qed.

Lemma visit_inv bk st : walk_inv st → bk ∈ w_remaining st → walk_inv (visit g bk st).
Proof.
  intros [Hn Hr Hh] Hbk. destruct (Hr _ Hbk) as (x & -> & Hx). unfold visit. simpl.
  destruct (decide (name_key x ∈ dom (w_nodes st))) as [Hin|Hin].
  - split; simpl.
    + intros k s Hk. destruct (Hn _ _ Hk) as (z & -> & Hz & -> & Hcl). exists z. split_and!; [done..|].
      intros y Hy%Hcl. by eapply union_drop.
    + intros k [Hk _]%elem_of_difference. auto.
    + by eapply union_drop.
  - set (D' := dom (<[_ := _]> (w_nodes st))). set (rem' := foldl _ _ _).
    assert (dom (w_nodes st) ⊆ D' ∧ name_key x ∈ D') as [HD Hx'] by (unfold D'; rewrite dom_insert; clear; set_solver).
    assert (∀ k, k ∈ rem' ↔ k ∈ w_remaining st ∨ ((k ∉ D') ∧ ∃ y, k = name_key y ∧ y ∈ replaces_of g x)) as Hrem
      by (intros k; exact (foldl_remaining (λ k, k ∈ D') _ _ k)).
    assert (w_remaining st ⊆ rem') as Hsub by (intros k; rewrite Hrem; by left).
    clearbody rem'. split; simpl; fold D'; clearbody D'.
    + intros k s [[<- <-]|[Hne Hk]]%lookup_insert_Some.
      * exists x. split_and!; [done..|]. intros y Hy. eapply (union_drop D' D' rem' rem'); [done..|].
        destruct (decide (name_key y ∈ D')); [by apply elem_of_union_l|apply elem_of_union_r, Hrem]. eauto.
      * destruct (Hn _ _ Hk) as (z & -> & Hz & -> & Hcl). exists z. split_and!; [done..|]. intros y Hy%Hcl. by eapply union_drop.
    + intros k [[Hk|(_ & y & -> & Hy)]%Hrem _]%elem_of_difference; [auto|]. exists y. split; [done|]. by eapply rtc_r.
    + by eapply union_drop.
Qed.

Lemma reaches_universe x : reaches x → name_key x ∈ walk_universe g head.
Proof.
  intros Hx. unfold walk_universe. apply rtc_inv_r in Hx as [<-|(y & _ & Hy)]; [set_solver|].
  apply elem_of_union_r, elem_of_union_list. unfold csv_edge, replaces_of in Hy.
  destruct (CsvNameAndReplaceMap g !! y) as [r|] eqn:E; [|by apply elem_of_nil in Hy].
  exists (list_to_set (name_key <$> cr_replaces r)). split; [|apply elem_of_list_to_set; by apply list_elem_of_fmap_2].
  apply list_elem_of_fmap. exists (y, r). split; [done|]. by apply elem_of_map_to_list.
Qed.

Definition walk_measure (st : walk) : nat :=
  size (walk_universe g head ∖ dom (w_nodes st)) * (size (walk_universe g head) + 1) + size (w_remaining st).

Lemma walk_inv_bounded st : walk_inv st → dom (w_nodes st) ⊆ walk_universe g head ∧ w_remaining st ⊆ walk_universe g head.
Proof.
  intros [Hn Hr _]. split.
  - intros k [s Hk]%elem_of_dom. destruct (Hn _ _ Hk) as (x & -> & Hx & _). by apply reaches_universe.
  - intros k Hk. destruct (Hr _ Hk) as (x & -> & Hx). by apply reaches_universe.
Qed.

(** Every visit brings the walk nearer to its end. *)
Lemma visit_decreases bk st : walk_inv st → bk ∈ w_remaining st → walk_measure (visit g bk st) < walk_measure st.
Proof.
  intros Hi Hbk. pose proof (walk_inv_bounded _ (visit_inv bk st Hi Hbk)) as [_ Hb]. destruct (wi_remaining _ Hi _ Hbk) as (x & -> & Hx).
  unfold walk_measure. pose proof (subseteq_size _ _ Hb) as Hs. revert Hs. unfold visit. simpl.
  destruct (decide (name_key x ∈ dom (w_nodes st))) as [Hin|Hin]; simpl; intros Hs.
  - apply Nat.add_lt_mono_l. apply subset_size. clear -Hbk. set_solver.
  - set (U := walk_universe g head) in *.
    assert (size (U ∖ dom (<[name_key x := list_to_set (name_key <$> replaces_of g x)]> (w_nodes st))) < size (U ∖ dom (w_nodes st))) as Hlt.
    { apply subset_size. apply reaches_universe in Hx. fold U in Hx. rewrite dom_insert. clear -Hx Hin. set_solver. }
    clear -Hlt Hs. nia.
Qed.

(** Whatever the order, a walk ends. *)
Lemma walk_terminates st : walk_inv st → sn (walk_step g) st.
Proof.
  induction (well_founded_ltof _ walk_measure st) as [st _ IH]. intros Hi. constructor. intros st' Hstep.
  destruct Hstep as [bk st Hbk]. apply IH; [by apply visit_decreases|by apply visit_inv].
Qed.
Lemma walk_reachable_inv st : rtc (walk_step g) (walk_start g head) st → walk_inv st.
Proof.
  apply (rtc_ind_r walk_inv); [apply walk_start_inv|]. intros y z _ [bk st' Hbk] Hi. by apply visit_inv.
Qed.

(** The nodes of a finished walk: the CSVs the head reaches, each with what it replaces. *)
Definition channel_of (nodes : graph_nodes) : Prop :=
  ∀ k s, nodes !! k = Some s ↔ ∃ x, k = name_key x ∧ reaches x ∧ s = list_to_set (name_key <$> replaces_of g x).

Lemma walk_done st : walk_inv st → w_remaining st = ∅ → channel_of (w_nodes st).
Proof.
  intros [Hn Hr Hh] Hrem k s. rewrite Hrem, union_empty_r_L in Hh. split.
  - intros Hk. destruct (Hn _ _ Hk) as (x & ? & ? & ? & _). eauto.
  - intros (x & -> & Hx & ->). assert (name_key x ∈ dom (w_nodes st)) as Hd.
    { revert x Hx. apply (rtc_ind_r (λ x, name_key x ∈ dom (w_nodes st))); [done|]. intros y z _ Hyz [t Hy]%elem_of_dom.
      destruct (Hn _ _ Hy) as (y' & Ey%name_key_inj & _ & _ & Hcl). subst y'. specialize (Hcl z Hyz).
      by rewrite Hrem, union_empty_r_L in Hcl. }
    apply elem_of_dom in Hd as [t Ht]. destruct (Hn _ _ Ht) as (x' & Ex%name_key_inj & _ & -> & _). by subst x'.
Qed.

Lemma walk_run_spec `{GoRuntime} fuel st :
  walk_inv st → walk_measure st < fuel → ∃ nodes, walk_run g fuel st = Some nodes ∧ channel_of nodes.
Proof.
  revert st. induction fuel as [|fuel IH]; intros st Hi Hm; [lia|]. cbn [walk_run].
  pose proof (range_set_perm (w_remaining st)) as Hp. destruct (range_set (w_remaining st)) as [|bk l] eqn:E.
  - exists (w_nodes st). split; [done|]. apply walk_done; [done|]. apply leibniz_equiv, elements_empty_inv.
    by apply Permutation_nil_l in Hp.
  - assert (bk ∈ w_remaining st) as Hbk by (apply elem_of_elements; rewrite <- Hp; left).
    apply IH; [by apply visit_inv|]. pose proof (visit_decreases bk st Hi Hbk). lia.
Qed.
End walks.

(** C9. [getChannelNodes] ends and computes the CSVs the channel head leads to.
    Whatever order the remaining CSVs are visited in, no walk runs forever; a walk
    that has ended has exactly one node for each CSV reachable from the head
    through the replaces and skips of the bundles (cycles and CSVs without a
    bundle included), mapped to what that CSV replaces; and the fuelled run of any
    runtime has enough fuel to return these nodes. *)
Theorem getChannelNodes_reachable `{GoRuntime} {R} (g : DirGraphLoader R) (head : string) :
  sn (walk_step g) (walk_start g head) ∧
  (∀ st, rtc (walk_step g) (walk_start g head) st → w_remaining st = ∅ → channel_of g head (w_nodes st)) ∧
  ∃ nodes, getChannelNodes g head = Some nodes ∧ channel_of g head nodes.
Proof.
  split_and!.
  - eapply walk_terminates, walk_start_inv.
  - intros st Hst Hrem. apply walk_done; [by apply walk_reachable_inv|done].
  - apply walk_run_spec; [apply walk_start_inv|].
    pose proof (walk_inv_bounded g head _ (walk_start_inv g head)) as [_ Hb%subseteq_size].
    unfold walk_measure, walk_fuel. pose proof (subseteq_size (walk_universe g head ∖ dom (w_nodes (walk_start g head))) (walk_universe g head) ltac:(set_solver)).
    nia.
Qed.
