(* ===== verification/Sql.v ===== *)
(** * The index database

    The tables of the index and the SQL statements [pkg/sqlite/load.go] and
    [loadprocs.go] run on them.  The schema is the one the migrations leave
    (000, 004, 005, 006, 007, 008, 009, 011 and 012): a table is a map from its primary key
    to the other columns, or a list of rows when it has none; a nullable column is
    an option.

    A statement either fails and leaves the database as it was, or succeeds; the
    only errors modelled are the violations of constraints (primary keys and
    immediate foreign keys), not those of the disk or the driver.  Deleting a row
    deletes the rows that reference it through a foreign key declared
    [ON DELETE CASCADE].  The deferred foreign keys, from the [replaces] of a
    channel entry to an entry and from the rows of APIs to bundles, are checked on
    the whole index when a transaction is committed; the engine counts the
    violations made since the transaction began, which is the same on an index
    without any.

    Rows are returned in the order of the primary key, of insertion, or in any
    order when the statement fixes none: such an order is the runtime's, like that
    of a Go map.

    Two triggers delete an API when a row of its providers or requirers is
    deleted; a cascade deletes rows of both tables, in any order. *)
From S2P Require Import Prelude Json JsonCompact Property Model Declcfg DeclcfgRoundtrip DeclcfgWrite DeclcfgLoad RegistryTypes.
From stdpp Require Import options.

(** ** Tables *)
Record bundle_row := mkBundleRow {
  ob_csv : option string;
  ob_bundle : option string;
  ob_bundlepath : option string;
  ob_version : option string;
  ob_skiprange : option string;
  ob_replaces : option string;
  ob_skips : option string;
  ob_substitutesfor : option string
}.
Record entry_row := mkEntryRow {
  er_channel : string;
  er_package : string;
  er_bundle : string;
  er_replaces : option Z;
  er_depth : Z
}.
Record property_row := mkPropertyRow {
  pr_type : string;
  pr_value : option string;
  pr_bundle : string;
  pr_version : option string;
  pr_path : option string
}.
(** An API is identified by its group, version and kind. *)
Abbreviation gvk := (string * string * string)%type.
Record api_row := mkApiRow {
  ar_api : gvk;
  ar_bundle : string;
  ar_version : option string;
  ar_path : option string
}.
#[export] Instance api_row_eq_dec : EqDecision api_row.
Proof. solve_decision. Defined.
Record api_tables := mkApis {
  api : gmap gvk string;
  api_provider : list api_row;
  api_requirer : list api_row
}.
Record db := mkDB {
  operatorbundle : gmap string bundle_row;
  package : gmap string (option string);
  channel : gmap (string * string) string;
  channel_entry : gmap Z entry_row;
  properties : list property_row;
  deprecated_bundles : gset string;
  dependencies : list property_row;
  related_image : list (string * string);
  apis : api_tables
}.
Definition empty_apis : api_tables := mkApis ∅ [] [].
Definition empty_db : db := mkDB ∅ ∅ ∅ ∅ [] ∅ [] [] empty_apis.

Definition set_bundles (d : db) x := mkDB x (package d) (channel d) (channel_entry d) (properties d) (deprecated_bundles d) (dependencies d) (related_image d) (apis d).
Definition set_packages (d : db) x := mkDB (operatorbundle d) x (channel d) (channel_entry d) (properties d) (deprecated_bundles d) (dependencies d) (related_image d) (apis d).
Definition set_db_channels (d : db) x := mkDB (operatorbundle d) (package d) x (channel_entry d) (properties d) (deprecated_bundles d) (dependencies d) (related_image d) (apis d).
Definition set_entries (d : db) x := mkDB (operatorbundle d) (package d) (channel d) x (properties d) (deprecated_bundles d) (dependencies d) (related_image d) (apis d).
Definition set_db_properties (d : db) x := mkDB (operatorbundle d) (package d) (channel d) (channel_entry d) x (deprecated_bundles d) (dependencies d) (related_image d) (apis d).
Definition set_deprecated (d : db) x := mkDB (operatorbundle d) (package d) (channel d) (channel_entry d) (properties d) x (dependencies d) (related_image d) (apis d).
Definition set_dependencies (d : db) x := mkDB (operatorbundle d) (package d) (channel d) (channel_entry d) (properties d) (deprecated_bundles d) x (related_image d) (apis d).
Definition set_images (d : db) x := mkDB (operatorbundle d) (package d) (channel d) (channel_entry d) (properties d) (deprecated_bundles d) (dependencies d) x (apis d).
Definition set_apis (d : db) x := mkDB (operatorbundle d) (package d) (channel d) (channel_entry d) (properties d) (deprecated_bundles d) (dependencies d) (related_image d) x.

(** Rows in any order. *)
Definition any_order `{GoRuntime} {A} (l : list A) : list A := sort_slice (λ _ _, false) l.
Lemma any_order_perm `{GoRuntime} {A} (l : list A) : any_order l ≡ₚ l.
Proof. apply sort_slice_perm. Qed.

(** ** References to bundles *)
(** A reference by name, version and path; none when a column is null. *)
Definition ref_matches (v p : option string) (b : bundle_row) : bool :=
  match v, p with
  | Some v, Some p => bool_decide (ob_version b = Some v ∧ ob_bundlepath b = Some p)
  | _, _ => false
  end.
Definition refers_to (m : gmap string bundle_row) (name : string) (v p : option string) : bool :=
  match m !! name with Some b => ref_matches v p b | None => false end.
Definition ref_ok (m : gmap string bundle_row) (name : string) (v p : option string) : bool :=
  match v, p with Some _, Some _ => refers_to m name v p | _, _ => true end.

(** ** Transactions *)
Definition TX (A : Type) : Type := db → db * res A.
#[export] Instance TX_ret : MRet TX := λ A a d, (d, Ok a).
#[export] Instance TX_bind : MBind TX := λ A B f m d,
  match m d with
  | (d', Ok a) => f a d'
  | (d', Err e) => (d', Err e)
  | (d', Panic) => (d', Panic)
  end.
Definition tx_err {A} (e : error) : TX A := λ d, (d, Err e).
Definition select {A} (q : db → A) : TX A := λ d, (d, Ok (q d)).
Definition statement (u : db → res db) : TX unit := λ d,
  match u d with Ok d' => (d', Ok tt) | Err e => (d, Err e) | Panic => (d, Panic) end.
(** A loop that stops at the first error. *)
Fixpoint tx_each {A} (f : A → TX unit) (l : list A) : TX unit :=
  match l with [] => mret tt | x :: l' => _ ← f x; tx_each f l' end.
(** Running a step and keeping its error as a value. *)
Definition tx_try {A} (m : TX A) : TX (A + error) := λ d,
  match m d with
  | (d', Ok a) => (d', Ok (inl a))
  | (d', Err e) => (d', Ok (inr e))
  | (d', Panic) => (d', Panic)
  end.

(** Every [replaces] is an entry. *)
Definition entries_resolved (d : db) : Prop :=
  map_Forall (λ _ e, match er_replaces e with Some r => is_Some (channel_entry d !! r) | None => True end) (channel_entry d).
#[export] Instance entries_resolved_dec d : Decision (entries_resolved d).
Proof. apply map_Forall_dec. intros _ e. destruct (er_replaces e); apply _. Defined.

(** Every API row with a reference has its bundle. *)
Definition apis_resolved (d : db) : Prop :=
  Forall (λ r, ref_ok (operatorbundle d) (ar_bundle r) (ar_version r) (ar_path r) = true)
    (api_provider (apis d) ++ api_requirer (apis d)).
Definition deferred_ok (d : db) : Prop := entries_resolved d ∧ apis_resolved d.
#[export] Instance deferred_ok_dec d : Decision (deferred_ok d).
Proof. unfold deferred_ok, apis_resolved. apply _. Defined.

Definition fk_error : error := ErrNew "FOREIGN KEY constraint failed".
Definition unique_error : error := ErrNew "UNIQUE constraint failed".
(** [Begin], the steps, and [Commit]; an error rolls everything back. *)
Definition transaction {A} (m : TX A) : TX A := λ d,
  match m d with
  | (d', Ok a) => if decide (deferred_ok d') then (d', Ok a) else (d, Err fk_error)
  | (_, Err e) => (d, Err e)
  | (_, Panic) => (d, Panic)
  end.

(** ** Statements *)
(** *** Deleting, with the rows that go with it *)
Definition is_default_of (gone : gset (string * string)) (p : string) (default_channel : option string) : bool :=
  match default_channel with Some c => bool_decide ((p, c) ∈ gone) | None => false end.
(** [DELETE FROM channel WHERE P]: the entries of the channel and the package it
    is the default channel of go too.  A channel is keyed by package and name. *)
Definition delete_channels (P : string * string → string → bool) (d : db) : db :=
  let gone := dom (filter (λ kh, P kh.1 kh.2 = true) (channel d)) in
  mkDB (operatorbundle d)
    (filter (λ pd, is_default_of gone pd.1 pd.2 = false) (package d))
    (filter (λ kh, P kh.1 kh.2 = false) (channel d))
    (filter (λ ie, (er_package ie.2, er_channel ie.2) ∉ gone) (channel_entry d))
    (properties d) (deprecated_bundles d) (dependencies d) (related_image d) (apis d).
(** The clean-up triggers: no pair of a provider and a requirer mentions the API. *)
Definition api_used (t : api_tables) (g : gvk) : bool :=
  existsb (λ p, existsb (λ r, bool_decide (ar_api p = g ∨ ar_api r = g)) (api_requirer t)) (api_provider t).
(** Deleting an API deletes its providers and requirers; the triggers on these
    find the API gone. *)
Definition api_cleanup (t : api_tables) (g : gvk) : api_tables :=
  if api_used t g then t
  else mkApis (delete g (api t)) (filter (λ r, ar_api r ≠ g) (api_provider t)) (filter (λ r, ar_api r ≠ g) (api_requirer t)).
Fixpoint remove_row (r : api_row) (l : list api_row) : option (list api_row) :=
  match l with
  | [] => None
  | x :: l' => if decide (x = r) then Some l' else cons x <$> remove_row r l'
  end.
(** A row of the providers ([inl]) or requirers ([inr]), unless it is gone already. *)
Definition delete_api_row (t : api_tables) (x : api_row + api_row) : api_tables :=
  match x with
  | inl r => match remove_row r (api_provider t) with
             | Some l => api_cleanup (mkApis (api t) l (api_requirer t)) (ar_api r)
             | None => t
             end
  | inr r => match remove_row r (api_requirer t) with
             | Some l => api_cleanup (mkApis (api t) (api_provider t) l) (ar_api r)
             | None => t
             end
  end.
Definition delete_api_rows (t : api_tables) (l : list (api_row + api_row)) : api_tables := foldl delete_api_row t l.

(** [DELETE FROM operatorbundle WHERE P]: the channels the bundle is the head of
    go too, with what goes with them, and the rows that reference the bundle. *)
Definition delete_bundles `{GoRuntime} (P : string → bool) (d : db) : db :=
  let gone := filter (λ nb, P nb.1 = true) (operatorbundle d) in
  let d' := delete_channels (λ _ head, bool_decide (is_Some (gone !! head))) d in
  let kept r := refers_to gone (pr_bundle r) (pr_version r) (pr_path r) = false in
  let lost r := refers_to gone (ar_bundle r) (ar_version r) (ar_path r) = true in
  mkDB (filter (λ nb, P nb.1 = false) (operatorbundle d))
    (package d') (channel d') (channel_entry d')
    (filter kept (properties d)) (deprecated_bundles d) (filter kept (dependencies d))
    (filter (λ ib, gone !! ib.2 = None) (related_image d))
    (delete_api_rows (apis d)
       (any_order ((inl <$> filter lost (api_provider (apis d))) ++ (inr <$> filter lost (api_requirer (apis d)))))).
(** [DELETE FROM api_provider WHERE operatorbundle_name=?] and the same for the
    requirers *)
Definition delete_providers (name : string) (d : db) : db :=
  set_apis d (delete_api_rows (apis d) (inl <$> filter (λ r, ar_bundle r = name) (api_provider (apis d)))).
Definition delete_requirers (name : string) (d : db) : db :=
  set_apis d (delete_api_rows (apis d) (inr <$> filter (λ r, ar_bundle r = name) (api_requirer (apis d)))).
(** [DELETE FROM package WHERE name = ?] *)
Definition delete_package (name : string) (d : db) : db := set_packages d (delete name (package d)).
(** [DELETE FROM channel_entry WHERE P] *)
Definition delete_entries (P : entry_row → bool) (d : db) : db :=
  set_entries d (filter (λ ie, P ie.2 = false) (channel_entry d)).

(** *** Inserting and updating *)
(** [insert into package(name) values(?)], plain and [or replace] *)
Definition insert_package (name : string) (d : db) : res db :=
  if decide (is_Some (package d !! name)) then Err unique_error else Ok (set_packages d (<[name := None]> (package d))).
Definition replace_package (name : string) (d : db) : res db := Ok (set_packages d (<[name := None]> (package d))).
(** [update package set default_channel = ? where name = ?] *)
Definition update_default_channel (c name : string) (d : db) : res db :=
  match package d !! name with
  | None => Ok d
  | Some _ => if decide (is_Some (channel d !! (name, c))) then Ok (set_packages d (<[name := Some c]> (package d))) else Err fk_error
  end.
(** [insert into channel(name, package_name, head_operatorbundle_name)], plain and [or replace] *)
Definition insert_channel (name pkg head : string) (d : db) : res db :=
  if decide (is_Some (channel d !! (pkg, name))) then Err unique_error
  else if decide (is_Some (operatorbundle d !! head)) then Ok (set_db_channels d (<[(pkg, name) := head]> (channel d)))
  else Err fk_error.
Definition replace_channel (name pkg head : string) (d : db) : res db :=
  let d' := delete_channels (λ k _, bool_decide (k = (pkg, name))) d in
  if decide (is_Some (operatorbundle d !! head)) then Ok (set_db_channels d' (<[(pkg, name) := head]> (channel d')))
  else Err fk_error.
(** [update channel set head_operatorbundle_name = ? where name = ? and package_name = ?] *)
Definition update_channel_head (head name pkg : string) (d : db) : res db :=
  match channel d !! (pkg, name) with
  | None => Ok d
  | Some _ => if decide (is_Some (operatorbundle d !! head)) then Ok (set_db_channels d (<[(pkg, name) := head]> (channel d))) else Err fk_error
  end.
(** The id an inserted entry gets: one more than the greatest. *)
Definition next_id (d : db) : Z := (map_fold (λ i _ m, Z.max i m) 0 (channel_entry d) + 1)%Z.
(** [insert into channel_entry(channel_name, package_name, operatorbundle_name, depth)] *)
Definition insert_entry (c pkg csv : string) (depth : Z) (d : db) : res db :=
  if decide (is_Some (channel d !! (pkg, c))) then
    Ok (set_entries d (<[next_id d := mkEntryRow c pkg csv None depth]> (channel_entry d)))
  else Err fk_error.
(** [update channel_entry set replaces = ? where entry_id = ?] *)
Definition with_replaces (r : option Z) (e : entry_row) : entry_row :=
  mkEntryRow (er_channel e) (er_package e) (er_bundle e) r (er_depth e).
Definition update_replaces (r id : Z) (d : db) : res db :=
  Ok (set_entries d (alter (with_replaces (Some r)) id (channel_entry d))).
(** [UPDATE channel_entry SET replaces=NULL WHERE replaces=?] *)
Definition clear_replaces (id : Z) (d : db) : res db :=
  Ok (set_entries d ((λ e, if decide (er_replaces e = Some id) then with_replaces None e else e) <$> channel_entry d)).
(** [insert into properties(...)] and the same for dependencies *)
Definition insert_property (r : property_row) (d : db) : res db :=
  if ref_ok (operatorbundle d) (pr_bundle r) (pr_version r) (pr_path r)
  then Ok (set_db_properties d (properties d ++ [r])) else Err fk_error.
Definition insert_dependency (r : property_row) (d : db) : res db :=
  if ref_ok (operatorbundle d) (pr_bundle r) (pr_version r) (pr_path r)
  then Ok (set_dependencies d (dependencies d ++ [r])) else Err fk_error.
(** [insert into operatorbundle(...)] *)
Definition insert_bundle (name : string) (b : bundle_row) (d : db) : res db :=
  if decide (is_Some (operatorbundle d !! name)) then Err unique_error
  else Ok (set_bundles d (<[name := b]> (operatorbundle d))).
(** [insert into related_image(image, operatorbundle_name) values(?,?)] *)
Definition insert_image (image name : string) (d : db) : res db :=
  if decide (is_Some (operatorbundle d !! name)) then Ok (set_images d (related_image d ++ [(image, name)])) else Err fk_error.
(** [insert or ignore into api(group_name, version, kind, plural)] *)
Definition insert_api (g : gvk) (plural : string) (d : db) : res db :=
  Ok (set_apis d (mkApis (match api (apis d) !! g with Some _ => api (apis d) | None => <[g := plural]> (api (apis d)) end)
                    (api_provider (apis d)) (api_requirer (apis d)))).
(** [insert into api_provider(...)] and the same for requirers; the reference to
    the bundle is deferred *)
Definition insert_provider (r : api_row) (d : db) : res db :=
  if decide (is_Some (api (apis d) !! ar_api r))
  then Ok (set_apis d (mkApis (api (apis d)) (api_provider (apis d) ++ [r]) (api_requirer (apis d)))) else Err fk_error.
Definition insert_requirer (r : api_row) (d : db) : res db :=
  if decide (is_Some (api (apis d) !! ar_api r))
  then Ok (set_apis d (mkApis (api (apis d)) (api_provider (apis d)) (api_requirer (apis d) ++ [r]))) else Err fk_error.
(** [INSERT OR REPLACE INTO deprecated(operatorbundle_name) VALUES(?)] *)
Definition insert_deprecated (name : string) (d : db) : res db := Ok (set_deprecated d ({[name]} ∪ deprecated_bundles d)).
(** [update operatorbundle set ... where P] *)
Definition update_bundles (P : string → bundle_row → bool) (f : bundle_row → bundle_row) (d : db) : res db :=
  Ok (set_bundles d (map_imap (λ n b, Some (if P n b then f b else b)) (operatorbundle d))).
