(* ===== verification/SqlLoad.v ===== *)
(** * Loading and pruning the index

    [pkg/sqlite/loadprocs.go], the operations of [pkg/sqlite/load.go] on packages,
    channels and bundles, [pkg/sqlite/graphloader.go] with the queries it uses, and
    the commands of [deprecate.go], [remove.go] and [stranded.go].

    Adding the rows of a bundle is the subject of the file SqlAdd.  Preparing and
    closing statements does nothing here. *)
From S2P Require Import Prelude Semver Json JsonCompact Property JsonTotal Model Declcfg DeclcfgRoundtrip DeclcfgWrite DeclcfgLoad RegistryTypes RegistryBundle Graph Sql.
From stdpp Require Import options.

Definition ErrBundleImageNotInDatabase : error := ErrNew "Bundle Image not in database".
Definition ErrRemovingDefaultChannelDuringDeprecation : error := ErrNew "Bundle deprecation causing default channel removal".
Definition ErrPackageNotInDatabase : error := ErrNew "Package not in database".

(** [utilerrors.NewAggregate]: nil when there are no errors. *)
Definition NewAggregate (errs : list error) : res unit :=
  match errs with [] => Ok tt | _ => Err (Errorf "aggregate" (AErr <$> errs)) end.
Definition finish (errs : list error) : TX unit := λ d, (d, NewAggregate errs).
(** [if err := m; err != nil { errs = append(errs, err) }] *)
Definition append_err {A} (errs : list error) (m : TX A) : TX (list error) :=
  r ← tx_try m; mret (match r with inl _ => errs | inr e => errs ++ [e] end).
(** [sql.NullString{String: s, Valid: s != ""}] *)
Definition sqlString (s : string) : option string := if decide (s = "") then None else Some s.

(** ** loadprocs.go *)
Definition addChannelEntry (channelName packageName csvName : string) (depth : Z) : TX Z :=
  id ← select next_id;
  _ ← statement (insert_entry channelName packageName csvName depth);
  mret id.
Definition addReplaces (replacesID entryID : Z) : TX unit := statement (update_replaces replacesID entryID).
Definition addPackage (packageName : string) : TX unit := statement (insert_package packageName).
Definition addPackageIfNotExists (packageName : string) : TX unit := statement (replace_package packageName).
Definition addChannel (channelName packageName headCsvName : string) : TX unit :=
  statement (insert_channel channelName packageName headCsvName).
(** The arguments are bound in the order they are passed. *)
Definition updateChannel (channelName packageName headCsvName : string) : TX unit :=
  statement (update_channel_head channelName packageName headCsvName).
Definition addOrUpdateChannel (channelName packageName headCsvName : string) : TX unit :=
  statement (replace_channel channelName packageName headCsvName).
Definition updateDefaultChannel (channelName packageName : string) : TX unit :=
  statement (update_default_channel channelName packageName).
Definition truncChannelGraph (channelName packageName : string) : TX unit :=
  statement (λ d, Ok (delete_entries (λ e, bool_decide (er_channel e = channelName ∧ er_package e = packageName)) d)).

(** ** Reading bundles *)
Definition bundle_skips (b : bundle_row) : list string :=
  match ob_skips b with
  | Some s => if decide (s = "") then [] else Split ","%char s
  | None => []
  end.
Definition getBundleSkipsReplacesVersion (bundleName : string) : TX (string * list string * string) :=
  b ← select (λ d, operatorbundle d !! bundleName);
  match b with
  | None => tx_err (Errorf "no bundle found for bundlename %s" [AStr bundleName])
  | Some b => mret (default "" (ob_replaces b), bundle_skips b, default "" (ob_version b))
  end.
Definition getBundlePathIfExists (bundleName : string) : TX string :=
  select (λ d, default "" (operatorbundle d !! bundleName ≫= ob_bundlepath)).
Definition deprecated (name : string) : TX bool := select (λ d, bool_decide (name ∈ deprecated_bundles d)).
Definition getBundleSubstitution (name : string) : TX string :=
  select (λ d, default "" (operatorbundle d !! name ≫= ob_substitutesfor)).

(** ** Adding channels from manifests *)
Definition addProperty (propType value bundleName version path : string) : TX unit :=
  statement (insert_property (mkPropertyRow propType (Some value) bundleName (sqlString version) (sqlString path))).
(** [json.Marshal] of a struct of two strings never fails. *)
Definition addPackageProperty (bundleName pkg version bundlePath : string) : TX unit :=
  addProperty PackageType (print_struct true [("packageName", pkg); ("version", version)]) bundleName version bundlePath.

Definition rmPackage (pkg : string) : TX unit :=
  _ ← statement (λ d, Ok (delete_package pkg d));
  _ ← statement (λ d, Ok (delete_channels (λ k _, bool_decide (k.1 = pkg)) d));
  statement (λ d, Ok (delete_entries (λ e, bool_decide (er_package e = pkg)) d)).

(** One channel of the manifest: elided when it starts with a deprecated bundle.
    The channels added, whether one is the default, and the errors. *)
Record added_channels := mkAdded { ad_channels : list PackageChannel; ad_hasDefault : bool; ad_errs : list error }.
Definition add_manifest_channel (m : PackageManifest) (st : added_channels) (c : PackageChannel) : TX added_channels :=
  dep ← deprecated (pch_CurrentCSVName c);
  if (dep : bool) then mret st
  else
    r ← tx_try (statement (insert_channel (pch_Name c) (pm_PackageName m) (pch_CurrentCSVName c)));
    match r with
    | inr e => mret (mkAdded (ad_channels st) (ad_hasDefault st)
                       (ad_errs st ++ [Errorf "failed to add channel %q in package %q: %s" [AStr (pch_Name c); AStr (pm_PackageName m); AErr e]]))
    | inl _ =>
        if IsDefaultChannel c m then
          r ← tx_try (statement (update_default_channel (pch_Name c) (pm_PackageName m)));
          match r with
          | inr e => mret (mkAdded (ad_channels st) true
                             (ad_errs st ++ [Errorf "failed to add default channel %q in package %q: %s" [AStr (pch_Name c); AStr (pm_PackageName m); AErr e]]))
          | inl _ => mret (mkAdded (ad_channels st ++ [c]) true (ad_errs st))
          end
        else mret (mkAdded (ad_channels st ++ [c]) (ad_hasDefault st) (ad_errs st))
    end.
Fixpoint tx_fold {A B} (f : B → A → TX B) (b : B) (l : list A) : TX B :=
  match l with [] => mret b | x :: l' => b' ← f b x; tx_fold f b' l' end.

(** The entries for one skipped bundle: one for it and one more for the bundle
    that skips it, which replaces it.  An error goes to the list and the depth
    stays. *)
Definition add_skip (c : PackageChannel) (pkg csv : string) (st : Z * list error) (skip : string) : TX (Z * list error) :=
  let '(depth, errs) := st in
  r ← tx_try (addChannelEntry (pch_Name c) pkg skip depth);
  match r with
  | inr e => mret (depth, errs ++ [Errorf "failed to add channel %q for skipped version %q in package %q: %s"
                                     [AStr (pch_Name c); AStr skip; AStr pkg; AErr e]])
  | inl skippedID =>
      r ← tx_try (addChannelEntry (pch_Name c) pkg csv depth);
      match r with
      | inr e => mret (depth, errs ++ [Errorf "failed to add channel %q for replaces %q in package %q: %s"
                                         [AStr (pch_Name c); AStr csv; AStr pkg; AErr e]])
      | inl synthesizedID =>
          r ← tx_try (addReplaces skippedID synthesizedID);
          match r with
          | inr e => mret (depth, errs ++ [e])
          | inl _ => mret ((depth + 1)%Z, errs)
          end
      end
  end.

(** What one pass of the loop along a channel does: it ends with the errors, or
    goes on with the bundle replaced, its entry, the depth and the errors. *)
Definition channel_pass (pkg : string) (c : PackageChannel) (replaceCycle : gset string)
    (csv : string) (currentID depth : Z) (errs : list error) : TX (list error + string * Z * Z * list error) :=
  let stop e := mret (inl (errs ++ [e])) in
  r ← tx_try (getBundleSkipsReplacesVersion csv);
  match r with
  | inr e => stop e
  | inl (replaces, skips, version) =>
      bundlePath ← getBundlePathIfExists csv;
      r ← tx_try (addPackageProperty csv pkg version bundlePath);
      match r with
      | inr e => stop e
      | inl _ =>
          st ← tx_fold (add_skip c pkg csv) (depth, errs) skips;
          let '(depth, errs) := st in
          let stop e := mret (inl (errs ++ [e])) in
          if decide (replaces = "") then mret (inl errs)
          else
            r ← tx_try (addChannelEntry (pch_Name c) pkg replaces depth);
            match r with
            | inr e => stop (Errorf "failed to add channel %q for replaces %q in package %q: %s"
                               [AStr (pch_Name c); AStr replaces; AStr pkg; AErr e])
            | inl replacedID =>
                if decide (replaces ∈ replaceCycle) then stop (Errorf "Cycle detected, %s replaces %s" [AStr csv; AStr replaces])
                else
                  r ← tx_try (addReplaces replacedID currentID);
                  match r with
                  | inr e => stop e
                  | inl _ =>
                      dep ← deprecated csv;
                      if (dep : bool) then mret (inl errs)
                      else
                        r ← tx_try (getBundleSkipsReplacesVersion replaces);
                        match r with
                        | inr _ => stop (Errorf "Invalid bundle %s, replaces nonexistent bundle %s" [AStr (pch_CurrentCSVName c); AStr replaces])
                        | inl _ => mret (inr (replaces, replacedID, (depth + 1)%Z, errs))
                        end
                  end
            end
      end
  end.
(** [None]: the passes did not end within the fuel. *)
Fixpoint channel_loop (pkg : string) (c : PackageChannel) (fuel : nat) (replaceCycle : gset string)
    (csv : string) (currentID depth : Z) (errs : list error) : TX (option (list error)) :=
  match fuel with
  | O => mret None
  | S fuel' =>
      r ← channel_pass pkg c replaceCycle csv currentID depth errs;
      match r with
      | inl errs => mret (Some errs)
      | inr (csv', id, depth, errs) => channel_loop pkg c fuel' ({[csv']} ∪ replaceCycle) csv' id depth errs
      end
  end.
(** Each pass but the first visits another bundle of the index. *)
Definition channel_fuel (d : db) : nat := S (S (size (operatorbundle d))).
Definition add_channel_entries (pkg : string) (errs : option (list error)) (c : PackageChannel) : TX (option (list error)) :=
  match errs with
  | None => mret None
  | Some errs =>
      r ← tx_try (addChannelEntry (pch_Name c) pkg (pch_CurrentCSVName c) 0);
      match r with
      | inr e => mret (Some (errs ++ [Errorf "failed to add channel %q in package %q: %s" [AStr (pch_Name c); AStr pkg; AErr e]]))
      | inl currentID =>
          fuel ← select channel_fuel;
          channel_loop pkg c fuel {[pch_CurrentCSVName c]} (pch_CurrentCSVName c) currentID 1 errs
      end
  end.
Definition addPackageChannels (m : PackageManifest) : TX (option (list error)) :=
  r ← tx_try (statement (insert_package (pm_PackageName m)));
  match r with
  | inr e => tx_err (Errorf "failed to add package %q: %s" [AStr (pm_PackageName m); AErr e])
  | inl _ =>
      st ← tx_fold (add_manifest_channel m) (mkAdded [] false []) (pm_Channels m);
      let errs := if ad_hasDefault st then ad_errs st
                  else ad_errs st ++ [Errorf "no default channel specified for %s" [AStr (pm_PackageName m)]] in
      tx_fold (add_channel_entries (pm_PackageName m)) (Some errs) (ad_channels st)
  end.
(** The errors collected are the outcome.  Out of fuel, which does not happen
    (below), there would be none. *)
Definition outcome (m : TX (option (list error))) : TX unit := λ d,
  match m d with
  | (d', Ok (Some errs)) => (d', NewAggregate errs)
  | (d', Err e) => (d', Err e)
  | (d', _) => (d', Panic)
  end.
Definition AddPackageChannels (m : PackageManifest) : TX unit :=
  transaction (_ ← rmPackage (pm_PackageName m); outcome (addPackageChannels m)).

(** ** Adding channels from a graph *)
Section graph.
Context `{GoRuntime}.

(** The entries for the nodes a node replaces that are not nodes of the graph. *)
Fixpoint add_synthetic (c pkg csv : string) (depth : Z) (errs : list error) (l : list BundleKey) : TX (list error) :=
  match l with
  | [] => mret errs
  | s :: l' =>
      r ← tx_try (addChannelEntry c pkg (bk_CsvName s) depth);
      match r with
      | inr e => mret (errs ++ [e])
      | inl syntheticReplacesID =>
          r ← tx_try (addChannelEntry c pkg csv depth);
          match r with
          | inr e => mret (errs ++ [e])
          | inl syntheticNodeID =>
              errs ← append_err errs (addReplaces syntheticReplacesID syntheticNodeID);
              add_synthetic c pkg csv (depth + 1) errs l'
          end
      end
  end.
Definition invalid_graph : error :=
  ErrNew "Invalid graph: some (non-bottom) nodes defined in the graph were not mentioned as replacements of any node".
(** The loop along the replacement chain.  [None]: it did not end within the fuel. *)
Fixpoint store_chain (c pkg : string) (nodes : graph_nodes) (fuel : nat) (currentNode : BundleKey) (depth previousNodeID : Z)
    (errs : list error) : TX (option (list error)) :=
  match fuel with
  | O => mret None
  | S fuel' =>
      r ← tx_try (addChannelEntry c pkg (bk_CsvName currentNode) depth);
      match r with
      | inr e => mret (Some (errs ++ [e]))
      | inl id =>
          errs ← (if decide (previousNodeID = 0%Z) then mret errs else append_err errs (addReplaces id previousNodeID));
          let replaces := range_set (default ∅ (nodes !! currentNode)) in
          let syntheticReplaces := filter (λ r, r ∉ dom nodes) replaces in
          let nextNode := default zero_key (last (filter (λ r, r ∈ dom nodes) replaces)) in
          errs ← add_synthetic c pkg (bk_CsvName currentNode) (depth + 1) errs syntheticReplaces;
          if IsEmpty nextNode then
            mret (Some (if decide (Z.of_nat (size nodes) ≠ depth) then errs ++ [invalid_graph] else errs))
          else store_chain c pkg nodes fuel' nextNode (depth + 1) id errs
      end
  end.
Definition store_channel (fuel : nat) (pkg : string) (errs : option (list error)) (nc : string * graph_Channel)
    : TX (option (list error)) :=
  match errs with
  | None => mret None
  | Some errs =>
      _ ← truncChannelGraph nc.1 pkg;
      store_chain nc.1 pkg (gc_Nodes nc.2) fuel (gc_Head nc.2) 1 0 errs
  end.
Definition add_graph (fuel : nat) (graph : graph_Package) : TX (option (list error)) :=
  errs ← append_err [] (addPackageIfNotExists (gp_Name graph));
  errs ← tx_fold (λ errs nc, append_err errs (addOrUpdateChannel nc.1 (gp_Name graph) (bk_CsvName (gc_Head nc.2)))) errs
           (range (gp_Channels graph));
  errs ← append_err errs (updateDefaultChannel (gp_DefaultChannel graph) (gp_Name graph));
  tx_fold (store_channel fuel (gp_Name graph)) (Some errs) (range (gp_Channels graph)).
(** The transaction is committed also when there are errors. *)
Definition AddPackageChannelsFromGraph (fuel : nat) (graph : graph_Package) : TX unit := λ d,
  match add_graph fuel graph d with
  | (d', Ok (Some errs)) =>
      if decide (deferred_ok d') then (d', NewAggregate errs) else (d, NewAggregate (errs ++ [fk_error]))
  | (_, Err e) => (d, Err e)
  | (_, _) => (d, Panic)
  end.
End graph.

(** ** Pruning *)
Definition ClearNonHeadBundles : TX unit :=
  transaction (statement (λ d,
    let heads := map_fold (λ _ head s, {[head]} ∪ s) ∅ (channel d) : gset string in
    update_bundles (λ n b, match ob_bundlepath b with Some p => bool_decide (p ≠ "" ∧ n ∉ heads) | None => false end)
      (λ b, mkBundleRow None None (ob_bundlepath b) (ob_version b) (ob_skiprange b) (ob_replaces b) (ob_skips b) (ob_substitutesfor b)) d)).

Section pruning.
Context `{GoRuntime}.

Definition rmStrandedBundles : TX unit :=
  statement (λ d,
    let used := map_fold (λ _ e s, {[er_bundle e]} ∪ s) ∅ (channel_entry d) : gset string in
    Ok (delete_bundles (λ n, bool_decide (n ∉ used)) d)).
Definition RemoveStrandedBundles : TX unit := transaction rmStrandedBundles.

Definition rmBundle (csvName : string) : TX unit :=
  _ ← statement (λ d, Ok (delete_bundles (λ n, bool_decide (n = csvName)) d));
  _ ← statement (λ d, Ok (delete_providers csvName d));
  _ ← statement (λ d, Ok (delete_requirers csvName d));
  statement (λ d, Ok (delete_entries (λ e, bool_decide (er_bundle e = csvName)) d)).

(** [SELECT DISTINCT operatorbundle_name FROM channel_entry WHERE package_name=?] *)
Definition getCSVNames (packageName : string) : TX (list string) :=
  select (λ d, range_set (map_fold (λ _ e s, if decide (er_package e = packageName) then {[er_bundle e]} ∪ s else s) ∅ (channel_entry d) : gset string)).
Definition RemovePackage (packageName : string) : TX unit :=
  _ ← transaction (
        csvNames ← getCSVNames packageName;
        _ ← tx_each rmBundle csvNames;
        _ ← statement (λ d, Ok (delete_package packageName d));
        statement (λ d, Ok (delete_channels (λ k _, bool_decide (k.1 = packageName)) d)));
  RemoveStrandedBundles.

(** Detach the entries that replace an entry of the bundle, and delete the
    channels it is the head of. *)
Definition rmChannelEntry (csvName : string) : TX unit :=
  ids ← select (λ d, (range (filter (λ ie, er_bundle ie.2 = csvName) (channel_entry d))).*1);
  _ ← tx_each (λ id, statement (clear_replaces id)) ids;
  statement (λ d, Ok (delete_channels (λ _ head, bool_decide (head = csvName)) d)).

(** [SELECT head_operatorbundle_name FROM channel INNER JOIN package
     ON channel.name = package.default_channel WHERE channel.head_operatorbundle_name = ?] *)
Definition is_default_head (d : db) (bundle : string) : bool :=
  existsb (λ kh, bool_decide (kh.2 = bundle) && existsb (λ pd, bool_decide (pd.2 = Some kh.1.2)) (map_to_list (package d)))
    (map_to_list (channel d)).
(** The names a row replaces or skips, in the order they are queued. *)
Definition row_edges (d : db) (bundle : string) : list string :=
  match operatorbundle d !! bundle with
  | None => []
  | Some b => bundle_skips b ++ match ob_replaces b with Some r => if decide (r = "") then [] else [r] | None => [] end
  end.
(** A name not yet visited is noted and queued. *)
Definition enqueue (st : gset string * list string) (x : string) : gset string * list string :=
  if decide (x ∈ st.1) then st else ({[x]} ∪ st.1, st.2 ++ [x]).
(** The loop over the queue.  [None]: the queue is not empty when the fuel is. *)
Fixpoint tail_loop (d : db) (fuel : nat) (visited : gset string) (next : list string) : option (res (gset string)) :=
  match next with
  | [] => Some (Ok visited)
  | bundle :: next =>
      match fuel with
      | O => None
      | S fuel' =>
          if is_default_head d bundle then Some (Err ErrRemovingDefaultChannelDuringDeprecation)
          else let '(visited, next) := foldl enqueue (visited, next) (row_edges d bundle) in tail_loop d fuel' visited next
      end
  end.
(** Every name that some row replaces or skips; each is queued at most once. *)
Definition mentioned (d : db) : gset string :=
  ⋃ ((λ nb, list_to_set (row_edges d nb.1)) <$> map_to_list (operatorbundle d)).
Definition tail_fuel (d : db) : nat := S (size (mentioned d)).
Definition getTailFromBundle (head : string) : TX (list string) := λ d,
  match tail_loop d (tail_fuel d) ∅ [head] with
  | Some (Ok visited) => (d, Ok (range_set visited))
  | Some (Err e) => (d, Err e)
  | _ => (d, Panic)
  end.

(** [SELECT name, version FROM operatorbundle WHERE bundlepath=? LIMIT 1] *)
Definition getBundleNameAndVersionForImage (path : string) : TX (string * string) :=
  rows ← select (λ d, range (filter (λ nb, ob_bundlepath nb.2 = Some path) (operatorbundle d)));
  match rows with
  | (name, b) :: _ => match ob_version b with Some v => mret (name, v) | None => tx_err ErrBundleImageNotInDatabase end
  | [] => tx_err ErrBundleImageNotInDatabase
  end.

Definition DeprecateBundle (path : string) : TX unit :=
  transaction (
    nv ← getBundleNameAndVersionForImage path;
    let '(name, version) := nv : string * string in
    tailBundles ← getTailFromBundle name;
    _ ← tx_each (λ bundle, _ ← rmChannelEntry bundle; rmBundle bundle) tailBundles;
    _ ← statement (λ d, Ok (delete_channels (λ _ head, bool_decide (head = name)) d));
    _ ← addProperty DeprecatedType "{}" name version path;
    statement (insert_deprecated name)).

(** ** The commands *)
Definition is_error (e : error) (target : error) : bool :=
  match e, target with
  | Errorf f [], Errorf f' [] => bool_decide (f = f')
  | _, _ => false
  end.
Fixpoint deprecate_all (errs : list error) (bundles : list string) : TX (list error) :=
  match bundles with
  | [] => mret errs
  | path :: bundles' =>
      r ← tx_try (DeprecateBundle path);
      match r with
      | inl _ => deprecate_all errs bundles'
      | inr e =>
          if is_error e ErrBundleImageNotInDatabase then deprecate_all errs bundles'
          else
            let errs := errs ++ [Errorf "error deprecating bundle %s: %s" [AStr path; AErr e]] in
            if is_error e ErrRemovingDefaultChannelDuringDeprecation then deprecate_all errs bundles' else mret errs
      end
  end.
Definition Deprecate (bundles : list string) : TX unit :=
  errs ← deprecate_all [] bundles; finish errs.

Fixpoint sanitize (seen : gset string) (l : list string) : list string :=
  match l with
  | [] => []
  | item :: l' => if decide (item ∈ seen ∨ item = "") then sanitize seen l' else item :: sanitize ({[item]} ∪ seen) l'
  end.
Definition sanitizePackageList (l : list string) : list string := sanitize ∅ l.
Definition PackageRemover_Remove (packages : string) : TX unit :=
  errs ← tx_fold (λ errs pkg,
           r ← tx_try (RemovePackage pkg);
           mret (match r with
                 | inl _ => errs
                 | inr e => errs ++ [Errorf "error removing operator package %s: %s" [AStr pkg; AErr e]]
                 end)) [] (sanitizePackageList (Split ","%char packages));
  finish errs.
End pruning.
