(* ===== verification/SqlInv.v ===== *)
(** * The index stays consistent

    The foreign keys of the index as an invariant, and that the operations on
    packages and channels keep it: each statement keeps the immediate ones, and a
    transaction is committed only when the deferred ones hold.  The operations that
    add bundles, and runs of operations, are in the file SqlAddInv. *)
From S2P Require Import Prelude Semver Json JsonCompact Property JsonTotal Model Declcfg DeclcfgRoundtrip DeclcfgWrite DeclcfgLoad RegistryTypes RegistryBundle Graph Sql SqlLoad.
From stdpp Require Import options.

(** ** The invariant *)
Record fk_ok (d : db) : Prop := {
  fk_default : ∀ p c, package d !! p = Some (Some c) → is_Some (channel d !! (p, c));
  fk_head : ∀ k head, channel d !! k = Some head → is_Some (operatorbundle d !! head);
  fk_entry : ∀ i e, channel_entry d !! i = Some e → is_Some (channel d !! (er_package e, er_channel e));
  fk_property : ∀ r, r ∈ properties d ++ dependencies d →
    ref_ok (operatorbundle d) (pr_bundle r) (pr_version r) (pr_path r) = true;
  fk_image : ∀ i n, (i, n) ∈ related_image d → is_Some (operatorbundle d !! n);
  fk_api : ∀ r, r ∈ api_provider (apis d) ++ api_requirer (apis d) → is_Some (api (apis d) !! ar_api r)
}.
Definition index_ok (d : db) : Prop := fk_ok d ∧ deferred_ok d.

(** What a valid reference means. *)
Lemma ref_ok_true m n v p :
  ref_ok m n v p = true ↔
  ∀ v' p', v = Some v' → p = Some p' → ∃ b, m !! n = Some b ∧ ob_version b = Some v' ∧ ob_bundlepath b = Some p'.
Proof.
  unfold ref_ok, refers_to. destruct v as [v|], p as [p|]; simpl; [|naive_solver..].
  destruct (m !! n) as [b|]; rewrite ?bool_decide_eq_true; naive_solver.
Qed.
Lemma refers_to_false m n v p :
  refers_to m n v p = false ↔
  ∀ b v' p', m !! n = Some b → v = Some v' → p = Some p' → ¬ (ob_version b = Some v' ∧ ob_bundlepath b = Some p').
Proof.
  unfold refers_to. destruct (m !! n) as [b|]; [|naive_solver].
  destruct v, p; simpl; rewrite ?bool_decide_eq_false; naive_solver.
Qed.
(** References survive when their bundles keep version and path. *)
Lemma ref_ok_mono m m' n v p :
  ref_ok m n v p = true →
  (∀ b, m !! n = Some b → ∃ b', m' !! n = Some b' ∧ ob_version b' = ob_version b ∧ ob_bundlepath b' = ob_bundlepath b) →
  ref_ok m' n v p = true.
Proof.
  rewrite !ref_ok_true. intros Hr Hm v' p' Hv Hp. destruct (Hr v' p' Hv Hp) as (b & Hb & ? & ?).
  destruct (Hm b Hb) as (b' & ? & ? & ?). exists b'. naive_solver congruence.
Qed.

(** ** Statements *)
Lemma elem_gone (P : string * string → string → bool) (m : gmap (string * string) string) k :
  k ∈ dom (filter (λ kh, P kh.1 kh.2 = true) m) ↔ ∃ h, m !! k = Some h ∧ P k h = true.
Proof.
  rewrite elem_of_dom. unfold is_Some. setoid_rewrite map_lookup_filter_Some. naive_solver.
Qed.

Lemma delete_channels_ok P d : fk_ok d → fk_ok (delete_channels P d).
Proof.
  intros [Hd Hh He Hp Hm Ha]. split; simpl; [..|done|done|done].
  - intros p c [Hpc Hg]%map_lookup_filter_Some. simpl in Hg. apply bool_decide_eq_false in Hg.
    destruct (Hd _ _ Hpc) as [h Hc]. exists h. apply map_lookup_filter_Some. split; [done|]. simpl.
    destruct (P (p, c) h) eqn:E; [|done]. destruct Hg. apply elem_gone. eauto.
  - intros k h [Hk _]%map_lookup_filter_Some. eauto.
  - intros i e [Hi Hg]%map_lookup_filter_Some. simpl in Hg. destruct (He _ _ Hi) as [h Hc].
    exists h. apply map_lookup_filter_Some. split; [done|]. simpl.
    destruct (P _ h) eqn:E; [|done]. destruct Hg. apply elem_gone. eauto.
Qed.

Lemma remove_row_elem r x l l' : remove_row r l = Some l' → x ∈ l' → x ∈ l.
Proof.
  revert l'. induction l as [|y l IH]; intros l'; simpl; [done|]. case_decide.
  - intros [= <-]. by right.
  - intros (k & Hk & ->)%fmap_Some [->|Hx]%elem_of_cons; [left|right; eauto].
Qed.
Definition api_fk (t : api_tables) : Prop := ∀ r, r ∈ api_provider t ++ api_requirer t → is_Some (api t !! ar_api r).
Lemma api_cleanup_ok t g : api_fk t → api_fk (api_cleanup t g).
Proof.
  intros Ht. unfold api_cleanup. destruct (api_used t g); [done|]. intros r Hr. simpl in *.
  rewrite elem_of_app, !list_elem_of_filter in Hr.
  rewrite lookup_delete_ne by (clear Ht; intuition congruence). apply Ht. apply elem_of_app. tauto.
Qed.
Lemma delete_api_rows_ok t l : api_fk t → api_fk (delete_api_rows t l).
Proof.
  unfold delete_api_rows. revert t. induction l as [|[r|r] l IH]; intros t Ht; simpl; [done|..]; apply IH; simpl.
  all: destruct (remove_row r _) as [k|] eqn:E; [|done]; apply api_cleanup_ok; intros x; simpl.
  all: rewrite elem_of_app; intros [Hx|Hx]; apply Ht, elem_of_app; eauto using remove_row_elem.
Qed.

Lemma delete_bundles_ok `{GoRuntime} P d : fk_ok d → fk_ok (delete_bundles P d).
Proof.
  intros Hok. unfold delete_bundles. set (gone := filter (λ nb, P nb.1 = true) (operatorbundle d)).
  assert (∀ n b, operatorbundle d !! n = Some b → gone !! n = None →
    filter (λ nb, P nb.1 = false) (operatorbundle d) !! n = Some b) as Hkeep.
  { intros n b Hn Hg. apply map_lookup_filter_Some. split; [done|]. simpl. destruct (P n) eqn:E; [|done].
    exfalso. apply map_lookup_filter_None in Hg as [Hg|Hg]; [congruence|]. by apply (Hg b). }
  destruct (delete_channels_ok (λ _ head, bool_decide (is_Some (gone !! head))) d Hok) as [Hd Hh He Hp Hm Ha].
  split; simpl in *; [done| |done| | |].
  - intros k head Hk. pose proof Hk as [Hk' Hb]%map_lookup_filter_Some. simpl in Hb.
    destruct (fk_head _ Hok _ _ Hk') as [b Hbr]. exists b. apply Hkeep; [done|].
    apply bool_decide_eq_false in Hb. by apply eq_None_not_Some.
  - intros r Hr. rewrite elem_of_app, !list_elem_of_filter in Hr.
    assert (refers_to gone (pr_bundle r) (pr_version r) (pr_path r) = false) as Hf by tauto.
    rewrite refers_to_false in Hf. assert (r ∈ properties d ++ dependencies d) as Hin by (apply elem_of_app; tauto).
    specialize (Hp r Hin). rewrite ref_ok_true in *. intros v p Hv Hpa. destruct (Hp v p Hv Hpa) as (b & Hb & Hbv & Hbp).
    exists b. split; [|done]. apply Hkeep; [done|]. destruct (gone !! pr_bundle r) as [b'|] eqn:E; [|done]. exfalso.
    pose proof E as [Hb' _]%map_lookup_filter_Some. assert (b' = b) as -> by congruence. by apply (Hf b v p).
  - intros i n [Hg Hin]%list_elem_of_filter. destruct (Hm i n Hin) as [b Hb]. eauto.
  - by apply delete_api_rows_ok.
Qed.
Lemma set_apis_ok t d : fk_ok d → api_fk t → fk_ok (set_apis d t).
Proof. intros [Hd Hh He Hp Hm Ha] Ht. by split. Qed.
Lemma delete_providers_ok n d : fk_ok d → fk_ok (delete_providers n d).
Proof. intros Hd. apply set_apis_ok; [done|]. apply delete_api_rows_ok. exact (fk_api _ Hd). Qed.
Lemma delete_requirers_ok n d : fk_ok d → fk_ok (delete_requirers n d).
Proof. intros Hd. apply set_apis_ok; [done|]. apply delete_api_rows_ok. exact (fk_api _ Hd). Qed.

Lemma delete_entries_ok P d : fk_ok d → fk_ok (delete_entries P d).
Proof. intros [Hd Hh He Hp Hm Ha]. split; simpl; [done|done| |done..]. intros i e [Hi _]%map_lookup_filter_Some. eauto. Qed.
Lemma delete_package_ok p d : fk_ok d → fk_ok (delete_package p d).
Proof. intros [Hd Hh He Hp Hm Ha]. split; simpl; [|done..]. intros q c [_ Hq]%lookup_delete_Some. eauto. Qed.

Lemma set_package_ok p dc d :
  fk_ok d → (∀ c, dc = Some c → is_Some (channel d !! (p, c))) → fk_ok (set_packages d (<[p := dc]> (package d))).
Proof.
  intros [Hd Hh He Hp Hm Ha] Hdc. split; simpl; [|done..]. intros q c [[<- ->]|[_ Hq]]%lookup_insert_Some; eauto.
Qed.
Lemma set_channel_ok k head d :
  fk_ok d → is_Some (operatorbundle d !! head) → fk_ok (set_db_channels d (<[k := head]> (channel d))).
Proof.
  intros [Hd Hh He Hp Hm Ha] Hhead. split; simpl; [| | |done..].
  - intros p c Hc. destruct (decide ((p, c) = k)) as [->|]; simplify_map_eq; eauto.
  - intros k' h [[<- <-]|[_ Hk]]%lookup_insert_Some; eauto.
  - intros i e Hi. destruct (decide ((er_package e, er_channel e) = k)) as [->|]; simplify_map_eq; eauto.
Qed.
(** Entries whose channels stay the same. *)
Lemma set_entries_ok m d :
  fk_ok d → (∀ i e, m !! i = Some e → is_Some (channel d !! (er_package e, er_channel e))) → fk_ok (set_entries d m).
Proof. intros [Hd Hh He Hp Hi Ha] Hm. split; simpl; done. Qed.

(** ** Operations *)
(** An operation keeps an invariant, whatever its outcome. *)
Definition preserves (I : db → Prop) {A} (m : TX A) : Prop := ∀ d, I d → I (m d).1.
Abbreviation keeps := (preserves fk_ok).

Section preserves.
Variable I : db → Prop.

Lemma keeps_ret {A} (a : A) : preserves I (mret a).
Proof. by intros d. Qed.
Lemma keeps_err {A} e : preserves I (tx_err (A := A) e).
Proof. by intros d. Qed.
Lemma keeps_select {A} (q : db → A) : preserves I (select q).
Proof. by intros d. Qed.
Lemma keeps_finish errs : preserves I (finish errs).
Proof. by intros d. Qed.
Lemma keeps_bind {A B} (m : TX A) (f : A → TX B) : preserves I m → (∀ a, preserves I (f a)) → preserves I (m ≫= f).
Proof.
  intros Hm Hf d Hd. specialize (Hm d Hd). unfold mbind, TX_bind. destruct (m d) as [d' [a| |]]; [|done..]. by apply Hf.
Qed.
Lemma keeps_try {A} (m : TX A) : preserves I m → preserves I (tx_try m).
Proof. intros Hm d Hd. specialize (Hm d Hd). unfold tx_try. by destruct (m d) as [d' [a| |]]. Qed.
Lemma keeps_each {A} (f : A → TX unit) l : (∀ x, preserves I (f x)) → preserves I (tx_each f l).
Proof. intros Hf. induction l; simpl; [apply keeps_ret|]. by apply keeps_bind. Qed.
Lemma keeps_fold {A B} (f : B → A → TX B) b l : (∀ b x, preserves I (f b x)) → preserves I (tx_fold f b l).
Proof. intros Hf. revert b. induction l; intros b; simpl; [apply keeps_ret|]. by apply keeps_bind. Qed.
Lemma keeps_append_err {A} errs (m : TX A) : preserves I m → preserves I (append_err errs m).
Proof. intros Hm. apply keeps_bind; [by apply keeps_try|intros; apply keeps_ret]. Qed.
Lemma keeps_outcome m : preserves I m → preserves I (outcome m).
Proof. intros Hm d Hd. specialize (Hm d Hd). unfold outcome. by destruct (m d) as [d' [[]| |]]. Qed.
End preserves.

Lemma keeps_statement u : (∀ d d', fk_ok d → u d = Ok d' → fk_ok d') → keeps (statement u).
Proof. intros Hu d Hd. unfold statement. destruct (u d) eqn:E; [|done..]. simpl. eauto. Qed.
Lemma keeps_deletion f : (∀ d, fk_ok d → fk_ok (f d)) → keeps (statement (λ d, Ok (f d))).
Proof. intros Hf. apply keeps_statement. intros d d' Hd [= <-]. auto. Qed.
(** A transaction keeps the whole invariant when its steps keep the immediate
    part. *)
Lemma keeps_transaction {A} (m : TX A) : keeps m → preserves index_ok (transaction m).
Proof.
  intros Hm d Hd. specialize (Hm d (proj1 Hd)). unfold transaction.
  destruct (m d) as [d' [a| |]]; [case_decide|..]; done.
Qed.

Create HintDb index.
#[export] Hint Resolve keeps_ret keeps_err keeps_select keeps_finish keeps_bind keeps_try keeps_each keeps_fold
  keeps_transaction keeps_append_err keeps_outcome delete_channels_ok delete_bundles_ok delete_entries_ok delete_package_ok
  delete_providers_ok delete_requirers_ok : index.
#[export] Hint Extern 2 (preserves fk_ok (statement (λ d, Ok _))) => apply keeps_deletion; intros : index.
(** Following the structure of an operation. *)
Ltac keep :=
  repeat first
    [ progress intros
    | match goal with |- preserves _ (match ?x with _ => _ end) => destruct x end
    | match goal with |- preserves _ (_ ≫= _) => apply keeps_bind end
    | progress cbv beta zeta
    | solve [eauto 4 with index] ].

Lemma keeps_addChannelEntry c p n k : keeps (addChannelEntry c p n k).
Proof.
  unfold addChannelEntry. keep. apply keeps_statement. intros d d' Hd. unfold insert_entry. case_decide as Hc; [|done].
  intros [= <-]. apply set_entries_ok; [done|]. intros i e [[_ <-]|[_ Hi]]%lookup_insert_Some; [done|]. by eapply fk_entry.
Qed.
Lemma with_replaces_ok (f : entry_row → entry_row) i d :
  (∀ e, er_package (f e) = er_package e ∧ er_channel (f e) = er_channel e) →
  fk_ok d → fk_ok (set_entries d (alter f i (channel_entry d))).
Proof.
  intros Hf Hd. apply set_entries_ok; [done|]. intros j e Hj. destruct (decide (i = j)) as [<-|].
  - rewrite lookup_alter_eq in Hj. destruct (channel_entry d !! i) as [e'|] eqn:E; [|done]. simplify_eq/=.
    destruct (Hf e') as [-> ->]. by eapply fk_entry.
  - rewrite lookup_alter_ne in Hj by done. by eapply fk_entry.
Qed.
Lemma keeps_addReplaces r i : keeps (addReplaces r i).
Proof. apply keeps_statement. intros d d' Hd [= <-]. by apply with_replaces_ok. Qed.
Lemma keeps_clear_replaces i : keeps (statement (clear_replaces i)).
Proof.
  apply keeps_statement. intros d d' Hd [= <-]. apply set_entries_ok; [done|]. intros j e Hj.
  rewrite lookup_fmap in Hj. destruct (channel_entry d !! j) as [e'|] eqn:E; [|done]. simplify_eq/=.
  pose proof (fk_entry d Hd _ _ E). by case_decide.
Qed.
Lemma keeps_insert_package p : keeps (statement (insert_package p)).
Proof. apply keeps_statement. intros d d' Hd. unfold insert_package. case_decide; [done|]. intros [= <-]. by apply set_package_ok. Qed.
Lemma keeps_replace_package p : keeps (statement (replace_package p)).
Proof. apply keeps_statement. intros d d' Hd [= <-]. by apply set_package_ok. Qed.
Lemma keeps_update_default c p : keeps (statement (update_default_channel c p)).
Proof.
  apply keeps_statement. intros d d' Hd. unfold update_default_channel. destruct (package d !! p); [|by intros [= <-]].
  case_decide; [|done]. intros [= <-]. apply set_package_ok; naive_solver.
Qed.
Lemma keeps_insert_channel c p h : keeps (statement (insert_channel c p h)).
Proof.
  apply keeps_statement. intros d d' Hd. unfold insert_channel. repeat case_decide; try done. intros [= <-]. by apply set_channel_ok.
Qed.
Lemma keeps_replace_channel c p h : keeps (statement (replace_channel c p h)).
Proof.
  apply keeps_statement. intros d d' Hd. unfold replace_channel. case_decide; [|done]. intros [= <-].
  apply set_channel_ok; [by apply delete_channels_ok|done].
Qed.
Lemma keeps_update_channel h c p : keeps (statement (update_channel_head h c p)).
Proof.
  apply keeps_statement. intros d d' Hd. unfold update_channel_head. destruct (channel d !! _); [|by intros [= <-]].
  case_decide; [|done]. intros [= <-]. by apply set_channel_ok.
Qed.
Lemma keeps_insert_property r : keeps (statement (insert_property r)).
Proof.
  apply keeps_statement. intros d d' Hd. unfold insert_property. destruct (ref_ok _ _ _ _) eqn:E; [|done]. intros [= <-].
  destruct Hd as [Hd Hh He Hp Hm Ha]. split; simpl; [done..| |done|done]. intros r' Hr.
  rewrite !elem_of_app, list_elem_of_singleton in Hr. destruct Hr as [[Hr| ->]|Hr]; [|done|]; apply Hp, elem_of_app; tauto.
Qed.
Lemma keeps_insert_deprecated n : keeps (statement (insert_deprecated n)).
Proof. apply keeps_statement. intros d d' [Hd Hh He Hp Hm Ha] [= <-]. by split. Qed.
#[export] Hint Resolve keeps_addChannelEntry keeps_addReplaces keeps_clear_replaces keeps_insert_package keeps_replace_package
  keeps_update_default keeps_insert_channel keeps_replace_channel keeps_update_channel keeps_insert_property keeps_insert_deprecated : index.

Lemma update_bundles_lookup (P : string → bundle_row → bool) f (m : gmap string bundle_row) n :
  map_imap (λ n b, Some (if P n b then f b else b)) m !! n = (λ b, if P n b then f b else b) <$> m !! n.
Proof. rewrite map_lookup_imap. by destruct (m !! n). Qed.
Lemma keeps_update_bundles P f :
  (∀ b, ob_version (f b) = ob_version b ∧ ob_bundlepath (f b) = ob_bundlepath b) → keeps (statement (update_bundles P f)).
Proof.
  intros Hf. apply keeps_statement. intros d d' [Hd Hh He Hp Hm Ha] [= <-].
  split; simpl; [done| |done| | |done].
  - intros k head Hk. rewrite update_bundles_lookup. destruct (Hh _ _ Hk) as [b ->]. eauto.
  - intros r Hr. eapply ref_ok_mono; [by apply Hp|]. intros b Hb. rewrite update_bundles_lookup, Hb.
    eexists. split; [reflexivity|]. destruct (P _ b); [|done]. by destruct (Hf b) as [-> ->].
  - intros i n Hi. rewrite update_bundles_lookup. destruct (Hm _ _ Hi) as [b ->]. eauto.
Qed.

(** *** Manifests and graphs *)
Lemma keeps_rmPackage p : keeps (rmPackage p).
Proof. unfold rmPackage. keep. Qed.
Lemma keeps_addProperty t v n ver p : keeps (addProperty t v n ver p).
Proof. apply keeps_insert_property. Qed.
Lemma keeps_getBundle n : keeps (getBundleSkipsReplacesVersion n).
Proof. unfold getBundleSkipsReplacesVersion. keep. Qed.
Lemma keeps_getPath n : keeps (getBundlePathIfExists n).
Proof. apply keeps_select. Qed.
Lemma keeps_deprecated n : keeps (deprecated n).
Proof. apply keeps_select. Qed.
#[export] Hint Resolve keeps_rmPackage keeps_addProperty keeps_getBundle keeps_getPath keeps_deprecated : index.
Lemma keeps_add_skip c p n st x : keeps (add_skip c p n st x).
Proof. unfold add_skip. keep. Qed.
#[export] Hint Resolve keeps_add_skip : index.
Lemma keeps_channel_pass p c cyc n i k errs : keeps (channel_pass p c cyc n i k errs).
Proof. unfold channel_pass, addPackageProperty. keep. Qed.
#[export] Hint Resolve keeps_channel_pass : index.
Lemma keeps_channel_loop p c fuel cyc n i k errs : keeps (channel_loop p c fuel cyc n i k errs).
Proof. revert cyc n i k errs. induction fuel; intros; cbn [channel_loop]; keep. Qed.
#[export] Hint Resolve keeps_channel_loop : index.
Lemma keeps_addPackageChannels m : keeps (addPackageChannels m).
Proof. unfold addPackageChannels. keep; apply keeps_fold; unfold add_manifest_channel, add_channel_entries; keep. Qed.
#[export] Hint Resolve keeps_addPackageChannels : index.

Section operations.
Context `{GoRuntime}.

Lemma keeps_add_synthetic c p n k errs l : keeps (add_synthetic c p n k errs l).
Proof. revert k errs. induction l; intros; cbn [add_synthetic]; keep. Qed.
Hint Resolve keeps_add_synthetic : index.
Lemma keeps_store_chain c p nodes fuel n k prev errs : keeps (store_chain c p nodes fuel n k prev errs).
Proof. revert n k prev errs. induction fuel; intros; cbn [store_chain]; keep. Qed.
Hint Resolve keeps_store_chain : index.
Lemma keeps_add_graph fuel g : keeps (add_graph fuel g).
Proof.
  unfold add_graph, addPackageIfNotExists, updateDefaultChannel, addOrUpdateChannel. keep.
  apply keeps_fold. unfold store_channel, truncChannelGraph. keep.
Qed.
Lemma index_AddPackageChannelsFromGraph fuel g : preserves index_ok (AddPackageChannelsFromGraph fuel g).
Proof.
  intros d Hd. pose proof (keeps_add_graph fuel g d (proj1 Hd)) as Hk. unfold AddPackageChannelsFromGraph.
  destruct (add_graph fuel g d) as [d' [[errs|]| |]]; try done. by case_decide.
Qed.

(** *** Pruning *)
Lemma keeps_rmStrandedBundles : keeps rmStrandedBundles.
Proof. unfold rmStrandedBundles. keep. Qed.
Lemma keeps_rmBundle n : keeps (rmBundle n).
Proof. unfold rmBundle. keep. Qed.
Lemma keeps_rmChannelEntry n : keeps (rmChannelEntry n).
Proof. unfold rmChannelEntry. keep. Qed.
Hint Resolve keeps_rmBundle keeps_rmChannelEntry keeps_rmStrandedBundles : index.
Lemma keeps_getTail n : keeps (getTailFromBundle n).
Proof. intros d Hd. unfold getTailFromBundle. by destruct (tail_loop _ _ _ _) as [[]|]. Qed.
Lemma keeps_getName p : keeps (getBundleNameAndVersionForImage p).
Proof. unfold getBundleNameAndVersionForImage. keep. Qed.
Hint Resolve keeps_getTail keeps_getName : index.
Lemma index_DeprecateBundle p : preserves index_ok (DeprecateBundle p).
Proof. apply keeps_transaction. keep. Qed.
Lemma index_RemovePackage p : preserves index_ok (RemovePackage p).
Proof. apply keeps_bind; [apply keeps_transaction|intros _; apply keeps_transaction]; unfold getCSVNames; keep. Qed.
Hint Resolve index_DeprecateBundle index_RemovePackage : index.
Lemma index_Deprecate l : preserves index_ok (Deprecate l).
Proof.
  unfold Deprecate. keep. generalize (@nil error). induction l; intros errs; cbn [deprecate_all]; keep.
Qed.
Lemma index_PackageRemover s : preserves index_ok (PackageRemover_Remove s).
Proof. unfold PackageRemover_Remove. keep. Qed.
Lemma index_ClearNonHeadBundles : preserves index_ok ClearNonHeadBundles.
Proof. apply keeps_transaction. intros d Hd. by apply keeps_update_bundles. Qed.
End operations.
#[export] Hint Resolve index_AddPackageChannelsFromGraph index_DeprecateBundle index_RemovePackage index_Deprecate index_PackageRemover
  index_ClearNonHeadBundles keeps_rmStrandedBundles keeps_rmBundle keeps_rmChannelEntry : index.

(** ** Deciding the invariant *)
Definition default_ok (d : db) (p : string) (dc : option string) : bool :=
  match dc with Some c => bool_decide (is_Some (channel d !! (p, c))) | None => true end.
Definition fk_checks (d : db) : Prop :=
  map_Forall (λ p dc, default_ok d p dc = true) (package d) ∧
  map_Forall (λ _ head, is_Some (operatorbundle d !! head)) (channel d) ∧
  map_Forall (λ _ e, is_Some (channel d !! (er_package e, er_channel e))) (channel_entry d) ∧
  Forall (λ r, ref_ok (operatorbundle d) (pr_bundle r) (pr_version r) (pr_path r) = true) (properties d ++ dependencies d) ∧
  Forall (λ x, is_Some (operatorbundle d !! x.2)) (related_image d) ∧
  Forall (λ r, is_Some (api (apis d) !! ar_api r)) (api_provider (apis d) ++ api_requirer (apis d)).
#[export] Instance fk_checks_dec d : Decision (fk_checks d).
Proof. unfold fk_checks. apply _. Defined.
Lemma fk_ok_alt d : fk_ok d ↔ fk_checks d.
Proof.
  unfold fk_checks. rewrite !Forall_forall. split.
  - intros [Hd Hh He Hp Hm Ha]. split_and!; [|done..| |done].
    + intros p [c|] Hc; simpl; [|done]. apply bool_decide_eq_true. eauto.
    + intros [i n] Hin. simpl. eauto.
  - intros (Hd & Hh & He & Hp & Hm & Ha). split; [|done..| |done].
    + intros p c Hc. by apply (bool_decide_eq_true_1 _ (Hd _ _ Hc)).
    + intros i n Hin. by apply (Hm (i, n)).
Qed.
#[export] Instance fk_ok_dec d : Decision (fk_ok d).
Proof. refine (cast_if (decide (fk_checks d))); by rewrite fk_ok_alt. Defined.
#[export] Instance index_ok_dec d : Decision (index_ok d).
Proof. unfold index_ok. apply _. Defined.

(** ** Example *)
Definition ex_row (image replaces : string) : bundle_row :=
  mkBundleRow None None (Some image) (Some "1.0.0") (Some "") (Some replaces) (Some "") None.
(** A package with the channel [stable] (p.v3, p.v2, p.v1) and the channel [old]
    (p.v2, p.v1). *)
Definition ex_index : db := mkDB
  {[ "p.v3" := ex_row "img:3" "p.v2"; "p.v2" := ex_row "img:2" "p.v1"; "p.v1" := ex_row "img:1" "" ]}
  {[ "p" := Some "stable" ]}
  {[ ("p", "stable") := "p.v3"; ("p", "old") := "p.v2" ]}
  {[ 1%Z := mkEntryRow "stable" "p" "p.v3" (Some 2%Z) 1; 2%Z := mkEntryRow "stable" "p" "p.v2" (Some 3%Z) 2;
     3%Z := mkEntryRow "stable" "p" "p.v1" None 3;
     4%Z := mkEntryRow "old" "p" "p.v2" (Some 5%Z) 1; 5%Z := mkEntryRow "old" "p" "p.v1" None 2 ]}
  [mkPropertyRow "olm.package" (Some "{}") "p.v1" (Some "1.0.0") (Some "img:1")] ∅ [] [] empty_apis.
Lemma ex_index_ok : index_ok ex_index.
Proof. apply (bool_decide_unpack _). vm_compute. exact I. Qed.
