(* ===== verification/SqlTail.v ===== *)
(** * Deprecating truncates the tail

    [getTailFromBundle] of [pkg/sqlite/load.go]: the bundles below a bundle, by a
    walk along what the rows replace and skip; and what [DeprecateBundle] and
    [RemoveStrandedBundles] leave in the index. *)
From S2P Require Import Prelude Semver Json JsonCompact Property JsonTotal Model Declcfg DeclcfgRoundtrip DeclcfgWrite DeclcfgLoad RegistryTypes RegistryBundle Graph Sql SqlLoad SqlInv.
From stdpp Require Import options.

(** The last step of a path. *)
Lemma tc_last {A} (R : relation A) x z : tc R x z → ∃ y, rtc R x y ∧ R y z.
Proof.
  induction 1 as [x z Hz|x y z Hxy _ (w & Hw & Hwz)]; [exists x; split; [apply rtc_refl|done]|].
  exists w. split; [by eapply rtc_l|done].
Qed.

Section tail.
Context `{GoRuntime}.
Variables (d : db) (head : string).

Definition row_edge (x y : string) : Prop := y ∈ row_edges d x.

Lemma row_edge_mentioned x y : row_edge x y → y ∈ mentioned d.
Proof.
  unfold row_edge, mentioned. intros Hy. destruct (operatorbundle d !! x) as [b|] eqn:E.
  - apply elem_of_union_list. exists (list_to_set (row_edges d x)). split; [|by apply elem_of_list_to_set].
    apply list_elem_of_fmap. exists (x, b). split; [done|]. by apply elem_of_map_to_list.
  - unfold row_edges in Hy. rewrite E in Hy. by apply elem_of_nil in Hy.
Qed.

(** Queueing the names of a list: the ones not visited are visited and queued. *)
Lemma enqueue_all M V n l :
  (∀ x, x ∈ l → x ∈ M) →
  ∃ new, foldl enqueue (V, n) l = (V ∪ list_to_set l, n ++ new) ∧ (∀ x, x ∈ new ↔ x ∈ l ∧ x ∉ V) ∧
    length new + size (M ∖ (V ∪ list_to_set l)) = size (M ∖ V).
Proof.
  revert V n. induction l as [|x l IH]; intros V n HM; simpl.
  - exists []. rewrite app_nil_r, union_empty_r_L. split_and!; [done|set_solver|done].
  - unfold enqueue at 2. simpl. destruct (decide (x ∈ V)) as [Hx|Hx].
    + destruct (IH V n) as (new & -> & Hn & Hs); [set_solver|]. exists new.
      assert (V ∪ ({[x]} ∪ list_to_set l) = V ∪ list_to_set l) as -> by (clear -Hx; set_solver).
      split_and!; [done| |done]. intros y. rewrite Hn. clear -Hx. set_solver.
    + destruct (IH ({[x]} ∪ V) (n ++ [x])) as (new & -> & Hn & Hs); [set_solver|]. exists (x :: new).
      assert ({[x]} ∪ V ∪ list_to_set l = V ∪ ({[x]} ∪ list_to_set l)) as E by (clear; set_solver). rewrite E in *.
      rewrite <- app_assoc. split_and!; [done| |].
      * intros y. rewrite elem_of_cons, Hn. clear -Hx. destruct (decide (y = x)); set_solver.
      * simpl. assert (M ∖ V = {[x]} ∪ M ∖ ({[x]} ∪ V)) as ->.
        { assert (x ∈ M) by (apply HM; left). apply leibniz_equiv. intros y. clear -Hx H0. destruct (decide (y = x)); set_solver. }
        pose proof (size_union (C := gset string) {[x]} (M ∖ ({[x]} ∪ V)) ltac:(clear; set_solver)) as Hu.
        rewrite size_singleton in Hu. lia.
Qed.

Record tail_inv (V : gset string) (next : list string) : Prop := {
  ti_visited x : x ∈ V → tc row_edge head x;
  ti_next x : x ∈ next → rtc row_edge head x;
  ti_closed x : x = head ∨ x ∈ V → x ∈ next ∨ (is_default_head d x = false ∧ ∀ y, row_edge x y → y ∈ V)
}.

Lemma tail_step V b next :
  tail_inv V (b :: next) → is_default_head d b = false →
  ∃ V' next', foldl enqueue (V, next) (row_edges d b) = (V', next') ∧ tail_inv V' next' ∧
    length next' + size (mentioned d ∖ V') = length next + size (mentioned d ∖ V).
Proof.
  intros [Hv Hn Hc] Hd. destruct (enqueue_all (mentioned d) V next (row_edges d b)) as (new & E & Hnew & Hs).
  { intros x. apply row_edge_mentioned. }
  rewrite E. eexists _, _. split; [reflexivity|]. rewrite length_app. split; [|lia].
  assert (rtc row_edge head b) as Hb by (apply Hn; left). split.
  - intros x [Hx|Hx]%elem_of_union; [auto|]. apply elem_of_list_to_set in Hx. eapply tc_rtc_l; [done|]. by apply tc_once.
  - intros x [Hx|[Hx _]%Hnew]%elem_of_app; [apply Hn; by right|]. by eapply rtc_r.
  - intros x Hx. destruct (decide (x ∈ new)) as [?|Hxn]; [left; by apply elem_of_app; right|].
    assert (x = head ∨ x ∈ V) as Hx'.
    { destruct Hx as [?|[?|Hx%elem_of_list_to_set]%elem_of_union]; [by left|by right|].
      right. destruct (decide (x ∈ V)); [done|]. destruct Hxn. by apply Hnew. }
    destruct (Hc x Hx') as [[->|Hin]%elem_of_cons|[Hdx Hedges]].
    + right. split; [done|]. intros y Hy. apply elem_of_union_r. by apply elem_of_list_to_set.
    + left. apply elem_of_app. by left.
    + right. split; [done|]. intros y Hy. apply elem_of_union_l. auto.
Qed.

Lemma tail_done V :
  tail_inv V [] → (∀ b, rtc row_edge head b → is_default_head d b = false) ∧ ∀ x, x ∈ V ↔ tc row_edge head x.
Proof.
  intros Hi.
  assert (∀ x, x = head ∨ x ∈ V → is_default_head d x = false ∧ ∀ y, row_edge x y → y ∈ V) as Hc.
  { intros x Hx. by destruct (ti_closed _ _ Hi x Hx) as [[]%elem_of_nil|]. }
  assert (∀ x, rtc row_edge head x → is_default_head d x = false ∧ ∀ y, row_edge x y → y ∈ V) as Hall.
  { apply rtc_ind_r; [apply Hc; by left|]. intros y z _ Hyz [_ Hy]. apply Hc. right. auto. }
  split; [apply Hall|]. intros x. split; [apply Hi|]. intros (y & Hy & Hyx)%tc_last. by apply (Hall y).
Qed.

Lemma tail_loop_spec fuel V next :
  tail_inv V next → length next + size (mentioned d ∖ V) ≤ fuel →
  (∃ b, rtc row_edge head b ∧ is_default_head d b = true ∧
     tail_loop d fuel V next = Some (Err ErrRemovingDefaultChannelDuringDeprecation)) ∨
  (∃ V', tail_loop d fuel V next = Some (Ok V') ∧ (∀ b, rtc row_edge head b → is_default_head d b = false) ∧
     ∀ x, x ∈ V' ↔ tc row_edge head x).
Proof.
  revert V next. induction fuel as [|fuel IH]; intros V next Hi Hm; destruct next as [|b next]; simpl in Hm; try lia.
  1,2: right; exists V; split; [done|]; by apply tail_done.
  simpl. destruct (is_default_head d b) eqn:E.
  - left. exists b. split_and!; [apply Hi; left|done|done].
  - destruct (tail_step V b next Hi E) as (V' & next' & -> & Hi' & Hm'). apply IH; [done|lia].
Qed.
End tail.

(** C6. [getTailFromBundle] ends, and finds exactly the bundles below a bundle.
    It fails, for having met the head of a default channel, exactly when such a
    bundle is the given one or is reachable from it through replaces and skips;
    otherwise it returns, each once, the names reachable in at least one step (the
    bundle itself only when it is on a cycle).  The index is not changed. *)
Theorem getTailFromBundle_spec `{GoRuntime} d head :
  ((∃ b, rtc (row_edge d) head b ∧ is_default_head d b = true) ∧
   getTailFromBundle head d = (d, Err ErrRemovingDefaultChannelDuringDeprecation)) ∨
  ((∀ b, rtc (row_edge d) head b → is_default_head d b = false) ∧
   ∃ l, getTailFromBundle head d = (d, Ok l) ∧ NoDup l ∧ ∀ x, x ∈ l ↔ tc (row_edge d) head x).
Proof.
  unfold getTailFromBundle.
  destruct (tail_loop_spec d head (tail_fuel d) ∅ [head]) as [(b & Hb & Hd & ->)|(V & -> & Hd & HV)].
  - split; [set_solver| |].
    + intros x ->%list_elem_of_singleton. apply rtc_refl.
    + intros x [->|Hx]; [left; left|set_solver].
  - unfold tail_fuel. simpl. rewrite difference_empty_L. lia.
  - left. split; [eauto|done].
  - right. split; [done|]. exists (range_set V). split; [done|].
    split; [rewrite range_set_perm; apply NoDup_elements|]. intros x. rewrite range_set_perm, elem_of_elements. apply HV.
Qed.

(** ** The join of [getTailFromBundle] *)
(** Package [q] has the default channel [stable]; package [p] has the default
    channel [fast] and a channel [stable], whose head is p.v1. *)
Definition ex_two_packages : db := mkDB
  {[ "p.v2" := ex_row "img:p2" ""; "p.v1" := ex_row "img:p1" ""; "q.v1" := ex_row "img:q1" "" ]}
  {[ "p" := Some "fast"; "q" := Some "stable" ]}
  {[ ("p", "fast") := "p.v2"; ("p", "stable") := "p.v1"; ("q", "stable") := "q.v1" ]}
  {[ 1%Z := mkEntryRow "fast" "p" "p.v2" None 1; 2%Z := mkEntryRow "stable" "p" "p.v1" None 1;
     3%Z := mkEntryRow "stable" "q" "q.v1" None 1 ]}
  [] ∅ [] [] empty_apis.

(** A bundle that heads no default channel is taken for the head of one when
    the channel it heads has the name of the default channel of another package:
    the join compares channel names only.  On a consistent index the walk from such
    a bundle, and with it the deprecation, is refused; without the other package
    the walk succeeds. *)
Theorem default_head_of_another_package `{GoRuntime} :
  let d := ex_two_packages in
  let alone := set_packages d (delete "q" (package d)) in
  index_ok d ∧
  map_Forall (λ p dc, (dc ≫= λ c, channel d !! (p, c)) ≠ Some "p.v1") (package d) ∧
  getTailFromBundle "p.v1" d = (d, Err ErrRemovingDefaultChannelDuringDeprecation) ∧
  ∃ l, getTailFromBundle "p.v1" alone = (alone, Ok l).
Proof.
  cbv zeta. split_and!.
  - apply (bool_decide_unpack _). vm_compute. exact I.
  - apply (bool_decide_unpack _). vm_compute. exact I.
  - unfold getTailFromBundle.
    assert (tail_loop ex_two_packages (tail_fuel ex_two_packages) ∅ ["p.v1"] = Some (Err ErrRemovingDefaultChannelDuringDeprecation)) as ->
      by (vm_compute; reflexivity). done.
  - set (alone := set_packages _ _). unfold getTailFromBundle.
    assert (∃ V, tail_loop alone (tail_fuel alone) ∅ ["p.v1"] = Some (Ok V)) as [V ->] by (eexists; vm_compute; reflexivity). eauto.
Qed.
