(* ===== verification/SqlGraph.v ===== *)
(** * Reading update graphs back from the index

    [pkg/sqlite/graphloader.go] with the three queries of [pkg/sqlite/query.go] it
    runs. *)
From S2P Require Import Prelude Semver Json JsonCompact Property JsonTotal Model Declcfg DeclcfgRoundtrip DeclcfgWrite DeclcfgLoad RegistryTypes RegistryBundle Graph Sql SqlLoad.
From stdpp Require Import options.

Section queries.
Context `{GoRuntime}.

Definition GetDefaultPackage (d : db) (name : string) : res string :=
  match package d !! name with
  | None => Err (Errorf "package %s not found" [AStr name])
  | Some None => Err (ErrNew "default channel not valid")
  | Some (Some c) => Ok c
  end.

(** The columns of the joined rows; a missing row gives nulls, and a null the
    empty string. *)
Definition annotated_entry (d : db) (e : entry_row) : ChannelEntryAnnotated :=
  let op_bundle := operatorbundle d !! er_bundle e in
  let replaces := er_replaces e ≫= λ r, channel_entry d !! r in
  let replacesbundle := replaces ≫= λ r, operatorbundle d !! er_bundle r in
  mkEntryA (er_package e) (er_channel e) (er_bundle e)
    (default "" (op_bundle ≫= ob_bundlepath)) (default "" (op_bundle ≫= ob_version))
    (default "" (er_bundle <$> replaces))
    (default "" (replacesbundle ≫= ob_version)) (default "" (replacesbundle ≫= ob_bundlepath)).
Definition GetChannelEntriesFromPackage (d : db) (packageName : string) : res (list ChannelEntryAnnotated) :=
  Ok ((λ ie, annotated_entry d ie.2) <$> range (filter (λ ie, er_package ie.2 = packageName) (channel_entry d))).

Definition bundle_key (name : string) (b : bundle_row) : BundleKey :=
  mkKey (default "" (ob_bundlepath b)) (default "" (ob_version b)) name.
Definition GetBundlesForPackage (d : db) (pkgName : string) : res (gset BundleKey) :=
  foldR (λ bundles nb,
    let key := bundle_key nb.1 nb.2 in
    if IsEmpty key then Err (Errorf "Index malformed: cannot find identifier for bundle in package %s" [AStr pkgName])
    else Ok ({[key]} ∪ bundles)) ∅
  (range (filter (λ nb, existsb (λ ie, bool_decide (er_package ie.2 = pkgName ∧ er_bundle ie.2 = nb.1)) (map_to_list (channel_entry d)) = true)
            (operatorbundle d))).

(** ** graphFromEntries *)
Definition entry_key (e : ChannelEntryAnnotated) : BundleKey := mkKey (cea_BundlePath e) (cea_Version e) (cea_BundleName e).
Definition replaces_key (e : ChannelEntryAnnotated) : BundleKey :=
  mkKey (cea_ReplacesBundlePath e) (cea_ReplacesVersion e) (cea_Replaces e).
(** The graphs of the channels and the candidates for their heads. *)
Definition entries_state : Type := gmap string graph_nodes * gmap string (gset BundleKey).
Definition add_node (existingBundles : gset BundleKey) (st : entries_state) (e : ChannelEntryAnnotated) : entries_state :=
  let c := cea_ChannelName e in
  let nodes := default ∅ (st.1 !! c) in
  if decide (entry_key e ∈ existingBundles) then
    (<[c := <[entry_key e := ∅]> nodes]> st.1, <[c := {[entry_key e]} ∪ default ∅ (st.2 !! c)]> st.2)
  else (<[c := nodes]> st.1, st.2).
Definition add_edge (st : entries_state) (e : ChannelEntryAnnotated) : entries_state :=
  let c := cea_ChannelName e in
  let nodes := default ∅ (st.1 !! c) in
  ((if IsEmpty (replaces_key e) then st.1
    else <[c := <[entry_key e := {[replaces_key e]} ∪ default ∅ (nodes !! entry_key e)]> nodes]> st.1),
   alter (λ cands, cands ∖ {[replaces_key e]}) c st.2).
Definition add_head (channelGraph : gmap string graph_nodes) (channels : gmap string graph_Channel)
    (nc : string * gset BundleKey) : res (gmap string graph_Channel) :=
  match elements nc.2 with
  | [] => Err (Errorf "no channel head found for %s" [AStr nc.1])
  | [head] => Ok (<[nc.1 := mkGChannel head (default ∅ (channelGraph !! nc.1))]> channels)
  | _ => Err (Errorf "multiple candidate channel heads found for %s: %v" [AStr nc.1])
  end.
Definition graphFromEntries (channelEntries : list ChannelEntryAnnotated) (existingBundles : gset BundleKey)
    : res (gmap string graph_Channel) :=
  let st := foldl (add_node existingBundles) (∅, ∅) channelEntries in
  let st := foldl add_edge st channelEntries in
  foldR (add_head st.1) ∅ (range st.2).

Definition SQLGraphLoader_Generate (d : db) (packageName : string) : res graph_Package :=
  match GetDefaultPackage d packageName with
  | Ok defaultChannel =>
      channelEntries ← GetChannelEntriesFromPackage d packageName;
      existingBundles ← GetBundlesForPackage d packageName;
      channels ← graphFromEntries channelEntries existingBundles;
      Ok (mkGPackage packageName defaultChannel channels)
  | _ => Err ErrPackageNotInDatabase
  end.
End queries.

(** ** What the entries say *)
Section spec.
Variables (E : list ChannelEntryAnnotated) (existing : gset BundleKey).

(** The keys of the bundles with an entry in a channel, and what a node replaces. *)
Definition in_channel (c : string) (k : BundleKey) : Prop :=
  ∃ e, e ∈ E ∧ cea_ChannelName e = c ∧ entry_key e = k ∧ k ∈ existing.
Definition node_replaces (c : string) (k r : BundleKey) : Prop :=
  ∃ e, e ∈ E ∧ cea_ChannelName e = c ∧ entry_key e = k ∧ replaces_key e = r ∧ IsEmpty r = false.
End spec.

Lemma in_channel_snoc E e existing c k :
  in_channel (E ++ [e]) existing c k ↔
  in_channel E existing c k ∨ (cea_ChannelName e = c ∧ entry_key e = k ∧ k ∈ existing).
Proof.
  unfold in_channel. split.
  - intros (e' & [He| ->%list_elem_of_singleton]%elem_of_app & ?); [left; eauto|by right].
  - intros [(e' & He & ?)|?]; [exists e'|exists e]; rewrite elem_of_app, list_elem_of_singleton; auto.
Qed.
Lemma node_replaces_snoc E e c k r :
  node_replaces (E ++ [e]) c k r ↔
  node_replaces E c k r ∨ (cea_ChannelName e = c ∧ entry_key e = k ∧ replaces_key e = r ∧ IsEmpty r = false).
Proof.
  unfold node_replaces. split.
  - intros (e' & [He| ->%list_elem_of_singleton]%elem_of_app & ?); [left; eauto|by right].
  - intros [(e' & He & ?)|?]; [exists e'|exists e]; rewrite elem_of_app, list_elem_of_singleton; auto.
Qed.

Section passes.
Variable (existing : gset BundleKey).

(** After the first pass. *)
Lemma add_nodes_spec E :
  let st := foldl (add_node existing) (∅, ∅) E in
  (∀ c k s, default ∅ (st.1 !! c) !! k = Some s ↔ in_channel E existing c k ∧ s = ∅) ∧
  (∀ c, is_Some (st.2 !! c) ↔ ∃ k, in_channel E existing c k) ∧
  (∀ c k, k ∈ default ∅ (st.2 !! c) ↔ in_channel E existing c k).
Proof.
  induction E as [|e E IH] using rev_ind; intros st; unfold st; clear st.
  - assert (∀ c k, ¬ in_channel [] existing c k) as Hn by (intros c k (? & []%elem_of_nil & _)).
    split_and!; intros; simpl; rewrite ?lookup_empty; simpl; rewrite ?lookup_empty.
    + split; [done|intros [[]%Hn _]].
    + split; [by intros []|intros [k []%Hn]].
    + split; [set_solver|intros []%Hn].
  - rewrite foldl_app. simpl. destruct IH as (H1 & H2 & H3).
    set (st := foldl (add_node existing) (∅, ∅) E) in *. clearbody st.
    unfold add_node. destruct (decide (entry_key e ∈ existing)) as [He|He]; simpl.
    + split_and!; intros c; setoid_rewrite in_channel_snoc; destruct (decide (cea_ChannelName e = c)) as [<-|Hc];
        rewrite ?lookup_insert_eq, ?(lookup_insert_ne _ _ c) by done; simpl.
      * intros k s. destruct (decide (entry_key e = k)) as [<-|Hk].
        -- rewrite lookup_insert_eq. clear -He. naive_solver.
        -- rewrite lookup_insert_ne by done. rewrite H1. clear -Hk. naive_solver.
      * intros k s. rewrite H1. clear -Hc. naive_solver.
      * split; [intros _; eauto 6|done].
      * rewrite H2. clear -Hc. naive_solver.
      * intros k. rewrite elem_of_union, elem_of_singleton, H3. clear -He. naive_solver.
      * intros k. rewrite H3. clear -Hc. naive_solver.
    + assert (∀ c k, in_channel (E ++ [e]) existing c k ↔ in_channel E existing c k) as Hin'
        by (intros; rewrite in_channel_snoc; clear -He; naive_solver).
      split_and!; [|intros c; rewrite H2; by setoid_rewrite Hin'|intros c k; by rewrite Hin', H3].
      intros c k s. rewrite Hin', <- H1. destruct (decide (cea_ChannelName e = c)) as [<-|Hc]; [by rewrite lookup_insert_eq|by rewrite lookup_insert_ne].
Qed.

(** After the second pass, over the entries [F] so far. *)
Definition is_replaced (F : list ChannelEntryAnnotated) (c : string) (k : BundleKey) : Prop :=
  ∃ e, e ∈ F ∧ cea_ChannelName e = c ∧ replaces_key e = k.
Lemma is_replaced_snoc F e c k :
  is_replaced (F ++ [e]) c k ↔ is_replaced F c k ∨ (cea_ChannelName e = c ∧ replaces_key e = k).
Proof.
  unfold is_replaced. split.
  - intros (e' & [He| ->%list_elem_of_singleton]%elem_of_app & ?); [left; eauto|by right].
  - intros [(e' & He & ?)|?]; [exists e'|exists e]; rewrite elem_of_app, list_elem_of_singleton; auto.
Qed.

Lemma add_edges_spec E F :
  let st := foldl add_edge (foldl (add_node existing) (∅, ∅) E) F in
  (∀ c k, is_Some (default ∅ (st.1 !! c) !! k) ↔ in_channel E existing c k ∨ ∃ r, node_replaces F c k r) ∧
  (∀ c k r, r ∈ default ∅ (default ∅ (st.1 !! c) !! k) ↔ node_replaces F c k r) ∧
  (∀ c, is_Some (st.2 !! c) ↔ ∃ k, in_channel E existing c k) ∧
  (∀ c k, k ∈ default ∅ (st.2 !! c) ↔ in_channel E existing c k ∧ ¬ is_replaced F c k).
Proof.
  induction F as [|e F IH] using rev_ind; intros st; unfold st; clear st.
  - destruct (add_nodes_spec E) as (H1 & H2 & H3). simpl.
    assert (∀ c k r, ¬ node_replaces [] c k r) as Hn by (intros c k r (? & []%elem_of_nil & _)). split_and!; [| |done|].
    + intros c k. split; [intros [s [? _]%H1]; by left|]. intros [Hk|[r []%Hn]]. exists ∅. by apply H1.
    + intros c k r. split; [|intros []%Hn]. destruct (default ∅ (_ !! c) !! k) as [s|] eqn:E1; simpl; [|set_solver].
      apply H1 in E1 as [_ ->]. set_solver.
    + intros c k. rewrite H3. split; [|tauto]. intros ?. split; [done|]. by intros (? & []%elem_of_nil & _).
  - rewrite foldl_app. simpl. destruct IH as (H0 & H1 & H2 & H3).
    set (st := foldl add_edge _ F) in *. clearbody st. unfold add_edge. simpl.
    assert (∀ c k, (IsEmpty (replaces_key e) = true ∨ cea_ChannelName e ≠ c ∨ entry_key e ≠ k) →
      ∀ r, node_replaces (F ++ [e]) c k r ↔ node_replaces F c k r) as Hsame.
    { intros c k Hck r. rewrite node_replaces_snoc. split; [|tauto]. intros [?|(? & ? & <- & ?)]; [done|exfalso].
      destruct Hck as [?|[?|?]]; congruence. }
    split_and!.
    + intros c k. destruct (IsEmpty (replaces_key e)) eqn:Ee; simpl; [rewrite H0; by setoid_rewrite (Hsame c k (or_introl eq_refl))|].
      destruct (decide (cea_ChannelName e = c)) as [<-|Hc]; rewrite ?lookup_insert_eq, ?(lookup_insert_ne _ _ c) by done; simpl.
      2:{ rewrite H0. by setoid_rewrite (Hsame c k (or_intror (or_introl Hc))). }
      destruct (decide (entry_key e = k)) as [<-|Hk]; rewrite ?lookup_insert_eq, ?(lookup_insert_ne _ _ k) by done.
      2:{ rewrite H0. by setoid_rewrite (Hsame _ k (or_intror (or_intror Hk))). }
      split; [intros _; right; exists (replaces_key e); apply node_replaces_snoc; auto|eauto].
    + intros c k r. destruct (IsEmpty (replaces_key e)) eqn:Ee; simpl; [rewrite H1; by rewrite (Hsame c k (or_introl eq_refl))|].
      destruct (decide (cea_ChannelName e = c)) as [<-|Hc]; rewrite ?lookup_insert_eq, ?(lookup_insert_ne _ _ c) by done; simpl.
      2:{ rewrite H1. by rewrite (Hsame c k (or_intror (or_introl Hc))). }
      destruct (decide (entry_key e = k)) as [<-|Hk]; rewrite ?lookup_insert_eq, ?(lookup_insert_ne _ _ k) by done.
      2:{ rewrite H1. by rewrite (Hsame _ k (or_intror (or_intror Hk))). }
      simpl. rewrite elem_of_union, elem_of_singleton, H1, node_replaces_snoc. clear -Ee. naive_solver.
    + intros c. rewrite <- H2. destruct (decide (cea_ChannelName e = c)) as [<-|Hc];
        [rewrite lookup_alter_eq; by rewrite fmap_is_Some|by rewrite lookup_alter_ne].
    + intros c k. rewrite is_replaced_snoc. destruct (decide (cea_ChannelName e = c)) as [<-|Hc].
      * rewrite lookup_alter_eq. specialize (H3 (cea_ChannelName e) k).
        destruct (st.2 !! cea_ChannelName e); simpl in *; [rewrite elem_of_difference, elem_of_singleton, H3|rewrite elem_of_empty; rewrite elem_of_empty in H3]; clear -H3; naive_solver.
      * rewrite lookup_alter_ne by done. rewrite H3. clear -Hc. naive_solver.
Qed.
End passes.
