(* ===== verification/SqlRoundtrip.v ===== *)
(** * A graph survives the index

    Storing the graph of a package ([AddPackageChannelsFromGraph]) and reading it
    back ([SQLGraphLoader.Generate]) gives the graph, when its channels are chains:
    what semver mode writes is what it reads the next time. *)
From S2P Require Import Prelude Semver Json JsonCompact Property JsonTotal Model Declcfg DeclcfgRoundtrip DeclcfgWrite DeclcfgLoad RegistryTypes RegistryBundle Graph GraphSpec Sql SqlLoad SqlInv SqlGraph.
From stdpp Require Import options.

(** ** Reading the entries of chains *)
(** Each node with the node it replaces, the empty key for the last one. *)
Fixpoint chain_pairs (ks : list BundleKey) : list (BundleKey * BundleKey) :=
  match ks with
  | [] => []
  | k :: t => (k, default zero_key (head t)) :: chain_pairs t
  end.
Lemma chain_pairs_l ks k : k ∈ ks ↔ ∃ r, (k, r) ∈ chain_pairs ks.
Proof.
  induction ks as [|k' t IH]; simpl; [set_solver|]. rewrite elem_of_cons, IH. setoid_rewrite elem_of_cons. split.
  - intros [->|[r ?]]; [eexists; by left|eexists; by right].
  - intros [r [[= -> ->]|?]]; eauto.
Qed.
Lemma chain_pairs_r ks r : IsEmpty r = false → ((∃ k, (k, r) ∈ chain_pairs ks) ↔ r ∈ tail ks).
Proof.
  intros Hr. induction ks as [|k t IH]; simpl; [set_solver|]. setoid_rewrite elem_of_cons. split.
  - intros [k' [[= -> ->]|?]].
    + destruct t; simpl in *; [done|by left].
    + assert (r ∈ tail t) by (apply IH; eauto). destruct t; [done|by right].
  - intros Hin. destruct t as [|k2 t]; [by apply elem_of_nil in Hin|]. apply elem_of_cons in Hin as [->|Hin]; [exists k; by left|].
    destruct IH as [_ IH]. destruct (IH Hin) as [k' ?]. exists k'. by right.
Qed.
(** The links of a chain are its pairs. *)
Lemma links_pairs ks k r :
  NoDup ks → Forall parses ks →
  r ∈ default ∅ (links ks None ∅ !! k) ↔ (k, r) ∈ chain_pairs ks ∧ IsEmpty r = false.
Proof.
  induction ks as [|k' t IH]; intros Hnd Hp; [simpl; rewrite lookup_empty; set_solver|].
  apply NoDup_cons in Hnd as [Hk' Hnd]. apply Forall_cons in Hp as [Hpk Hp]. cbn [links chain_pairs]. rewrite elem_of_cons.
  destruct (decide (k = k')) as [->|Hk].
  - rewrite lookup_insert_eq. simpl. assert (∀ r, (k', r) ∉ chain_pairs t) as Hno by (intros r' ?; apply Hk', chain_pairs_l; eauto).
    destruct t as [|k2 t]; simpl.
    + split; [set_solver|]. intros [[[= ->]|[]%Hno] ?]. done.
    + rewrite elem_of_singleton. apply Forall_cons in Hp as [Hp2 _]. apply parses_nonempty in Hp2.
      split; [intros ->; split; [by left|done]|]. intros [[[= ->]|[]%Hno] _]. done.
  - rewrite lookup_insert_ne by done. rewrite IH by done. split; [tauto|]. intros [[[= -> ->]|?] ?]; done.
Qed.

(** The channel a chain is. *)
Definition chain_channel (ks : list BundleKey) : graph_Channel := mkGChannel (default zero_key (head ks)) (links ks None ∅).
Lemma represents_chain_channel ch ks : represents ch ks → ch = chain_channel ks.
Proof. destruct ch as [h n]. intros (_ & Hh & Hn). simpl in *. subst n. unfold chain_channel. by rewrite Hh. Qed.

Lemma option_set_eq (a b : option (gset BundleKey)) :
  (is_Some a ↔ is_Some b) → (∀ r, r ∈ default ∅ a ↔ r ∈ default ∅ b) → a = b.
Proof.
  destruct a as [x|], b as [y|]; simpl; intros H1 H2; [|by destruct (proj1 H1); eauto|by destruct (proj2 H1); eauto|done].
  f_equal. by apply leibniz_equiv.
Qed.

Lemma foldR_add_head g (v : string → graph_Channel) m l :
  (∀ x m, x ∈ l → add_head g m x = Ok (<[x.1 := v x.1]> m)) →
  ∃ m', foldR (add_head g) m l = Ok m' ∧ ∀ c, m' !! c = if decide (c ∈ l.*1) then Some (v c) else m !! c.
Proof.
  revert m. induction l as [|x l IH]; intros m Hl; simpl; [by exists m|]. rewrite Hl by left. simpl.
  destruct (IH (<[x.1 := v x.1]> m)) as (m' & -> & Hm'); [intros; apply Hl; by right|]. exists m'. split; [done|].
  intros c. rewrite Hm'. destruct (decide (c = x.1)) as [->|Hc]; [rewrite lookup_insert_eq|rewrite lookup_insert_ne by done];
    repeat case_decide; set_solver.
Qed.

Section read.
Context `{GoRuntime}.
Variables (E : list ChannelEntryAnnotated) (existing : gset BundleKey) (A : gmap string (list BundleKey)).
Hypothesis Hchain : ∀ c ks, A !! c = Some ks → chain ks ∧ ks ≠ [].
Hypothesis Hentries : ∀ c k r,
  (∃ e, e ∈ E ∧ cea_ChannelName e = c ∧ entry_key e = k ∧ replaces_key e = r) ↔ ∃ ks, A !! c = Some ks ∧ (k, r) ∈ chain_pairs ks.
Hypothesis Hexisting : ∀ c ks k, A !! c = Some ks → k ∈ ks → k ∈ existing.

Lemma in_channel_chain c k : in_channel E existing c k ↔ ∃ ks, A !! c = Some ks ∧ k ∈ ks.
Proof using Type*.
  split.
  - intros (e & He & Hc & Hk & _). destruct (proj1 (Hentries c k (replaces_key e))) as (ks & Hks & Hp); [eauto|].
    exists ks. split; [done|]. apply chain_pairs_l. eauto.
  - intros (ks & Hks & Hk). pose proof Hk as [r Hr]%chain_pairs_l.
    destruct (proj2 (Hentries c k r)) as (e & ? & ? & ? & _); [eauto|]. exists e. split_and!; [done..|]. by eapply Hexisting.
Qed.
Lemma node_replaces_chain c k r :
  node_replaces E c k r ↔ ∃ ks, A !! c = Some ks ∧ (k, r) ∈ chain_pairs ks ∧ IsEmpty r = false.
Proof using Type*.
  unfold node_replaces. split.
  - intros (e & ? & ? & ? & ? & ?). destruct (proj1 (Hentries c k r)) as (ks & ? & ?); [eauto 6|]. eauto.
  - intros (ks & ? & ? & ?). destruct (proj2 (Hentries c k r)) as (e & ? & ? & ? & ?); [eauto|]. exists e. done.
Qed.
Lemma is_replaced_chain c ks k : A !! c = Some ks → k ∈ ks → is_replaced E c k ↔ k ∈ tail ks.
Proof using Type*.
  intros Hks Hk. destruct (Hchain _ _ Hks) as [[Hp _] _]. rewrite Forall_forall in Hp. apply Hp in Hk. apply parses_nonempty in Hk.
  rewrite <- (chain_pairs_r ks k Hk). unfold is_replaced. split.
  - intros (e & He & Hc & Hr). destruct (proj1 (Hentries c (entry_key e) k)) as (ks' & ? & ?); [eauto 6|]. simplify_eq. eauto.
  - intros [k' Hk']. destruct (proj2 (Hentries c k' k)) as (e & ? & ? & _ & ?); [eauto|]. exists e. done.
Qed.

Let st : entries_state := foldl add_edge (foldl (add_node existing) (∅, ∅) E) E.
Lemma read_nodes c ks : A !! c = Some ks → default ∅ (st.1 !! c) = links ks None ∅.
Proof using Type*.
  intros Hks. destruct (Hchain _ _ Hks) as [Hc _]. destruct (add_edges_spec existing E E) as (H1 & H2 & _). fold st in H1, H2.
  apply map_eq. intros k. apply option_set_eq.
  - rewrite H1. rewrite in_channel_chain. setoid_rewrite node_replaces_chain. trans (k ∈ ks).
    + split; [|eauto]. intros [(ks' & ? & ?)|(r & ks' & ? & Hp & _)]; simplify_eq; [done|]. apply chain_pairs_l. eauto.
    + split; [apply links_lookup_in|]. intros [s Hs]. destruct (decide (k ∈ ks)); [done|]. by rewrite links_lookup_out in Hs.
  - intros r. rewrite H2, node_replaces_chain, links_pairs by (by apply chain_NoDup || apply Hc). naive_solver.
Qed.
Lemma read_candidates c : st.2 !! c = (λ ks, {[default zero_key (head ks)]}) <$> A !! c.
Proof using Type*.
  destruct (add_edges_spec existing E E) as (_ & _ & H3 & H4). fold st in H3, H4. specialize (H3 c). specialize (H4 c).
  setoid_rewrite in_channel_chain in H3. setoid_rewrite in_channel_chain in H4. destruct (A !! c) as [ks|] eqn:Hks; simpl.
  - destruct (Hchain _ _ Hks) as [Hc Hne]. destruct ks as [|k t]; [done|]. simpl.
    destruct (proj2 H3) as [s Hs]; [exists k, (k :: t); split; [done|left]|]. rewrite Hs in H4 |- *. simpl in H4. f_equal.
    apply leibniz_equiv. intros x. rewrite H4, elem_of_singleton.
    pose proof (chain_NoDup _ Hc) as [Hk _]%NoDup_cons. split.
    + intros [(ks' & [= <-] & Hx) Hn]. rewrite (is_replaced_chain c (k :: t) x) in Hn by done. simpl in Hn.
      apply elem_of_cons in Hx as [->|Hx]; done.
    + intros ->. split; [exists (k :: t); split; [done|left]|]. rewrite (is_replaced_chain c (k :: t) k) by (done || left). done.
  - destruct (st.2 !! c) eqn:Hs; [|done]. destruct (proj1 H3) as (k & ks & ? & _); [eauto|done].
Qed.

Lemma graphFromEntries_chains : graphFromEntries E existing = Ok (chain_channel <$> A).
Proof using Type*.
  unfold graphFromEntries. fold st.
  set (v := λ c, chain_channel (default [] (A !! c))).
  destruct (foldR_add_head st.1 v ∅ (range st.2)) as (m' & -> & Hm').
  - intros [c s] m Hs%range_elem. rewrite read_candidates in Hs. destruct (A !! c) as [ks|] eqn:Hks; simplify_eq/=.
    unfold add_head, v. simpl. rewrite elements_singleton, Hks. simpl. rewrite (read_nodes c ks) by done. done.
  - f_equal. apply map_eq. intros c. rewrite Hm', lookup_empty, lookup_fmap. unfold v.
    assert (c ∈ (range st.2).*1 ↔ is_Some (A !! c)) as Hc.
    { rewrite list_elem_of_fmap. pose proof (read_candidates c) as Hr. split.
      - intros ([c' s] & -> & Hs%range_elem). simpl in *. rewrite Hr in Hs. by apply fmap_is_Some with (f := λ ks, {[default zero_key (head ks)]} : gset BundleKey); rewrite Hs.
      - intros [ks Hks]. rewrite Hks in Hr. simpl in Hr. eexists (c, _). split; [done|]. by apply range_elem. }
    case_decide as Hd; rewrite Hc in Hd; destruct (A !! c) as [ks|]; simpl; [done|by destruct Hd|by destruct Hd; eauto|done].
Qed.
End read.

(** ** Storing a chain *)
Lemma next_id_spec d :
  (1 ≤ next_id d)%Z ∧ (∀ i, is_Some (channel_entry d !! i) → (i < next_id d)%Z) ∧
  (next_id d = 1%Z ∨ is_Some (channel_entry d !! (next_id d - 1)%Z)).
Proof.
  unfold next_id. generalize (channel_entry d). intros m.
  set (P := λ (z : Z) (m : gmap Z entry_row), (0 ≤ z)%Z ∧ (∀ i, is_Some (m !! i) → (i ≤ z)%Z) ∧ (z = 0%Z ∨ is_Some (m !! z))).
  assert (P (map_fold (λ i _ m, Z.max i m) 0%Z m) m) as (H1 & H2 & H3).
  { apply (map_fold_weak_ind P); unfold P.
    - split_and!; [done| |by left]. intros i [? Hi]. by rewrite lookup_empty in Hi.
    - intros i e m' z Hi (H1 & H2 & H3). split_and!; [lia| |].
      + intros j [e' Hj]. destruct (decide (i = j)) as [->|]; [lia|]. rewrite lookup_insert_ne in Hj by done.
        specialize (H2 j). assert (j ≤ z)%Z by (apply H2; eauto). lia.
      + destruct (Z.max_spec i z) as [[? ->]|[? ->]].
        * destruct H3 as [?|H3]; [by left|right]. rewrite lookup_insert_ne by (intros ->; destruct H3; congruence). done.
        * right. rewrite lookup_insert_eq. eauto. }
  split_and!; [lia| |].
  - intros i Hi%H2. lia.
  - destruct H3 as [->|H3]; [by left|right]. by replace (map_fold _ _ _ + 1 - 1)%Z with (map_fold (λ i _ m, Z.max i m) 0%Z m) by lia.
Qed.
Lemma next_id_unique d n :
  (1 ≤ n)%Z → (∀ i, is_Some (channel_entry d !! i) → (i < n)%Z) → n = 1%Z ∨ is_Some (channel_entry d !! (n - 1)%Z) → next_id d = n.
Proof.
  intros H1 H2 H3. destruct (next_id_spec d) as (G1 & G2 & G3).
  assert (n ≤ next_id d)%Z. { destruct H3 as [->|H3]; [lia|]. apply G2 in H3. lia. }
  assert (next_id d ≤ n)%Z. { destruct G3 as [->|G3]; [lia|]. apply H2 in G3. lia. }
  lia.
Qed.
Lemma next_id_fresh d i : (next_id d ≤ i)%Z → channel_entry d !! i = None.
Proof. intros Hi. apply eq_None_not_Some. intros Hs. destruct (next_id_spec d) as (_ & H & _). apply H in Hs. lia. Qed.

Lemma tx_bind_Ok {A B} (m : TX A) (f : A → TX B) d d' a : m d = (d', Ok a) → (m ≫= f) d = f a d'.
Proof. intros E. unfold mbind, TX_bind. by rewrite E. Qed.
Lemma tx_try_Ok {A} (m : TX A) d d' a : m d = (d', Ok a) → tx_try m d = (d', Ok (inl a)).
Proof. intros E. unfold tx_try. by rewrite E. Qed.
Lemma append_err_Ok {A} errs (m : TX A) d d' a : m d = (d', Ok a) → append_err errs m d = (d', Ok errs).
Proof. intros E. unfold append_err. by rewrite (tx_bind_Ok _ _ _ _ _ (tx_try_Ok _ _ _ _ E)). Qed.
Lemma addChannelEntry_Ok c pkg csv depth d :
  is_Some (channel d !! (pkg, c)) →
  addChannelEntry c pkg csv depth d =
    (set_entries d (<[next_id d := mkEntryRow c pkg csv None depth]> (channel_entry d)), Ok (next_id d)).
Proof.
  intros Hc. unfold addChannelEntry. erewrite tx_bind_Ok by reflexivity.
  unfold mbind, TX_bind, statement, insert_entry. by rewrite decide_True.
Qed.

(** The row of the [j]-th node of a chain stored from [base] on. *)
Definition chain_row (c pkg : string) (ks : list BundleKey) (base depth : Z) (j : nat) (k : BundleKey) : entry_row :=
  mkEntryRow c pkg (bk_CsvName k) (if decide (S j < length ks) then Some (base + Z.of_nat j + 1)%Z else None) (depth + Z.of_nat j)%Z.
(** The index with other entries. *)
Definition same_tables (d d' : db) : Prop := d' = set_entries d (channel_entry d').

Lemma links_size ks : NoDup ks → size (links ks None ∅) = length ks.
Proof.
  induction ks as [|k t IH]; intros Hnd; [done|]. apply NoDup_cons in Hnd as [Hk Hnd]. cbn [links].
  rewrite map_size_insert_None by (by rewrite links_lookup_out). simpl. by rewrite IH.
Qed.
Lemma links_lookup_split done k t :
  NoDup (done ++ k :: t) → links (done ++ k :: t) None ∅ !! k = Some (list_to_set (option_list (head t))).
Proof.
  intros Hnd. rewrite links_app. rewrite links_lookup_out.
  - cbn [links]. rewrite lookup_insert_eq. f_equal. destruct t; simpl; [done|]. apply leibniz_equiv. set_solver.
  - apply NoDup_app in Hnd as (_ & Hd & _). intros Hin. apply (Hd _ Hin). left.
Qed.
Lemma range_set_small `{GoRuntime} (o : option BundleKey) : range_set (list_to_set (option_list o) : gset BundleKey) = option_list o.
Proof.
  destruct o as [k|]; simpl.
  - pose proof (range_set_perm ({[k]} ∪ ∅ : gset BundleKey)) as Hp. rewrite union_empty_r_L, elements_singleton in Hp.
    rewrite union_empty_r_L. by apply Permutation_singleton_r.
  - pose proof (range_set_perm (∅ : gset BundleKey)) as Hp. rewrite elements_empty in Hp. by apply Permutation_nil_r in Hp.
Qed.

Section store.
Context `{GoRuntime}.
Variables (c pkg : string) (ks : list BundleKey).
Hypothesis Hks : chain ks.
Local Abbreviation nodes := (links ks None ∅).

(** The index after the entry of a node. *)
Definition entered (d : db) (prev : Z) (csv : string) (depth : Z) : db :=
  let m := <[next_id d := mkEntryRow c pkg csv None depth]> (channel_entry d) in
  set_entries d (if decide (prev = 0%Z) then m else alter (with_replaces (Some (next_id d))) prev m).

Lemma store_chain_iter fuel done k t prev errs d :
  ks = done ++ k :: t → is_Some (channel d !! (pkg, c)) →
  store_chain c pkg nodes (S fuel) k (Z.of_nat (length done) + 1) prev errs d =
  let d1 := entered d prev (bk_CsvName k) (Z.of_nat (length done) + 1) in
  match t with
  | [] => (d1, Ok (Some errs))
  | k' :: _ => store_chain c pkg nodes fuel k' (Z.of_nat (length done) + 1 + 1) (next_id d) errs d1
  end.
Proof using Hks.
  intros Hsplit Hc. pose proof (chain_NoDup ks Hks) as Hnd. cbn [store_chain].
  rewrite (tx_bind_Ok _ _ _ _ _ (tx_try_Ok _ _ _ _ (addChannelEntry_Ok c pkg (bk_CsvName k) _ d Hc))). cbv beta.
  set (d0 := set_entries d _).
  assert ((if decide (prev = 0%Z) then mret errs else append_err errs (addReplaces (next_id d) prev)) d0 =
    (entered d prev (bk_CsvName k) (Z.of_nat (length done) + 1), Ok errs)) as E1.
  { unfold entered. case_decide; [done|]. eapply (append_err_Ok _ _ _ _ tt). done. }
  rewrite (tx_bind_Ok _ _ _ _ _ E1). cbv beta zeta.
  assert (nodes !! k = Some (list_to_set (option_list (head t)))) as -> by (rewrite Hsplit; apply links_lookup_split; by rewrite <- Hsplit).
  cbn [default from_option]. unfold id. rewrite range_set_small.
  assert (∀ r, r ∈ option_list (head t) → r ∈ dom nodes) as Hin.
  { intros r Hr. rewrite links_dom. apply elem_of_union_l, elem_of_list_to_set. rewrite Hsplit.
    destruct t; simpl in Hr; [by apply elem_of_nil in Hr|]. apply list_elem_of_singleton in Hr as ->. apply elem_of_app. right. right. left. }
  rewrite (filter_none (λ r, r ∉ dom nodes)) by (intros r Hr Hn; by apply Hn, Hin).
  assert (filter (λ r, r ∈ dom nodes) (option_list (head t)) = option_list (head t)) as ->.
  { destruct t as [|k' t]; simpl; [done|]. rewrite filter_cons, decide_True by (apply Hin; left). done. }
  cbn [add_synthetic]. erewrite tx_bind_Ok by reflexivity. destruct t as [|k' t]; simpl.
  - rewrite links_size by done. rewrite decide_False; [done|]. rewrite Hsplit, length_app. simpl. lia.
  - destruct Hks as [Hp _]. rewrite Hsplit, Forall_app, !Forall_cons in Hp. destruct Hp as (_ & _ & Hp & _).
    rewrite (parses_nonempty k' Hp). done.
Qed.

Lemma entered_lookup d prev csv depth i :
  (prev = 0 ∨ 0 < prev < next_id d)%Z →
  channel_entry (entered d prev csv depth) !! i =
    if decide (i = next_id d) then Some (mkEntryRow c pkg csv None depth)
    else if decide (i = prev ∧ prev ≠ 0%Z) then with_replaces (Some (next_id d)) <$> channel_entry d !! i
    else channel_entry d !! i.
Proof using Type.
  intros Hprev. pose proof (next_id_spec d) as (Hn & _). unfold entered. simpl. destruct (decide (prev = 0%Z)) as [->|Hp0].
  - rewrite (decide_False (P := i = 0%Z ∧ _)) by (intros [_ ?]; done).
    case_decide as Hi; [subst i; by rewrite lookup_insert_eq|by rewrite lookup_insert_ne].
  - destruct (decide (i = prev)) as [->|Hi].
    + rewrite lookup_alter_eq, lookup_insert_ne by lia. by rewrite decide_False, decide_True by lia.
    + rewrite lookup_alter_ne by done. rewrite (decide_False (P := i = prev ∧ _)) by tauto.
      case_decide as Hi'; [subst i; by rewrite lookup_insert_eq|by rewrite lookup_insert_ne].
Qed.
Lemma entered_next_id d prev csv depth :
  (prev = 0 ∨ 0 < prev < next_id d)%Z → next_id (entered d prev csv depth) = (next_id d + 1)%Z.
Proof using Type.
  intros Hprev. pose proof (next_id_spec d) as (H1 & H2 & _). apply next_id_unique; [lia| |].
  - intros i. rewrite entered_lookup by done. repeat case_decide; intros Hi; [lia| |].
    + apply fmap_is_Some, H2 in Hi. lia.
    + apply H2 in Hi. lia.
  - right. rewrite entered_lookup by done. rewrite decide_True by lia. eauto.
Qed.

(** The entries a chain is stored in: the ones from the next id on, one for each
    node, each replacing the next one. *)
Lemma store_chain_spec t : ∀ fuel done k prev errs d,
  ks = done ++ k :: t → length (k :: t) ≤ fuel → is_Some (channel d !! (pkg, c)) →
  (prev = 0 ∨ 0 < prev < next_id d)%Z →
  ∃ d', store_chain c pkg nodes fuel k (Z.of_nat (length done) + 1) prev errs d = (d', Ok (Some errs)) ∧
    same_tables d d' ∧
    (∀ j k', (k :: t) !! j = Some k' → channel_entry d' !! (next_id d + Z.of_nat j)%Z =
       Some (chain_row c pkg (k :: t) (next_id d) (Z.of_nat (length done) + 1) j k')) ∧
    (∀ i, (i < next_id d)%Z → channel_entry d' !! i =
       if decide (i = prev ∧ prev ≠ 0%Z) then with_replaces (Some (next_id d)) <$> channel_entry d !! i else channel_entry d !! i) ∧
    (∀ i, (next_id d + Z.of_nat (length (k :: t)) ≤ i)%Z → channel_entry d' !! i = None).
Proof using Hks.
  induction t as [|k2 t IH]; intros fuel done k prev errs d Hsplit Hfuel Hc Hprev; (destruct fuel as [|fuel]; [simpl in Hfuel; lia|]);
    rewrite (store_chain_iter fuel done k _ prev errs d Hsplit Hc); cbv zeta; pose proof (next_id_spec d) as (Hn & _).
  - eexists. split; [reflexivity|]. split_and!; [done|..].
    + intros [|j] k' Hj; [|done]. injection Hj as <-. rewrite entered_lookup by done. rewrite decide_True by lia.
      unfold chain_row. simpl. by rewrite Z.add_0_r.
    + intros i Hi. rewrite entered_lookup by done. by rewrite decide_False by lia.
    + intros i Hi. simpl in Hi. rewrite entered_lookup by done. rewrite !decide_False by lia. apply next_id_fresh. lia.
  - set (d1 := entered d prev (bk_CsvName k) (Z.of_nat (length done) + 1)).
    assert (next_id d1 = next_id d + 1)%Z as Hn1 by (by apply entered_next_id).
    destruct (IH fuel (done ++ [k]) k2 (next_id d) errs d1) as (d' & E & Hsame & Hrows & Hold & Hnew).
    { by rewrite <- app_assoc. } { simpl in *. lia. } { done. } { lia. }
    rewrite Hn1 in Hrows, Hold, Hnew. rewrite length_app in E, Hrows. simpl in E, Hrows.
    replace (Z.of_nat (length done + 1) + 1)%Z with (Z.of_nat (length done) + 1 + 1)%Z in E, Hrows by lia.
    exists d'. split; [exact E|]. split_and!.
    + unfold same_tables in *. rewrite Hsame. done.
    + intros [|j] k' Hj.
      * injection Hj as <-. rewrite Hold by lia. rewrite decide_True by lia. unfold d1. rewrite entered_lookup by done.
        rewrite decide_True by lia. unfold chain_row, with_replaces. simpl. by rewrite !Z.add_0_r.
      * replace (next_id d + Z.of_nat (S j))%Z with (next_id d + 1 + Z.of_nat j)%Z by lia. rewrite (Hrows j k' Hj).
        unfold chain_row. simpl. f_equal. f_equal; [|lia]. repeat case_decide; simpl in *; first [done|lia|f_equal; lia].
    + intros i Hi. rewrite Hold by lia. rewrite (decide_False (P := i = next_id d ∧ _)) by lia.
      unfold d1. rewrite entered_lookup by done. by rewrite decide_False by lia.
    + intros i Hi. apply Hnew. simpl in *. lia.
Qed.
End store.

(** ** Storing the channels of a package *)
Section channels.
Context `{GoRuntime}.
Variables (pkg : string) (A : gmap string (list BundleKey)).
Hypothesis Hchain : ∀ c ks, A !! c = Some ks → chain ks ∧ ks ≠ [].

(** The chain [ks] is stored from [base] on. *)
Definition block (d : db) (c : string) (ks : list BundleKey) (base : Z) : Prop :=
  ∀ j k, ks !! j = Some k → channel_entry d !! (base + Z.of_nat j)%Z = Some (chain_row c pkg ks base 1 j k).
(** The entries of the package are those of the chains of the channels [done],
    and the entries of the other packages are those of [d0]. *)
Record stored (d0 : db) (done : list string) (d : db) : Prop := {
  st_entries i e : channel_entry d !! i = Some e → er_package e = pkg →
    ∃ c ks base j k, c ∈ done ∧ A !! c = Some ks ∧ ks !! j = Some k ∧ i = (base + Z.of_nat j)%Z ∧ block d c ks base;
  st_blocks c ks : c ∈ done → A !! c = Some ks → ∃ base, block d c ks base;
  st_others i e : er_package e ≠ pkg → channel_entry d !! i = Some e ↔ channel_entry d0 !! i = Some e
}.

Lemma truncChannelGraph_nop d0 done d c :
  stored d0 done d → c ∉ done → truncChannelGraph c pkg d = (d, Ok tt).
Proof.
  intros Hst Hc. unfold truncChannelGraph, statement. do 2 f_equal. unfold delete_entries.
  rewrite map_filter_id; [by destruct d|]. intros i e Hi. simpl. apply bool_decide_eq_false. intros [<- Hp].
  destruct (st_entries _ _ _ Hst i e Hi Hp) as (c' & ks & base & j & k & Hd & _ & Hj & -> & Hb).
  rewrite (Hb j k Hj) in Hi. injection Hi as <-. by apply Hc.
Qed.

Lemma store_channel_spec fuel d0 done d c ch ks :
  stored d0 done d → c ∉ done → A !! c = Some ks → represents ch ks → is_Some (channel d !! (pkg, c)) → length ks ≤ fuel →
  ∃ d', store_channel fuel pkg (Some []) (c, ch) d = (d', Ok (Some [])) ∧ same_tables d d' ∧ stored d0 (done ++ [c]) d'.
Proof using Hchain.
  intros Hst Hc HA Hrep Hch Hfuel. unfold store_channel. simpl.
  rewrite (tx_bind_Ok _ _ _ _ _ (truncChannelGraph_nop _ _ _ _ Hst Hc)).
  destruct (Hchain _ _ HA) as [Hks Hne]. rewrite (represents_chain_channel ch ks Hrep).
  destruct ks as [|k t] eqn:Eks; [done|]. rewrite <- Eks in *.
  replace (gc_Head (chain_channel ks)) with k by (by rewrite Eks). change (gc_Nodes (chain_channel ks)) with (links ks None ∅).
  destruct (store_chain_spec c pkg ks Hks t fuel [] k 0 [] d) as (d' & E & Hsame & Hrows & Hold & Hnew);
    [by rewrite Eks|by rewrite <- Eks|done|by left|]. rewrite <- Eks in Hrows, Hnew. simpl in E, Hrows.
  exists d'. split; [exact E|]. split; [done|].
  assert (∀ i, (i < next_id d)%Z → channel_entry d' !! i = channel_entry d !! i) as Hold'.
  { intros i Hi. rewrite Hold by done. rewrite decide_False; [done|]. by intros [_ ?]. }
  assert (∀ c' ks' base, block d c' ks' base → block d' c' ks' base) as Hkeep.
  { intros c' ks' base Hb j k' Hj. pose proof (Hb j k' Hj) as Hbj. rewrite Hold'; [done|].
    destruct (next_id_spec d) as (_ & Hlt & _). apply Hlt. eauto. }
  assert (block d' c ks (next_id d)) as Hnewb by (intros j k' Hj; by apply Hrows).
  assert (∀ i e, channel_entry d' !! i = Some e → channel_entry d !! i = Some e ∨
    ∃ j k', ks !! j = Some k' ∧ i = (next_id d + Z.of_nat j)%Z) as Hcases.
  { intros i e Hi. destruct (decide (i < next_id d)%Z) as [Hlt|Hge]; [left; by rewrite <- Hold'|right].
    destruct (decide (next_id d + Z.of_nat (length ks) ≤ i)%Z) as [Hbig|Hsmall]; [by rewrite Hnew in Hi|].
    destruct (lookup_lt_is_Some_2 ks (Z.to_nat (i - next_id d))) as [k' Hk']; [lia|]. exists (Z.to_nat (i - next_id d)), k'. split; [done|lia]. }
  split.
  - intros i e Hi Hp. destruct (Hcases i e Hi) as [Hd|(j & k' & Hj & ->)].
    + destruct (st_entries _ _ _ Hst i e Hd Hp) as (c' & ks' & base & j & k' & ? & ? & ? & ? & ?).
      exists c', ks', base, j, k'. split_and!; [set_solver|done..|by apply Hkeep].
    + exists c, ks, (next_id d), j, k'. split_and!; [set_solver|done..].
  - intros c' ks' [Hc'| ->%list_elem_of_singleton]%elem_of_app HA'; [|simplify_eq; eauto].
    destruct (st_blocks _ _ _ Hst c' ks' Hc' HA') as [base Hb]. eauto.
  - intros i e Hp. rewrite <- (st_others _ _ _ Hst i e Hp). split.
    + intros Hi. destruct (Hcases i e Hi) as [Hd|(j & k' & Hj & ->)]; [done|]. rewrite (Hnewb j k' Hj) in Hi. by injection Hi as <-.
    + intros Hi. rewrite Hold'; [done|]. destruct (next_id_spec d) as (_ & Hlt & _). apply Hlt. eauto.
Qed.

Lemma store_channels_spec fuel d0 l : ∀ done d,
  stored d0 done d → NoDup (done ++ l.*1) →
  (∀ c ch, (c, ch) ∈ l → ∃ ks, A !! c = Some ks ∧ represents ch ks ∧ length ks ≤ fuel) →
  (∀ c ch, (c, ch) ∈ l → is_Some (channel d !! (pkg, c))) →
  ∃ d', tx_fold (store_channel fuel pkg) (Some []) l d = (d', Ok (Some [])) ∧ same_tables d d' ∧ stored d0 (done ++ l.*1) d'.
Proof using Hchain.
  induction l as [|[c ch] l IH]; intros done d Hst Hnd HA Hc.
  - exists d. rewrite app_nil_r. split_and!; [done|unfold same_tables; by destruct d|done].
  - destruct (HA c ch) as (ks & HA1 & Hrep & Hfuel); [left|].
    assert (c ∉ done) as Hnot.
    { apply NoDup_app in Hnd as (_ & Hd & _). intros Hin. apply (Hd _ Hin). left. }
    destruct (store_channel_spec fuel d0 done d c ch ks Hst Hnot HA1 Hrep) as (d1 & E1 & Hs1 & Hst1); [eapply Hc; left|done|].
    cbn [tx_fold]. rewrite (tx_bind_Ok _ _ _ _ _ E1).
    destruct (IH (done ++ [c]) d1 Hst1) as (d' & E & Hs & Hst').
    + by rewrite <- app_assoc.
    + intros. apply HA. by right.
    + intros c' ch' Hin. rewrite Hs1. simpl. apply (Hc c' ch'). by right.
    + exists d'. rewrite <- app_assoc in Hst'. split_and!; [done| |done]. unfold same_tables in *. rewrite Hs, Hs1. done.
Qed.
End channels.

(** ** The heads *)
Section heads.
Variable pkg : string.

(** The index after the heads of the channels [cs] are set. *)
Record headed (cs : list string) (d d' : db) : Prop := {
  hd_bundles : operatorbundle d' = operatorbundle d;
  hd_packages : package d' = package d;
  hd_channels c : is_Some (channel d' !! (pkg, c)) ↔ is_Some (channel d !! (pkg, c)) ∨ c ∈ cs;
  hd_entries i e : channel_entry d' !! i = Some e ↔
    channel_entry d !! i = Some e ∧ ¬ (er_package e = pkg ∧ er_channel e ∈ cs);
  hd_apis : apis d' = apis d
}.

Lemma replace_channel_spec c head d :
  fk_ok d → package d !! pkg = Some None → is_Some (operatorbundle d !! head) →
  ∃ d', addOrUpdateChannel c pkg head d = (d', Ok tt) ∧ headed [c] d d'.
Proof.
  intros Hok Hpkg Hhead. unfold addOrUpdateChannel, statement, replace_channel. rewrite decide_True by done.
  eexists. split; [reflexivity|].
  assert (∀ k, k ∈ dom (filter (λ kh, bool_decide (kh.1 = (pkg, c)) = true) (channel d)) ↔ k = (pkg, c) ∧ is_Some (channel d !! k)) as Hgone.
  { intros k. etrans; [exact (elem_gone (λ k _, bool_decide (k = (pkg, c))) (channel d) k)|]. cbv beta. setoid_rewrite bool_decide_eq_true. unfold is_Some. naive_solver. }
  split; simpl; [done| | | |done].
  - apply map_filter_id. intros p dc Hp. simpl. destruct dc as [c'|]; simpl; [|done]. apply bool_decide_eq_false.
    intros [[= Hp' Hc'] _]%Hgone. subst p. congruence.
  - intros c'. rewrite list_elem_of_singleton. destruct (decide (c' = c)) as [->|Hc].
    + rewrite lookup_insert_eq. split; [by right|eauto].
    + rewrite lookup_insert_ne by congruence. unfold is_Some. setoid_rewrite map_lookup_filter_Some. simpl.
      setoid_rewrite bool_decide_eq_false. naive_solver.
  - intros i e. rewrite map_lookup_filter_Some. simpl. rewrite Hgone, list_elem_of_singleton. split.
    + intros [Hi Hn]. split; [done|]. intros [Hp <-]. apply Hn. rewrite Hp. split; [done|].
      rewrite <- Hp. by apply (fk_entry d Hok i).
    + intros [Hi Hn]. split; [done|]. intros [[= Hp Hc] _]. by apply Hn.
Qed.

Lemma heads_spec (l : list (string * graph_Channel)) : ∀ d,
  fk_ok d → package d !! pkg = Some None → (∀ c ch, (c, ch) ∈ l → is_Some (operatorbundle d !! bk_CsvName (gc_Head ch))) →
  ∃ d', tx_fold (λ errs nc, append_err errs (addOrUpdateChannel nc.1 pkg (bk_CsvName (gc_Head nc.2)))) [] l d = (d', Ok []) ∧
    headed l.*1 d d'.
Proof.
  induction l as [|[c ch] l IH]; intros d Hok Hpkg Hh.
  - exists d. split; [done|]. split; simpl; [done|done|set_solver| |done]. intros i e. split; [|tauto]. intros ?. split; [done|]. by intros [_ ?%elem_of_nil].
  - destruct (replace_channel_spec c (bk_CsvName (gc_Head ch)) d Hok Hpkg) as (d1 & E1 & Hd1); [eapply Hh; left|].
    cbn [tx_fold]. rewrite (tx_bind_Ok _ _ _ _ _ (append_err_Ok [] _ _ _ _ E1)).
    destruct (IH d1) as (d' & E & Hd').
    + pose proof (keeps_replace_channel c pkg (bk_CsvName (gc_Head ch)) d Hok) as Hk. unfold addOrUpdateChannel in E1. by rewrite E1 in Hk.
    + by rewrite (hd_packages _ _ _ Hd1).
    + intros c' ch' Hin. rewrite (hd_bundles _ _ _ Hd1). apply (Hh c' ch'). by right.
    + exists d'. split; [done|]. destruct Hd1 as [B1 P1 C1 E1' A1], Hd' as [B2 P2 C2 E2 A2]. split; [..|congruence].
      * congruence.
      * congruence.
      * intros c'. rewrite C2, C1, list_elem_of_singleton, fmap_cons, (elem_of_cons l.*1). simpl. tauto.
      * intros i e. rewrite E2, E1', list_elem_of_singleton, fmap_cons, (elem_of_cons l.*1). simpl. tauto.
Qed.
End heads.

(** ** The whole package *)
Lemma chain_pairs_lookup ks k r : (k, r) ∈ chain_pairs ks ↔ ∃ j, ks !! j = Some k ∧ r = default zero_key (ks !! S j).
Proof.
  induction ks as [|k' t IH]; simpl; [split; [set_solver|by intros (j & ? & _)]|]. rewrite elem_of_cons, IH. split.
  - intros [[= -> ->]|(j & ? & ?)]; [exists 0|by exists (S j)]. split; [done|]. by destruct t.
  - intros ([|j] & Hj & ->); [left|right; eauto]. simplify_eq/=. f_equal. by destruct t.
Qed.

(** A graph of chains that the index can hold: the nodes are bundles of the index,
    the default channel is a channel, the package has no other channel, and the
    entries of a package replace entries of the same package. *)
Record storable (g : graph_Package) (A : gmap string (list BundleKey)) (d : db) : Prop := {
  so_chains : graph_chains g A;
  so_default : is_Some (A !! gp_DefaultChannel g);
  so_rows c ks k : A !! c = Some ks → k ∈ ks → ∃ b, operatorbundle d !! bk_CsvName k = Some b ∧ bundle_key (bk_CsvName k) b = k;
  so_channels c : is_Some (channel d !! (gp_Name g, c)) → is_Some (A !! c);
  so_links i e r e' : channel_entry d !! i = Some e → er_replaces e = Some r → channel_entry d !! r = Some e' →
    er_package e' = er_package e;
  so_index : index_ok d
}.

(** The keys of the rows, when none is empty. *)
Lemma foldR_keys (err : gset BundleKey → string * bundle_row → error) acc l :
  (∀ x, x ∈ l → IsEmpty (bundle_key x.1 x.2) = false) →
  ∃ s, foldR (λ bundles nb, let key := bundle_key nb.1 nb.2 in
               if IsEmpty key then Err (err bundles nb) else Ok ({[key]} ∪ bundles)) acc l = Ok s ∧
    ∀ k, k ∈ s ↔ k ∈ acc ∨ ∃ x, x ∈ l ∧ bundle_key x.1 x.2 = k.
Proof.
  revert acc. induction l as [|x l IH]; intros acc Hl; cbn [foldR].
  - exists acc. split; [done|]. intros k. split; [by left|]. intros [?|(? & []%elem_of_nil & _)]. done.
  - cbv zeta. rewrite (Hl x) by left. destruct (IH ({[bundle_key x.1 x.2]} ∪ acc)) as (s & Es & Hs); [intros; apply Hl; by right|].
    exists s. split; [exact Es|]. intros k. rewrite Hs, elem_of_union, elem_of_singleton. setoid_rewrite elem_of_cons. naive_solver.
Qed.

Section roundtrip.
Context `{GoRuntime}.
Variables (g : graph_Package) (A : gmap string (list BundleKey)) (d : db).
Hypothesis Hso : storable g A d.
Local Abbreviation pkg := (gp_Name g).

Lemma so_represents c ch : gp_Channels g !! c = Some ch → ∃ ks, A !! c = Some ks ∧ represents ch ks.
Proof using Hso.
  intros Hc. pose proof (so_chains _ _ _ Hso c) as Hr. rewrite Hc in Hr. destruct (A !! c) as [ks|]; inversion Hr; subst; eauto.
Qed.
Lemma so_represented c ks : A !! c = Some ks → ∃ ch, gp_Channels g !! c = Some ch ∧ represents ch ks.
Proof using Hso.
  intros Hc. pose proof (so_chains _ _ _ Hso c) as Hr. rewrite Hc in Hr. destruct (gp_Channels g !! c) as [ch|]; inversion Hr; subst; eauto.
Qed.
Lemma so_chain c ks : A !! c = Some ks → chain ks ∧ ks ≠ [].
Proof using Hso. intros Hc. destruct (so_represented c ks Hc) as (ch & _ & Hr & Hh & _). split; [done|]. by intros ->. Qed.
Lemma so_range c : c ∈ (range (gp_Channels g)).*1 ↔ is_Some (A !! c).
Proof using Hso.
  rewrite list_elem_of_fmap. split.
  - intros ([c' ch] & -> & Hc%range_elem). destruct (so_represents _ _ Hc) as (ks & ? & _). eauto.
  - intros [ks Hks]. destruct (so_represented _ _ Hks) as (ch & ? & _). exists (c, ch). by rewrite range_elem.
Qed.

(** Storing succeeds, and leaves the chains in the index. *)
Lemma add_graph_spec fuel :
  (∀ c ks, A !! c = Some ks → length ks ≤ fuel) →
  ∃ d', add_graph fuel g d = (d', Ok (Some [])) ∧ operatorbundle d' = operatorbundle d ∧ apis d' = apis d ∧
    package d' !! pkg = Some (Some (gp_DefaultChannel g)) ∧ stored pkg A d (range (gp_Channels g)).*1 d'.
Proof using Hso.
  intros Hfuel. unfold add_graph. destruct (so_index _ _ _ Hso) as [Hok _].
  set (d1 := set_packages d (<[pkg := None]> (package d))).
  assert (addPackageIfNotExists pkg d = (d1, Ok tt)) as E1 by done.
  rewrite (tx_bind_Ok _ _ _ _ _ (append_err_Ok [] _ _ _ _ E1)).
  destruct (heads_spec pkg (range (gp_Channels g)) d1) as (d2 & E2 & Hd2).
  { apply set_package_ok; [apply Hok|done]. } { by apply lookup_insert_eq. }
  { intros c ch Hc%range_elem. destruct (so_represents _ _ Hc) as (ks & Hks & _ & Hh & _).
    destruct (so_rows _ _ _ Hso c ks (gc_Head ch) Hks) as (b & Hb & _); [destruct ks; simplify_eq/=; left|]. eauto. }
  rewrite (tx_bind_Ok _ _ _ _ _ E2).
  assert (package d2 !! pkg = Some None) as Hp2 by (rewrite (hd_packages _ _ _ _ Hd2); apply lookup_insert_eq).
  assert (∀ c, is_Some (A !! c) → is_Some (channel d2 !! (pkg, c))) as Hc2 by (intros c Hc; apply (hd_channels _ _ _ _ Hd2); right; by apply so_range).
  set (d3 := set_packages d2 (<[pkg := Some (gp_DefaultChannel g)]> (package d2))).
  assert (updateDefaultChannel (gp_DefaultChannel g) pkg d2 = (d3, Ok tt)) as E3.
  { unfold updateDefaultChannel, statement, update_default_channel. rewrite Hp2, decide_True by apply Hc2, Hso. done. }
  rewrite (tx_bind_Ok _ _ _ _ _ (append_err_Ok [] _ _ _ _ E3)).
  destruct (store_channels_spec pkg A so_chain fuel d (range (gp_Channels g)) [] d3) as (d4 & E4 & Hs4 & Hst4).
  - assert (∀ i e, channel_entry d2 !! i = Some e → er_package e ≠ pkg) as Hno.
    { intros i e Hi Hp. apply (hd_entries _ _ _ _ Hd2) in Hi as [Hi Hn]. apply Hn. split; [done|]. apply so_range, (so_channels _ _ _ Hso).
      rewrite <- Hp. by apply (fk_entry d Hok i). }
    split; [intros i e Hi Hp; by destruct (Hno i e)|intros ? ? []%elem_of_nil|].
    intros i e Hp. simpl. rewrite (hd_entries _ _ _ _ Hd2). simpl. naive_solver.
  - apply range_NoDup.
  - intros c ch Hc%range_elem. destruct (so_represents _ _ Hc) as (ks & Hks & Hr). eauto.
  - intros c ch Hc%range_elem. simpl. apply Hc2. destruct (so_represents _ _ Hc) as (ks & Hks & _). eauto.
  - exists d4. split; [exact E4|]. rewrite Hs4. simpl. split_and!; [by rewrite (hd_bundles _ _ _ _ Hd2)|by rewrite (hd_apis _ _ _ _ Hd2)|by apply lookup_insert_eq|].
    by rewrite <- Hs4.
Qed.

(** *** Reading it back *)
Section stored.
Variable d' : db.
Hypothesis Hbundles : operatorbundle d' = operatorbundle d.
Hypothesis Hstored : stored pkg A d (range (gp_Channels g)).*1 d'.

Lemma stored_resolved : entries_resolved d'.
Proof using Hso Hstored.
  intros i e Hi. destruct (er_replaces e) as [r|] eqn:Hr; [|done]. destruct (decide (er_package e = pkg)) as [Hp|Hp].
  - destruct (st_entries _ _ _ _ _ Hstored i e Hi Hp) as (c & ks & base & j & k & _ & _ & Hj & -> & Hb).
    rewrite (Hb j k Hj) in Hi. injection Hi as <-. unfold chain_row in Hr. simpl in Hr. case_decide as Hlt; [|done]. injection Hr as <-.
    destruct (lookup_lt_is_Some_2 ks (S j) Hlt) as [k' Hk']. pose proof (Hb (S j) k' Hk') as Hn.
    replace (base + Z.of_nat j + 1)%Z with (base + Z.of_nat (S j))%Z by lia. eauto.
  - apply (st_others _ _ _ _ _ Hstored i e Hp) in Hi. pose proof (proj1 (proj2 (so_index _ _ _ Hso)) i e Hi) as Hres. simpl in Hres.
    rewrite Hr in Hres. destruct Hres as [e' He']. exists e'. apply (st_others _ _ _ _ _ Hstored); [|done].
    by rewrite (so_links _ _ _ Hso i e r e' Hi Hr He').
Qed.

(** What a row of a stored chain is read as. *)
Lemma row_key c ks k : A !! c = Some ks → k ∈ ks →
  mkKey (default "" (operatorbundle d' !! bk_CsvName k ≫= ob_bundlepath)) (default "" (operatorbundle d' !! bk_CsvName k ≫= ob_version))
    (bk_CsvName k) = k.
Proof using Hso Hbundles.
  intros Hks Hk. destruct (so_rows _ _ _ Hso c ks k Hks Hk) as (b & Hb & Ek). rewrite Hbundles, Hb. exact Ek.
Qed.
Lemma annotated_row c ks base j k :
  A !! c = Some ks → block pkg d' c ks base → ks !! j = Some k →
  let e := annotated_entry d' (chain_row c pkg ks base 1 j k) in
  cea_ChannelName e = c ∧ entry_key e = k ∧ replaces_key e = default zero_key (ks !! S j).
Proof using Hso Hbundles.
  intros Hks Hb Hj. simpl. split_and!; [done|by apply (row_key c ks); [|by eapply list_elem_of_lookup_2]|].
  unfold annotated_entry, replaces_key, chain_row. simpl. case_decide as Hlt; simpl.
  - destruct (lookup_lt_is_Some_2 ks (S j) Hlt) as [k' Hk']. pose proof (Hb (S j) k' Hk') as Hn.
    replace (base + Z.of_nat j + 1)%Z with (base + Z.of_nat (S j))%Z by lia. rewrite Hn, Hk'. simpl.
    by apply (row_key c ks); [|by eapply list_elem_of_lookup_2].
  - rewrite (lookup_ge_None_2 ks (S j)) by lia. done.
Qed.

Lemma stored_entries c k r :
  (∃ e, e ∈ ((λ ie, annotated_entry d' ie.2) <$> range (filter (λ ie, er_package ie.2 = pkg) (channel_entry d'))) ∧
     cea_ChannelName e = c ∧ entry_key e = k ∧ replaces_key e = r) ↔
  ∃ ks, A !! c = Some ks ∧ (k, r) ∈ chain_pairs ks.
Proof using Hso Hbundles Hstored.
  split.
  - intros (e & ([i row] & -> & [Hi Hp]%range_elem%map_lookup_filter_Some)%list_elem_of_fmap & <- & <- & <-). cbn [snd] in *.
    destruct (st_entries _ _ _ _ _ Hstored i row Hi Hp) as (c' & ks & base & j & k' & _ & Hks & Hj & -> & Hb).
    rewrite (Hb j k' Hj) in Hi. injection Hi as <-. destruct (annotated_row c' ks base j k' Hks Hb Hj) as (-> & -> & ->).
    exists ks. split; [done|]. apply chain_pairs_lookup. eauto.
  - intros (ks & Hks & (j & Hj & ->)%chain_pairs_lookup).
    destruct (st_blocks _ _ _ _ _ Hstored c ks) as [base Hb]; [by apply so_range|done|].
    destruct (annotated_row c ks base j k Hks Hb Hj) as (? & ? & ?).
    exists (annotated_entry d' (chain_row c pkg ks base 1 j k)). split_and!; [|done..].
    apply list_elem_of_fmap. exists ((base + Z.of_nat j)%Z, chain_row c pkg ks base 1 j k). split; [done|].
    apply range_elem, map_lookup_filter_Some. split; [by apply Hb|done].
Qed.

Lemma stored_bundle n b :
  operatorbundle d' !! n = Some b → (∃ i e, channel_entry d' !! i = Some e ∧ er_package e = pkg ∧ er_bundle e = n) →
  ∃ c ks k, A !! c = Some ks ∧ k ∈ ks ∧ bundle_key n b = k.
Proof using Hso Hbundles Hstored.
  intros Hb (i & e & Hi & Hp & Hn). destruct (st_entries _ _ _ _ _ Hstored i e Hi Hp) as (c & ks & base & j & k & _ & Hks & Hj & -> & Hbl).
  rewrite (Hbl j k Hj) in Hi. injection Hi as <-. simpl in Hn. subst n. exists c, ks, k.
  pose proof (list_elem_of_lookup_2 _ _ _ Hj) as Hk. split_and!; [done..|].
  destruct (so_rows _ _ _ Hso c ks k Hks Hk) as (b' & Hb' & Ek). rewrite Hbundles in Hb. by simplify_eq.
Qed.

Lemma stored_existing :
  ∃ s, GetBundlesForPackage d' pkg = Ok s ∧ ∀ c ks k, A !! c = Some ks → k ∈ ks → k ∈ s.
Proof using Hso Hbundles Hstored.
  unfold GetBundlesForPackage. set (m := filter _ (operatorbundle d')).
  assert (∀ n b, m !! n = Some b ↔ operatorbundle d' !! n = Some b ∧
    ∃ i e, channel_entry d' !! i = Some e ∧ er_package e = pkg ∧ er_bundle e = n) as Hm.
  { intros n b. unfold m. rewrite map_lookup_filter_Some. simpl. rewrite existsb_exists. setoid_rewrite bool_decide_eq_true.
    f_equiv. split.
    - intros ([i e] & Hin%list_elem_of_In%elem_of_map_to_list & ? & ?). eauto.
    - intros (i & e & ? & ? & ?). exists (i, e). split; [|done]. by apply list_elem_of_In, elem_of_map_to_list. }
  destruct (foldR_keys (λ _ _, Errorf "Index malformed: cannot find identifier for bundle in package %s" [AStr pkg]) ∅ (range m)) as (s & Es & Hs).
  { intros [n b] [Hb He]%range_elem%Hm. simpl. destruct (stored_bundle n b Hb He) as (c & ks & k & Hks & Hk & ->).
    destruct (so_chain c ks Hks) as [[Hp _] _]. rewrite Forall_forall in Hp. by apply parses_nonempty, Hp. }
  exists s. split; [exact Es|]. intros c ks k Hks Hk. apply Hs. right.
  destruct (so_rows _ _ _ Hso c ks k Hks Hk) as (b & Hb & Ek). exists (bk_CsvName k, b). split; [|done].
  apply range_elem, Hm. rewrite Hbundles. split; [done|]. apply list_elem_of_lookup_1 in Hk as [j Hj].
  destruct (st_blocks _ _ _ _ _ Hstored c ks) as [base Hbl]; [by apply so_range|done|]. eexists _, _. split; [by apply Hbl|done].
Qed.

Lemma stored_read :
  package d' !! pkg = Some (Some (gp_DefaultChannel g)) → SQLGraphLoader_Generate d' pkg = Ok g.
Proof using Hso Hbundles Hstored.
  intros Hpkg. unfold SQLGraphLoader_Generate, GetDefaultPackage. rewrite Hpkg.
  destruct stored_existing as (s & Es & Hs). simpl. rewrite Es. simpl.
  rewrite (graphFromEntries_chains _ s A so_chain stored_entries Hs). simpl. f_equal.
  assert (chain_channel <$> A = gp_Channels g) as ->; [|by destruct g].
  apply map_eq. intros c. rewrite lookup_fmap. destruct (gp_Channels g !! c) as [ch|] eqn:Hc.
  - destruct (so_represents c ch Hc) as (ks & -> & Hr). simpl. by rewrite (represents_chain_channel ch ks Hr).
  - destruct (A !! c) as [ks|] eqn:Hks; [|done]. destruct (so_represented c ks Hks) as (ch & Hch & _). congruence.
Qed.
End stored.
End roundtrip.

(** C2. Storing the update graph of a package and reading it back gives the same
    graph.  For a consistent index that has the bundles of the graph, and for
    channels that are sorted chains, [AddPackageChannelsFromGraph] ends, without an
    error, and [SQLGraphLoader.Generate] on the index it leaves returns the graph:
    its name, default channel, the head of every channel and what every node
    replaces; for every order in which maps and rows are visited. *)
Theorem graph_index_roundtrip `{GoRuntime} g A d fuel :
  storable g A d → (∀ c ks, A !! c = Some ks → length ks ≤ fuel) →
  ∃ d', AddPackageChannelsFromGraph fuel g d = (d', Ok tt) ∧ index_ok d' ∧ SQLGraphLoader_Generate d' (gp_Name g) = Ok g.
Proof.
  intros Hso Hfuel. destruct (add_graph_spec g A d Hso fuel Hfuel) as (d' & E & Hb & Ha & Hp & Hst).
  exists d'. assert (AddPackageChannelsFromGraph fuel g d = (d', Ok tt)) as E'.
  { unfold AddPackageChannelsFromGraph. rewrite E. rewrite decide_True; [done|]. split; [by eapply stored_resolved|].
    unfold apis_resolved. rewrite Hb, Ha. apply (so_index _ _ _ Hso). }
  split_and!; [exact E'| |by eapply stored_read].
  pose proof (index_AddPackageChannelsFromGraph fuel g d (so_index _ _ _ Hso)) as Hi. by rewrite E' in Hi.
Qed.

(** ** Example *)
Definition ex_store : db := mkDB
  {[ "op.1.1.1" := mkBundleRow None None (Some "img:1.1.1") (Some "1.1.1") None None None None;
     "op.1.1.0" := mkBundleRow None None (Some "img:1.1.0") (Some "1.1.0") None None None None;
     "op.1.0.0" := mkBundleRow None None (Some "img:1.0.0") (Some "1.0.0") None None None None ]}
  ∅ ∅ ∅ [] ∅ [] [] empty_apis.
Lemma ex_storable : storable ex_graph {[ "stable" := ex_chain ]} ex_store.
Proof.
  split.
  - apply map_Forall2_insert_2; [apply ex_represents|apply map_Forall2_empty].
  - eauto.
  - intros c ks k [<- <-]%lookup_singleton_Some Hk. unfold ex_chain in Hk.
    repeat (apply elem_of_cons in Hk as [->|Hk]; [eexists; split; vm_compute; reflexivity|]). by apply elem_of_nil in Hk.
  - intros c [? Hc]. done.
  - intros i e r e' Hi. done.
  - apply (bool_decide_unpack _). vm_compute. exact I.
Qed.
Lemma graph_index_roundtrip_witness :
  ∃ d', AddPackageChannelsFromGraph (H := go_default) 3 ex_graph ex_store = (d', Ok tt) ∧
    SQLGraphLoader_Generate (H := go_default) d' "pkg" = Ok ex_graph.
Proof.
  destruct (@graph_index_roundtrip go_default ex_graph {[ "stable" := ex_chain ]} ex_store 3 ex_storable) as (d' & E & _ & Hg).
  - intros c ks [<- <-]%lookup_singleton_Some. vm_compute. repeat constructor.
  - exists d'. split; [exact E|exact Hg].
Defined.

(** A graph from which skippatch mode has cut off the older versions is refused by
    the index: the chain from the head ends before all nodes are visited, which is
    reported as an error, although the entries are committed. *)
Theorem skippatch_graph_rejected :
  match AddBundleToGraph (H := go_default) (ex_bundle "1.1.2") ex_graph (mkAnnotations "pkg" "stable" "") true with
  | (_, g, Ok _) =>
      let d := set_bundles ex_store (<["op.1.1.2" := mkBundleRow None None (Some "img:1.1.2") (Some "1.1.2") None None None None]>
                                       (operatorbundle ex_store)) in
      let '(d', r) := AddPackageChannelsFromGraph (H := go_default) 5 g d in
      r = NewAggregate [invalid_graph] ∧ size (channel_entry d') = 6
  | _ => False
  end.
Proof. vm_compute. split; reflexivity. Qed.
