(* ===== verification/SqlChannels.v ===== *)
(** * Adding the channels of a manifest ends

    [addPackageChannels] of [pkg/sqlite/load.go] follows the replaces of bundles
    until there are none, keeping the names it has met.  A small program logic for
    operations that leave the bundles alone shows that the loop ends on every
    index, cycles included. *)
From S2P Require Import Prelude Semver Json JsonCompact Property JsonTotal Model Declcfg DeclcfgRoundtrip DeclcfgWrite DeclcfgLoad RegistryTypes RegistryBundle Graph Sql SqlLoad SqlInv.
From stdpp Require Import options.

Section logic.
Variable B : gmap string bundle_row.

(** Run on an index with the bundles [B], the operation does not panic, leaves the
    bundles alone, and a value it returns satisfies [Q]. *)
Definition triple {A} (m : TX A) (Q : A → Prop) : Prop := ∀ d,
  operatorbundle d = B →
  match m d with
  | (d', Ok a) => operatorbundle d' = B ∧ Q a
  | (d', Err _) => operatorbundle d' = B
  | (_, Panic) => False
  end.

Lemma triple_ret {A} (a : A) (Q : A → Prop) : Q a → triple (mret a) Q.
Proof. by intros ? d. Qed.
Lemma triple_err {A} e (Q : A → Prop) : triple (tx_err e) Q.
Proof. by intros d. Qed.
Lemma triple_bind {A C} (m : TX A) (f : A → TX C) R Q : triple m R → (∀ a, R a → triple (f a) Q) → triple (m ≫= f) Q.
Proof.
  intros Hm Hf d Hd. specialize (Hm d Hd). unfold mbind, TX_bind.
  destruct (m d) as [d' [a|e|]]; [|done..]. destruct Hm as [Hd' Ha]. by apply (Hf a Ha).
Qed.
Lemma triple_weaken {A} (m : TX A) (R Q : A → Prop) : triple m R → (∀ a, R a → Q a) → triple m Q.
Proof. intros Hm HQ d Hd. specialize (Hm d Hd). destruct (m d) as [d' [a|e|]]; naive_solver. Qed.
Lemma triple_try {A} (m : TX A) R : triple m R → triple (tx_try m) (λ r, match r with inl a => R a | inr _ => True end).
Proof. intros Hm d Hd. specialize (Hm d Hd). unfold tx_try. by destruct (m d) as [d' [a|e|]]. Qed.
Lemma triple_select {A} (q : db → A) : triple (select q) (λ a, ∃ d, operatorbundle d = B ∧ a = q d).
Proof. intros d Hd. split; [done|]. eauto. Qed.
(** Statements on the other tables. *)
Lemma triple_statement u :
  (∀ d, match u d with Ok d' => operatorbundle d' = operatorbundle d | Err _ => True | Panic => False end) →
  triple (statement u) (λ _, True).
Proof. intros Hu d Hd. specialize (Hu d). unfold statement. destruct (u d); [|done..]. split; [congruence|done]. Qed.
Lemma triple_fold {A C} (f : C → A → TX C) (I : C → Prop) b l :
  I b → (∀ b x, I b → triple (f b x) I) → triple (tx_fold f b l) I.
Proof.
  revert b. induction l as [|x l IH]; intros b Hb Hf; simpl; [by apply triple_ret|].
  eapply triple_bind; [by apply Hf|]. intros b' Hb'. by apply IH.
Qed.

Lemma triple_insert_package p : triple (statement (insert_package p)) (λ _, True).
Proof. apply triple_statement. intros d. unfold insert_package. by case_decide. Qed.
Lemma triple_insert_channel c p h : triple (statement (insert_channel c p h)) (λ _, True).
Proof. apply triple_statement. intros d. unfold insert_channel. repeat case_decide; done. Qed.
Lemma triple_update_default c p : triple (statement (update_default_channel c p)) (λ _, True).
Proof. apply triple_statement. intros d. unfold update_default_channel. destruct (package d !! p); [|done]. by case_decide. Qed.
Lemma triple_addReplaces r i : triple (addReplaces r i) (λ _, True).
Proof. by apply triple_statement. Qed.
Lemma triple_addProperty t v n ver p : triple (addProperty t v n ver p) (λ _, True).
Proof. apply triple_statement. intros d. unfold insert_property. by destruct (ref_ok _ _ _ _). Qed.
Lemma triple_addChannelEntry c p n k : triple (addChannelEntry c p n k) (λ _, True).
Proof.
  eapply triple_bind; [apply triple_select|]. intros id _.
  eapply triple_bind; [apply triple_statement; intros d; unfold insert_entry; by case_decide|]. intros. by apply triple_ret.
Qed.
(** Reading a bundle succeeds when it is in the index. *)
Lemma triple_getBundle n : triple (getBundleSkipsReplacesVersion n) (λ _, n ∈ dom B).
Proof.
  eapply triple_bind; [apply triple_select|]. intros o (d & Hd & ->). rewrite Hd.
  destruct (B !! n) eqn:E; [|apply triple_err]. apply triple_ret, elem_of_dom. eauto.
Qed.
End logic.

Create HintDb triples.
#[export] Hint Resolve triple_insert_package triple_insert_channel triple_update_default triple_addReplaces
  triple_addProperty triple_addChannelEntry triple_getBundle triple_select triple_ret triple_err triple_try : triples.
(** One step of an operation. *)
Ltac step := eapply triple_bind; [solve [eauto with triples]|intros ? ?].

Section loop.
Variable B : gmap string bundle_row.

Lemma triple_add_skip c p n st x : triple B (add_skip c p n st x) (λ _, True).
Proof.
  destruct st as [depth errs]. unfold add_skip. step. destruct a as [id|e]; [|by apply triple_ret].
  step. destruct a as [id'|e]; [|by apply triple_ret]. step. by destruct a; apply triple_ret.
Qed.

(** A pass that goes on has met a new bundle of the index. *)
Lemma triple_channel_pass pkg c cycle csv id depth errs :
  triple B (channel_pass pkg c cycle csv id depth errs)
    (λ r, match r with inl _ => True | inr (csv', _, _, _) => (csv' ∉ cycle) ∧ csv' ∈ dom B end).
Proof.
  unfold channel_pass, addPackageProperty, getBundlePathIfExists, deprecated. cbv zeta.
  step. destruct a as [[[replaces skips] version]|e]; [|by apply triple_ret].
  step. step. destruct a0 as [[]|e]; [|by apply triple_ret].
  eapply triple_bind; [apply (triple_fold B _ (λ _, True)); [done|intros; apply triple_add_skip]|]. intros [depth' errs'] _. cbv zeta.
  case_decide; [by apply triple_ret|]. step. destruct a0 as [id'|e]; [|by apply triple_ret].
  case_decide as Hcyc; [by apply triple_ret|]. step. destruct a0 as [[]|e]; [|by apply triple_ret].
  step. destruct a0; [by apply triple_ret|]. step. destruct a0; by apply triple_ret.
Qed.

Lemma triple_channel_loop pkg c fuel : ∀ cycle csv id depth errs,
  size (dom B ∖ cycle) < fuel → triple B (channel_loop pkg c fuel cycle csv id depth errs) is_Some.
Proof.
  induction fuel as [|fuel IH]; intros cycle csv id depth errs Hm; [lia|]. cbn [channel_loop].
  eapply triple_bind; [apply triple_channel_pass|]. intros [errs'|[[[csv' id'] depth'] errs']] Hr; [by apply triple_ret; eauto|].
  destruct Hr as [Hn Hd]. apply IH. cut (size (dom B ∖ ({[csv']} ∪ cycle)) < size (dom B ∖ cycle)); [lia|]. apply subset_size. set_solver.
Qed.

Lemma triple_addPackageChannels m : triple B (addPackageChannels m) is_Some.
Proof.
  unfold addPackageChannels. step. destruct a as [[]|e]; [|apply triple_err].
  eapply triple_bind; [apply (triple_fold B _ (λ _, True)); [done|]|].
  - intros st ch _. unfold add_manifest_channel, deprecated. step. destruct a; [by apply triple_ret|].
    step. destruct a as [[]|e]; [|by apply triple_ret]. destruct (IsDefaultChannel ch m); [|by apply triple_ret].
    step. by destruct a; apply triple_ret.
  - intros st _. cbv zeta. apply (triple_fold B); [eauto|]. intros [errs|] ch Hs; [|by destruct Hs]. unfold add_channel_entries.
    step. destruct a as [id|e]; [|apply triple_ret; eauto]. eapply triple_bind; [apply triple_select|]. intros fuel (d & Hd & ->).
    apply triple_channel_loop. unfold channel_fuel. rewrite Hd.
    assert (size (dom B ∖ {[pch_CurrentCSVName ch]}) ≤ size (dom B)) by (apply subseteq_size; set_solver).
    rewrite size_dom in *. lia.
Qed.
End loop.

(** The bundles stay as they are. *)
Lemma AddPackageChannels_bundles m d : operatorbundle (AddPackageChannels m d).1 = operatorbundle d.
Proof.
  unfold AddPackageChannels, transaction.
  assert (operatorbundle ((_ ← rmPackage (pm_PackageName m); outcome (addPackageChannels m)) d).1 = operatorbundle d) as E.
  { set (d1 := (rmPackage (pm_PackageName m) d).1). assert (rmPackage (pm_PackageName m) d = (d1, Ok tt)) as E1 by done.
    unfold mbind, TX_bind. rewrite E1. unfold outcome. pose proof (triple_addPackageChannels (operatorbundle d1) m d1 eq_refl) as Ht.
    assert (operatorbundle d1 = operatorbundle d) as <- by done.
    destruct (addPackageChannels m d1) as [d2 [[errs|]|e|]]; simpl; [by destruct Ht|by destruct Ht|done|done]. }
  destruct ((_ ← rmPackage (pm_PackageName m); outcome (addPackageChannels m)) d) as [d' [a|e|]]; [case_decide|..]; done.
Qed.

(** C8. Adding the channels of a package ends on every index: along each channel
    no bundle is visited twice, so the number of bundles bounds the passes, also
    when the replaces form a cycle or name bundles that are missing (which is
    reported).  [AddPackageChannels] returns an outcome, never runs on. *)
Theorem AddPackageChannels_ends m d :
  (∃ errs d', addPackageChannels m d = (d', Ok (Some errs))) ∨ (∃ e d', addPackageChannels m d = (d', Err e)).
Proof.
  pose proof (triple_addPackageChannels (operatorbundle d) m d eq_refl) as Ht.
  destruct (addPackageChannels m d) as [d' [[errs|]|e|]]; [left; eauto|by destruct Ht as [_ []]|right; eauto|done].
Qed.
