(* ===== verification/SqlAdd.v ===== *)
(** * Adding bundles to the index

    [addOperatorBundle] of [pkg/sqlite/load.go] with all it does: the row of the
    bundle, its related images, dependencies, properties and APIs, and the
    rewriting of replaces and skips when bundles substitute for one another; and
    the operations built on it, [AddOperatorBundle], [AddBundleSemver] and
    [AddBundlePackageChannels].

    The operations read the bundle through methods that fill its cache and write
    to the index: they are computations on both.  Some loops of
    [addSubstitutesFor] follow the substitutions recorded in the index and need
    not end; an outcome [None] means that the computation is still running when
    the fuel is spent. *)
From S2P Require Import Prelude Semver Json JsonCompact Property JsonTotal Model Declcfg DeclcfgRoundtrip DeclcfgWrite DeclcfgLoad RegistryTypes RegistryBundle Graph Sql SqlLoad.
From stdpp Require Import options.

(** ** Computations on a bundle and the index *)
Definition LM (A : Type) : Type := registry_Bundle → db → registry_Bundle * db * option (res A).
#[export] Instance LM_ret : MRet LM := λ A a b d, (b, d, Some (Ok a)).
#[export] Instance LM_bind : MBind LM := λ A B f m b d,
  match m b d with
  | (b', d', Some (Ok a)) => f a b' d'
  | (b', d', Some (Err e)) => (b', d', Some (Err e))
  | (b', d', Some Panic) => (b', d', Some Panic)
  | (b', d', None) => (b', d', None)
  end.
Definition lm_err {A} (e : error) : LM A := λ b d, (b, d, Some (Err e)).
Definition running {A} : LM A := λ b d, (b, d, None).
Definition of_res {A} (r : res A) : LM A := λ b d, (b, d, Some r).
Definition of_bm {A} (m : BM A) : LM A := λ b d, let '(b', r) := m b in (b', d, Some r).
Definition of_tx {A} (m : TX A) : LM A := λ b d, let '(d', r) := m d in (b, d', Some r).
Definition lm_wrap {A} (f : error → error) (m : LM A) : LM A := λ b d,
  let '(b', d', r) := m b d in (b', d', wrap_err f <$> r).
Fixpoint lm_each {A} (f : A → LM unit) (l : list A) : LM unit :=
  match l with [] => mret tt | x :: l' => _ ← f x; lm_each f l' end.
(** The transaction is rolled back unless it succeeds; the bundle keeps its cache. *)
Definition lm_transaction {A} (m : LM A) : LM A := λ b d,
  match m b d with
  | (b', d', Some (Ok a)) => if decide (deferred_ok d') then (b', d', Some (Ok a)) else (b', d, Some (Err fk_error))
  | (b', _, r) => (b', d, r)
  end.

(** ** JSON values *)
(** [json.Marshal] of a raw message: compacted, with HTML characters and the line
    separators U+2028 and U+2029 escaped. *)
Fixpoint escape_html (s : string) : string :=
  match s with
  | String a (String b (String c rest) as s') =>
      if decide (a = byte_of 226 ∧ b = byte_of 128 ∧ (c = byte_of 168 ∨ c = byte_of 169))
      then u_escape (if decide (c = byte_of 168) then 8232 else 8233) +:+ escape_html rest
      else (if is_html a then u_escape (code a) else String a "") +:+ escape_html s'
  | String a s' => (if is_html a then u_escape (code a) else String a "") +:+ escape_html s'
  | "" => ""
  end.
Definition marshal_raw (r : RawMessage) : res string :=
  match Compact (default "null" r) with Some s => Ok (escape_html s) | None => Err json_error end.
(** [json.Marshal] of a [GVKDependency] or [GVKProperty] *)
Definition marshal_GVK (group kind version : string) : string :=
  print_struct true [("group", group); ("kind", kind); ("version", version)].

(** ** Queries *)
Section add.
Context `{GoRuntime}.

Definition getBundlesThatSubstitutesFor (replaces : string) : TX (list string) :=
  select (λ d, filter (λ n, n ≠ "")
    (range (filter (λ nb, ob_substitutesfor nb.2 = Some replaces) (operatorbundle d))).*1).

(** ** Updates of bundle rows *)
Definition with_substitutesfor (s : string) (b : bundle_row) : bundle_row :=
  mkBundleRow (ob_csv b) (ob_bundle b) (ob_bundlepath b) (ob_version b) (ob_skiprange b) (ob_replaces b) (ob_skips b) (Some s).
Definition with_edges (replaces skips : option string) (b : bundle_row) : bundle_row :=
  mkBundleRow (ob_csv b) (ob_bundle b) (ob_bundlepath b) (ob_version b) (ob_skiprange b)
    (from_option Some (ob_replaces b) replaces) (from_option Some (ob_skips b) skips) (ob_substitutesfor b).
Definition updateBundleReplaces (new old : string) : TX unit :=
  statement (update_bundles (λ _ b, bool_decide (ob_replaces b = Some old)) (with_edges (Some new) None)).
Definition updateBundleSkips (skips name : string) : TX unit :=
  statement (update_bundles (λ n _, bool_decide (n = name)) (with_edges None (Some skips))).
Definition updateBundleSubstitutesFor (s name : string) : TX unit :=
  statement (update_bundles (λ n _, bool_decide (n = name)) (with_substitutesfor s)).
Definition updateBundleReplacesSkips (replaces skips name : string) : TX unit :=
  statement (update_bundles (λ n _, bool_decide (n = name)) (with_edges (Some replaces) (Some skips))).

Definition appendSkips (skips : list string) (csvName : string) : TX unit :=
  r ← getBundleSkipsReplacesVersion csvName;
  let '(_, currentSkips, _) := r : string * list string * string in
  updateBundleSkips (Join (currentSkips ++ filter (λ s, s ∉ currentSkips) skips) ",") csvName.

(** ** Substitutions *)
(** The bundles that substitute for the same bundle as the one being added. *)
Fixpoint settle_substitutions (fuel : nat) (csvName version : string) (skips otherSubstitutions : list string) : LM unit :=
  match otherSubstitutions with
  | [] => mret tt
  | otherSubstitution :: rest =>
      match fuel with
      | O => running
      | S fuel' =>
          if decide (otherSubstitution = csvName) then settle_substitutions fuel' csvName version skips rest
          else
            r ← of_tx (getBundleSkipsReplacesVersion otherSubstitution);
            other ← of_res (Parse r.2);
            current ← of_res (Parse version);
            c ← of_res (BuildIdCompare other current);
            if (c <? 0)%Z then
              _ ← of_tx (updateBundleSubstitutesFor otherSubstitution csvName);
              more ← of_tx (getBundlesThatSubstitutesFor otherSubstitution);
              settle_substitutions fuel' csvName version skips (rest ++ more)
            else if (0 <? c)%Z then
              _ ← of_tx (updateBundleSubstitutesFor csvName otherSubstitution);
              _ ← of_tx (appendSkips (skips ++ [csvName]) otherSubstitution);
              more ← of_tx (getBundlesThatSubstitutesFor csvName);
              if decide (1 < length more) then
                lm_err (Errorf "programmer error: more than one substitution pointing to %s" [AStr csvName])
              else settle_substitutions fuel' csvName version skips rest
            else lm_err (ErrNew "cannot determine latest substitution because of duplicate versions")
      end
  end.
(** What the bundle substitutes for, and what that substitutes for, and so on. *)
Fixpoint follow_substitutions (fuel : nat) (substitutesFor : string) (skips : list string) : LM (list string) :=
  if decide (substitutesFor = "") then mret skips
  else match fuel with
       | O => running
       | S fuel' =>
           next ← of_tx (getBundleSubstitution substitutesFor);
           follow_substitutions fuel' next (skips ++ [substitutesFor])
       end.
(** Hand the skips on to what substitutes for the bundle.  [false]: there is more
    than one substitution, and the caller returns. *)
Fixpoint transfer_skips (fuel : nat) (csvName : string) (skips substitutesFors : list string) : LM bool :=
  match substitutesFors with
  | [] => mret true
  | first :: _ =>
      match fuel with
      | O => running
      | S fuel' =>
          _ ← of_tx (appendSkips (skips ++ [csvName]) first);
          substitutesFors ← of_tx (getBundlesThatSubstitutesFor first);
          if decide (1 < length substitutesFors) then mret false
          else transfer_skips fuel' csvName skips substitutesFors
      end
  end.
(** The substitutions of a skipped bundle. *)
Fixpoint skip_substitutions (fuel : nat) (csvName : string) (substitutesSkips : gset string) (substitutesFors : list string)
    : LM (option (gset string)) :=
  match substitutesFors with
  | [] => mret (Some substitutesSkips)
  | substitutesFor :: rest =>
      match fuel with
      | O => running
      | S fuel' =>
          if decide (substitutesFor = csvName) then skip_substitutions fuel' csvName substitutesSkips rest
          else
            more ← of_tx (getBundlesThatSubstitutesFor substitutesFor);
            if decide (1 < length more) then mret None
            else skip_substitutions fuel' csvName ({[substitutesFor]} ∪ substitutesSkips) more
      end
  end.
Fixpoint skips_of_substitutions (fuel : nat) (csvName : string) (substitutesSkips : gset string) (skips : list string)
    : LM (option (gset string)) :=
  match skips with
  | [] => mret (Some substitutesSkips)
  | skip :: skips' =>
      substitutesFors ← of_tx (getBundlesThatSubstitutesFor skip);
      if decide (1 < length substitutesFors) then mret None
      else
        r ← skip_substitutions fuel csvName ({[skip]} ∪ substitutesSkips) substitutesFors;
        match r with
        | None => mret None
        | Some substitutesSkips => skips_of_substitutions fuel csvName substitutesSkips skips'
        end
  end.
(** The newest substitution of the bundle that is replaced. *)
Fixpoint latest_substitution (fuel : nat) (replaces : string) (substitutesFors : list string) : LM (option string) :=
  match substitutesFors with
  | [] => mret (Some replaces)
  | first :: _ =>
      match fuel with
      | O => running
      | S fuel' =>
          substitutesFors ← of_tx (getBundlesThatSubstitutesFor first);
          if decide (1 < length substitutesFors) then mret None
          else latest_substitution fuel' first substitutesFors
      end
  end.

(** The last steps: the skips, the replaces, and the row of the bundle. *)
Definition rewrite_edges (fuel : nat) (csvName replaces : string) (skips : list string) : LM unit :=
  skips ← (if decide (skips = []) then mret (Some [])
           else r ← skips_of_substitutions fuel csvName ∅ skips; mret (range_set <$> r));
  match skips with
  | None => mret tt
  | Some skips =>
      replaces ← (if decide (replaces = "") then mret (Some replaces)
                  else substitutesFors ← of_tx (getBundlesThatSubstitutesFor replaces);
                       latest_substitution fuel replaces substitutesFors);
      match replaces with
      | None => mret tt
      | Some replaces => of_tx (updateBundleReplacesSkips replaces (Join skips ",") csvName)
      end
  end.
Definition addSubstitutesFor (fuel : nat) : LM unit :=
  csvName ← of_bm (get rb_Name);
  replaces ← of_bm Bundle_Replaces';
  skips ← of_bm Bundle_Skips';
  version ← of_bm Bundle_Version;
  substitutesFor ← of_bm Bundle_SubstitutesFor;
  _ ← (if decide (substitutesFor = "") then mret tt
       else _ ← of_tx (updateBundleReplaces csvName substitutesFor);
            otherSubstitutions ← of_tx (getBundlesThatSubstitutesFor substitutesFor);
            settle_substitutions fuel csvName version skips otherSubstitutions);
  substitutesFor ← of_tx (getBundleSubstitution csvName);
  skips ← follow_substitutions fuel substitutesFor skips;
  substitutesFors ← of_tx (getBundlesThatSubstitutesFor csvName);
  if decide (1 < length substitutesFors) then mret tt
  else
    transferred ← transfer_skips fuel csvName skips substitutesFors;
    if (transferred : bool) then rewrite_edges fuel csvName replaces skips else mret tt.

(** ** Dependencies, properties and APIs *)
Definition addDep (typ : string) (value : option string) (name version image : string) : TX unit :=
  statement (insert_dependency (mkPropertyRow typ value name (sqlString version) (sqlString image))).
Definition addDependencies : LM unit :=
  bundleVersion ← of_bm Bundle_Version;
  name ← of_bm (get rb_Name);
  image ← of_bm (get rb_BundleImage);
  deps ← of_bm (get rb_Dependencies);
  _ ← lm_each (λ dep, of_tx (addDep (dep_Type dep) (dep_Value dep) name bundleVersion image)) deps;
  requiredApis ← of_bm RequiredAPIs;
  lm_each (λ api, of_tx (addDep GVKType (Some (marshal_GVK (ak_Group api) (ak_Kind api) (ak_Version api))) name bundleVersion image))
    (range_set requiredApis).

Definition marshal_property (prop : registry_Property) : res (string * string) :=
  value ← marshal_raw (rp_Value prop); Ok (rp_Type prop, value).
(** The properties of the CSV's annotation. *)
Definition decode_registry_Property (p : registry_Property) (v : json) : option registry_Property :=
  (λ q, mkRProp (p_Type q) (p_Value q)) <$> decode_Property (mkProp (rp_Type p) (rp_Value p)) v.
Definition annotated_properties (csv : ClusterServiceVersion) : res (list registry_Property) :=
  match csv_Annotations csv !! "olm.properties" with
  | None => Ok []
  | Some v => unmarshal_with (decode_slice decode_registry_Property (mkRProp "" None) []) v
  end.
Definition known_type_fields (typ : string) : option (list string) :=
  if decide (typ = LabelType) then Some ["label"]
  else if decide (typ = PackageType) then Some ["packageName"; "version"]
  else if decide (typ = GVKType) then Some ["group"; "kind"; "version"]
  else None.
Definition annotated_property (prop : registry_Property) : res (string * string) :=
  value ← marshal_raw (rp_Value prop);
  match known_type_fields (rp_Type prop) with
  | Some fields =>
      match unmarshal_struct fields (rp_Value prop) with
      | Some _ => Ok (rp_Type prop, value)
      | None => Err json_error
      end
  | None => Ok (rp_Type prop, value)
  end.
(** A failure to read the CSV is not returned: no property is added. *)
Definition csv_or_none : BM (option ClusterServiceVersion) := λ b,
  match Bundle_ClusterServiceVersion b with
  | (b', Ok csv) => (b', Ok csv)
  | (b', Err _) => (b', Ok None)
  | (b', Panic) => (b', Panic)
  end.
Definition addBundleProperties : LM unit :=
  bundleVersion ← of_bm Bundle_Version;
  name ← of_bm (get rb_Name);
  image ← of_bm (get rb_BundleImage);
  props ← of_bm (get rb_Properties);
  declared ← of_res (mapR marshal_property props);
  providedApis ← of_bm ProvidedAPIs;
  let provided := (λ api, (GVKType, marshal_GVK (ak_Group api) (ak_Kind api) (ak_Version api))) <$> elements providedApis in
  csv ← of_bm csv_or_none;
  match csv with
  | None => mret tt
  | Some csv =>
      annotated ← of_res (annotated_properties csv);
      annotated ← of_res (mapR annotated_property annotated);
      dep ← of_tx (deprecated name);
      let properties := list_to_set (declared ++ provided ++ annotated ++ (if (dep : bool) then [(DeprecatedType, "{}")] else [])) : gset (string * string) in
      lm_each (λ prop, of_tx (addProperty prop.1 prop.2 name bundleVersion image)) (range_set properties)
  end.

Definition addAPI (api : APIKey) : TX unit :=
  statement (insert_api (ak_Group api, ak_Version api, ak_Kind api) (ak_Plural api)).
Definition api_of (api : APIKey) (name version image : string) : api_row :=
  mkApiRow (ak_Group api, ak_Version api, ak_Kind api) name (sqlString version) (sqlString image).
Definition addAPIs : LM unit :=
  name ← of_bm (get rb_Name);
  image ← of_bm (get rb_BundleImage);
  if decide (name = "") then lm_err (ErrNew "cannot add apis for bundle with no name: %#v")
  else
    providedApis ← of_bm ProvidedAPIs;
    requiredApis ← of_bm RequiredAPIs;
    bundleVersion ← of_bm Bundle_Version;
    _ ← lm_each (λ api, _ ← of_tx (addAPI api); of_tx (statement (insert_provider (api_of api name bundleVersion image))))
          (range_set providedApis);
    lm_each (λ api, _ ← of_tx (addAPI api); of_tx (statement (insert_requirer (api_of api name bundleVersion image))))
      (range_set requiredApis).

(** ** Bundles *)
Section loader.
(** The [sqlLoader]: whether alpha features are enabled, and how Kubernetes decodes
    the install strategy of a CSV. *)
Variable enableAlpha : bool.
Variable decode_install : RawMessage → res install_strategy.

Definition alpha_only : error :=
  ErrNew "SubstitutesFor is an alpha-only feature. You must enable alpha features with the flag --enable-alpha in order to use this feature.".
(** The row of a bundle, from its bytes and its CSV. *)
Definition bundle_row_of (csvBytes bundleBytes bundleImage version skiprange replaces : string) (skips : list string)
    (substitutesFor : string) : bundle_row :=
  mkBundleRow (Some csvBytes) (Some bundleBytes) (Some bundleImage) (Some version) (Some skiprange) (Some replaces)
    (Some (Join skips ",")) (Some substitutesFor).
(** The rows of the bundle, its images, dependencies and properties. *)
Definition insert_rows : LM unit :=
  b ← of_bm (get id);
  s ← of_res (Serialize b);
  let '(csvName, bundleImage, csvBytes, bundleBytes, _) := s : string * string * string * string * option string in
  if decide (csvName = "") then lm_err (ErrNew "csv name not found")
  else
    version ← of_bm Bundle_Version;
    skiprange ← of_bm Bundle_SkipRange;
    replaces ← of_bm Bundle_Replaces';
    skips ← of_bm Bundle_Skips';
    substitutesFor ← of_bm Bundle_SubstitutesFor;
    if decide (substitutesFor ≠ "" ∧ enableAlpha = false) then lm_err alpha_only
    else
      let row := bundle_row_of csvBytes bundleBytes bundleImage version skiprange replaces skips substitutesFor in
      _ ← lm_wrap (λ e, Errorf "failed to add bundle %q: %s" [AStr csvName; AErr e]) (of_tx (statement (insert_bundle csvName row)));
      imgs ← of_bm (Images decode_install);
      _ ← lm_each (λ img, lm_wrap (λ e, Errorf "failed to add related images %q for bundle %q: %s" [AStr img; AStr csvName; AErr e])
                            (of_tx (statement (insert_image img csvName)))) (range_set imgs);
      _ ← addDependencies;
      addBundleProperties.
Definition addOperatorBundle (fuel : nat) : LM unit :=
  _ ← insert_rows;
  _ ← (if enableAlpha then addSubstitutesFor fuel else mret tt);
  addAPIs.
Definition AddOperatorBundle (fuel : nat) : LM unit := lm_transaction (addOperatorBundle fuel).

Definition AddBundleSemver (fuel : nat) (graph : graph_Package) : LM unit :=
  _ ← AddOperatorBundle fuel;
  of_tx (AddPackageChannelsFromGraph fuel graph).
Definition AddBundlePackageChannels (fuel : nat) (manifest : PackageManifest) : LM unit :=
  lm_transaction (
    _ ← addOperatorBundle fuel;
    _ ← of_tx (rmPackage (pm_PackageName manifest));
    of_tx (outcome (addPackageChannels manifest))).
End loader.
End add.
