(* ===== verification/SqlAddInv.v ===== *)
(** * Adding bundles keeps the index consistent

    The invariant of the file SqlInv for the operations of the file SqlAdd, and for
    runs of all the operations of the loader. *)
From S2P Require Import Prelude Semver Json JsonCompact Property JsonTotal Model Declcfg DeclcfgRoundtrip DeclcfgWrite DeclcfgLoad RegistryTypes RegistryBundle Graph Sql SqlLoad SqlInv SqlAdd.
From stdpp Require Import options.

(** ** Statements *)
Lemma keeps_insert_bundle n b : keeps (statement (insert_bundle n b)).
Proof.
  apply keeps_statement. intros d d' Hd. unfold insert_bundle. case_decide as Hn; [done|]. intros [= <-].
  apply eq_None_not_Some in Hn. destruct Hd as [Hd Hh He Hp Hm Ha].
  assert (∀ x, is_Some (operatorbundle d !! x) → is_Some (<[n:=b]> (operatorbundle d) !! x)) as Hmono.
  { intros x [y Hy]. rewrite lookup_insert_ne by congruence. eauto. }
  split; simpl; [done|eauto|done| |eauto|done].
  intros r Hr. eapply ref_ok_mono; [by apply Hp|]. intros y Hy. exists y. rewrite lookup_insert_ne by congruence. done.
Qed.
Lemma keeps_insert_image i n : keeps (statement (insert_image i n)).
Proof.
  apply keeps_statement. intros d d' Hd. unfold insert_image. case_decide as Hn; [|done]. intros [= <-].
  destruct Hd as [Hd Hh He Hp Hm Ha]. split; simpl; [done..| |done].
  intros i' n' [?|[= _ ->]%list_elem_of_singleton]%elem_of_app; eauto.
Qed.
Lemma keeps_insert_dependency r : keeps (statement (insert_dependency r)).
Proof.
  apply keeps_statement. intros d d' Hd. unfold insert_dependency. destruct (ref_ok _ _ _ _) eqn:E; [|done]. intros [= <-].
  destruct Hd as [Hd Hh He Hp Hm Ha]. split; simpl; [done..| |done|done]. intros r' Hr.
  rewrite !elem_of_app, list_elem_of_singleton in Hr. destruct Hr as [Hr|[Hr| ->]]; [| |done]; apply Hp, elem_of_app; tauto.
Qed.
Lemma keeps_insert_api g p : keeps (statement (insert_api g p)).
Proof.
  apply keeps_statement. intros d d' Hd [= <-]. apply set_apis_ok; [done|]. intros r Hr. simpl.
  destruct (fk_api d Hd r Hr) as [x Hx]. destruct (api (apis d) !! g) eqn:E; [eauto|].
  rewrite lookup_insert_ne by congruence. eauto.
Qed.
Lemma keeps_insert_provider r : keeps (statement (insert_provider r)).
Proof.
  apply keeps_statement. intros d d' Hd. unfold insert_provider. case_decide; [|done]. intros [= <-].
  apply set_apis_ok; [done|]. intros r' Hr. simpl in *. rewrite !elem_of_app, list_elem_of_singleton in Hr.
  destruct Hr as [[Hr| ->]|Hr]; [|done|]; apply (fk_api d Hd), elem_of_app; tauto.
Qed.
Lemma keeps_insert_requirer r : keeps (statement (insert_requirer r)).
Proof.
  apply keeps_statement. intros d d' Hd. unfold insert_requirer. case_decide; [|done]. intros [= <-].
  apply set_apis_ok; [done|]. intros r' Hr. simpl in *. rewrite !elem_of_app, list_elem_of_singleton in Hr.
  destruct Hr as [Hr|[Hr| ->]]; [| |done]; apply (fk_api d Hd), elem_of_app; tauto.
Qed.
Lemma keeps_updateBundleReplaces x y : keeps (updateBundleReplaces x y).
Proof. by apply keeps_update_bundles. Qed.
Lemma keeps_updateBundleSkips x y : keeps (updateBundleSkips x y).
Proof. by apply keeps_update_bundles. Qed.
Lemma keeps_updateBundleSubstitutesFor x y : keeps (updateBundleSubstitutesFor x y).
Proof. by apply keeps_update_bundles. Qed.
Lemma keeps_updateBundleReplacesSkips x y z : keeps (updateBundleReplacesSkips x y z).
Proof. by apply keeps_update_bundles. Qed.
#[export] Hint Resolve keeps_insert_bundle keeps_insert_image keeps_insert_dependency keeps_insert_api keeps_insert_provider
  keeps_insert_requirer keeps_updateBundleReplaces keeps_updateBundleSkips keeps_updateBundleSubstitutesFor
  keeps_updateBundleReplacesSkips : index.

(** ** Computations on a bundle and the index *)
Definition lpreserves (I : db → Prop) {A} (m : LM A) : Prop := ∀ b d, I d → I (m b d).1.2.
Abbreviation lkeeps := (lpreserves fk_ok).

Section lpreserves.
Variable I : db → Prop.
Lemma lkeeps_ret {A} (a : A) : lpreserves I (mret a).
Proof. by intros b d. Qed.
Lemma lkeeps_err {A} e : lpreserves I (lm_err (A := A) e).
Proof. by intros b d. Qed.
Lemma lkeeps_running {A} : lpreserves I (running (A := A)).
Proof. by intros b d. Qed.
Lemma lkeeps_res {A} (r : res A) : lpreserves I (of_res r).
Proof. by intros b d. Qed.
Lemma lkeeps_bm {A} (m : BM A) : lpreserves I (of_bm m).
Proof. intros b d Hd. unfold of_bm. by destruct (m b). Qed.
Lemma lkeeps_tx {A} (m : TX A) : preserves I m → lpreserves I (of_tx m).
Proof. intros Hm b d Hd. specialize (Hm d Hd). unfold of_tx. by destruct (m d). Qed.
Lemma lkeeps_bind {A B} (m : LM A) (f : A → LM B) : lpreserves I m → (∀ a, lpreserves I (f a)) → lpreserves I (m ≫= f).
Proof.
  intros Hm Hf b d Hd. specialize (Hm b d Hd). unfold mbind, LM_bind.
  destruct (m b d) as [[b' d'] [[a| |]|]]; [|done..]. by apply Hf.
Qed.
Lemma lkeeps_wrap {A} f (m : LM A) : lpreserves I m → lpreserves I (lm_wrap f m).
Proof. intros Hm b d Hd. specialize (Hm b d Hd). unfold lm_wrap. by destruct (m b d) as [[b' d'] r]. Qed.
Lemma lkeeps_each {A} (f : A → LM unit) l : (∀ x, lpreserves I (f x)) → lpreserves I (lm_each f l).
Proof. intros Hf. induction l; simpl; [apply lkeeps_ret|]. by apply lkeeps_bind. Qed.
End lpreserves.
Lemma lkeeps_transaction {A} (m : LM A) : lkeeps m → lpreserves index_ok (lm_transaction m).
Proof.
  intros Hm b d Hd. specialize (Hm b d (proj1 Hd)). unfold lm_transaction.
  destruct (m b d) as [[b' d'] [[a| |]|]]; [case_decide|..]; done.
Qed.
#[export] Hint Resolve lkeeps_ret lkeeps_err lkeeps_running lkeeps_res lkeeps_bm lkeeps_tx lkeeps_bind lkeeps_wrap lkeeps_each : index.
Ltac lkeep :=
  repeat first
    [ progress intros
    | match goal with |- lpreserves _ (match ?x with _ => _ end) => destruct x end
    | match goal with |- lpreserves _ (_ ≫= _) => apply lkeeps_bind end
    | match goal with |- lpreserves _ (of_tx _) => apply lkeeps_tx end
    | match goal with |- lpreserves _ (lm_each _ _) => apply lkeeps_each end
    | match goal with |- lpreserves _ (lm_wrap _ _) => apply lkeeps_wrap end
    | progress cbv beta zeta
    | solve [eauto 4 with index] ].

Section add.
Context `{GoRuntime}.

Lemma keeps_getBundlesThatSubstitutesFor s : keeps (getBundlesThatSubstitutesFor s).
Proof. apply keeps_select. Qed.
Lemma keeps_getBundleSubstitution s : keeps (getBundleSubstitution s).
Proof. apply keeps_select. Qed.
Lemma keeps_appendSkips l n : keeps (appendSkips l n).
Proof. unfold appendSkips. keep. Qed.
Hint Resolve keeps_getBundlesThatSubstitutesFor keeps_getBundleSubstitution keeps_appendSkips : index.
Lemma lkeeps_settle fuel c v s l : lkeeps (settle_substitutions fuel c v s l).
Proof. revert l. induction fuel; intros []; cbn [settle_substitutions]; lkeep. Qed.
Lemma lkeeps_follow fuel s l : lkeeps (follow_substitutions fuel s l).
Proof. revert s l. induction fuel; intros; cbn [follow_substitutions]; lkeep. Qed.
Lemma lkeeps_transfer fuel c s l : lkeeps (transfer_skips fuel c s l).
Proof. revert l. induction fuel; intros []; cbn [transfer_skips]; lkeep. Qed.
Lemma lkeeps_skip fuel c s l : lkeeps (skip_substitutions fuel c s l).
Proof. revert s l. induction fuel; intros s []; cbn [skip_substitutions]; lkeep. Qed.
Hint Resolve lkeeps_skip : index.
Lemma lkeeps_skips fuel c s l : lkeeps (skips_of_substitutions fuel c s l).
Proof. revert s. induction l; intros; cbn [skips_of_substitutions]; lkeep. Qed.
Lemma lkeeps_latest fuel r l : lkeeps (latest_substitution fuel r l).
Proof. revert r l. induction fuel; intros r []; cbn [latest_substitution]; lkeep. Qed.
Hint Resolve lkeeps_settle lkeeps_follow lkeeps_transfer lkeeps_skips lkeeps_latest : index.
Lemma lkeeps_addSubstitutesFor fuel : lkeeps (addSubstitutesFor fuel).
Proof. unfold addSubstitutesFor, rewrite_edges. lkeep. Qed.
Lemma lkeeps_addDependencies : lkeeps addDependencies.
Proof. unfold addDependencies, addDep. lkeep. Qed.
Lemma lkeeps_addBundleProperties : lkeeps addBundleProperties.
Proof. unfold addBundleProperties. lkeep. Qed.
Lemma lkeeps_addAPIs : lkeeps addAPIs.
Proof. unfold addAPIs, addAPI. lkeep. Qed.
Hint Resolve lkeeps_addSubstitutesFor lkeeps_addDependencies lkeeps_addBundleProperties lkeeps_addAPIs : index.
Lemma lkeeps_addOperatorBundle alpha di fuel : lkeeps (addOperatorBundle alpha di fuel).
Proof. unfold addOperatorBundle, insert_rows. lkeep. Qed.
Hint Resolve lkeeps_addOperatorBundle : index.

Lemma index_AddOperatorBundle alpha di fuel : lpreserves index_ok (AddOperatorBundle alpha di fuel).
Proof. apply lkeeps_transaction. auto with index. Qed.
Lemma index_AddBundleSemver alpha di fuel g : lpreserves index_ok (AddBundleSemver alpha di fuel g).
Proof. apply lkeeps_bind; [apply index_AddOperatorBundle|]. intros _. apply lkeeps_tx. auto with index. Qed.
Lemma index_AddBundlePackageChannels alpha di fuel m : lpreserves index_ok (AddBundlePackageChannels alpha di fuel m).
Proof. apply lkeeps_transaction. lkeep. Qed.
Lemma index_AddPackageChannels m : preserves index_ok (AddPackageChannels m).
Proof. apply keeps_transaction. keep. Qed.

(** ** Runs *)
Section runs.
Variables (enableAlpha : bool) (decode_install : RawMessage → res install_strategy).

Inductive index_op : Type :=
  | OpAddOperatorBundle (fuel : nat) (b : registry_Bundle)
  | OpAddBundleSemver (fuel : nat) (g : graph_Package) (b : registry_Bundle)
  | OpAddBundlePackageChannels (fuel : nat) (m : PackageManifest) (b : registry_Bundle)
  | OpAddPackageChannels (m : PackageManifest)
  | OpAddPackageChannelsFromGraph (fuel : nat) (g : graph_Package)
  | OpClearNonHeadBundles
  | OpRemovePackage (name : string)
  | OpRemovePackages (names : string)
  | OpDeprecateBundle (path : string)
  | OpDeprecate (paths : list string)
  | OpRemoveStrandedBundles.
(** The index after an operation, whatever the outcome. *)
Definition run_op (op : index_op) (d : db) : db :=
  match op with
  | OpAddOperatorBundle fuel b => (AddOperatorBundle enableAlpha decode_install fuel b d).1.2
  | OpAddBundleSemver fuel g b => (AddBundleSemver enableAlpha decode_install fuel g b d).1.2
  | OpAddBundlePackageChannels fuel m b => (AddBundlePackageChannels enableAlpha decode_install fuel m b d).1.2
  | OpAddPackageChannels m => (AddPackageChannels m d).1
  | OpAddPackageChannelsFromGraph fuel g => (AddPackageChannelsFromGraph fuel g d).1
  | OpClearNonHeadBundles => (ClearNonHeadBundles d).1
  | OpRemovePackage p => (RemovePackage p d).1
  | OpRemovePackages s => (PackageRemover_Remove s d).1
  | OpDeprecateBundle p => (DeprecateBundle p d).1
  | OpDeprecate l => (Deprecate l d).1
  | OpRemoveStrandedBundles => (RemoveStrandedBundles d).1
  end.
Inductive index_step : db → db → Prop :=
  | index_run op d : index_step d (run_op op d).

End runs.
End add.
#[export] Hint Resolve index_AddOperatorBundle index_AddBundleSemver index_AddBundlePackageChannels index_AddPackageChannels : index.

