(* ===== verification/SqlAddSpec.v ===== *)
(** * What adding a bundle does to the index

    [AddOperatorBundle] of [pkg/sqlite/load.go], without the alpha features: the
    rows it adds, and that nothing else changes; and the chain of substitutions it
    follows with them. *)
From S2P Require Import Prelude Semver Json JsonCompact Property JsonTotal Model Declcfg DeclcfgRoundtrip DeclcfgWrite DeclcfgLoad RegistryTypes RegistryBundle RegistryBundleSpec Graph Sql SqlLoad SqlInv SqlAdd.
From stdpp Require Import options.

(** ** Inverting successful computations *)
Lemma lm_bind_Ok {A B} (f : A → LM B) (m : LM A) b d b' d' y :
  (m ≫= f) b d = (b', d', Some (Ok y)) ↔ ∃ b1 d1 x, m b d = (b1, d1, Some (Ok x)) ∧ f x b1 d1 = (b', d', Some (Ok y)).
Proof. unfold mbind, LM_bind. destruct (m b d) as [[b1 d1] [[x|e|]|]]; split; try naive_solver. Qed.
Lemma of_bm_Ok {A} (m : BM A) b d b' d' y : of_bm m b d = (b', d', Some (Ok y)) ↔ m b = (b', Ok y) ∧ d' = d.
Proof. unfold of_bm. destruct (m b). naive_solver. Qed.
Lemma of_tx_Ok {A} (m : TX A) b d b' d' y : of_tx m b d = (b', d', Some (Ok y)) ↔ m d = (d', Ok y) ∧ b' = b.
Proof. unfold of_tx. destruct (m d). naive_solver. Qed.
Lemma of_res_Ok {A} (r : res A) b d b' d' y : of_res r b d = (b', d', Some (Ok y)) ↔ r = Ok y ∧ b' = b ∧ d' = d.
Proof. unfold of_res. naive_solver. Qed.
Lemma lm_ret_Ok {A} (a : A) b d b' d' y : (mret a : LM A) b d = (b', d', Some (Ok y)) ↔ y = a ∧ b' = b ∧ d' = d.
Proof. unfold mret, LM_ret. naive_solver. Qed.
Lemma lm_wrap_Ok {A} f (m : LM A) b d b' d' y : lm_wrap f m b d = (b', d', Some (Ok y)) ↔ m b d = (b', d', Some (Ok y)).
Proof. unfold lm_wrap. destruct (m b d) as [[b1 d1] [[x|e|]|]]; simpl; naive_solver. Qed.
Lemma lm_each_tx {A} (f : A → TX unit) l b d b' d' u :
  lm_each (λ x, of_tx (f x)) l b d = (b', d', Some (Ok u)) ↔ tx_each f l d = (d', Ok u) ∧ b' = b.
Proof.
  revert d. induction l as [|x l IH]; intros d; simpl; [unfold mret, LM_ret, TX_ret; naive_solver|].
  rewrite lm_bind_Ok. unfold mbind, TX_bind. setoid_rewrite of_tx_Ok. split.
  - intros (b1 & d1 & ? & [-> ->] & H2). by apply IH in H2.
  - intros [E ->]. destruct (f x d) as [d1 [[]|e|]] eqn:Ef; [|done..]. exists b, d1, tt. by rewrite IH.
Qed.
Lemma lm_each_wrapped {A} (g : A → error → error) (f : A → TX unit) l b d b' d' u :
  lm_each (λ x, lm_wrap (g x) (of_tx (f x))) l b d = (b', d', Some (Ok u)) ↔ tx_each f l d = (d', Ok u) ∧ b' = b.
Proof.
  rewrite <- lm_each_tx. revert b d. induction l as [|x l IH]; intros b d; cbn [lm_each]; [done|].
  rewrite !lm_bind_Ok. setoid_rewrite lm_wrap_Ok. setoid_rewrite IH. done.
Qed.
Ltac inv_lm :=
  repeat match goal with
  | H : (_ ≫= _) _ _ = (_, _, Some (Ok _)) |- _ => apply lm_bind_Ok in H as (? & ? & ? & ? & ?)
  | H : of_bm _ _ _ = _ |- _ => apply (proj1 (of_bm_Ok _ _ _ _ _ _)) in H as [? ?]
  | H : of_tx _ _ _ = _ |- _ => apply (proj1 (of_tx_Ok _ _ _ _ _ _)) in H as [? ?]
  | H : of_res _ _ _ = _ |- _ => apply (proj1 (of_res_Ok _ _ _ _ _ _)) in H as (? & ? & ?)
  | H : lm_wrap _ _ _ _ = _ |- _ => apply (proj1 (lm_wrap_Ok _ _ _ _ _ _ _)) in H
  | H : lm_err _ _ _ = (_, _, Some (Ok _)) |- _ => discriminate H
  | H : mret _ _ _ = (_, _, Some (Ok _)) |- _ => apply (proj1 (lm_ret_Ok _ _ _ _ _ _)) in H as (? & ? & ?)
  | H : running _ _ = (_, _, Some (Ok _)) |- _ => discriminate H
  | H : lm_each (λ x, of_tx _) _ _ _ = _ |- _ => apply (proj1 (lm_each_tx _ _ _ _ _ _ _)) in H as [? ?]
  end.

(** The next step reads the bundle. *)
Ltac lm_read E b x H :=
  let d := fresh "d" in let H' := fresh in
  apply lm_bind_Ok in E as (b & d & x & H' & E); apply of_bm_Ok in H' as [H ->].

(** ** Reading a bundle whose cache is filled *)
Definition settled (b : registry_Bundle) : Prop := rb_cacheStale b = false.
(** Methods that leave such a bundle as it is. *)
Definition stable {A} (m : BM A) : Prop := ∀ b, settled b → (m b).1 = b.
Create HintDb stable discriminated.
Lemma stable_lift {A} (r : res A) : stable (lift r).
Proof. by intros b. Qed.
Lemma stable_get {A} (f : registry_Bundle → A) : stable (get f).
Proof. by intros b. Qed.
Lemma stable_wrap {A} f (m : BM A) : stable m → stable (wrap_bm f m).
Proof. intros Hm b Hb. specialize (Hm b Hb). unfold wrap_bm. by destruct (m b). Qed.
Lemma stable_bind {A B} (m : BM A) (f : A → BM B) : stable m → (∀ a, stable (f a)) → stable (m ≫= f).
Proof.
  intros Hm Hf b Hb. specialize (Hm b Hb). unfold mbind, BM_bind. destruct (m b) as [b1 [a|e|]]; simpl in *; subst; [by apply Hf|done..].
Qed.
Lemma stable_cache : stable cache.
Proof. intros b Hb. by rewrite cache_fresh. Qed.
#[export] Hint Resolve stable_lift stable_get stable_wrap stable_bind stable_cache : stable.
Lemma stable_csv : stable Bundle_ClusterServiceVersion.
Proof. unfold Bundle_ClusterServiceVersion. auto with stable. Qed.
#[export] Hint Resolve stable_csv : stable.
Lemma stable_the_csv : stable the_csv.
Proof. unfold the_csv. auto with stable. Qed.
#[export] Hint Resolve stable_the_csv : stable.
Lemma stable_ProvidedAPIs : stable ProvidedAPIs.
Proof. unfold ProvidedAPIs, CustomResourceDefinitions. auto 20 with stable. Qed.
Lemma stable_RequiredAPIs : stable RequiredAPIs.
Proof. unfold RequiredAPIs. auto 20 with stable. Qed.
Lemma stable_Images di : stable (Images di).
Proof. unfold Images. repeat (apply stable_bind; [auto with stable|]; intros). repeat case_match; auto 20 with stable. Qed.
Lemma stable_Replaces : stable Bundle_Replaces'.
Proof. unfold Bundle_Replaces'. auto with stable. Qed.
Lemma stable_Skips : stable Bundle_Skips'.
Proof. unfold Bundle_Skips'. auto with stable. Qed.
Lemma stable_SkipRange : stable Bundle_SkipRange.
Proof. unfold Bundle_SkipRange. auto with stable. Qed.
Lemma stable_SubstitutesFor : stable Bundle_SubstitutesFor.
Proof. unfold Bundle_SubstitutesFor. auto with stable. Qed.
#[export] Hint Resolve stable_ProvidedAPIs stable_RequiredAPIs stable_Images stable_Replaces stable_Skips stable_SkipRange
  stable_SubstitutesFor : stable.

Lemma cache_settles b b' : cache b = (b', Ok tt) → settled b' ∧ rb_version b' = rb_version b.
Proof.
  assert (∀ l b0, rb_version (cache_crds b0 l).1 = rb_version b0) as Hc.
  { induction l as [|o l IH]; intros b0; simpl; [done|].
    destruct (cache_crd_spec b0 o) as [[_ E]|[_ [e E]]]; rewrite E; [|done]. by rewrite IH. }
  intros E. unfold cache, settled in *. destruct (rb_cacheStale b) eqn:Es; simpl in E; [|by simplify_eq].
  repeat case_match; simplify_eq; simpl; split; try done;
    match goal with H : cache_crds ?b0 ?l = _ |- _ => pose proof (Hc l b0) as Hv; rewrite H in Hv; exact Hv end.
Qed.
Lemma set_version_id b : set_version b (rb_version b) = b.
Proof. by destruct b. Qed.

(** The version once read is read again. *)
Lemma Version_again b b1 v b2 :
  Bundle_Version b = (b1, Ok v) → cache b1 = (b2, Ok tt) → settled b2 ∧ Bundle_Version b2 = (b2, Ok v).
Proof.
  unfold Bundle_Version at 1. intros Hv Hc. pose proof (cache_settles _ _ Hc) as [Hs Hver]. split; [done|].
  case_decide as Hne.
  - simplify_eq. unfold Bundle_Version. by rewrite Hver, decide_True.
  - destruct (cache b) as [b' [[]|e|]] eqn:E; simplify_eq.
    pose proof (cache_settles _ _ E) as [Hs' Hver'].
    destruct (rb_csv b') as [c|] eqn:Ecsv; [destruct (GetVersion c) as [w|e|] eqn:Eg|]; simplify_eq.
    + rewrite cache_fresh in Hc by exact Hs'. simplify_eq. unfold Bundle_Version. simpl.
      case_decide as Hw; [done|]. subst v. rewrite cache_fresh by exact Hs'. simpl. by rewrite Ecsv, Eg.
    + rewrite cache_fresh in Hc by exact Hs'. simplify_eq. unfold Bundle_Version. rewrite Hver', Hne, decide_False by naive_solver.
      by rewrite cache_fresh, Ecsv, Hver', Hne.
Qed.

(** ** Adding many rows *)
Lemma tx_each_statement {A} (u : A → db → res db) (g : A → db → db) l d d' :
  (∀ x d d1, u x d = Ok d1 → d1 = g x d) →
  tx_each (λ x, statement (u x)) l d = (d', Ok tt) → d' = foldl (λ d x, g x d) d l.
Proof.
  intros Hu. revert d. induction l as [|x l IH]; intros d; simpl; [by intros [= <-]|].
  unfold mbind, TX_bind, statement. destruct (u x d) as [d1|e|] eqn:E; [|done..]. intros E'. rewrite <- (Hu _ _ _ E). by apply IH.
Qed.
Definition add_images (d : db) (l : list (string * string)) : db := set_images d (related_image d ++ l).
Definition add_properties (d : db) (l : list property_row) : db := set_db_properties d (properties d ++ l).
Definition add_dependencies (d : db) (l : list property_row) : db := set_dependencies d (dependencies d ++ l).
Lemma foldl_images {A} (f : A → string * string) l d : foldl (λ d x, add_images d [f x]) d l = add_images d (f <$> l).
Proof.
  revert d. induction l as [|x l IH]; intros d; simpl; [unfold add_images, set_images; rewrite app_nil_r; by destruct d|].
  rewrite IH. unfold add_images, set_images. simpl. by rewrite <- app_assoc.
Qed.
Lemma foldl_properties {A} (f : A → property_row) l d : foldl (λ d x, add_properties d [f x]) d l = add_properties d (f <$> l).
Proof.
  revert d. induction l as [|x l IH]; intros d; simpl; [unfold add_properties, set_db_properties; rewrite app_nil_r; by destruct d|].
  rewrite IH. unfold add_properties, set_db_properties. simpl. by rewrite <- app_assoc.
Qed.
Lemma foldl_dependencies {A} (f : A → property_row) l d : foldl (λ d x, add_dependencies d [f x]) d l = add_dependencies d (f <$> l).
Proof.
  revert d. induction l as [|x l IH]; intros d; simpl; [unfold add_dependencies, set_dependencies; rewrite app_nil_r; by destruct d|].
  rewrite IH. unfold add_dependencies, set_dependencies. simpl. by rewrite <- app_assoc.
Qed.

Lemma each_dependencies {A} (f : A → property_row) l d d' u :
  tx_each (λ x, statement (insert_dependency (f x))) l d = (d', Ok u) → d' = add_dependencies d (f <$> l).
Proof.
  destruct u. rewrite <- foldl_dependencies. apply tx_each_statement. intros x d0 d1. unfold insert_dependency.
  destruct (ref_ok _ _ _ _); [by intros [= <-]|done].
Qed.
Lemma each_properties {A} (f : A → property_row) l d d' u :
  tx_each (λ x, statement (insert_property (f x))) l d = (d', Ok u) → d' = add_properties d (f <$> l).
Proof.
  destruct u. rewrite <- foldl_properties. apply tx_each_statement. intros x d0 d1. unfold insert_property.
  destruct (ref_ok _ _ _ _); [by intros [= <-]|done].
Qed.
Lemma each_images name l d d' u :
  tx_each (λ i, statement (insert_image i name)) l d = (d', Ok u) → d' = add_images d ((λ i, (i, name)) <$> l).
Proof.
  destruct u. rewrite <- foldl_images. apply tx_each_statement. intros x d0 d1. unfold insert_image.
  case_decide; [by intros [= <-]|done].
Qed.

(** The APIs of some keys are added to a table of APIs: those it has stay. *)
Definition key_gvk (k : APIKey) : gvk := (ak_Group k, ak_Version k, ak_Kind k).
Definition api_extends (m m' : gmap gvk string) (l : list APIKey) : Prop :=
  m ⊆ m' ∧ dom m' = dom m ∪ list_to_set (key_gvk <$> l).
Lemma api_extends_refl m : api_extends m m [].
Proof. split; [done|]. set_solver. Qed.
Lemma api_extends_trans m1 m2 m3 l k : api_extends m1 m2 l → api_extends m2 m3 k → api_extends m1 m3 (l ++ k).
Proof. intros [S1 D1] [S2 D2]. split; [by etrans|]. rewrite D2, D1, fmap_app, list_to_set_app_L. by rewrite assoc_L by apply _. Qed.
Lemma insert_api_extends g p d d' k :
  insert_api g p d = Ok d' → key_gvk k = g → ∃ m, d' = set_apis d (mkApis m (api_provider (apis d)) (api_requirer (apis d))) ∧
    api_extends (api (apis d)) m [k].
Proof.
  intros [= <-] <-. eexists. split; [reflexivity|]. destruct (api (apis d) !! key_gvk k) as [x|] eqn:E.
  - split; [done|]. apply elem_of_dom_2 in E. set_solver.
  - split; [by apply insert_subseteq|]. rewrite dom_insert_L. set_solver.
Qed.

Section apis.
Variable row : APIKey → api_row.
Lemma each_provider l b d b' d' :
  lm_each (λ k, _ ← of_tx (addAPI k); of_tx (statement (insert_provider (row k)))) l b d = (b', d', Some (Ok tt)) →
  b' = b ∧ ∃ m, d' = set_apis d (mkApis m (api_provider (apis d) ++ (row <$> l)) (api_requirer (apis d))) ∧
    api_extends (api (apis d)) m l.
Proof.
  revert d. induction l as [|k l IH]; intros d E; cbn [lm_each] in E.
  - injection E as <- <-. split; [done|]. exists (api (apis d)). split; [|apply api_extends_refl].
    simpl. rewrite app_nil_r. by destruct d as [? ? ? ? ? ? ? ? []].
  - inv_lm. subst. unfold addAPI, statement in *. destruct x1, x4.
    destruct (insert_api _ _ d) as [d1| |] eqn:Ei; simplify_eq.
    destruct (insert_api_extends _ _ _ _ k Ei eq_refl) as (m & -> & Hm).
    unfold insert_provider in *. simpl in *. case_decide; simplify_eq.
    apply IH in H0 as [-> (m' & -> & Hm')]. split; [done|]. simpl in *. exists m'.
    split; [by rewrite <- app_assoc|]. by eapply (api_extends_trans _ _ _ [k]).
Qed.
Lemma each_requirer l b d b' d' :
  lm_each (λ k, _ ← of_tx (addAPI k); of_tx (statement (insert_requirer (row k)))) l b d = (b', d', Some (Ok tt)) →
  b' = b ∧ ∃ m, d' = set_apis d (mkApis m (api_provider (apis d)) (api_requirer (apis d) ++ (row <$> l))) ∧
    api_extends (api (apis d)) m l.
Proof.
  revert d. induction l as [|k l IH]; intros d E; cbn [lm_each] in E.
  - injection E as <- <-. split; [done|]. exists (api (apis d)). split; [|apply api_extends_refl].
    simpl. rewrite app_nil_r. by destruct d as [? ? ? ? ? ? ? ? []].
  - inv_lm. subst. unfold addAPI, statement in *. destruct x1, x4.
    destruct (insert_api _ _ d) as [d1| |] eqn:Ei; simplify_eq.
    destruct (insert_api_extends _ _ _ _ k Ei eq_refl) as (m & -> & Hm).
    unfold insert_requirer in *. simpl in *. case_decide; simplify_eq.
    apply IH in H0 as [-> (m' & -> & Hm')]. split; [done|]. simpl in *. exists m'.
    split; [by rewrite <- app_assoc|]. by eapply (api_extends_trans _ _ _ [k]).
Qed.
End apis.

(** ** What is read from a bundle *)
Record facts := mkFacts {
  f_csvName : string; f_csvBytes : string; f_bundleBytes : string; f_version : string; f_skiprange : string;
  f_replaces : string; f_skips : list string; f_images : gset string; f_required : gset APIKey; f_provided : gset APIKey;
  f_declared : list (string * string); f_annotated : list (string * string)
}.
Record reads (di : RawMessage → res install_strategy) (b : registry_Bundle) (f : facts) : Prop := {
  rd_serialize : ∃ an, Serialize b = Ok (f_csvName f, rb_BundleImage b, f_csvBytes f, f_bundleBytes f, an);
  rd_name : f_csvName f ≠ "";
  rd_version : Bundle_Version b = (b, Ok (f_version f));
  rd_skiprange : Bundle_SkipRange b = (b, Ok (f_skiprange f));
  rd_replaces : Bundle_Replaces' b = (b, Ok (f_replaces f));
  rd_skips : Bundle_Skips' b = (b, Ok (f_skips f));
  rd_images : Images di b = (b, Ok (f_images f));
  rd_required : RequiredAPIs b = (b, Ok (f_required f));
  rd_provided : ProvidedAPIs b = (b, Ok (f_provided f));
  rd_declared : mapR marshal_property (rb_Properties b) = Ok (f_declared f);
  rd_annotated : ∃ csv l, rb_csv b = Some csv ∧ annotated_properties csv = Ok l ∧ mapR annotated_property l = Ok (f_annotated f)
}.
(** The properties of a bundle; one that was deprecated before is deprecated again. *)
Definition bundle_property_set (f : facts) (deprecated : bool) : gset (string * string) :=
  list_to_set (f_declared f ++ ((λ k, (GVKType, marshal_GVK (ak_Group k) (ak_Kind k) (ak_Version k))) <$> elements (f_provided f)) ++
    f_annotated f ++ (if deprecated then [(DeprecatedType, "{}")] else [])).
(** Rows that reference the bundle. *)
Definition rows_of (name version image : string) (l : list (string * option string)) : list property_row :=
  (λ tv, mkPropertyRow tv.1 tv.2 name (sqlString version) (sqlString image)) <$> l.
Definition bundle_dependencies (b : registry_Bundle) (required : list APIKey) : list (string * option string) :=
  ((λ dep, (dep_Type dep, dep_Value dep)) <$> rb_Dependencies b) ++
  ((λ k, (GVKType, Some (marshal_GVK (ak_Group k) (ak_Kind k) (ak_Version k)))) <$> required).

(** The index after a bundle was added. *)
Record added (b : registry_Bundle) (f : facts) (d d' : db) : Prop := {
  ad_fresh : operatorbundle d !! f_csvName f = None;
  ad_bundle : operatorbundle d' = <[f_csvName f := bundle_row_of (f_csvBytes f) (f_bundleBytes f) (rb_BundleImage b) (f_version f)
    (f_skiprange f) (f_replaces f) (f_skips f) ""]> (operatorbundle d);
  ad_images : ∃ l, l ≡ₚ elements (f_images f) ∧ related_image d' = related_image d ++ ((λ i, (i, f_csvName f)) <$> l);
  ad_dependencies : ∃ l, l ≡ₚ elements (f_required f) ∧
    dependencies d' = dependencies d ++ rows_of (rb_Name b) (f_version f) (rb_BundleImage b) (bundle_dependencies b l);
  ad_properties : ∃ l, l ≡ₚ elements (bundle_property_set f (bool_decide (rb_Name b ∈ deprecated_bundles d))) ∧
    properties d' = properties d ++ rows_of (rb_Name b) (f_version f) (rb_BundleImage b) ((λ tv, (tv.1, Some tv.2)) <$> l);
  ad_apis : ∃ l k, l ≡ₚ elements (f_provided f) ∧ k ≡ₚ elements (f_required f) ∧
    api_provider (apis d') = api_provider (apis d) ++ ((λ x, api_of x (rb_Name b) (f_version f) (rb_BundleImage b)) <$> l) ∧
    api_requirer (apis d') = api_requirer (apis d) ++ ((λ x, api_of x (rb_Name b) (f_version f) (rb_BundleImage b)) <$> k) ∧
    api_extends (api (apis d)) (api (apis d')) (l ++ k);
  ad_rest : package d' = package d ∧ channel d' = channel d ∧ channel_entry d' = channel_entry d ∧
    deprecated_bundles d' = deprecated_bundles d;
  ad_deferred : deferred_ok d'
}.

(** ** The steps *)
Section steps.
Context `{GoRuntime}.

Lemma stable_Ok {A} (m : BM A) b b' x : stable m → settled b → m b = (b', Ok x) → b' = b.
Proof. intros Hm Hb E. specialize (Hm b Hb). by rewrite E in Hm. Qed.

Lemma addDependencies_Ok b d b' d' v :
  settled b → Bundle_Version b = (b, Ok v) → addDependencies b d = (b', d', Some (Ok tt)) →
  b' = b ∧ ∃ required l, RequiredAPIs b = (b, Ok required) ∧ l ≡ₚ elements required ∧
    d' = add_dependencies d (rows_of (rb_Name b) v (rb_BundleImage b) (bundle_dependencies b l)).
Proof.
  unfold addDependencies. intros Hs Hv E. inv_lm. inv_bm. subst.
  rewrite Hv in *. simplify_eq.
  match goal with E1 : RequiredAPIs _ = (?y, Ok ?r) |- _ => pose proof (stable_Ok _ _ _ _ stable_RequiredAPIs Hs E1) as ->; rename r into req, E1 into Hreq end.
  split; [done|]. exists req, (range_set req). split_and!; [done|apply range_set_perm|].
  unfold addDep in *. repeat match goal with Ht : tx_each _ _ _ = _ |- _ => apply each_dependencies in Ht end. subst.
  unfold add_dependencies, rows_of, bundle_dependencies, set_dependencies. simpl.
  rewrite <- app_assoc, fmap_app, <- !list_fmap_compose. done.
Qed.

Lemma addBundleProperties_Ok b d b' d' v csv :
  settled b → rb_csv b = Some csv → Bundle_Version b = (b, Ok v) → addBundleProperties b d = (b', d', Some (Ok tt)) →
  b' = b ∧ ∃ declared provided annotated0 annotated l,
    mapR marshal_property (rb_Properties b) = Ok declared ∧ ProvidedAPIs b = (b, Ok provided) ∧
    annotated_properties csv = Ok annotated0 ∧ mapR annotated_property annotated0 = Ok annotated ∧
    (∀ f, f_declared f = declared → f_provided f = provided → f_annotated f = annotated →
       l ≡ₚ elements (bundle_property_set f (bool_decide (rb_Name b ∈ deprecated_bundles d)))) ∧
    d' = add_properties d (rows_of (rb_Name b) v (rb_BundleImage b) ((λ tv, (tv.1, Some tv.2)) <$> l)).
Proof.
  unfold addBundleProperties. intros Hs Hcsv Hv E. inv_lm. inv_bm. subst. rewrite Hv in *. simplify_eq.
  match goal with E1 : ProvidedAPIs _ = (?y, Ok ?r) |- _ => pose proof (stable_Ok _ _ _ _ stable_ProvidedAPIs Hs E1) as ->; rename r into prov, E1 into Hprov end.
  match goal with E1 : csv_or_none _ = _ |- _ =>
    unfold csv_or_none, Bundle_ClusterServiceVersion, mbind, BM_bind, get in E1; rewrite cache_fresh, Hcsv in E1 by done; simplify_eq end.
  inv_lm. unfold deprecated, select in *. subst. simplify_eq.
  split; [done|]. match goal with Ht : tx_each _ (range_set ?S) _ = _ |- _ => do 4 eexists; exists (range_set S) end.
  split_and!; [done..| |].
  - intros f <- <- <-. apply range_set_perm.
  - unfold addProperty in *. match goal with Ht : tx_each _ _ _ = _ |- _ => apply each_properties in Ht end. subst.
    unfold rows_of. by rewrite <- list_fmap_compose.
Qed.

Lemma addAPIs_Ok b d b' d' v :
  settled b → Bundle_Version b = (b, Ok v) → addAPIs b d = (b', d', Some (Ok tt)) →
  b' = b ∧ ∃ provided required l k m, ProvidedAPIs b = (b, Ok provided) ∧ RequiredAPIs b = (b, Ok required) ∧
    l ≡ₚ elements provided ∧ k ≡ₚ elements required ∧ api_extends (api (apis d)) m (l ++ k) ∧
    d' = set_apis d (mkApis m (api_provider (apis d) ++ ((λ x, api_of x (rb_Name b) v (rb_BundleImage b)) <$> l))
                      (api_requirer (apis d) ++ ((λ x, api_of x (rb_Name b) v (rb_BundleImage b)) <$> k))).
Proof.
  unfold addAPIs. intros Hs Hv E. inv_lm. inv_bm. subst. case_decide; inv_lm.
  match goal with E1 : ProvidedAPIs _ = _ |- _ => pose proof (stable_Ok _ _ _ _ stable_ProvidedAPIs Hs E1) as ->; rename E1 into Hprov end.
  match goal with E1 : RequiredAPIs _ = _ |- _ => pose proof (stable_Ok _ _ _ _ stable_RequiredAPIs Hs E1) as ->; rename E1 into Hreq end.
  subst. rewrite Hv in *. simplify_eq.
  repeat match goal with Ht : lm_each _ _ _ _ = (_, _, Some (Ok ?u)) |- _ => destruct u end.
  match goal with Ht : lm_each (λ k, _ ← of_tx (addAPI k); of_tx (statement (insert_provider _))) _ _ _ = _ |- _ =>
    apply each_provider in Ht as [-> (m & -> & Hm)] end.
  match goal with Ht : lm_each _ _ _ _ = _ |- _ => apply each_requirer in Ht as [-> (m' & -> & Hm')] end.
  split; [done|]. simpl in *. do 5 eexists. split_and!; [done|done|apply range_set_perm|apply range_set_perm| |reflexivity].
  by eapply api_extends_trans.
Qed.

Lemma SkipRange_settles b b1 v b2 s :
  Bundle_Version b = (b1, Ok v) → Bundle_SkipRange b1 = (b2, Ok s) →
  settled b2 ∧ same_input b b2 ∧ is_Some (rb_csv b2) ∧ Bundle_Version b2 = (b2, Ok v) ∧ Bundle_SkipRange b2 = (b2, Ok s) ∧
  rb_csv b2 = rb_csv (cache b).1.
Proof.
  intros Hv Hs. pose proof (frame_Ok _ _ _ _ frame_Bundle_Version Hv) as F1. pose proof Hs as Hs'.
  unfold Bundle_SkipRange, the_csv, Bundle_ClusterServiceVersion in Hs. inv_bm. subst.
  match goal with Hc : cache b1 = (?y, Ok ?u) |- _ => destruct u; pose proof (Version_again _ _ _ _ Hv Hc) as [Hset Hver];
    pose proof (frame_Ok _ _ _ _ frame_cache Hc) as F2 end.
  match goal with Hd : deref _ = Ok _ |- _ => apply deref_Ok in Hd; rename Hd into H1 end. split_and!; [done|by etrans|by eexists|done| |].
  - unfold Bundle_SkipRange, the_csv, Bundle_ClusterServiceVersion, mbind, BM_bind, get, lift. rewrite cache_fresh by done.
    rewrite H1. simpl. congruence.
  - match goal with Hc : cache b1 = (?y, Ok _) |- _ => rename Hc into Hc1 end. clear Hs'.
    unfold Bundle_Version in Hv. case_decide; [injection Hv as <- _; by rewrite Hc1|].
    destruct (cache b) as [bc [[]|e|]] eqn:E; [|done..]. pose proof (cache_settles _ _ E) as [Hsc _]. simpl.
    repeat case_match; simplify_eq; rewrite cache_fresh in Hc1 by exact Hsc; by simplify_eq.
Qed.
Lemma Serialize_frame b b' : same_input b b' → Serialize b' = Serialize b.
Proof. intros (_ & _ & _ & _ & Hi & Ho & _ & Ha). unfold Serialize. by rewrite Hi, Ho, Ha. Qed.

Variable di : RawMessage → res install_strategy.
(** The index after the first part of [addOperatorBundle]. *)
Definition rows_added (b : registry_Bundle) (f : facts) (s : string) (imgs : list string) (required : list APIKey)
    (props : list (string * string)) (d : db) : db :=
  let row := bundle_row_of (f_csvBytes f) (f_bundleBytes f) (rb_BundleImage b) (f_version f) (f_skiprange f) (f_replaces f) (f_skips f) s in
  let rows := rows_of (rb_Name b) (f_version f) (rb_BundleImage b) in
  add_properties (add_dependencies (add_images (set_bundles d (<[f_csvName f := row]> (operatorbundle d)))
    ((λ i, (i, f_csvName f)) <$> imgs)) (rows (bundle_dependencies b required))) (rows ((λ tv, (tv.1, Some tv.2)) <$> props)).
Lemma insert_rows_Ok alpha b d b' d' :
  insert_rows alpha di b d = (b', d', Some (Ok tt)) →
  settled b' ∧ same_input b b' ∧ rb_csv b' = rb_csv (cache b).1 ∧ ∃ f s imgs required props, reads di b' f ∧ operatorbundle d !! f_csvName f = None ∧
    Bundle_SubstitutesFor b' = (b', Ok s) ∧ ¬ (s ≠ "" ∧ alpha = false) ∧
    imgs ≡ₚ elements (f_images f) ∧ required ≡ₚ elements (f_required f) ∧
    props ≡ₚ elements (bundle_property_set f (bool_decide (rb_Name b' ∈ deprecated_bundles d))) ∧
    d' = rows_added b' f s imgs required props d.
Proof.
  unfold insert_rows. intros E.
  apply lm_bind_Ok in E as (b0 & d0 & b00 & E0 & E). apply of_bm_Ok in E0 as [[= <- <-] ->].
  apply lm_bind_Ok in E as (b0 & d0 & [[[[csvName img] csvBytes] bundleBytes] an] & E0 & E). apply of_res_Ok in E0 as (Hser & -> & ->).
  unfold id in Hser. assert (img = rb_BundleImage b) as -> by (by apply (proj2 (Serialize_spec b)) in Hser; simplify_eq).
  case_decide as Hname; [by inv_lm|].
  lm_read E b1 version Hver. lm_read E b2 skiprange Hsr.
  destruct (SkipRange_settles _ _ _ _ _ Hver Hsr) as (Hset & F & [csv Hcsv] & Hver2 & Hsr2 & Hcache).
  lm_read E b3 replaces Hrep. pose proof (stable_Ok _ _ _ _ stable_Replaces Hset Hrep) as ->.
  lm_read E b3 skips Hsk. pose proof (stable_Ok _ _ _ _ stable_Skips Hset Hsk) as ->.
  lm_read E b3 s Hsub. pose proof (stable_Ok _ _ _ _ stable_SubstitutesFor Hset Hsub) as ->.
  case_decide as Hal; [by inv_lm|].
  apply lm_bind_Ok in E as (b3 & d1 & u & E1 & E). apply lm_wrap_Ok, of_tx_Ok in E1 as [Hins ->].
  unfold statement, insert_bundle in Hins. case_decide as Hfresh; [done|]. injection Hins as <- _. apply eq_None_not_Some in Hfresh.
  lm_read E b3 images Himg. pose proof (stable_Ok _ _ _ _ (stable_Images di) Hset Himg) as ->.
  apply lm_bind_Ok in E as (b3 & d2 & u2 & E1 & E). apply lm_each_wrapped in E1 as [Himgs ->]. apply each_images in Himgs.
  apply lm_bind_Ok in E as (b3 & d3 & [] & E1 & E).
  destruct (addDependencies_Ok _ _ _ _ _ Hset Hver2 E1) as [-> (required & l1 & Hreq & Hl1 & ->)].
  destruct (addBundleProperties_Ok _ _ _ _ _ _ Hset Hcsv Hver2 E) as [-> (declared & provided & an0 & annotated & l2 & Hdecl & Hprov & Han0 & Han & Hl2 & ->)].
  split; [done|]. split; [done|]. split; [done|]. pose proof F as (_ & _ & _ & _ & Fi & _).
  set (f := mkFacts csvName csvBytes bundleBytes version skiprange replaces skips images required provided declared annotated).
  exists f, s, (range_set images), l1, l2. subst d2. simpl in Hl2. split_and!; try done; [|apply range_set_perm|by apply Hl2|].
  - split; simpl; try done; [exists an; rewrite (Serialize_frame b b2), Fi by done; exact Hser|]. exists csv, an0. done.
  - unfold rows_added. simpl. by rewrite Fi.
Qed.

Lemma addOperatorBundle_Ok fuel b d b' d' :
  addOperatorBundle false di fuel b d = (b', d', Some (Ok tt)) →
  same_input b b' ∧ ∃ f, reads di b' f ∧ (deferred_ok d' → added b f d d').
Proof.
  unfold addOperatorBundle. intros E. apply lm_bind_Ok in E as (b1 & d1 & [] & E1 & E).
  destruct (insert_rows_Ok _ _ _ _ _ E1) as (Hset & F & _ & f & s & imgs & l1 & l2 & Hr & Hfresh & Hs & Hal & Hi & Hl1 & Hl2 & ->).
  assert (s = "") as -> by (destruct (decide (s = "")); [done|tauto]).
  apply lm_bind_Ok in E as (b2 & d2 & u & E2 & E). apply lm_ret_Ok in E2 as (-> & -> & ->).
  destruct (addAPIs_Ok _ _ _ _ _ Hset (rd_version _ _ _ Hr) E) as [-> (prov & req & l3 & l4 & m & Hprov & Hreq & Hl3 & Hl4 & Hm & ->)].
  rewrite (rd_provided _ _ _ Hr) in Hprov. rewrite (rd_required _ _ _ Hr) in Hreq. injection Hprov as <-. injection Hreq as <-.
  split; [done|]. exists f. split; [done|]. pose proof F as (Fc & Fp & Fd & Fpk & Fi & Fo & Fn & Fa).
  intros Hdef. split; [..|exact Hdef]; simpl; rewrite <- ?Fn, <- ?Fi; try done; [by exists imgs| |by exists l2|by exists l3, l4].
  exists l1. split; [done|]. unfold bundle_dependencies. by rewrite <- Fd.
Qed.

(** Computations that end. *)
Definition halts {A} (m : LM A) : Prop := ∀ b d, (m b d).2 ≠ None.
Lemma halts_bind {A B} (m : LM A) (f : A → LM B) : halts m → (∀ a, halts (f a)) → halts (m ≫= f).
Proof.
  intros Hm Hf b d. specialize (Hm b d). unfold mbind, LM_bind. destruct (m b d) as [[b' d'] [[a| |]|]]; try done. apply Hf.
Qed.
Lemma halts_bm {A} (m : BM A) : halts (of_bm m).
Proof. intros b d. unfold of_bm. by destruct (m b). Qed.
Lemma halts_tx {A} (m : TX A) : halts (of_tx m).
Proof. intros b d. unfold of_tx. by destruct (m d). Qed.
Lemma halts_res {A} (r : res A) : halts (of_res r).
Proof. by intros b d. Qed.
Lemma halts_ret {A} (a : A) : halts (mret a).
Proof. by intros b d. Qed.
Lemma halts_err {A} e : halts (lm_err (A := A) e).
Proof. by intros b d. Qed.
Lemma halts_wrap {A} f (m : LM A) : halts m → halts (lm_wrap f m).
Proof. intros Hm b d. specialize (Hm b d). unfold lm_wrap. by destruct (m b d) as [[b' d'] [r|]]. Qed.
Lemma halts_each {A} (f : A → LM unit) l : (∀ x, halts (f x)) → halts (lm_each f l).
Proof. intros Hf. induction l; simpl; [apply halts_ret|]. by apply halts_bind. Qed.
Ltac halt :=
  repeat first
    [ progress intros
    | match goal with |- halts (match ?x with _ => _ end) => destruct x end
    | apply halts_bind | apply halts_bm | apply halts_tx | apply halts_res | apply halts_ret | apply halts_err
    | apply halts_wrap | apply halts_each | progress cbv beta zeta ].
Lemma halts_addOperatorBundle fuel : halts (addOperatorBundle false di fuel).
Proof. unfold addOperatorBundle, insert_rows, addDependencies, addBundleProperties, addAPIs. halt. Qed.

Lemma AddOperatorBundle_Ok fuel b d b' d' :
  AddOperatorBundle false di fuel b d = (b', d', Some (Ok tt)) → same_input b b' ∧ ∃ f, reads di b' f ∧ added b f d d'.
Proof.
  unfold AddOperatorBundle, lm_transaction. destruct (addOperatorBundle false di fuel b d) as [[b1 d1] [[[]| |]|]] eqn:E; [|done..].
  destruct (addOperatorBundle_Ok _ _ _ _ _ E) as [Hs (f & Hr & Ha)]. case_decide; [|done]. intros [= <- <-]. eauto.
Qed.

(** C15. Adding a bundle, without the alpha features, always ends.  When it
    succeeds, the bundle was not in the index, and exactly its rows were added: the
    bundle with its bytes, image, version and edges; one row per image; the
    dependencies declared and those of the required APIs; each property once, from
    the bundle, its provided APIs, its CSV's annotation and an earlier deprecation;
    and providers, requirers and APIs, where an API known before keeps its plural.
    The other tables do not change.  When it does not succeed, the index does not
    change at all. *)
Theorem AddOperatorBundle_spec fuel b d :
  match AddOperatorBundle false di fuel b d with
  | (b', d', Some (Ok _)) => same_input b b' ∧ ∃ f, reads di b' f ∧ added b f d d'
  | (_, d', Some _) => d' = d
  | (_, _, None) => False
  end.
Proof.
  unfold AddOperatorBundle, lm_transaction. pose proof (halts_addOperatorBundle fuel b d) as Hh.
  destruct (addOperatorBundle false di fuel b d) as [[b' d'] [[[]| |]|]] eqn:E; [|done..].
  destruct (addOperatorBundle_Ok _ _ _ _ _ E) as [Hs (f & Hr & Ha)]. case_decide; [|done]. eauto.
Qed.
End steps.

(** ** Example *)
Definition ex_add_csv : ClusterServiceVersion :=
  mkCSV "foo.v0.2.0" ∅ (Some (print_struct true [("version", "0.2.0"); ("replaces", "foo.v0.1.0")])).
Definition ex_add_bundle : registry_Bundle :=
  mkRBundle "foo.v0.2.0"
    [mkObj "ClusterServiceVersion" "v1alpha1" "foo.v0.2.0" (inl ex_add_csv) (inr (ErrNew "not a CRD")) (inr (ErrNew "not a CRD")) (inl "{csv}");
     ex_crd "Bar"]
    "foo" ["stable"] "img:2" "" None [] [] []
    [mkRProp LabelType (Some (print_struct true [("label", "x")]))] (Some ex_annotations) true.
Definition ex_install : RawMessage → res install_strategy := λ _, Ok (mkStrategy "deployment" [(["op:2"], [])]).
Example ex_add :
  let '(_, d, r) := AddOperatorBundle (H := go_default) false ex_install 0 ex_add_bundle empty_db in
  r = Some (Ok tt) ∧ map_to_list (operatorbundle d) =
    [("foo.v0.2.0", mkBundleRow (Some "{csv}") (Some "{csv}{Bar}") (Some "img:2") (Some "0.2.0") (Some "") (Some "foo.v0.1.0") (Some "") (Some ""))] ∧
  related_image d = [("op:2", "foo.v0.2.0"); ("img:2", "foo.v0.2.0")] ∧ length (properties d) = 2 ∧
  map_to_list (api (apis d)) = [(("example.com", "v1", "Bar"), "Bars")].
Proof. vm_compute. auto. Qed.
