(* ===== verification/SqlSubst.v ===== *)
(** * Substitutions that lead back

    [addSubstitutesFor] of [pkg/sqlite/load.go] follows what a bundle substitutes
    for, and what that substitutes for, until there is nothing more.  It ends
    exactly when the chain does; a bundle that closes a cycle of substitutions is
    never added. *)
From S2P Require Import Prelude Semver Json JsonCompact Property JsonTotal Model Declcfg DeclcfgRoundtrip DeclcfgWrite DeclcfgLoad RegistryTypes RegistryBundle RegistryBundleSpec Graph Sql SqlLoad SqlInv SqlAdd SqlAddSpec.
From stdpp Require Import options.

Section chain.
Context `{GoRuntime}.

(** What a bundle of the index substitutes for. *)
Definition substitution (d : db) (x : string) : string := default "" (operatorbundle d !! x ≫= ob_substitutesfor).
Definition substitutes (d : db) (x y : string) : Prop := substitution d x = y ∧ y ≠ "".

(** The names on the chain from [s], in order, up to [n] of them. *)
Fixpoint chain (d : db) (n : nat) (s : string) : list string :=
  match n with O => [] | S n' => if decide (s = "") then [] else s :: chain d n' (substitution d s) end.

Lemma follow_chain d n s skips b fuel :
  Nat.iter n (substitution d) s = "" → n ≤ fuel →
  follow_substitutions fuel s skips b d = (b, d, Some (Ok (skips ++ chain d n s))).
Proof.
  revert s skips fuel. induction n as [|n IH]; intros s skips fuel Hn Hf.
  - simpl in *. subst s. rewrite app_nil_r. by destruct fuel.
  - destruct fuel as [|fuel]; [lia|]. rewrite Nat.iter_succ_r in Hn. simpl. case_decide as Hs; [subst s; by rewrite app_nil_r|].
    unfold mbind, LM_bind, of_tx, getBundleSubstitution, select.
    rewrite (IH _ _ fuel Hn) by lia. by rewrite <- app_assoc.
Qed.

(** A set of names closed under substitution. *)
Definition trapped (d : db) (C : gset string) : Prop := ∀ x, x ∈ C → x ≠ "" ∧ substitution d x ∈ C.
Lemma follow_trapped d C s skips b fuel : trapped d C → s ∈ C → (follow_substitutions fuel s skips b d).2 = None.
Proof.
  intros Ht. revert s skips. induction fuel as [|fuel IH]; intros s skips Hs; destruct (Ht s Hs) as [Hne Hn]; simpl;
    rewrite decide_False by done; [done|]. unfold mbind, LM_bind, of_tx, getBundleSubstitution, select. by apply IH.
Qed.

(** ** Rows that keep what they substitute for *)
Definition same_substitutions (d d' : db) : Prop := ∀ x, substitution d' x = substitution d x.
Lemma trapped_same d d' C : same_substitutions d d' → trapped d C → trapped d' C.
Proof. intros Hs Ht x Hx. destruct (Ht x Hx). by rewrite Hs. Qed.
Lemma update_substitution P f d d' u x :
  statement (update_bundles P f) d = (d', Ok u) →
  substitution d' x = default "" (operatorbundle d !! x ≫= λ b, ob_substitutesfor (if P x b then f b else b)).
Proof.
  intros [= <- _]. unfold substitution. simpl. rewrite update_bundles_lookup. by destruct (operatorbundle d !! x).
Qed.
Lemma update_edges_same P r s d d' u : statement (update_bundles P (with_edges r s)) d = (d', Ok u) → same_substitutions d d'.
Proof.
  intros E x. rewrite (update_substitution _ _ _ _ _ x E). unfold substitution. destruct (operatorbundle d !! x) as [w|]; simpl; [|done].
  by destruct (P x w).
Qed.
Lemma getBundle_Ok n d d' x : getBundleSkipsReplacesVersion n d = (d', Ok x) → d' = d ∧ is_Some (operatorbundle d !! n).
Proof.
  unfold getBundleSkipsReplacesVersion, mbind, TX_bind, select. destruct (operatorbundle d !! n); [|done].
  intros [= <- _]. eauto.
Qed.
Lemma appendSkips_Ok l n d d' u :
  appendSkips l n d = (d', Ok u) → ∃ s, updateBundleSkips s n d = (d', Ok u).
Proof.
  unfold appendSkips, mbind, TX_bind. intros E.
  destruct (getBundleSkipsReplacesVersion n d) as [d1 [[[? ?] ?]|e|]] eqn:Eg; [|done..]. apply getBundle_Ok in Eg as [-> _]. eauto.
Qed.
Lemma appendSkips_same l n d d' u : appendSkips l n d = (d', Ok u) → same_substitutions d d'.
Proof. intros [s E]%appendSkips_Ok. by eapply update_edges_same. Qed.
Lemma update_bundles_mono P f d d' u x :
  statement (update_bundles P f) d = (d', Ok u) → is_Some (operatorbundle d !! x) → is_Some (operatorbundle d' !! x).
Proof. intros [= <- _] [r Hr]. simpl. rewrite update_bundles_lookup, Hr. eauto. Qed.
Lemma updateSubstitution d d' s n u :
  updateBundleSubstitutesFor s n d = (d', Ok u) → is_Some (operatorbundle d !! n) →
  ∀ x, substitution d' x = if decide (x = n) then s else substitution d x.
Proof.
  intros E [r Hr] x. rewrite (update_substitution _ _ _ _ _ x E). unfold substitution. case_decide as Hx.
  - subst x. rewrite Hr. simpl. by rewrite bool_decide_eq_true_2.
  - destruct (operatorbundle d !! x); simpl; [|done]. by rewrite bool_decide_eq_false_2.
Qed.
Lemma substitutions_of d s x d' l :
  getBundlesThatSubstitutesFor s d = (d', Ok l) → x ∈ l → s ≠ "" → d' = d ∧ x ≠ "" ∧ substitution d x = s ∧ is_Some (operatorbundle d !! x).
Proof.
  intros [= <- <-] [Hne Hx]%list_elem_of_filter Hs. apply list_elem_of_fmap in Hx as ([n r] & -> & Hr).
  apply range_elem, map_lookup_filter_Some in Hr as [Hr Hsf]. simpl in *. unfold substitution. rewrite Hr. simpl. rewrite Hsf. eauto.
Qed.

(** ** Settling the substitutions of one bundle *)
(** The bundle stays trapped, and with it those that substitute for it. *)
Lemma settle_trapped fuel csvName version skips queue b d b' d' C :
  settle_substitutions fuel csvName version skips queue b d = (b', d', Some (Ok tt)) →
  trapped d C → csvName ∈ C → is_Some (operatorbundle d !! csvName) →
  (∀ x, x ∈ queue → x ≠ "" ∧ substitution d x ∈ C ∧ is_Some (operatorbundle d !! x)) →
  ∃ C', trapped d' C' ∧ csvName ∈ C'.
Proof.
  revert queue b d C. induction fuel as [|fuel IH]; intros [|other rest] b d C E Ht Hc Hrow Hq; simpl in E; inv_lm; subst; eauto.
  case_decide as Hother; [eapply IH; eauto; intros x Hx; apply Hq; by right|].
  inv_lm. destruct (Hq other ltac:(left)) as (Hone & Hosub & Horow). subst.
  match goal with Hr : getBundleSkipsReplacesVersion _ _ = (?y, _) |- _ =>
    apply getBundle_Ok in Hr as [-> _] end.
  repeat case_match; inv_lm; subst.
  - match goal with Hu : updateBundleSubstitutesFor _ _ _ = _ |- _ =>
      pose proof (updateSubstitution _ _ _ _ _ Hu Hrow) as Hsub; pose proof (λ x, update_bundles_mono _ _ _ _ _ x Hu) as Hm end.
    match goal with Hg : getBundlesThatSubstitutesFor _ _ = (_, Ok ?l) |- _ =>
      pose proof (λ x Hx, substitutions_of _ _ x _ _ Hg Hx Hone) as Hmore; injection Hg as ? ?; subst end.
    eapply (IH _ _ _ (C ∪ {[other]})); [eassumption| | |by apply Hm|].
    + intros x Hx. rewrite Hsub. case_decide as Hxc; [subst x; split; [by apply (Ht csvName)|set_solver]|].
      apply elem_of_union in Hx as [Hx|Hx%elem_of_singleton]; [destruct (Ht x Hx); set_solver|subst x; set_solver].
    + set_solver.
    + intros x [Hx|Hx]%elem_of_app.
      * destruct (Hq x ltac:(by right)) as (? & ? & ?). rewrite Hsub. split_and!; [done| |by apply Hm]. case_decide; set_solver.
      * destruct (Hmore x Hx) as (_ & ? & -> & ?). set_solver.
  - match goal with Hu : updateBundleSubstitutesFor _ _ _ = _, Ha : appendSkips _ _ _ = _ |- _ =>
      pose proof (updateSubstitution _ _ _ _ _ Hu Horow) as Hsub; pose proof (λ x, update_bundles_mono _ _ _ _ _ x Hu) as Hm; pose proof (appendSkips_same _ _ _ _ _ Ha) as Hsame end.
    match goal with Ha : appendSkips _ _ _ = _ |- _ => apply appendSkips_Ok in Ha as [sk Ha]; pose proof (λ x, update_bundles_mono _ _ _ _ _ x Ha) as Hm2 end.
    match goal with Hg : getBundlesThatSubstitutesFor _ _ = _ |- _ => injection Hg as ? ?; subst end.
    case_decide; inv_lm. eapply (IH _ _ _ C); [eassumption| |done|auto|].
    + intros x Hx. rewrite Hsame, Hsub. destruct (Ht x Hx). case_decide; done.
    + intros x Hx. destruct (Hq x ltac:(by right)) as (? & ? & ?). rewrite Hsame, Hsub. split_and!; [done| |auto]. case_decide; done.
Qed.

(** A chain of substitutions that ends at one of the names of a set leads into it. *)
Lemma rtc_trapped d s n :
  rtc (substitutes d) s n → s ≠ "" → n ≠ "" →
  ∃ C : gset string, s ∈ C ∧ n ∈ C ∧ ∀ x, x ∈ C → x ≠ "" ∧ (x ≠ n → substitution d x ∈ C).
Proof.
  induction 1 as [s|s y n [Hy Hne] _ IH]; intros Hs Hn.
  - exists {[s]}. split_and!; [set_solver..|]. intros x ->%elem_of_singleton. done.
  - destruct (IH Hne Hn) as (C & HyC & HnC & HC). exists ({[s]} ∪ C). split_and!; [set_solver..|].
    intros x [->%elem_of_singleton|Hx]%elem_of_union; [split; [done|]; intros _; rewrite Hy; set_solver|].
    destruct (HC x Hx). split; [done|]. intros. set_solver.
Qed.

(** The steps before [addSubstitutesFor] leave the rows of bundles alone. *)
Lemma addSubstitutesFor_acyclic fuel b d b' d' s :
  settled b → addSubstitutesFor fuel b d = (b', d', Some (Ok tt)) → Bundle_SubstitutesFor b = (b, Ok s) → s ≠ "" →
  (∃ v, Bundle_Version b = (b, Ok v)) → substitution d (rb_Name b) = s → ¬ rtc (substitutes d) s (rb_Name b).
Proof.
  intros Hset E Hs Hne [v Hv] Hsub Hrtc. unfold addSubstitutesFor in E.
  lm_read E b1 name Hname. injection Hname as <- <-.
  lm_read E b2 replaces Hr. pose proof (stable_Ok _ _ _ _ stable_Replaces Hset Hr) as ->.
  lm_read E b2 skips Hsk. pose proof (stable_Ok _ _ _ _ stable_Skips Hset Hsk) as ->.
  lm_read E b2 version Hv2. rewrite Hv in Hv2. injection Hv2 as <- <-.
  lm_read E b2 s2 Hs2. rewrite Hs in Hs2. injection Hs2 as <- <-.
  assert (is_Some (operatorbundle d !! rb_Name b)) as Hrow.
  { unfold substitution in Hsub. destruct (operatorbundle d !! rb_Name b) eqn:Er; [eauto|]. by subst s. }
  assert (rb_Name b ≠ "") as Hname.
  { destruct (rtc_inv_r _ _ Hrtc) as [<-|(y & _ & [_ ?])]; done. }
  destruct (rtc_trapped _ _ _ Hrtc Hne Hname) as (C & HsC & HnC & HC).
  assert (trapped d C) as Ht.
  { intros x Hx. destruct (HC x Hx) as [? Hx']. split; [done|]. destruct (decide (x = rb_Name b)) as [->|]; [by rewrite Hsub|auto]. }
  apply lm_bind_Ok in E as (b2 & d2 & [] & E1 & E). rewrite decide_False in E1 by done.
  apply lm_bind_Ok in E1 as (b3 & d3 & u & E3 & E1). apply of_tx_Ok in E3 as [Hup ->].
  pose proof (update_edges_same _ _ _ _ _ _ Hup) as Hsame. pose proof (update_bundles_mono _ _ _ _ _ (rb_Name b) Hup Hrow) as Hrow3.
  apply lm_bind_Ok in E1 as (b3 & d4 & queue & E3 & E1). apply of_tx_Ok in E3 as [Hq ->].
  pose proof (λ x Hx, substitutions_of _ _ x _ _ Hq Hx Hne) as Hqueue. injection Hq as <- <-.
  destruct (settle_trapped _ _ _ _ _ _ _ _ _ C E1) as (C' & HC' & HnC').
  { by eapply trapped_same. } { done. } { done. }
  { intros x Hx. destruct (Hqueue x Hx) as (_ & ? & -> & ?). done. }
  apply lm_bind_Ok in E as (b3 & d4 & s3 & E3 & E). apply of_tx_Ok in E3 as [Hg ->]. injection Hg as <- <-.
  apply lm_bind_Ok in E as (b3 & d4 & skips' & E3 & E).
  pose proof (follow_trapped d2 C' (substitution d2 (rb_Name b)) skips b2 fuel HC') as Hf.
  specialize (Hf (proj2 (HC' _ HnC'))). unfold substitution in Hf. by rewrite E3 in Hf.
Qed.

End chain.

(** ** Example *)
Definition ex_substituting (s : string) : registry_Bundle :=
  mkRBundle "foo.v2" [mkObj "ClusterServiceVersion" "v1alpha1" "foo.v2"
      (inl (mkCSV "foo.v2" {[ "olm.substitutesFor" := s ]} (Some (print_struct true [("version", "1.0.0+2")]))))
      (inr (ErrNew "not a CRD")) (inr (ErrNew "not a CRD")) (inl "{csv}")]
    "foo" ["stable"] "img:2" "" None [] [] [] [] (Some ex_annotations) true.
Example ex_self_substitution :
  (AddOperatorBundle (H := go_default) true ex_install 200 (ex_substituting "foo.v2") ex_index).2 = None.
Proof. vm_compute. reflexivity. Qed.
