(* ===== verification/SqlQuery.v ===== *)
(** * Queries on the index

    [SQLQuerier] of [pkg/sqlite/query.go], each method with the SQL statement it
    runs written as a function of the tables.  A row of a left join without a
    match has nulls; [DISTINCT] keeps one row of each; where a statement does not
    fix the order of the rows, it is any order.  Where the statement groups rows
    and takes a minimum, the other columns are those of a row with the minimum.

    The names of APIs are pasted into one statement between double quotes.  SQLite
    reads such a text as the name of a column when there is one of that name, in
    any case, and as a string otherwise.  What it makes of names with a quote, or
    of the names of the row id, is a parameter.

    Not modelled: [ListTables], which reads the schema. *)
From S2P Require Import Prelude Semver Json JsonCompact JsonStream Property JsonTotal Model ModelOps Declcfg DeclcfgConv DeclcfgRoundtrip DeclcfgWrite DeclcfgLoad RegistryTypes RegistryBundle RegistryBundleSpec Api Query Conversion Graph Sql SqlLoad SqlGraph SqlAdd.
From stdpp Require Import options.

(** The text of an identifier without regard to case. *)
Fixpoint lower_str (s : string) : string :=
  match s with String a s' => String (lower a) (lower_str s') | "" => "" end.
(** The column of the table [api] a quoted name denotes. *)
Definition api_column (g : gvk) (plural name : string) : option string :=
  if decide (lower_str name = "group_name") then Some g.1.1
  else if decide (lower_str name = "version") then Some g.1.2
  else if decide (lower_str name = "kind") then Some g.2
  else if decide (lower_str name = "plural") then Some plural
  else None.
Definition quoted (g : gvk) (plural name : string) : string := default name (api_column g plural name).
Definition plain_name (name : string) : bool :=
  str_forallb (λ c, negb (bool_decide (c = quote))) name &&
  negb (bool_decide (lower_str name ∈ ["rowid"; "oid"; "_rowid_"])).

(** The row with the least value of a column; the first of these. *)
Fixpoint min_row {A} (depth : A → Z) (l : list A) : option A :=
  match l with
  | [] => None
  | x :: l' => match min_row depth l' with
               | Some y => if (depth y <? depth x)%Z then Some y else Some x
               | None => Some x
               end
  end.

Section queries.
Context `{GoRuntime}.
(** The kind and the name of an object; an object; and SQLite on names that are
    not plain. *)
Variable decode_meta : string → res (string * string).
Variable decode_object : string → res k8s_object.
Variable odd_names : gset string → gset string → gset string → api_tables → res (list (gvk * string)).

Definition distinct {A} `{EqDecision A} (l : list A) : list A := any_order (remove_dups l).

(** ** Names *)
Definition SQLQuerier_ListPackages (d : db) : res (list string) := Ok (range (package d)).*1.
Definition SQLQuerier_GetPackage (d : db) (name : string) : res PackageManifest :=
  let rows := match package d !! name with
              | Some default_channel => (λ kh, (default_channel, kh.1.2, kh.2)) <$> range (filter (λ kh, kh.1.1 = name) (channel d))
              | None => []
              end in
  match rows with
  | [] => Err (Errorf "package %s not found" [AStr name])
  | (default_channel, _, _) :: _ =>
      Ok (mkManifest name ((λ r : option string * string * string, mkPkgChannel r.1.2 r.2) <$> rows) (default "" default_channel))
  end.
Definition GetDefaultChannelForPackage (d : db) (pkgName : string) : res string := Ok (default "" (mjoin (package d !! pkgName))).
Definition ListChannels (d : db) (pkgName : string) : res (list string) :=
  Ok ((λ kh, kh.1.2) <$> range (filter (λ kh, kh.1.1 = pkgName) (channel d))).
Definition GetCurrentCSVNameForChannel (d : db) (pkgName c : string) : res string := Ok (default "" (channel d !! (pkgName, c))).
Definition ListImages (d : db) : res (list string) := Ok (distinct (related_image d).*1).
Definition GetImagesForBundle (d : db) (csvName : string) : res (list string) :=
  Ok (distinct (filter (λ ib, ib.2 = csvName) (related_image d)).*1).
Definition GetBundleVersion (d : db) (image : string) : res string :=
  Ok (default "" (head (range (filter (λ nb, ob_bundlepath nb.2 = Some image) (operatorbundle d))) ≫= λ nb, ob_version nb.2)).
Definition GetBundlePathIfExists (d : db) (bundleName : string) : res string :=
  match operatorbundle d !! bundleName with
  | None => Err ErrBundleImageNotInDatabase
  | Some b => Ok (default "" (ob_bundlepath b))
  end.
(** A null path is returned as the empty string. *)
Definition GetBundlePathsForPackage (d : db) (pkgName : string) : res (list string) :=
  let rows := distinct (ie ← map_to_list (channel_entry d);
                        if decide (er_package ie.2 = pkgName)
                        then match operatorbundle d !! er_bundle ie.2 with Some b => [ob_bundlepath b] | None => [] end
                        else []) in
  mapR (λ path, if decide (path = Some "") then Err (ErrNew "Index malformed: cannot find paths to bundle images")
                else Ok (default "" path)) rows.

(** ** What belongs to a bundle *)
(** The rows of a bundle, whose version and path match or are null. *)
Definition bundle_rows (rows : list property_row) (name version path : string) : list (string * option string) :=
  (λ r, (pr_type r, pr_value r)) <$>
    filter (λ r, pr_bundle r = name ∧ (pr_version r = Some version ∨ pr_version r = None) ∧ (pr_path r = Some path ∨ pr_path r = None)) rows.
(** A row with a null makes the result empty, without an error. *)
Definition valid_rows {B} (f : string → string → B) (rows : list (string * option string)) : list B :=
  default [] (mapM (λ tv, f tv.1 <$> tv.2) rows).
Definition GetDependenciesForBundle (d : db) (name version path : string) : res (list api_Dependency) :=
  Ok (valid_rows mkADep (distinct (bundle_rows (dependencies d) name version path))).
Definition GetPropertiesForBundle (d : db) (name version path : string) : res (list api_Property) :=
  Ok (valid_rows mkAProp (distinct (bundle_rows (properties d) name version path))).

(** ** APIs *)
(** The values of a type, of the rows of a bundle. *)
Definition typed_values (rows : list property_row) (typ name : string) : list (option string) :=
  pr_value <$> filter (λ r, pr_type r = typ ∧ pr_bundle r = name) rows.
(** Values that are null or not an API are passed over. *)
Definition gvk_values (values : list (option string)) : list GroupVersionKind :=
  omap (λ value, v ← value;
                 match unmarshal_GVK (Some v) with
                 | Ok g => Some (mkAGVK (gvk_Group g) (gvk_Version g) (gvk_Kind g) "")
                 | _ => None
                 end) values.
Definition api_gvk (a : GroupVersionKind) : gvk := (agvk_Group a, agvk_Version a, agvk_Kind a).
(** The rows of [api] whose columns are in the three lists of quoted names. *)
Definition plural_rows (d : db) (apis' : list GroupVersionKind) : res (gmap gvk string) :=
  let groups := list_to_set (agvk_Group <$> apis') : gset string in
  let versions := list_to_set (agvk_Version <$> apis') : gset string in
  let kinds := list_to_set (agvk_Kind <$> apis') : gset string in
  if forallb plain_name (elements (groups ∪ versions ∪ kinds)) then
    Ok (filter (λ gp : gvk * string,
          gp.1.1.1 ∈ (set_map (quoted gp.1 gp.2) groups : gset string) ∧
          gp.1.1.2 ∈ (set_map (quoted gp.1 gp.2) versions : gset string) ∧
          gp.1.2 ∈ (set_map (quoted gp.1 gp.2) kinds : gset string)) (api (apis d)))
  else rows ← odd_names groups versions kinds (apis d); Ok (foldl (λ m gp, <[gp.1 := gp.2]> m) ∅ rows).
Definition with_plural (plurals : gmap gvk string) (a : GroupVersionKind) : GroupVersionKind :=
  if decide (agvk_Plural a = "") then
    match plurals !! api_gvk a with
    | Some p => mkAGVK (agvk_Group a) (agvk_Version a) (agvk_Kind a) p
    | None => a
    end
  else a.
Definition GetApisForEntry (d : db) (entryID : Z) : res (list GroupVersionKind * list GroupVersionKind) :=
  let name := er_bundle <$> channel_entry d !! entryID in
  let provided := match name with Some n => gvk_values (any_order (typed_values (properties d) GVKType n)) | None => [] end in
  let required := match name with Some n => gvk_values (distinct (typed_values (dependencies d) GVKType n)) | None => [] end in
  plurals ← plural_rows d (provided ++ required);
  Ok (with_plural plurals <$> provided, with_plural plurals <$> required).

(** ** Bundles *)
Definition zero_bundle : api_Bundle := mkABundle "" "" "" "" [] "" [] [] "" "" [] [] "" [].
Definition stored_bundle (bundle : option string) : res api_Bundle :=
  match bundle with
  | Some s => if decide (s = "") then Ok zero_bundle else BundleStringToAPIBundle decode_meta s
  | None => Ok zero_bundle
  end.
(** The bundle of an entry, with its row, in a package and a channel. *)
Definition entry_bundle (d : db) (entryId : Z) (name : string) (b : bundle_row) (pkgName channelName : string) : res api_Bundle :=
  out ← stored_bundle (ob_bundle b);
  let path := default "" (ob_bundlepath b) in
  let version := default "" (ob_version b) in
  gvks ← GetApisForEntry d entryId;
  deps ← GetDependenciesForBundle d name version path;
  props ← GetPropertiesForBundle d name version path;
  Ok (mkABundle name pkgName channelName (ab_CsvJson out) (ab_Object out) path gvks.1 gvks.2 version
        (default "" (ob_skiprange b)) deps props (ab_Replaces out) (ab_Skips out)).
Definition entries_of (d : db) (P : entry_row → Prop) `{!∀ e, Decision (P e)} : list (Z * entry_row) :=
  range (filter (λ ie, P ie.2) (channel_entry d)).

Definition SQLQuerier_GetBundle (d : db) (pkgName channelName csvName : string) : res api_Bundle :=
  match entries_of d (λ e, er_package e = pkgName ∧ er_channel e = channelName ∧ er_bundle e = csvName), operatorbundle d !! csvName with
  | (entryId, _) :: _, Some b => entry_bundle d entryId csvName b pkgName channelName
  | _, _ => Err (Errorf "no entry found for %s %s %s" [AStr pkgName; AStr channelName; AStr csvName])
  end.
Definition SQLQuerier_GetBundleForChannel (d : db) (pkgName channelName : string) : res api_Bundle :=
  let row := name ← channel d !! (pkgName, channelName);
             b ← operatorbundle d !! name;
             ie ← head (entries_of d (λ e, er_package e = pkgName ∧ er_channel e = channelName ∧ er_bundle e = name));
             Some (ie.1, name, b) in
  match row with
  | Some (entryId, name, b) => entry_bundle d entryId name b pkgName channelName
  | None => Err (Errorf "no entry found for %s %s" [AStr pkgName; AStr channelName])
  end.
(** What an entry replaces. *)
Definition replaced_entry (d : db) (e : entry_row) : option entry_row := er_replaces e ≫= λ r, channel_entry d !! r.
Definition SQLQuerier_GetChannelEntriesThatReplace (d : db) (name : string) : res (list ChannelEntry) :=
  match distinct ((λ ie, mkEntry (er_package ie.2) (er_channel ie.2) (er_bundle ie.2) name) <$>
                  filter (λ ie, er_bundle <$> replaced_entry d ie.2 = Some name) (map_to_list (channel_entry d))) with
  | [] => Err (Errorf "no channel entries found that replace %s" [AStr name])
  | entries => Ok entries
  end.
Definition SQLQuerier_GetBundleThatReplaces (d : db) (name pkgName channelName : string) : res api_Bundle :=
  let rows := any_order (
    ie ← map_to_list (channel_entry d);
    if decide (er_bundle ie.2 = name ∧ er_package ie.2 = pkgName ∧ er_channel ie.2 = channelName) then
      re ← map_to_list (filter (λ re, er_replaces re.2 = Some ie.1) (channel_entry d));
      match operatorbundle d !! er_bundle re.2 with Some b => [(re.1, er_bundle re.2, b)] | None => [] end
    else []) in
  match rows with
  | (entryId, outName, b) :: _ => entry_bundle d entryId outName b pkgName channelName
  | [] => Err (Errorf "no entry found for %s %s" [AStr pkgName; AStr channelName])
  end.

(** ** Bundles that provide an API *)
(** The entries joined with the properties of their bundle that are the API; an
    entry once for each of them. *)
Definition providing (d : db) (group version kind : string) : list (Z * entry_row) :=
  ie ← map_to_list (channel_entry d);
  (λ _, ie) <$> filter (λ r, pr_bundle r = er_bundle ie.2 ∧ pr_type r = GVKType ∧ pr_value r = Some (marshal_GVK group kind version)) (properties d).
Definition channel_entry_of (d : db) (e : entry_row) : ChannelEntry :=
  mkEntry (er_package e) (er_channel e) (er_bundle e) (default "" (er_bundle <$> replaced_entry d e)).
Definition no_provider (what group version kind : string) : error := Errorf what [AStr group; AStr version; AStr kind].
Definition SQLQuerier_GetChannelEntriesThatProvide (d : db) (group version kind : string) : res (list ChannelEntry) :=
  match distinct ((λ ie, channel_entry_of d ie.2) <$> providing d group version kind) with
  | [] => Err (no_provider "no channel entries found that provide %s %s %s" group version kind)
  | entries => Ok entries
  end.
(** [GROUP BY package_name, channel_name] with [MIN(depth)] *)
Definition group_of (ie : Z * entry_row) : string * string := (er_package ie.2, er_channel ie.2).
Definition latest (rows : list (Z * entry_row)) : list (Z * entry_row) :=
  omap (λ g, min_row (λ ie, er_depth ie.2) (any_order (filter (λ ie, group_of ie = g) rows))) (distinct (group_of <$> rows)).
Definition SQLQuerier_GetLatestChannelEntriesThatProvide (d : db) (group version kind : string) : res (list ChannelEntry) :=
  match (λ ie, channel_entry_of d ie.2) <$> latest (providing d group version kind) with
  | [] => Err (no_provider "no channel entries found that provide %s %s %s" group version kind)
  | entries => Ok entries
  end.
Definition SQLQuerier_GetBundleThatProvides (d : db) (group apiVersion kind : string) : res api_Bundle :=
  let none := no_provider "no entry found that provides %s %s %s" group apiVersion kind in
  let rows := filter (λ ie, is_Some (operatorbundle d !! er_bundle ie.2) ∧
                            package d !! er_package ie.2 = Some (Some (er_channel ie.2))) (providing d group apiVersion kind) in
  match latest rows with
  | [] => Err none
  | (entryId, e) :: _ =>
      match operatorbundle d !! er_bundle e with
      | None => Err none
      | Some b =>
          if decide (ob_bundle b = None) then Err none
          else entry_bundle d entryId (er_bundle e) b (er_package e) (er_channel e)
      end
  end.

(** ** All bundles *)
(** The entries reached from those of minimal depth along what they replace. *)
Definition tip (d : db) : list Z :=
  match min_row (λ ie, er_depth ie.2) (map_to_list (channel_entry d)) with
  | None => []
  | Some (_, m) => (filter (λ ie, er_depth ie.2 = er_depth m) (map_to_list (channel_entry d))).*1
  end.
Definition replaced_ids (d : db) (ids : gset Z) : gset Z :=
  list_to_set (omap (λ i, channel_entry d !! i ≫= er_replaces) (elements ids)).
Fixpoint replaces_closure (d : db) (fuel : nat) (ids : gset Z) : gset Z :=
  match fuel with
  | O => ids
  | S fuel' => replaces_closure d fuel' (ids ∪ filter (λ i, is_Some (channel_entry d !! i)) (replaced_ids d ids))
  end.
(** Each round but the last adds an entry. *)
Definition replaces_entries (d : db) : gset Z := replaces_closure d (size (channel_entry d)) (list_to_set (tip d)).

Definition entry_key3 (e : entry_row) : string * string * string := (er_bundle e, er_package e, er_channel e).
Definition max_str (l : list string) : option string :=
  match l with [] => None | x :: l' => Some (foldl (λ m y, if str_lt m y then y else m) x l') end.
Definition min_id (l : list Z) : Z := match l with [] => 0%Z | x :: l' => foldl Z.min x l' end.
Definition group3 (d : db) (k : string * string * string) : list (Z * entry_row) :=
  filter (λ ie, entry_key3 ie.2 = k) (map_to_list (channel_entry d)).
(** The replaced bundle: of several, the greatest name. *)
Definition group_replaces (d : db) (k : string * string * string) : option string :=
  max_str (omap (λ ie, if decide (ie.1 ∈ replaces_entries d) then er_bundle <$> replaced_entry d ie.2 else None) (group3 d k)).
(** The other edges, concatenated in any order. *)
Definition group_skips (d : db) (k : string * string * string) : option string :=
  match any_order (omap (λ ie, if decide (ie.1 ∈ replaces_entries d) then None else er_bundle <$> replaced_entry d ie.2) (group3 d k)) with
  | [] => None
  | l => Some (Join l ",")
  end.
Record list_row := mkListRow {
  lr_entry : Z; lr_key : string * string * string; lr_row : bundle_row; lr_replaces : option string; lr_skips : option string;
  lr_dep : option property_row; lr_prop : option property_row
}.
(** The matching rows of a left join. *)
Definition left_join {A} (l : list A) : list (option A) := match l with [] => [None] | _ => Some <$> l end.
Definition list_rows (d : db) : list list_row :=
  k ← remove_dups (entry_key3 ∘ snd <$> map_to_list (channel_entry d));
  match operatorbundle d !! k.1.1 with
  | None => []
  | Some b =>
      dep ← left_join (filter (λ r, pr_bundle r = k.1.1) (dependencies d));
      prop ← left_join (filter (λ r, pr_bundle r = k.1.1) (properties d));
      [mkListRow (min_id (group3 d k).*1) k b (group_replaces d k) (group_skips d k) dep prop]
  end.

Definition row_dep (r : list_row) : list api_Dependency :=
  match lr_dep r with Some p => match pr_value p with Some v => [mkADep (pr_type p) v] | None => [] end | None => [] end.
Definition row_prop (r : list_row) : list api_Property :=
  match lr_prop r with Some p => match pr_value p with Some v => [mkAProp (pr_type p) v] | None => [] end | None => [] end.
Definition add_row_values (r : list_row) (b : api_Bundle) : api_Bundle :=
  mkABundle (ab_CsvName b) (ab_PackageName b) (ab_ChannelName b) (ab_CsvJson b) (ab_Object b) (ab_BundlePath b)
    (ab_ProvidedApis b) (ab_RequiredApis b) (ab_Version b) (ab_SkipRange b)
    (ab_Dependencies b ++ row_dep r) (ab_Properties b ++ row_prop r) (ab_Replaces b) (ab_Skips b).
(** [fmt.Sprintf("%s/%s/%s/%s", name, version, path, channel)]; a row with a null
    among these is passed over. *)
Definition row_key (r : list_row) : option string :=
  v ← ob_version (lr_row r); p ← ob_bundlepath (lr_row r);
  Some ((lr_key r).1.1 +:+ "/" +:+ v +:+ "/" +:+ p +:+ "/" +:+ (lr_key r).2).
Definition new_bundle (d : db) (r : list_row) : res api_Bundle :=
  out ← stored_bundle (ob_bundle (lr_row r));
  gvks ← GetApisForEntry d (lr_entry r);
  Ok (mkABundle (lr_key r).1.1 (lr_key r).1.2 (lr_key r).2 (ab_CsvJson out) (ab_Object out) (default "" (ob_bundlepath (lr_row r)))
        gvks.1 gvks.2 (default "" (ob_version (lr_row r))) (default "" (ob_skiprange (lr_row r))) (row_dep r) (row_prop r)
        (default "" (lr_replaces r)) (match lr_skips r with Some s => Split ","%char s | None => ab_Skips out end)).
Definition list_step (d : db) (bundlesMap : gmap string api_Bundle) (r : list_row) : res (gmap string api_Bundle) :=
  match row_key r with
  | None => Ok bundlesMap
  | Some k =>
      match bundlesMap !! k with
      | Some b => Ok (<[k := add_row_values r b]> bundlesMap)
      | None => out ← new_bundle d r; Ok (<[k := out]> bundlesMap)
      end
  end.
(** The first of the entries with each key. *)
Fixpoint unique_by {A} (key : A → string) (seen : gset string) (l : list A) : list A :=
  match l with
  | [] => []
  | x :: l' => if decide (key x ∈ seen) then unique_by key seen l' else x :: unique_by key ({[key x]} ∪ seen) l'
  end.
Definition unique (deps : list api_Dependency) : list api_Dependency :=
  unique_by (λ d, adep_Type d +:+ "/" +:+ adep_Value d) ∅ deps.
Definition uniqueProps (props : list api_Property) : list api_Property :=
  unique_by (λ p, aprop_Type p +:+ "/" +:+ aprop_Value p) ∅ props.
Definition dedup_values (b : api_Bundle) : api_Bundle :=
  mkABundle (ab_CsvName b) (ab_PackageName b) (ab_ChannelName b) (ab_CsvJson b) (ab_Object b) (ab_BundlePath b)
    (ab_ProvidedApis b) (ab_RequiredApis b) (ab_Version b) (ab_SkipRange b)
    (if decide (1 < length (ab_Dependencies b)) then unique (ab_Dependencies b) else ab_Dependencies b)
    (if decide (1 < length (ab_Properties b)) then uniqueProps (ab_Properties b) else ab_Properties b)
    (ab_Replaces b) (ab_Skips b).
Definition SQLQuerier_ListBundles (d : db) : res (list api_Bundle) :=
  bundlesMap ← foldR (list_step d) ∅ (any_order (list_rows d));
  Ok (dedup_values ∘ snd <$> range bundlesMap).

(** ** Registry bundles *)
Definition listBundleChannels (d : db) (bundleName : string) : res (list string) :=
  Ok (match operatorbundle d !! bundleName with
      | Some _ => distinct (er_channel ∘ snd <$> filter (λ ie, er_bundle ie.2 = bundleName) (map_to_list (channel_entry d)))
      | None => []
      end).
(** The package of the context, if there is one, filters the rows. *)
Definition registry_rows (d : db) (pkg : option string) : list (string * bundle_row * option string) :=
  nb ← map_to_list (operatorbundle d);
  let packages := remove_dups (er_package ∘ snd <$> filter (λ ie, er_bundle ie.2 = nb.1) (map_to_list (channel_entry d))) in
  match pkg with
  | Some p => if decide (p ∈ packages) then [(nb, Some p)] else []
  | None => (λ p, (nb, p)) <$> left_join packages
  end.
(** The switch tests the package only when version and bundle are not null. *)
Definition registry_bundle (d : db) (row : string * bundle_row * option string) : res registry_Bundle :=
  let '(name, b, pkg) := row in
  if decide (is_Some (ob_version b) ∧ is_Some (ob_bundle b) ∧ pkg = None) then Err (ErrNew "package name column corrupted")
  else
    channels ← wrap_err (λ e, Errorf "unable to list channels for bundle %s: %s" [AStr name; AErr e]) (listBundleChannels d name);
    defaultChannel ← GetDefaultChannelForPackage d (default "" pkg);
    wrap_err (λ e, Errorf "unable to unmarshal bundle %s from database: %s" [AStr name; AErr e])
      (NewBundleFromStrings decode_object name (default "" (ob_version b)) (default "" pkg) defaultChannel (Join channels ",")
         (default "" (ob_bundle b))).
Definition ListRegistryBundles (d : db) (pkg : option string) : res (list registry_Bundle) :=
  mapR (registry_bundle d) (any_order (registry_rows d pkg)).

(** ** The store of the server *)
Definition SQLQuerier : GRPCQuery db := {|
  ListPackages := SQLQuerier_ListPackages;
  ListBundles := SQLQuerier_ListBundles;
  GetPackage := SQLQuerier_GetPackage;
  GetBundle := SQLQuerier_GetBundle;
  GetBundleForChannel := SQLQuerier_GetBundleForChannel;
  GetChannelEntriesThatReplace := SQLQuerier_GetChannelEntriesThatReplace;
  GetBundleThatReplaces := SQLQuerier_GetBundleThatReplaces;
  GetChannelEntriesThatProvide := SQLQuerier_GetChannelEntriesThatProvide;
  GetLatestChannelEntriesThatProvide := SQLQuerier_GetLatestChannelEntriesThatProvide;
  GetBundleThatProvides := SQLQuerier_GetBundleThatProvides
|}.
End queries.
