(* ===== verification/SqlQuerySpec.v ===== *)
(** * What the queries on the index return

    The querier of [pkg/sqlite/query.go] as a store of the registry server; what
    is returned for a bundle that was just added; the entries that provide an API;
    and the listing of all bundles. *)
From S2P Require Import Prelude Semver Json JsonCompact JsonStream Property JsonTotal Model ModelOps Declcfg DeclcfgConv DeclcfgRoundtrip DeclcfgWrite DeclcfgLoad RegistryTypes RegistryBundle RegistryBundleSpec Api Query QuerySpec Conversion Server Graph GraphSpec Sql SqlLoad SqlInv SqlTail SqlGraph SqlRoundtrip SqlAdd SqlAddInv SqlAddSpec SqlQuery.
From stdpp Require Import options.

(** ** Rows *)
Section rows.
Context `{GoRuntime}.

Lemma distinct_NoDup {A} `{EqDecision A} (l : list A) : NoDup (distinct l).
Proof. unfold distinct. rewrite any_order_perm. apply NoDup_remove_dups. Qed.
Lemma elem_of_distinct {A} `{EqDecision A} (l : list A) x : x ∈ distinct l ↔ x ∈ l.
Proof. unfold distinct. rewrite any_order_perm. apply elem_of_remove_dups. Qed.
Lemma distinct_perm {A} `{EqDecision A} (l : list A) : NoDup l → distinct l ≡ₚ l.
Proof. intros Hl. apply NoDup_Permutation; [apply distinct_NoDup|done|]. apply elem_of_distinct. Qed.

Lemma elem_of_any_order {A} (x : A) l : x ∈ any_order l ↔ x ∈ l.
Proof. by rewrite any_order_perm. Qed.

Lemma min_row_spec {A} (depth : A → Z) l :
  match min_row depth l with
  | Some x => x ∈ l ∧ ∀ y, y ∈ l → (depth x ≤ depth y)%Z
  | None => l = []
  end.
Proof.
  induction l as [|x l IH]; simpl; [done|].
  destruct (min_row depth l) as [y|]; [|subst l; set_solver].
  destruct IH as [Hy IH]. destruct (Z.ltb_spec (depth y) (depth x)); (split; [set_solver|]);
    intros z [->|Hz]%elem_of_cons; try specialize (IH _ Hz); lia.
Qed.

(** Without nulls every row is converted. *)
Definition row_value {B} (f : string → string → B) (tv : string * option string) : option B := f tv.1 <$> tv.2.
Lemma valid_rows_omap {B} (f : string → string → B) rows :
  Forall (λ tv, is_Some tv.2) rows → valid_rows f rows = omap (row_value f) rows.
Proof.
  unfold valid_rows. intros Hr. assert (mapM (row_value f) rows = Some (omap (row_value f) rows)) as E.
  { induction Hr as [|[t v] rows [x Hx] Hr IH]; [done|]. simpl in *. unfold row_value in *. subst v. simpl. by rewrite IH. }
  unfold row_value in *. by rewrite E.
Qed.
Lemma omap_row_values {B} (f : string → string → B) (l : list (string * string)) :
  omap (row_value f) ((λ tv, (tv.1, Some tv.2)) <$> l) = (λ tv, f tv.1 tv.2) <$> l.
Proof. induction l as [|[t v] l IH]; [done|]. csimpl. by f_equal. Qed.
Lemma omap_row_value_NoDup {B} (f : string → string → B) rows :
  (∀ t v t' v', f t v = f t' v' → t = t' ∧ v = v') → NoDup rows → NoDup (omap (row_value f) rows).
Proof.
  intros Hf. induction 1 as [|[t v] rows Hx Hr IH]; [constructor|]. simpl. destruct v as [v|]; [|done].
  constructor; [|done]. intros ([t' v'] & Hin & E)%list_elem_of_omap. unfold row_value in E. simpl in E.
  destruct v' as [v'|]; [|done]. simpl in E. injection E as E. apply Hf in E as [-> ->]. done.
Qed.

Lemma bundle_rows_added rows name v p l :
  (∀ r, r ∈ rows → pr_bundle r ≠ name) → bundle_rows (rows ++ rows_of name v p l) name v p = l.
Proof.
  intros Hr. unfold bundle_rows. rewrite filter_app, filter_none.
  2: { intros r Hx [E _]. by apply (Hr r). }
  simpl. induction l as [|[t x] l IH]; [done|]. simpl. rewrite filter_cons_True; [by simpl; f_equal|].
  simpl. unfold sqlString. repeat case_decide; naive_solver.
Qed.
End rows.

(** ** Adding and getting a bundle *)
Section add_get.
Context `{GoRuntime}.
Variable di : RawMessage → res install_strategy.

End add_get.

(** ** Entries that provide an API *)
Section provide.
Context `{GoRuntime}.

Lemma elem_of_providing d g v k i e :
  (i, e) ∈ providing d g v k ↔ channel_entry d !! i = Some e ∧
    ∃ r, r ∈ properties d ∧ pr_bundle r = er_bundle e ∧ pr_type r = GVKType ∧ pr_value r = Some (marshal_GVK g k v).
Proof.
  unfold providing. rewrite list_elem_of_bind. setoid_rewrite list_elem_of_fmap. setoid_rewrite list_elem_of_filter. split.
  - intros ([j e'] & (r & [= -> ->] & (? & ? & ?) & ?) & Hj%elem_of_map_to_list). eauto 10.
  - intros [Hi (r & ? & ? & ? & ?)]. exists (i, e). rewrite elem_of_map_to_list. eauto 10.
Qed.

(** One row of each group, with the least depth. *)
Lemma latest_spec rows :
  NoDup (group_of <$> latest rows) ∧
  (∀ ie, ie ∈ latest rows → ie ∈ rows ∧ ∀ ie', ie' ∈ rows → group_of ie' = group_of ie → (er_depth ie.2 ≤ er_depth ie'.2)%Z) ∧
  (∀ ie, ie ∈ rows → ∃ ie', ie' ∈ latest rows ∧ group_of ie' = group_of ie).
Proof.
  set (pick g := min_row (λ ie : Z * entry_row, er_depth ie.2) (any_order (filter (λ ie, group_of ie = g) rows))).
  assert (∀ g ie, pick g = Some ie → group_of ie = g ∧ ie ∈ rows ∧
    ∀ ie', ie' ∈ rows → group_of ie' = g → (er_depth ie.2 ≤ er_depth ie'.2)%Z) as Hpick.
  { intros g ie E. pose proof (min_row_spec (λ ie : Z * entry_row, er_depth ie.2) (any_order (filter (λ ie, group_of ie = g) rows))) as Hm.
    fold (pick g) in Hm. rewrite E in Hm. setoid_rewrite any_order_perm in Hm. setoid_rewrite list_elem_of_filter in Hm. destruct Hm as [[? ?] Hm]. split_and!; auto. }
  assert (∀ ie, ie ∈ latest rows → ∃ g, pick g = Some ie) as Hel.
  { intros ie (g & _ & E)%list_elem_of_omap. eauto. }
  split_and!.
  - unfold latest. fold pick. generalize (distinct_NoDup (group_of <$> rows)). generalize (distinct (group_of <$> rows)). intros gs.
    induction 1 as [|g gs Hg _ IH]; [constructor|]. csimpl. fold (pick g). destruct (pick g) as [ie|] eqn:E; [|done]. csimpl. constructor; [|done].
    apply Hpick in E as [-> _]. intros (ie' & Eg & (g' & Hg' & E)%list_elem_of_omap)%list_elem_of_fmap.
    fold (pick g') in E. apply Hpick in E as [E _]. by rewrite Eg, E in Hg.
  - intros ie Hin. destruct (Hel _ Hin) as [g (<- & ? & ?)%Hpick]. done.
  - intros ie Hin. destruct (pick (group_of ie)) as [ie'|] eqn:E.
    + exists ie'. split; [|by destruct (Hpick _ _ E)]. unfold latest. apply list_elem_of_omap. exists (group_of ie). split; [|done].
      apply elem_of_distinct. by apply list_elem_of_fmap_2.
    + exfalso. pose proof (min_row_spec (λ ie : Z * entry_row, er_depth ie.2) (any_order (filter (λ ie', group_of ie' = group_of ie) rows))) as Hm.
      fold (pick (group_of ie)) in Hm. rewrite E in Hm. assert (ie ∈ any_order (filter (λ ie', group_of ie' = group_of ie) rows)) as Hx.
      { rewrite any_order_perm. by apply list_elem_of_filter. }
      rewrite Hm in Hx. inversion Hx.
Qed.

(** The latest entries that provide an API are one for each channel with an
    entry that does, and that of the least depth.  There is an error exactly when
    no entry provides the API; an entry provides it when its bundle has the
    property with exactly the text the loader writes. *)
Theorem GetLatestChannelEntriesThatProvide_spec d g v k :
  match SQLQuerier_GetLatestChannelEntriesThatProvide d g v k with
  | Ok entries => ∃ rows, entries = (λ ie, channel_entry_of d ie.2) <$> rows ∧ NoDup (group_of <$> rows) ∧
      (∀ ie, ie ∈ rows → ie ∈ providing d g v k ∧
        ∀ ie', ie' ∈ providing d g v k → group_of ie' = group_of ie → (er_depth ie.2 ≤ er_depth ie'.2)%Z) ∧
      (∀ ie, ie ∈ providing d g v k → ∃ ie', ie' ∈ rows ∧ group_of ie' = group_of ie)
  | Err _ => ∀ i e r, channel_entry d !! i = Some e → r ∈ properties d → pr_bundle r = er_bundle e → pr_type r = GVKType →
      pr_value r ≠ Some (marshal_GVK g k v)
  | Panic => False
  end.
Proof.
  unfold SQLQuerier_GetLatestChannelEntriesThatProvide. destruct (latest_spec (providing d g v k)) as (Hn & Hm & Hc).
  destruct (latest (providing d g v k)) as [|x rows] eqn:E.
  - simpl. intros i e r Hi Hr Hb Ht Hv. destruct (Hc (i, e)) as (ie & Hin & _); [|inversion Hin]. apply elem_of_providing. eauto 10.
  - cbn [fmap list_fmap]. exists (x :: rows). split_and!; done.
Qed.
End provide.

(** ** No panic *)
Lemma bind_no_panic {A B} (m : res A) (f : A → res B) : m ≠ Panic → (∀ a, f a ≠ Panic) → (m ≫= f) ≠ Panic.
Proof. destruct m; [|done..]. intros _ Hf. apply Hf. Qed.
Lemma foldR_no_panic {S A} (f : S → A → res S) s l : (∀ s x, f s x ≠ Panic) → foldR f s l ≠ Panic.
Proof. intros Hf. revert s. induction l as [|x l IH]; intros s; simpl; [done|]. specialize (Hf s x). destruct (f s x); [apply IH|done..]. Qed.
Lemma decode_all_no_panic fuel s : decode_all fuel s ≠ Panic.
Proof.
  revert s. induction fuel as [|fuel IH]; intros s; simpl; (destruct (more s); [|done]); [done|].
  destruct (decode_raw s) as [[raw rest]|]; [|done]. apply bind_no_panic; [apply IH|done].
Qed.

Section no_panic.
Context `{GoRuntime}.
Variable decode_meta : string → res (string * string).
Variable odd_names : gset string → gset string → gset string → api_tables → res (list (gvk * string)).
Hypothesis meta_safe : ∀ s, decode_meta s ≠ Panic.
Hypothesis names_safe : ∀ g v k t, odd_names g v k t ≠ Panic.

Lemma BundleStringToAPIBundle_no_panic s : BundleStringToAPIBundle decode_meta s ≠ Panic.
Proof using meta_safe.
  unfold BundleStringToAPIBundle. apply bind_no_panic; [apply decode_all_no_panic|]. intros objs. apply bind_no_panic.
  - induction objs as [|o objs IH]; [done|]. apply bind_no_panic; [apply meta_safe|]. intros u. by case_decide.
  - intros csv. destruct (default _ csv). by case_decide.
Qed.
Lemma stored_bundle_no_panic o : stored_bundle decode_meta o ≠ Panic.
Proof using meta_safe. destruct o as [s|]; simpl; [|done]. case_decide; [done|apply BundleStringToAPIBundle_no_panic]. Qed.
Lemma GetApisForEntry_no_panic d i : GetApisForEntry odd_names d i ≠ Panic.
Proof using names_safe.
  unfold GetApisForEntry, plural_rows. apply bind_no_panic; [|done]. destruct (forallb _ _); [done|].
  apply bind_no_panic; [apply names_safe|done].
Qed.
Lemma entry_bundle_no_panic d i n b p c : entry_bundle decode_meta odd_names d i n b p c ≠ Panic.
Proof using meta_safe names_safe.
  apply bind_no_panic; [apply stored_bundle_no_panic|]. intros out. apply bind_no_panic; [apply GetApisForEntry_no_panic|done].
Qed.
Lemma list_step_no_panic d m r : list_step decode_meta odd_names d m r ≠ Panic.
Proof using meta_safe names_safe.
  unfold list_step. destruct (row_key r); [|done]. destruct (m !! _); [done|]. apply bind_no_panic; [|done].
  apply bind_no_panic; [apply stored_bundle_no_panic|]. intros out. apply bind_no_panic; [apply GetApisForEntry_no_panic|done].
Qed.

(** No query on an index panics, whatever is stored in it: the querier of the
    index is a store a registry server can rely on. *)
Theorem SQLQuerier_no_panic d : safe_query (H := SQLQuerier decode_meta odd_names) d.
Proof using meta_safe names_safe.
  intros a b c. cbn [ListPackages ListBundles GetPackage GetBundle GetBundleForChannel GetChannelEntriesThatReplace
    GetBundleThatReplaces GetChannelEntriesThatProvide GetLatestChannelEntriesThatProvide GetBundleThatProvides SQLQuerier].
  split_and!.
  - done.
  - apply bind_no_panic; [|done]. apply foldR_no_panic. apply list_step_no_panic.
  - unfold SQLQuerier_GetPackage. by destruct (match package d !! a with Some _ => _ | None => _ end) as [|[[? ?] ?] ?].
  - unfold SQLQuerier_GetBundle. destruct (entries_of d _) as [|[i e] ?]; [done|]. destruct (operatorbundle d !! c); [|done].
    apply entry_bundle_no_panic.
  - unfold SQLQuerier_GetBundleForChannel. destruct (_ ≫= _) as [[[i n] b']|]; [|done]. apply entry_bundle_no_panic.
  - unfold SQLQuerier_GetChannelEntriesThatReplace. by destruct (distinct _).
  - unfold SQLQuerier_GetBundleThatReplaces. destruct (any_order _) as [|[[i n] b'] ?]; [done|]. apply entry_bundle_no_panic.
  - unfold SQLQuerier_GetChannelEntriesThatProvide. by destruct (distinct _).
  - unfold SQLQuerier_GetLatestChannelEntriesThatProvide. by destruct (_ <$> _).
  - unfold SQLQuerier_GetBundleThatProvides. destruct (latest _) as [|[i e] ?]; [done|].
    destruct (operatorbundle d !! er_bundle e); [|done]. case_decide; [done|]. apply entry_bundle_no_panic.
Qed.
End no_panic.
Lemma SQLQuerier_no_panic_witness :
  SQLQuerier_ListBundles (H := go_default) (λ s, Ok ("", s)) (λ _ _ _ _, Ok []) empty_db ≠ Panic ∧
  SQLQuerier_GetBundle (H := go_default) (λ s, Ok ("", s)) (λ _ _ _ _, Ok []) empty_db "etcd" "alpha" "etcd.v1" ≠ Panic.
Proof.
  destruct (SQLQuerier_no_panic (H := go_default) (λ s, Ok ("", s)) (λ _ _ _ _, Ok []) ltac:(done) ltac:(done) empty_db "etcd" "alpha" "etcd.v1")
    as (_ & Hl & _ & Hb & _). exact (conj Hl Hb).
Defined.

(** ** The listing of all bundles *)
Lemma unique_by_spec {A} (key : A → string) seen l :
  (∀ x y, x ∈ l → y ∈ l → key x = key y → x = y) →
  NoDup (unique_by key seen l) ∧ ∀ x, x ∈ unique_by key seen l ↔ x ∈ l ∧ key x ∉ seen.
Proof.
  revert seen. induction l as [|a l IH]; intros seen Hinj; simpl; [split; [constructor|set_solver]|].
  assert (∀ x y, x ∈ l → y ∈ l → key x = key y → x = y) as Hinj' by (intros; apply Hinj; set_solver).
  case_decide as Ha.
  - destruct (IH seen Hinj') as [IH1 IH2]. split; [done|]. intros x. rewrite IH2. set_solver.
  - destruct (IH ({[key a]} ∪ seen) Hinj') as [IH1 IH2]. split.
    + constructor; [|done]. rewrite IH2. set_solver.
    + intros x. rewrite elem_of_cons, IH2, elem_of_cons. split; [set_solver|].
      intros [[->|Hx] Hs]; [by left|]. destruct (decide (key x = key a)) as [E|E].
      * left. apply Hinj; [set_solver..|done].
      * right. set_solver.
Qed.
Lemma slash_key_inj t v t' v' : str_free "/" t → str_free "/" t' → t +:+ "/" +:+ v = t' +:+ "/" +:+ v' → t = t' ∧ v = v'.
Proof.
  intros Ht Ht' E. assert (Cut "/" (t +:+ "/" +:+ v) = Cut "/" (t' +:+ "/" +:+ v')) as E' by by rewrite E.
  change ("/" +:+ v) with (String "/" v) in E'. change ("/" +:+ v') with (String "/" v') in E'.
  rewrite !Cut_app in E' by done. naive_solver.
Qed.

Section listing.
Context `{GoRuntime}.
Implicit Types (r : list_row) (k : string * string * string).

(** The text a bundle in a channel is listed under, when nothing of it is null. *)
Definition list_key d k : option string :=
  b ← operatorbundle d !! k.1.1; v ← ob_version b; p ← ob_bundlepath b;
  Some (k.1.1 +:+ "/" +:+ v +:+ "/" +:+ p +:+ "/" +:+ k.2).
Definition entry_keys d : list (string * string * string) := remove_dups (entry_key3 ∘ snd <$> map_to_list (channel_entry d)).

Lemma elem_of_list_rows d r :
  r ∈ list_rows d ↔ lr_key r ∈ entry_keys d ∧ operatorbundle d !! (lr_key r).1.1 = Some (lr_row r) ∧
    lr_dep r ∈ left_join (filter (λ x, pr_bundle x = (lr_key r).1.1) (dependencies d)) ∧
    lr_prop r ∈ left_join (filter (λ x, pr_bundle x = (lr_key r).1.1) (properties d)) ∧
    lr_entry r = min_id (group3 d (lr_key r)).*1 ∧ lr_replaces r = group_replaces d (lr_key r) ∧ lr_skips r = group_skips d (lr_key r).
Proof.
  unfold list_rows. fold (entry_keys d). rewrite list_elem_of_bind. split.
  - intros (k & Hr & Hk). destruct (operatorbundle d !! k.1.1) as [b|] eqn:Eb; [|inversion Hr].
    apply list_elem_of_bind in Hr as (dep & (prop & Hr & Hp)%list_elem_of_bind & Hd). apply list_elem_of_singleton in Hr as ->. done.
  - destruct r as [i k b rep sk dep prop]. simpl. intros (Hk & Hb & Hd & Hp & -> & -> & ->). exists k. split; [|done]. rewrite Hb.
    apply list_elem_of_bind. exists dep. split; [|done]. apply list_elem_of_bind. exists prop. split; [|done]. by apply list_elem_of_singleton.
Qed.
Lemma row_key_list_key d r : r ∈ list_rows d → row_key r = list_key d (lr_key r).
Proof. intros (_ & Hb & _)%elem_of_list_rows. unfold row_key, list_key. by rewrite Hb. Qed.

Lemma left_join_Some {A} (l : list A) x : Some x ∈ left_join l ↔ x ∈ l.
Proof. destruct l; [set_solver|]. unfold left_join. rewrite list_elem_of_fmap. naive_solver. Qed.
Lemma left_join_inhabited {A} (l : list A) : ∃ x, x ∈ left_join l.
Proof. destruct l; simpl; eexists; by left. Qed.
Lemma elem_of_row_prop r t v : mkAProp t v ∈ row_prop r ↔ ∃ p, lr_prop r = Some p ∧ pr_type p = t ∧ pr_value p = Some v.
Proof.
  unfold row_prop. destruct (lr_prop r) as [p|]; [|split; [inversion 1|naive_solver]].
  destruct (pr_value p) as [w|] eqn:E; [|split; [inversion 1|naive_solver]]. rewrite list_elem_of_singleton. naive_solver.
Qed.
Lemma elem_of_row_dep r t v : mkADep t v ∈ row_dep r ↔ ∃ p, lr_dep r = Some p ∧ pr_type p = t ∧ pr_value p = Some v.
Proof.
  unfold row_dep. destruct (lr_dep r) as [p|]; [|split; [inversion 1|naive_solver]].
  destruct (pr_value p) as [w|] eqn:E; [|split; [inversion 1|naive_solver]]. rewrite list_elem_of_singleton. naive_solver.
Qed.

(** The values of the rows of a bundle. *)
Definition has_value (rows : list property_row) (name t v : string) : Prop :=
  ∃ p, p ∈ rows ∧ pr_bundle p = name ∧ pr_type p = t ∧ pr_value p = Some v.
Lemma rows_values d k b t v :
  k ∈ entry_keys d → operatorbundle d !! k.1.1 = Some b →
  ((∃ r, r ∈ list_rows d ∧ lr_key r = k ∧ mkAProp t v ∈ row_prop r) ↔ has_value (properties d) k.1.1 t v) ∧
  ((∃ r, r ∈ list_rows d ∧ lr_key r = k ∧ mkADep t v ∈ row_dep r) ↔ has_value (dependencies d) k.1.1 t v).
Proof.
  intros Hk Hb. unfold has_value. setoid_rewrite elem_of_list_rows. setoid_rewrite elem_of_row_prop. setoid_rewrite elem_of_row_dep. split; split.
  - intros (r & (_ & _ & _ & Hp & _) & <- & p & Ep & Ht & Hv). rewrite Ep, left_join_Some, list_elem_of_filter in Hp. naive_solver.
  - intros (p & Hp & Hn & Ht & Hv). destruct (left_join_inhabited (filter (λ x, pr_bundle x = k.1.1) (dependencies d))) as [dep Hdep].
    exists (mkListRow (min_id (group3 d k).*1) k b (group_replaces d k) (group_skips d k) dep (Some p)). simpl.
    rewrite left_join_Some, list_elem_of_filter. eauto 20.
  - intros (r & (_ & _ & Hp & _) & <- & p & Ep & Ht & Hv). rewrite Ep, left_join_Some, list_elem_of_filter in Hp. naive_solver.
  - intros (p & Hp & Hn & Ht & Hv). destruct (left_join_inhabited (filter (λ x, pr_bundle x = k.1.1) (properties d))) as [prop Hprop].
    exists (mkListRow (min_id (group3 d k).*1) k b (group_replaces d k) (group_skips d k) (Some p) prop). simpl.
    rewrite left_join_Some, list_elem_of_filter. eauto 20.
Qed.

Lemma listed_row d k s : k ∈ entry_keys d → list_key d k = Some s → ∃ r, r ∈ list_rows d ∧ lr_key r = k.
Proof.
  intros Hk Hs. unfold list_key in Hs. destruct (operatorbundle d !! k.1.1) as [b|] eqn:Eb; [|done].
  destruct (left_join_inhabited (filter (λ x, pr_bundle x = k.1.1) (dependencies d))) as [dep Hdep].
  destruct (left_join_inhabited (filter (λ x, pr_bundle x = k.1.1) (properties d))) as [prop Hprop].
  exists (mkListRow (min_id (group3 d k).*1) k b (group_replaces d k) (group_skips d k) dep prop).
  rewrite elem_of_list_rows. simpl. done.
Qed.

Lemma dedup_list {A} (key : A → string) (l : list A) :
  (∀ x y, x ∈ l → y ∈ l → key x = key y → x = y) →
  let l' := if decide (1 < length l) then unique_by key ∅ l else l in NoDup l' ∧ ∀ x, x ∈ l' ↔ x ∈ l.
Proof.
  intros Hinj. simpl. case_decide as Hl.
  - destruct (unique_by_spec key ∅ l Hinj) as [Hn Hx]. split; [done|]. intros x. rewrite Hx. set_solver.
  - split; [|done]. destruct l as [|x [|y l]]; [constructor|apply NoDup_singleton|simpl in Hl; lia].
Qed.

Variable decode_meta : string → res (string * string).
Variable odd_names : gset string → gset string → gset string → api_tables → res (list (gvk * string)).

(** The rows of a key are gathered in one bundle, made from the first of them. *)
Definition gathered d (rows : list list_row) (s : string) (start : option api_Bundle) (final : option api_Bundle) : Prop :=
  match start, filter (λ r, row_key r = Some s) rows with
  | Some b, rs => final = Some (foldl (flip add_row_values) b rs)
  | None, [] => final = None
  | None, r :: rs => ∃ b, new_bundle decode_meta odd_names d r = Ok b ∧ final = Some (foldl (flip add_row_values) b rs)
  end.
Lemma list_fold_gathers d rows m m' :
  foldR (list_step decode_meta odd_names d) m rows = Ok m' → ∀ s, gathered d rows s (m !! s) (m' !! s).
Proof.
  revert m. induction rows as [|r rows IH]; intros m E s; simpl in E.
  - injection E as <-. unfold gathered. simpl. by destruct (m !! s).
  - apply bind_Ok in E as (m1 & E1 & E). specialize (IH m1 E s). revert E1. unfold list_step. destruct (row_key r) as [s'|] eqn:Er.
    2: { intros [= <-]. unfold gathered in *. rewrite filter_cons_False by congruence. done. }
    destruct (decide (s' = s)) as [->|Hs]; destruct (m !! _) as [b|] eqn:Eb.
    + intros [= <-]. unfold gathered in *. rewrite filter_cons_True by done. by rewrite lookup_insert_eq in IH.
    + intros (b & Hb & [= <-])%bind_Ok. unfold gathered in *. rewrite filter_cons_True by done. rewrite lookup_insert_eq in IH. eauto.
    + intros [= <-]. unfold gathered in *. rewrite filter_cons_False by congruence. by rewrite lookup_insert_ne in IH.
    + intros (b' & Hb & [= <-])%bind_Ok. unfold gathered in *. rewrite filter_cons_False by congruence. by rewrite lookup_insert_ne in IH.
Qed.
Lemma add_rows_fields b rs :
  let b' := foldl (flip add_row_values) b rs in
  ab_Dependencies b' = ab_Dependencies b ++ (rs ≫= row_dep) ∧ ab_Properties b' = ab_Properties b ++ (rs ≫= row_prop) ∧
  (ab_CsvName b', ab_PackageName b', ab_ChannelName b') = (ab_CsvName b, ab_PackageName b, ab_ChannelName b) ∧
  (ab_Replaces b', ab_Skips b') = (ab_Replaces b, ab_Skips b).
Proof.
  revert b. induction rs as [|r rs IH]; intros b; simpl; [by rewrite !app_nil_r|].
  destruct (IH (add_row_values r b)) as (-> & -> & E & E'). simpl in *. rewrite <- !app_assoc. done.
Qed.

(** A listed bundle, of the rows of its key. *)
Definition bundle_triple (b : api_Bundle) : string * string * string := (ab_CsvName b, ab_PackageName b, ab_ChannelName b).
Lemma gathered_bundle d rows s b :
  (∀ r, r ∈ rows → r ∈ list_rows d) → gathered d rows s None (Some b) →
  ∃ r, r ∈ rows ∧ row_key r = Some s ∧ bundle_triple b = lr_key r ∧
    ab_Replaces b = default "" (group_replaces d (lr_key r)) ∧
    (∀ x, x ∈ ab_Properties b ↔ ∃ r', r' ∈ rows ∧ row_key r' = Some s ∧ x ∈ row_prop r') ∧
    (∀ x, x ∈ ab_Dependencies b ↔ ∃ r', r' ∈ rows ∧ row_key r' = Some s ∧ x ∈ row_dep r').
Proof.
  intros Hrows. unfold gathered. destruct (filter _ rows) as [|r rs] eqn:Ef; [done|]. intros (b0 & Hb & [= ->]).
  assert (∀ r', r' ∈ r :: rs ↔ r' ∈ rows ∧ row_key r' = Some s) as Hin.
  { intros r'. rewrite <- Ef, list_elem_of_filter. tauto. }
  destruct (proj1 (Hin r)) as [Hr Hk]; [by left|]. exists r. split_and!; [done..| | | |].
  all: destruct (add_rows_fields b0 rs) as (Ed & Ep & Et & Er); unfold new_bundle in Hb; inv_ok; subst b0; cbn -[row_prop row_dep] in *.
  - unfold bundle_triple. rewrite Et. by destruct (lr_key r) as [[? ?] ?].
  - injection Er as -> _. apply Hrows, elem_of_list_rows in Hr as (_ & _ & _ & _ & _ & -> & _). done.
  - intros y. rewrite Ep. change (row_prop r ++ (rs ≫= row_prop)) with ((r :: rs) ≫= row_prop). rewrite list_elem_of_bind.
    setoid_rewrite Hin. naive_solver.
  - intros y. rewrite Ed. change (row_dep r ++ (rs ≫= row_dep)) with ((r :: rs) ≫= row_dep). rewrite list_elem_of_bind.
    setoid_rewrite Hin. naive_solver.
Qed.

(** The keys of the index tell its bundles apart. *)
Record separate d : Prop := {
  sep_key : ∀ k k' s, k ∈ entry_keys d → k' ∈ entry_keys d → list_key d k = Some s → list_key d k' = Some s → k = k';
  sep_type : ∀ p, p ∈ properties d ++ dependencies d → str_free "/" (pr_type p)
}.
Definition listed_bundle d (b : api_Bundle) : Prop :=
  ab_Replaces b = default "" (group_replaces d (bundle_triple b)) ∧
  NoDup (ab_Properties b) ∧ (∀ t v, mkAProp t v ∈ ab_Properties b ↔ has_value (properties d) (ab_CsvName b) t v) ∧
  NoDup (ab_Dependencies b) ∧ (∀ t v, mkADep t v ∈ ab_Dependencies b ↔ has_value (dependencies d) (ab_CsvName b) t v).

Lemma gathered_listed d rows s b :
  separate d → rows ≡ₚ list_rows d → gathered d rows s None (Some b) →
  bundle_triple b ∈ entry_keys d ∧ list_key d (bundle_triple b) = Some s ∧ listed_bundle d (dedup_values b).
Proof.
  intros [Hsep Htype] Hrows Hg.
  destruct (gathered_bundle d rows s b) as (r & Hr & Hk & Et & Er & Hp & Hd); [by intros r; rewrite Hrows|done|].
  setoid_rewrite Hrows in Hp. setoid_rewrite Hrows in Hd. rewrite Hrows in Hr.
  pose proof Hr as (Hkey & Hb & _)%elem_of_list_rows. rewrite (row_key_list_key d) in Hk by done. rewrite Et. split_and!; [done..|].
  assert (∀ r', r' ∈ list_rows d ∧ row_key r' = Some s ↔ r' ∈ list_rows d ∧ lr_key r' = lr_key r) as Hrow.
  { intros r'. split; intros [Hr' Hk']; (split; [done|]).
    - rewrite (row_key_list_key d) in Hk' by done. apply elem_of_list_rows in Hr' as [Hkey' _]. by eapply Hsep.
    - rewrite (row_key_list_key d) by done. by rewrite Hk'. }
  assert (ab_CsvName b = (lr_key r).1.1) as En by (rewrite <- Et; done).
  assert (∀ t v, mkAProp t v ∈ ab_Properties b ↔ has_value (properties d) (ab_CsvName b) t v) as Hp'.
  { intros t v. rewrite Hp, En, <- (proj1 (rows_values d _ _ t v Hkey Hb)). split; intros (r' & ?); exists r'; specialize (Hrow r'); tauto. }
  assert (∀ t v, mkADep t v ∈ ab_Dependencies b ↔ has_value (dependencies d) (ab_CsvName b) t v) as Hd'.
  { intros t v. rewrite Hd, En, <- (proj2 (rows_values d _ _ t v Hkey Hb)). split; intros (r' & ?); exists r'; specialize (Hrow r'); tauto. }
  unfold listed_bundle, dedup_values. cbn [ab_Replaces ab_Properties ab_Dependencies ab_CsvName].
  destruct (dedup_list (λ p, aprop_Type p +:+ "/" +:+ aprop_Value p) (ab_Properties b)) as [Np Ep].
  { intros [t v] [t' v'] (p & Hpp & _ & <- & _)%Hp' (p' & Hpp' & _ & <- & _)%Hp' E. simpl in E.
    apply slash_key_inj in E as [-> ->]; [done|apply Htype; set_solver..]. }
  destruct (dedup_list (λ p, adep_Type p +:+ "/" +:+ adep_Value p) (ab_Dependencies b)) as [Nd Ed].
  { intros [t v] [t' v'] (p & Hpp & _ & <- & _)%Hd' (p' & Hpp' & _ & <- & _)%Hd' E. simpl in E.
    apply slash_key_inj in E as [-> ->]; [done|apply Htype; set_solver..]. }
  split_and!; [by rewrite Er, <- Et|done| |done|]; intros t v; [by rewrite Ep|by rewrite Ed].
Qed.

(** C28. Listing the bundles of an index whose keys tell its bundles apart returns
    each bundle once for every channel of every package it is in (bundles with a
    null version or path apart), with each of its properties and each of its
    dependencies once, and what it replaces along the chains from the tips. *)
Theorem SQLQuerier_ListBundles_spec d l :
  separate d → SQLQuerier_ListBundles decode_meta odd_names d = Ok l →
  (bundle_triple <$> l) ≡ₚ filter (λ k, is_Some (list_key d k)) (entry_keys d) ∧ Forall (listed_bundle d) l.
Proof.
  intros Hsep (m & Hm & [= <-])%bind_Ok. pose proof (list_fold_gathers _ _ _ _ Hm) as Hg. setoid_rewrite lookup_empty in Hg.
  assert (∀ s b, m !! s = Some b → bundle_triple b ∈ entry_keys d ∧ list_key d (bundle_triple b) = Some s ∧ listed_bundle d (dedup_values b)) as Hb.
  { intros s b Hs. eapply gathered_listed; [done|apply any_order_perm|]. rewrite <- Hs. apply Hg. }
  split.
  - rewrite <- list_fmap_compose. apply NoDup_Permutation.
    + apply (NoDup_fmap_1 (list_key d)). rewrite <- list_fmap_compose.
      rewrite (list_fmap_ext _ (Some ∘ fst)); [rewrite list_fmap_compose; apply NoDup_fmap_2; [apply _|apply range_NoDup]|].
      intros i [s b] Hi%list_elem_of_lookup_2%range_elem. apply Hb in Hi as (_ & Hi & _). exact Hi.
    + apply NoDup_filter, NoDup_remove_dups.
    + intros k. rewrite list_elem_of_filter, list_elem_of_fmap. split.
      * intros ([s b] & -> & Hi%range_elem). apply Hb in Hi as (? & E & _). split; [by eexists|done].
      * intros [[s Hs] Hk]. specialize (Hg s). destruct (listed_row _ _ _ Hk Hs) as (r & Hr & <-).
        assert (r ∈ filter (λ r, row_key r = Some s) (any_order (list_rows d))) as Hin.
        { apply list_elem_of_filter. rewrite any_order_perm, (row_key_list_key d) by done. done. }
        destruct (m !! s) as [b|] eqn:Em.
        -- exists (s, b). rewrite range_elem. split; [|done]. destruct (Hb _ _ Em) as (Hbk & Hbs & _). by eapply (sep_key d Hsep).
        -- unfold gathered in Hg. destruct (filter _ _); [inversion Hin|]. naive_solver.
  - apply Forall_fmap, Forall_forall. intros [s b] Hi%range_elem. by apply Hb in Hi as (_ & _ & Hi).
Qed.
End listing.

(** ** The tips *)
Section tips.
Context `{GoRuntime}.
Variable decode_meta : string → res (string * string).
Variable odd_names : gset string → gset string → gset string → api_tables → res (list (gvk * string)).

(** What an entry replaces is in the same channel. *)
Definition within_channels (d : db) : Prop :=
  map_Forall (λ _ e, match replaced_entry d e with
                     | Some e' => er_package e' = er_package e ∧ er_channel e' = er_channel e
                     | None => True
                     end) (channel_entry d).
#[export] Instance within_channels_dec d : Decision (within_channels d).
Proof. apply map_Forall_dec. intros _ e. destruct (replaced_entry d e); apply _. Defined.
(** The entries of a channel are deeper than another entry. *)
Definition deeper (d : db) (p c : string) (t : entry_row) : Prop :=
  map_Forall (λ _ e, er_package e = p ∧ er_channel e = c → (er_depth t < er_depth e)%Z) (channel_entry d).
#[export] Instance deeper_dec d p c t : Decision (deeper d p c t).
Proof. apply map_Forall_dec. intros _ e. apply _. Defined.
(** The channel of an entry has an entry of the least depth of the whole index. *)
Definition tipped (d : db) (e : entry_row) : Prop :=
  ∃ i t, channel_entry d !! i = Some t ∧ er_package t = er_package e ∧ er_channel t = er_channel e ∧
    ∀ j e', channel_entry d !! j = Some e' → (er_depth t ≤ er_depth e')%Z.

Lemma elem_of_tip d i : i ∈ tip d → ∃ e, channel_entry d !! i = Some e ∧ tipped d e.
Proof.
  unfold tip. pose proof (min_row_spec (λ ie : Z * entry_row, er_depth ie.2) (map_to_list (channel_entry d))) as Hm.
  destruct (min_row _ _) as [[j m]|]; [|inversion 1]. destruct Hm as [_ Hm].
  intros ([i' e] & -> & [Ed Hi%elem_of_map_to_list]%list_elem_of_filter)%list_elem_of_fmap. simpl in *.
  exists e. split; [done|]. exists i', e. split_and!; [done..|]. intros k e' Hk%elem_of_map_to_list. apply Hm in Hk. simpl in Hk. lia.
Qed.
Lemma replaces_closure_inv d fuel ids (P : Z → Prop) :
  (∀ i, i ∈ ids → P i) → (∀ i e r, P i → channel_entry d !! i = Some e → er_replaces e = Some r → is_Some (channel_entry d !! r) → P r) →
  ∀ i, i ∈ replaces_closure d fuel ids → P i.
Proof.
  intros Hids Hstep. revert ids Hids. induction fuel as [|fuel IH]; intros ids Hids; simpl; [done|]. apply IH.
  intros i [Hi|[Hs Hi]%elem_of_filter]%elem_of_union; [by apply Hids|].
  unfold replaced_ids in Hi. rewrite elem_of_list_to_set, list_elem_of_omap in Hi. destruct Hi as (j & Hj & E). rewrite elem_of_elements in Hj.
  apply bind_Some in E as (e & He & Hr). eauto.
Qed.
Lemma replaces_entries_tipped d i : within_channels d → i ∈ replaces_entries d → ∃ e, channel_entry d !! i = Some e ∧ tipped d e.
Proof.
  intros Hw. revert i. apply (replaces_closure_inv d _ _ (λ i, ∃ e, channel_entry d !! i = Some e ∧ tipped d e)).
  - intros j Hj. apply elem_of_tip. by rewrite elem_of_list_to_set in Hj.
  - intros j e r (e1 & He1 & k & t & Ht & E1 & E2 & Hmin) He Hr [e' He']. assert (e1 = e) as -> by congruence. exists e'. split; [done|].
    pose proof (Hw _ _ He) as Hc. unfold replaced_entry in Hc. rewrite Hr in Hc. simpl in Hc. rewrite He' in Hc. destruct Hc as [E3 E4]. exists k, t. split_and!; [done|congruence..|done].
Qed.

(** The listing reports what a bundle replaces only in the channels that have
    an entry of the least depth of the whole index: when a channel of another
    package starts at a smaller depth, every bundle of the channel is listed
    without its replaces (they are listed as skips). *)
Theorem ListBundles_loses_replaces d l p c :
  within_channels d →
  (∃ i t, channel_entry d !! i = Some t ∧ deeper d p c t) →
  SQLQuerier_ListBundles decode_meta odd_names d = Ok l →
  ∀ b, b ∈ l → ab_PackageName b = p → ab_ChannelName b = c → ab_Replaces b = "".
Proof.
  intros Hw (i & t & Ht & Hdeep) (m & Hm & [= <-])%bind_Ok b ([s b'] & -> & Hs%range_elem)%list_elem_of_fmap Hp Hc. simpl in *.
  pose proof (list_fold_gathers _ _ _ _ _ _ Hm s) as Hg. rewrite lookup_empty, Hs in Hg.
  destruct (gathered_bundle _ _ d _ _ _ (λ r, proj1 (elem_of_any_order r _)) Hg) as (r & _ & _ & Et & -> & _).
  cut (group_replaces d (lr_key r) = None); [by intros ->|]. unfold group_replaces.
  enough (omap (λ ie, if decide (ie.1 ∈ replaces_entries d) then er_bundle <$> replaced_entry d ie.2 else None) (group3 d (lr_key r)) = []) as -> by done.
  apply elem_of_nil_inv. intros x ([j e] & [Hk Hj%elem_of_map_to_list]%list_elem_of_filter & E)%list_elem_of_omap. simpl in *.
  case_decide as Hin; [|done]. destruct (replaces_entries_tipped _ _ Hw Hin) as (e' & He' & k & t' & Ht' & E1 & E2 & Hmin). simplify_eq.
  assert (er_package e = ab_PackageName b' ∧ er_channel e = ab_ChannelName b') as [Ep Ec].
  { unfold bundle_triple, entry_key3 in *. rewrite <- Et in Hk. by injection Hk as _ -> ->. }
  specialize (Hmin _ _ Ht). specialize (Hdeep _ _ Ht'). simpl in Hdeep. rewrite E1, E2 in Hdeep. specialize (Hdeep (conj Ep Ec)). lia.
Qed.
End tips.
(** A package stored from a manifest, beside one stored from a graph. *)
Definition ex_mixed : db :=
  (transaction (_ ← AddPackageChannelsFromGraph (H := go_default) 3 ex_graph; AddPackageChannels (mkManifest "etcd" [mkPkgChannel "alpha" "etcd.v1"] "alpha"))
     (set_bundles ex_store (<["etcd.v1" := mkBundleRow None None (Some "img") (Some "1.0.0") None None None None]> (operatorbundle ex_store)))).1.
Definition ex_list (d : db) : list (string * string * list string) :=
  match SQLQuerier_ListBundles (H := go_default) (λ s, Ok ("", s)) (λ _ _ _ _, Ok []) d with
  | Ok l => (λ b, (ab_CsvName b, ab_Replaces b, ab_Skips b)) <$> l
  | _ => []
  end.
(** Before and after the package from the manifest was added. *)
Example ex_lists :
  ex_list (AddPackageChannelsFromGraph (H := go_default) 3 ex_graph ex_store).1 =
    [("op.1.1.1", "op.1.1.0", []); ("op.1.1.0", "op.1.0.0", []); ("op.1.0.0", "", [])] ∧
  ex_list ex_mixed =
    [("op.1.1.1", "", ["op.1.1.0"]); ("op.1.1.0", "", ["op.1.0.0"]); ("op.1.0.0", "", []); ("etcd.v1", "", [])].
Proof. vm_compute. auto. Qed.
Lemma ListBundles_loses_replaces_witness :
  ∃ l, SQLQuerier_ListBundles (H := go_default) (λ s, Ok ("", s)) (λ _ _ _ _, Ok []) ex_mixed = Ok l ∧
    ∀ b, b ∈ l → ab_PackageName b = "pkg" → ab_ChannelName b = "stable" → ab_Replaces b = "".
Proof.
  eexists. split; [vm_compute; reflexivity|].
  refine (ListBundles_loses_replaces (H := go_default) (λ s, Ok ("", s)) (λ _ _ _ _, Ok []) ex_mixed _ "pkg" "stable" _ _ ltac:(vm_compute; reflexivity)).
  - apply (bool_decide_unpack _). vm_compute. exact I.
  - exists 4%Z. eexists. split; [vm_compute; reflexivity|]. apply (bool_decide_unpack _). vm_compute. exact I.
Defined.
Ltac each_elem H := repeat (apply elem_of_cons in H as [->|H]); [..|by apply elem_of_nil in H].
Lemma ex_index_separate : separate ex_index.
Proof.
  split.
  - intros k k' s Hk Hk' Es Es'. vm_compute in Hk, Hk'. each_elem Hk; each_elem Hk'; vm_compute in Es, Es'; congruence.
  - intros p Hp. vm_compute in Hp. each_elem Hp. vm_compute. repeat constructor; done.
Qed.
Lemma SQLQuerier_ListBundles_spec_witness :
  ∃ l, SQLQuerier_ListBundles (H := go_default) (λ s, Ok ("", s)) (λ _ _ _ _, Ok []) ex_index = Ok l ∧
    bundle_triple <$> l ≡ₚ filter (λ k, is_Some (list_key ex_index k)) (entry_keys ex_index) ∧ length l = 5.
Proof.
  eexists. split; [vm_compute; reflexivity|].
  split; [|reflexivity].
  refine (proj1 (SQLQuerier_ListBundles_spec (H := go_default) (λ s, Ok ("", s)) (λ _ _ _ _, Ok []) ex_index _ ex_index_separate ltac:(vm_compute; reflexivity))).
Defined.

(** ** Rows that stay *)
(** The rows of a bundle without an image hold a null path and reference nothing:
    removing the package removes the bundle but not these, and they are returned
    as properties of a bundle of that name that is added later. *)
Definition ex_no_image : registry_Bundle :=
  mkRBundle "foo.v0.2.0" (rb_Objects ex_add_bundle) "foo" ["stable"] "" "" None [] [] [] (rb_Properties ex_add_bundle) (Some ex_annotations) true.
Definition ex_removed : db :=
  let d := (AddOperatorBundle (H := go_default) false ex_install 0 ex_no_image empty_db).1.2 in
  (RemovePackage (H := go_default) "foo" (AddPackageChannels (mkManifest "foo" [mkPkgChannel "stable" "foo.v0.2.0"] "stable") d).1).1.
Example ex_stale_properties :
  operatorbundle ex_removed = ∅ ∧ length (properties ex_removed) = 2.
Proof. vm_compute. auto. Qed.
