(* ===== verification/SqlModel.v ===== *)
(** * The operator graph of an index

    [ToModel] of [pkg/sqlite/conversion.go]: the packages and channels of an index
    become a model in memory, the listed bundles are put into their channels, the
    icons are taken from the heads of the default channels, and the model is
    validated and normalized.

    The icons of a CSV, which need the Kubernetes types, are a parameter: data and
    media type. *)
From S2P Require Import Prelude Semver Json JsonCompact JsonStream Property JsonTotal Model ModelOps Declcfg DeclcfgConv DeclcfgRoundtrip DeclcfgWrite DeclcfgLoad RegistryTypes RegistryBundle RegistryBundleSpec Api Query QuerySpec Conversion Graph Sql SqlLoad SqlInv SqlGraph SqlAdd SqlQuery SqlQuerySpec.
From stdpp Require Import options.

(** ** Packages *)
Definition init_channel (pl : loc) (st : gmap loc model_Channel * gmap string loc) (ch : PackageChannel) : gmap loc model_Channel * gmap string loc :=
  let cl := fresh (dom st.1) in
  (<[cl := mkChannel (Some pl) (pch_Name ch) (Some ∅)]> st.1, <[pch_Name ch := cl]> st.2).
(** The default channel is the one of the manifest's name, if there is one. *)
Definition init_package (st : heap * gmap string loc) (rPkg : PackageManifest) : heap * gmap string loc :=
  let '(h, m) := st in
  let pl := fresh (dom (h_packages h)) in
  let '(chs, channels) := foldl (init_channel pl) (h_channels h, ∅) (pm_Channels rPkg) in
  (mkHeap (<[pl := mkPackage (pm_PackageName rPkg) "" None (channels !! pm_DefaultChannelName rPkg) (Some channels)]> (h_packages h))
     chs (h_bundles h), <[pm_PackageName rPkg := pl]> m).

Section to_model.
Context `{GoRuntime}.
Variable decode_meta : string → res (string * string).
Variable odd_names : gset string → gset string → gset string → api_tables → res (list (gvk * string)).
Variable decode_icons : string → res (list (string * string)).

Definition initializeModelPackages (d : db) : res (heap * gmap string loc) :=
  pkgNames ← SQLQuerier_ListPackages d;
  rPkgs ← mapR (SQLQuerier_GetPackage d) pkgNames;
  Ok (foldl init_package (empty_heap, ∅) rPkgs).

(** ** Bundles *)
Definition add_listed (m : gmap string loc) (h : heap) (b : api_Bundle) : res heap :=
  match m !! ab_PackageName b with
  | None => Err (Errorf "unknown package %q for bundle %q" [AStr (ab_PackageName b); AStr (ab_CsvName b)])
  | Some pl =>
      pkg ← deref (h_packages h !! pl);
      match channels_of pkg !! ab_ChannelName b with
      | None => Err (Errorf "unknown channel %q for bundle %q" [AStr (ab_ChannelName b); AStr (ab_CsvName b)])
      | Some cl =>
          mbundle ← wrap_err (λ e, Errorf "convert bundle %q: %v" [AStr (ab_CsvName b); AErr e]) (ConvertAPIBundleToModelBundle b);
          ch ← deref (h_channels h !! cl);
          bs ← deref (Channel_Bundles ch);
          let bl := fresh (dom (h_bundles h)) in
          Ok (mkHeap (h_packages h)
                (<[cl := mkChannel (Channel_Package ch) (Channel_Name ch) (Some (<[ab_CsvName b := bl]> bs))]> (h_channels h))
                (<[bl := with_links mbundle pl cl]> (h_bundles h)))
      end
  end.
Definition populateModelChannels (d : db) (m : gmap string loc) (h : heap) : res heap :=
  bundles ← SQLQuerier_ListBundles decode_meta odd_names d; foldR (add_listed m) h bundles.

(** ** Icons *)
Fixpoint remove_spaces (s : string) : string :=
  match s with
  | String " " s' => remove_spaces s'
  | String a s' => String a (remove_spaces s')
  | "" => ""
  end.
(** [None] when neither the text nor the text without spaces decodes. *)
Definition icon_data (text : string) : option string :=
  match b64_decode text with Some data => Some data | None => b64_decode (remove_spaces text) end.
Definition set_icon (pkg : model_Package) (i : model_Icon) : model_Package :=
  mkPackage (Package_Name pkg) (Package_Description pkg) (Some i) (Package_DefaultChannel pkg) (Package_Channels pkg).
Definition populate_icon (d : db) (h : heap) (kv : string * loc) : res heap :=
  pkg ← deref (h_packages h !! kv.2);
  dc ← deref (Package_DefaultChannel pkg);
  defaultChannel ← deref (h_channels h !! dc);
  head ← wrap_err (λ e, Errorf "get default channel head for package %q: %v" [AStr (Package_Name pkg); AErr e])
           (SQLQuerier_GetBundleForChannel decode_meta odd_names d (Package_Name pkg) (Channel_Name defaultChannel));
  icons ← wrap_err (λ e, Errorf "unmarshal CSV json for bundle %q: %v" [AStr (ab_CsvName head); AErr e]) (decode_icons (ab_CsvJson head));
  match icons with
  | [] => Ok h
  | (data, mediaType) :: _ =>
      match icon_data data with
      | Some iconData =>
          if decide (iconData = "") then Ok h
          else Ok (mkHeap (<[kv.2 := set_icon pkg (mkIcon iconData mediaType)]> (h_packages h)) (h_channels h) (h_bundles h))
      | None => Ok h
      end
  end.
Definition populatePackageIcons (d : db) (m : gmap string loc) (h : heap) : res heap := foldR (populate_icon d) h (range m).

Definition ToModel (d : db) : res (heap * gmap string loc) :=
  pkgs ← initializeModelPackages d;
  h1 ← wrap_err (λ e, Errorf "populate channels: %v" [AErr e]) (populateModelChannels d pkgs.2 pkgs.1);
  h2 ← wrap_err (λ e, Errorf "populate package icons: %v" [AErr e]) (populatePackageIcons d pkgs.2 h1);
  err ← Model_Validate h2 pkgs.2;
  _ ← check err;
  h3 ← Normalize h2 pkgs.2;
  Ok (h3, pkgs.2).
End to_model.

(** ** What the model holds *)
(** A channel of a package, with the bundles of [T]: package, channel and name. *)
Definition holds_channel (h : heap) (pl : loc) (T : gset (string * string * string)) (p c : string) (cl : loc) : Prop :=
  ∃ ch bs, h_channels h !! cl = Some ch ∧ Channel_Package ch = Some pl ∧ Channel_Name ch = c ∧ Channel_Bundles ch = Some bs ∧
    ∀ n, is_Some (bs !! n) ↔ (p, c, n) ∈ T.
Definition holds_package (h : heap) (d : db) (T : gset (string * string * string)) (p : string) (pl : loc) : Prop :=
  ∃ pkg, h_packages h !! pl = Some pkg ∧ Package_Name pkg = p ∧
    Package_DefaultChannel pkg = channels_of pkg !! default "" (mjoin (package d !! p)) ∧
    (∀ c, is_Some (channels_of pkg !! c) ↔ is_Some (channel d !! (p, c))) ∧
    ∀ c cl, channels_of pkg !! c = Some cl → holds_channel h pl T p c cl.
Definition holds (h : heap) (m : gmap string loc) (d : db) (T : gset (string * string * string)) : Prop :=
  ∀ p pl, m !! p = Some pl → holds_package h d T p pl.

Lemma init_channels pl l : ∀ chs channels,
  NoDup (pch_Name <$> l) → (∀ c, c ∈ pch_Name <$> l → channels !! c = None) →
  let r := foldl (init_channel pl) (chs, channels) l in
  (∀ cl ch, chs !! cl = Some ch → r.1 !! cl = Some ch) ∧ channels ⊆ r.2 ∧
  (∀ c, is_Some (r.2 !! c) ↔ is_Some (channels !! c) ∨ c ∈ pch_Name <$> l) ∧
  (∀ c cl, r.2 !! c = Some cl → channels !! c = Some cl ∨ r.1 !! cl = Some (mkChannel (Some pl) c (Some ∅))).
Proof.
  induction l as [|ch l IH]; intros chs channels Hnd Hnew; cbn [foldl].
  - simpl. split_and!; [done|done|set_solver|auto].
  - rewrite fmap_cons in *. apply NoDup_cons in Hnd as [Hn Hnd].
    set (cl0 := fresh (dom chs)). assert (chs !! cl0 = None) as Hf by (apply not_elem_of_dom, is_fresh).
    specialize (IH (<[cl0 := mkChannel (Some pl) (pch_Name ch) (Some ∅)]> chs) (<[pch_Name ch := cl0]> channels) Hnd).
    destruct IH as (I1 & I2 & I3 & I4).
    { intros c Hc. rewrite lookup_insert_ne by set_solver. apply Hnew. set_solver. }
    unfold init_channel at 2 4 6 8. cbn [fst snd] in *. fold cl0. split_and!.
    + intros cl c Hc. apply I1. rewrite lookup_insert_ne by congruence. done.
    + etrans; [|exact I2]. apply insert_subseteq, Hnew. set_solver.
    + intros c. rewrite I3, lookup_insert_is_Some, elem_of_cons. destruct (decide (pch_Name ch = c)); naive_solver.
    + intros c cl Hc. destruct (I4 _ _ Hc) as [E|E]; [|by right]. apply lookup_insert_Some in E as [[<- <-]|[_ E]]; [|by left].
      right. apply I1. by rewrite lookup_insert_eq.
Qed.

Section spec.
Context `{GoRuntime}.

Lemma SQLQuerier_GetPackage_Ok d p pm :
  SQLQuerier_GetPackage d p = Ok pm →
  pm_PackageName pm = p ∧ NoDup (pch_Name <$> pm_Channels pm) ∧ (∀ c, c ∈ pch_Name <$> pm_Channels pm ↔ is_Some (channel d !! (p, c))) ∧
  pm_DefaultChannelName pm = default "" (mjoin (package d !! p)) ∧ is_Some (package d !! p).
Proof.
  unfold SQLQuerier_GetPackage. destruct (package d !! p) as [dc|] eqn:Ep; [|done].
  set (chs := range (filter (λ kh, kh.1.1 = p) (channel d))).
  assert (∀ c, c ∈ (λ kh : string * string * string, kh.1.2) <$> chs ↔ is_Some (channel d !! (p, c))) as Hin.
  { intros c. rewrite list_elem_of_fmap. split.
    - intros ([[p' c'] x] & -> & Hr%range_elem). apply map_lookup_filter_Some in Hr as [Hr E]. simpl in *. subst p'. eauto.
    - intros [x Hx]. exists (p, c, x). split; [done|]. apply range_elem, map_lookup_filter_Some. done. }
  assert (NoDup ((λ kh : string * string * string, kh.1.2) <$> chs)) as Hnd.
  { apply (NoDup_fmap_1 (pair p)). rewrite <- list_fmap_compose. rewrite (list_fmap_ext _ fst); [apply range_NoDup|].
    intros i [[p' c] x] Hr%list_elem_of_lookup_2%range_elem. apply map_lookup_filter_Some in Hr as [_ E]. simpl in *. by subst. }
  intros E. assert (pm = mkManifest p ((λ kh : string * string * string, mkPkgChannel kh.1.2 kh.2) <$> chs) (default "" dc)) as ->.
  { destruct chs as [|x l]; [done|]. simpl in E. injection E as <-. simpl. f_equal. f_equal. rewrite <- list_fmap_compose. done. }
  simpl. rewrite <- list_fmap_compose. done.
Qed.

Lemma init_package_holds d h m pm p :
  SQLQuerier_GetPackage d p = Ok pm → m !! p = None → holds h m d ∅ →
  let r := init_package (h, m) pm in dom r.2 = {[p]} ∪ dom m ∧ holds r.1 r.2 d ∅.
Proof.
  intros Hp Hm Hh. destruct (SQLQuerier_GetPackage_Ok _ _ _ Hp) as (Hn & Hnd & Hch & Hdef & _). unfold init_package.
  set (pl := fresh (dom (h_packages h))). assert (h_packages h !! pl = None) as Hpl by (apply not_elem_of_dom, is_fresh).
  destruct (init_channels pl (pm_Channels pm) (h_channels h) ∅ Hnd) as (I1 & _ & I3 & I4); [intros; apply lookup_empty|].
  destruct (foldl (init_channel pl) (h_channels h, ∅) (pm_Channels pm)) as [chs channels]. simpl in *. rewrite Hn. split; [by rewrite dom_insert_L|].
  intros p' pl' [[<- <-]|[Hne Hm']]%lookup_insert_Some.
  - eexists. simpl. rewrite lookup_insert_eq. split; [done|]. unfold channels_of. simpl. rewrite Hdef. split_and!; [done|done| |].
    + intros c. rewrite I3, lookup_empty, Hch. split; [intros [[]|]; done|by right].
    + intros c cl Hc. destruct (I4 _ _ Hc) as [E|E]; [by rewrite lookup_empty in E|]. eexists _, ∅. simpl. split_and!; [done..|].
      intros n. rewrite lookup_empty. split; [by intros []|set_solver].
  - destruct (Hh _ _ Hm') as (pkg & E1 & E2 & E3 & E4 & E5). exists pkg. simpl. rewrite lookup_insert_ne by congruence. split_and!; [done..|].
    intros c cl Hc. destruct (E5 _ _ Hc) as (ch & bs & F1 & F2). exists ch, bs. split; [by apply I1|done].
Qed.
Lemma initialize_holds d h m :
  initializeModelPackages d = Ok (h, m) → dom m = dom (package d) ∧ holds h m d ∅.
Proof.
  intros (names & En & E)%bind_Ok. injection En as <-. apply bind_Ok in E as (pms & Epms & E). injection E as E.
  assert (∀ l pms h0 m0, mapR (SQLQuerier_GetPackage d) l = Ok pms → NoDup l → (∀ p, p ∈ l → m0 !! p = None) → holds h0 m0 d ∅ →
    let r := foldl init_package (h0, m0) pms in dom r.2 = list_to_set l ∪ dom m0 ∧ holds r.1 r.2 d ∅) as Hind.
  { clear. induction l as [|p l IH]; intros pms h0 m0 E Hnd Hnew Hh; simpl in E.
    - injection E as <-. split; [set_solver|done].
    - apply bind_Ok in E as (pm & Ep & E). apply bind_Ok in E as (pms' & E & [= <-]). apply NoDup_cons in Hnd as [Hn Hnd].
      destruct (init_package_holds d h0 m0 pm p Ep) as [Hdom Hh']; [apply Hnew; by left|done|]. cbn [foldl].
      destruct (init_package (h0, m0) pm) as [h1 m1]. simpl in Hdom, Hh'. destruct (IH pms' h1 m1 E Hnd) as [Hd' Hfin]; [|done|].
      + intros q Hq. apply not_elem_of_dom. rewrite Hdom. apply not_elem_of_union. split; [set_solver|]. apply not_elem_of_dom, Hnew. by right.
      + split; [rewrite Hd', Hdom; set_solver|done]. }
  specialize (Hind _ pms empty_heap ∅ Epms (range_NoDup _)). rewrite E in Hind. destruct Hind as [Hdom Hh].
  { intros. apply lookup_empty. } { intros p pl Hp. by rewrite lookup_empty in Hp. }
  simpl in *. split; [|done]. rewrite Hdom, dom_empty_L, union_empty_r_L. apply set_eq. intros p.
  rewrite elem_of_list_to_set, elem_of_dom, list_elem_of_fmap. split.
  - intros ([p' x] & -> & Hr%range_elem). eauto.
  - intros [x Hx]. exists (p, x). by rewrite range_elem.
Qed.

Definition listed_triple (b : api_Bundle) : string * string * string := (ab_PackageName b, ab_ChannelName b, ab_CsvName b).
Lemma add_listed_holds m h d T b h' :
  holds h m d T → add_listed m h b = Ok h' → holds h' m d ({[listed_triple b]} ∪ T).
Proof.
  intros Hh E. unfold add_listed in E. destruct (m !! ab_PackageName b) as [pl|] eqn:Em; [|done].
  destruct (Hh _ _ Em) as (pkg & E1 & E2 & E3 & E4 & E5). rewrite E1 in E. simpl in E.
  destruct (channels_of pkg !! ab_ChannelName b) as [cl|] eqn:Ec; [|done]. destruct (E5 _ _ Ec) as (ch & bs & F1 & F2 & F3 & F4 & F5).
  apply bind_Ok in E as (mb & _ & E). rewrite F1 in E. simpl in E. rewrite F4 in E. simpl in E. injection E as <-.
  intros p' pl' Hm'. destruct (Hh _ _ Hm') as (pkg' & G1 & G2 & G3 & G4 & G5). exists pkg'. split_and!; [done..|].
  intros c cl' Hc. destruct (G5 _ _ Hc) as (ch' & bs' & K1 & K2 & K3 & K4 & K5). simpl. unfold holds_channel. simpl.
  destruct (decide (cl' = cl)) as [->|Hne].
  - rewrite lookup_insert_eq. assert (ch' = ch) as -> by congruence. assert (pl' = pl) as -> by congruence.
    assert (p' = ab_PackageName b) as -> by congruence. assert (c = ab_ChannelName b) as -> by congruence. assert (bs' = bs) as -> by congruence.
    eexists _, _. split_and!; [done..|]. intros n. rewrite lookup_insert_is_Some, F5, elem_of_union, elem_of_singleton.
    unfold listed_triple. destruct (decide (ab_CsvName b = n)); naive_solver.
  - exists ch', bs'. rewrite lookup_insert_ne by done. split_and!; [done..|]. intros n. rewrite K5, elem_of_union, elem_of_singleton.
    split; [by right|]. intros [E|]; [|done]. injection E as -> -> ->. congruence.
Qed.
Lemma add_all_holds m d l : ∀ h T h',
  holds h m d T → foldR (add_listed m) h l = Ok h' → holds h' m d (list_to_set (listed_triple <$> l) ∪ T).
Proof.
  induction l as [|b l IH]; intros h T h' Hh E; simpl in E.
  - injection E as <-. change (holds h m d (∅ ∪ T)). by rewrite union_empty_l_L.
  - apply bind_Ok in E as (h1 & E1 & E). apply (add_listed_holds _ _ _ _ _ _ Hh) in E1. specialize (IH _ _ _ E1 E).
    rewrite fmap_cons, list_to_set_cons.
    by replace ({[listed_triple b]} ∪ list_to_set (listed_triple <$> l) ∪ T) with
      (list_to_set (listed_triple <$> l) ∪ ({[listed_triple b]} ∪ T)) by set_solver.
Qed.

Variable decode_meta : string → res (string * string).
Variable odd_names : gset string → gset string → gset string → api_tables → res (list (gvk * string)).
Variable decode_icons : string → res (list (string * string)).

Lemma populate_icon_holds m d T h kv h' :
  holds h m d T → populate_icon decode_meta odd_names decode_icons d h kv = Ok h' → holds h' m d T.
Proof.
  intros Hh E. unfold populate_icon in E. apply bind_Ok in E as (pkg & Hp & E). apply deref_Ok in Hp.
  do 4 (apply bind_Ok in E as (? & _ & E)).
  assert (h' = h ∨ ∃ i, h' = mkHeap (<[kv.2 := set_icon pkg i]> (h_packages h)) (h_channels h) (h_bundles h)) as [->|[i ->]]; [|done|].
  { repeat case_match; simplify_eq; eauto. }
  intros p pl Hm. destruct (Hh _ _ Hm) as (pkg' & E1 & E2 & E3 & E4 & E5). destruct (decide (pl = kv.2)) as [->|Hne].
  - assert (pkg' = pkg) as -> by congruence. exists (set_icon pkg i). simpl. rewrite lookup_insert_eq. done.
  - exists pkg'. simpl. rewrite lookup_insert_ne by done. done.
Qed.

Lemma Normalize_frame h m h' : Normalize h m = Ok h' → h_packages h' = h_packages h ∧ h_channels h' = h_channels h.
Proof.
  set (P := λ x : heap, h_packages x = h_packages h ∧ h_channels x = h_channels h). intros E. change (P h').
  unfold Normalize in E. eapply (foldR_inv P); [|by split|exact E]. intros s [p pl] s' _ Hs E1.
  apply bind_Ok in E1 as (pkg & _ & E1). eapply (foldR_inv P); [|exact Hs|exact E1]. intros s1 [c cl] s1' _ Hs1 E2.
  apply bind_Ok in E2 as (ch & _ & E2). eapply (foldR_inv P); [|exact Hs1|exact E2]. intros s2 [n bl] s2' _ Hs2 E3.
  unfold normalize_at in E3. inv_ok. by subst.
Qed.

Lemma ToModel_steps d h m :
  ToModel decode_meta odd_names decode_icons d = Ok (h, m) →
  ∃ bundles h0 h1 h2, initializeModelPackages d = Ok (h0, m) ∧ SQLQuerier_ListBundles decode_meta odd_names d = Ok bundles ∧
    foldR (add_listed m) h0 bundles = Ok h1 ∧ populatePackageIcons decode_meta odd_names decode_icons d m h1 = Ok h2 ∧
    Model_Validate h2 m = Ok None ∧ Normalize h2 m = Ok h.
Proof.
  intros ([h0 m0] & E0 & E)%bind_Ok. simpl in E. apply bind_Ok in E as (h1 & E1%wrap_err_Ok & E).
  unfold populateModelChannels in E1. apply bind_Ok in E1 as (bundles & Eb & E1). apply bind_Ok in E as (h2 & E2%wrap_err_Ok & E).
  apply bind_Ok in E as (err & E3 & E). apply bind_Ok in E as ([] & E4%check_Ok & E). subst err.
  apply bind_Ok in E as (h3 & E5 & E). injection E as <- <-. exists bundles, h0, h1, h2. done.
Qed.
Lemma ToModel_holds d h m h0 h1 h2 bundles :
  initializeModelPackages d = Ok (h0, m) → foldR (add_listed m) h0 bundles = Ok h1 →
  populatePackageIcons decode_meta odd_names decode_icons d m h1 = Ok h2 → Normalize h2 m = Ok h →
  dom m = dom (package d) ∧ holds h m d (list_to_set (listed_triple <$> bundles)).
Proof.
  intros E0 E1 E2 E5. destruct (initialize_holds _ _ _ E0) as [Hdom H0]. split; [done|].
  pose proof (add_all_holds _ _ _ _ _ _ H0 E1) as H1. rewrite union_empty_r_L in H1.
  assert (holds h2 m d (list_to_set (listed_triple <$> bundles))) as H2.
  { eapply (foldR_inv (λ x, holds x m d (list_to_set (listed_triple <$> bundles)))); [|exact H1|exact E2]. intros s kv s' _. apply populate_icon_holds. }
  destruct (Normalize_frame _ _ _ E5) as [F1 F2]. intros p pl Hp. destruct (H2 _ _ Hp) as (pkg & G1 & G2 & G3 & G4 & G5).
  exists pkg. rewrite F1. split_and!; [done..|]. intros c cl Hc. unfold holds_channel. rewrite F2. by apply G5.
Qed.

(** C13. The model of an index: its packages are the packages of the index, the
    channels of a package those of the index, with the default channel of the
    index as default, and a channel has exactly the bundles that are listed for
    it; every pointer leads back where it came from, and the model it is
    normalized from is valid. *)
Theorem ToModel_spec d h m :
  ToModel decode_meta odd_names decode_icons d = Ok (h, m) →
  ∃ bundles, SQLQuerier_ListBundles decode_meta odd_names d = Ok bundles ∧
    dom m = dom (package d) ∧ holds h m d (list_to_set (listed_triple <$> bundles)) ∧
    ∃ h0, Model_Validate h0 m = Ok None ∧ Normalize h0 m = Ok h.
Proof.
  intros (bundles & h0 & h1 & h2 & E0 & Eb & E1 & E2 & Ev & E5)%ToModel_steps. exists bundles.
  destruct (ToModel_holds _ _ _ _ _ _ _ E0 E1 E2 E5) as [Hdom Hh]. split_and!; [done..|]. by exists h2.
Qed.
End spec.

(** ** Examples *)
Definition ex_to_model (d : db) : res (heap * gmap string loc) :=
  ToModel (H := go_default) (λ s, Ok ("", s)) (λ _ _ _ _, Ok []) (λ _, Ok []) d.
Lemma ToModel_spec_witness :
  ∃ h m, ex_to_model ex_index = Ok (h, m) ∧ dom m = dom (package ex_index).
Proof.
  assert (match ex_to_model ex_index with Ok _ => true | _ => false end = true) as Eb by (vm_compute; reflexivity).
  destruct (ex_to_model ex_index) as [[h m]| |] eqn:E; [|discriminate Eb..]. clear Eb.
  destruct (ToModel_spec (H := go_default) _ _ _ _ _ _ E) as (bundles & _ & Hd & _). exists h, m. split; [reflexivity|exact Hd].
Defined.
(** A package without a default channel makes the conversion panic: the name
    of the default channel is read before it is known to exist.  A package with one
    converts. *)
Theorem ToModel_panics :
  ex_to_model (set_packages ex_index {[ "p" := None ]}) = Panic ∧ index_ok (set_packages ex_index {[ "p" := None ]}).
Proof. split; [vm_compute; reflexivity|]. apply (bool_decide_unpack _). vm_compute. exact I. Qed.
