(* ===== verification/BundleParse.v ===== *)
(** * Parsing a bundle directory

    [pkg/registry/parse.go] and [pkg/registry/imageinput.go]: the objects of the
    directory [manifests] and the files of the directory [metadata] become a
    bundle of manifests.

    A file is what the YAML decoder makes of it: an object of the manifests, and
    the three readings of a file of the metadata.  A directory is what opening and
    listing it returns. *)
From S2P Require Import Prelude Semver Json JsonCompact JsonStream Property JsonTotal Model ModelOps Declcfg DeclcfgConv DeclcfgRoundtrip DeclcfgWrite DeclcfgLoad RegistryTypes RegistryBundle RegistryBundleSpec Graph Sql SqlLoad SqlAdd.
From stdpp Require Import options.

(** An object without content has no kind. *)
Record manifest_file := mkMFile { mf_Name : string; mf_IsDir : bool; mf_Object : res (option k8s_object) }.
Record metadata_file := mkMDFile {
  md_Annotations : res registry_Annotations;
  md_Dependencies : res (list Dependency);
  md_Properties : res (list registry_Property)
}.
(** [fs.Sub] and then [fs.ReadDir] *)
Record bundle_fs := mkBundleFS {
  fs_manifests : res (res (list manifest_file));
  fs_metadata : res (res (list metadata_file))
}.

Definition zero_rbundle : registry_Bundle := mkRBundle "" [] "" [] "" "" None [] [] [] [] None false.
Definition set_name (b : registry_Bundle) n := mkRBundle n (rb_Objects b) (rb_Package b) (rb_Channels b)
  (rb_BundleImage b) (rb_version b) (rb_csv b) (rb_v1beta1crds b) (rb_v1crds b) (rb_Dependencies b) (rb_Properties b)
  (rb_Annotations b) (rb_cacheStale b).
Definition set_image (b : registry_Bundle) i := mkRBundle (rb_Name b) (rb_Objects b) (rb_Package b) (rb_Channels b)
  i (rb_version b) (rb_csv b) (rb_v1beta1crds b) (rb_v1crds b) (rb_Dependencies b) (rb_Properties b)
  (rb_Annotations b) (rb_cacheStale b).
Definition set_metadata (b : registry_Bundle) (an : registry_Annotations) deps props :=
  mkRBundle (rb_Name b) (rb_Objects b) (an_PackageName an) (AnnotationsFile_GetChannels an)
    (rb_BundleImage b) (rb_version b) (rb_csv b) (rb_v1beta1crds b) (rb_v1crds b) (rb_Dependencies b ++ deps) (rb_Properties b ++ props)
    (Some an) (rb_cacheStale b).
Definition set_rproperties (b : registry_Bundle) ps := mkRBundle (rb_Name b) (rb_Objects b) (rb_Package b) (rb_Channels b)
  (rb_BundleImage b) (rb_version b) (rb_csv b) (rb_v1beta1crds b) (rb_v1crds b) (rb_Dependencies b) ps
  (rb_Annotations b) (rb_cacheStale b).
Definition modify (f : registry_Bundle → registry_Bundle) : BM unit := λ b, (f b, Ok tt).

(** ** Manifests *)
Definition hidden (name : string) : bool := match name with String "." _ => true | _ => false end.
(** The bundle and [csvFound]; files that do not decode are passed over. *)
Definition add_manifest (st : registry_Bundle * bool) (f : manifest_file) : registry_Bundle * bool :=
  let '(bundle, csvFound) := st in
  if mf_IsDir f || hidden (mf_Name f) then st
  else match mf_Object f with
       | Ok (Some obj) =>
           if decide (is_csv obj) then if csvFound then st else (Add bundle obj, true)
           else (Add bundle obj, csvFound)
       | _ => st
       end.
Section parse.
Context `{GoRuntime}.

Definition addManifests (dir : res (list manifest_file)) : BM unit :=
  files ← lift dir;
  _ ← modify (λ b, (foldl add_manifest (b, false) files).1);
  size ← get Size;
  if decide (size = 0) then lift (Err (ErrNew "no bundle objects found"))
  else
    csv ← Bundle_ClusterServiceVersion;
    match csv with
    | None => lift (Err (ErrNew "no csv in bundle"))
    | Some csv =>
        _ ← modify (λ b, set_name b (csv_Name csv));
        wrap_bm (λ e, Errorf "error checking provided apis in bundle %s: %s" [AStr (csv_Name csv); AErr e]) AllProvidedAPIsInBundle
    end.

(** ** Metadata *)
Definition zero_annotations : registry_Annotations := mkAnnotations "" "" "".
Definition found {A} (keep : A → Prop) `{!∀ a, Decision (keep a)} (reading : metadata_file → res A) (old : option A) (f : metadata_file) : option A :=
  match old with
  | Some a => Some a
  | None => match reading f with Ok a => if decide (keep a) then Some a else None | _ => None end
  end.
#[local] Instance annotations_eq_dec : EqDecision registry_Annotations.
Proof. solve_decision. Defined.
Definition find_annotations (files : list metadata_file) : option registry_Annotations :=
  foldl (found (λ a, a ≠ zero_annotations) md_Annotations) None files.
Definition find_dependencies (files : list metadata_file) : option (list Dependency) :=
  foldl (found (λ l, 0 < length l) md_Dependencies) None files.
Definition find_properties (files : list metadata_file) : option (list registry_Property) :=
  foldl (found (λ l, 0 < length l) md_Properties) None files.
Definition addMetadata (dir : res (list metadata_file)) : BM unit :=
  files ← lift dir;
  match find_annotations files with
  | None => lift (Err (ErrNew "Could not find annotations file"))
  | Some an => modify (λ b, set_metadata b an (default [] (find_dependencies files)) (default [] (find_properties files)))
  end.

(** ** Properties *)
(** [Property.String], the key of the set *)
Definition property_String (p : registry_Property) : string := "type: " +:+ rp_Type p +:+ ", value: " +:+ raw_bytes (rp_Value p).
Fixpoint property_set (visited : gset string) (ps : list registry_Property) : list registry_Property :=
  match ps with
  | [] => []
  | p :: ps' => if decide (property_String p ∈ visited) then property_set visited ps'
                else p :: property_set ({[property_String p]} ∪ visited) ps'
  end.
Definition propertySet (ps : list registry_Property) : list registry_Property := property_set ∅ ps.

(** What is left in the slice after [json.Unmarshal], also when it reports an
    error: a text that is not JSON or not an array leaves nothing; a member or an
    element of a wrong type is left zero. *)
Definition lenient_property (v : json) : registry_Property :=
  match v with
  | JObj ms => foldl (λ p m, default p (decode_registry_Property p (JObj [m]))) (mkRProp "" None) ms
  | _ => mkRProp "" None
  end.
Definition lenient_properties (text : string) : list registry_Property :=
  match Unmarshal text with Some (JArr l) => lenient_property ∘ snd <$> l | _ => [] end.
(** [json.Marshal] of a [PackageProperty] *)
Definition marshal_PackageProperty (pkg version : string) : string := print_struct true [("packageName", pkg); ("version", version)].

Definition derivedProperties : BM (list registry_Property) :=
  csv ← wrap_bm (λ e, Errorf "error getting csv: %s" [AErr e]) Bundle_ClusterServiceVersion;
  match csv with
  | None => lift (Err (ErrNew "bundle missing csv"))
  | Some csv =>
      let annotated := match csv_Annotations csv !! "olm.properties" with Some text => lenient_properties text | None => [] end in
      an ← get rb_Annotations;
      packages ← match an with
                 | Some an => if decide (an_PackageName an = "") then mret []
                              else version ← Bundle_Version;
                                   mret [mkRProp PackageType (Some (marshal_PackageProperty (an_PackageName an) version))]
                 | None => mret []
                 end;
      provided ← wrap_bm (λ e, Errorf "error getting provided apis: %s" [AErr e]) ProvidedAPIs;
      mret (propertySet (packages ++ annotated ++
        ((λ k, mkRProp GVKType (Some (marshal_GVK (ak_Group k) (ak_Kind k) (ak_Version k)))) <$> range_set provided)))
  end.

(** ** Parse *)
Definition parse : bundle_fs → BM unit := λ root,
  manifests ← lift (wrap_err (λ e, Errorf "error opening manifests directory: %s" [AErr e]) (fs_manifests root));
  _ ← addManifests manifests;
  metadata ← lift (wrap_err (λ e, Errorf "error opening metadata directory: %s" [AErr e]) (fs_metadata root));
  _ ← addMetadata metadata;
  derived ← wrap_bm (λ e, Errorf "failed to derive properties: %s" [AErr e]) derivedProperties;
  modify (λ b, set_rproperties b (propertySet (rb_Properties b ++ derived))).
Definition bundleParser_Parse (root : option bundle_fs) : res registry_Bundle :=
  match root with
  | None => Err (ErrNew "filesystem is nil")
  | Some root => match parse root zero_rbundle with (b, Ok _) => Ok b | (_, Err e) => Err e | (_, Panic) => Panic end
  end.

Record ImageInput := mkImageInput { ii_to : string; ii_from : string; ii_Bundle : registry_Bundle }.
(** [os.DirFS] *)
Definition NewImageInput (DirFS : string → bundle_fs) (to from : string) : res ImageInput :=
  bundle ← bundleParser_Parse (Some (DirFS from)); Ok (mkImageInput to from (set_image bundle to)).
End parse.
