(* ===== verification/BundleParseSpec.v ===== *)
(** * What parsing a bundle directory returns *)
From S2P Require Import Prelude Semver Json JsonCompact JsonStream Property JsonTotal Model ModelOps Declcfg DeclcfgConv DeclcfgRoundtrip DeclcfgWrite DeclcfgLoad RegistryTypes RegistryBundle RegistryBundleSpec Graph Sql SqlLoad SqlInv SqlAdd SqlAddSpec BundleParse.
From stdpp Require Import options.

(** The objects of the visible files that decode. *)
Definition decoded_object (f : manifest_file) : option k8s_object :=
  if mf_IsDir f || hidden (mf_Name f) then None else match mf_Object f with Ok o => o | _ => None end.

(** Of several CSVs the first. *)
Definition add_object (st : registry_Bundle * bool) (o : k8s_object) : registry_Bundle * bool :=
  if decide (is_csv o) then if st.2 then st else (Add st.1 o, true) else (Add st.1 o, st.2).
Lemma add_manifests_decoded st files : foldl add_manifest st files = foldl add_object st (omap decoded_object files).
Proof.
  revert st. induction files as [|f files IH]; intros [b found]; [done|]. cbn [foldl omap list_omap]. rewrite IH. unfold decoded_object at 2.
  unfold add_manifest at 1. destruct (mf_IsDir f || hidden (mf_Name f)); [done|]. by destruct (mf_Object f) as [[o|]| |].
Qed.
(** Only the objects and the flag of the cache change. *)
Definition same_but_objects (b b' : registry_Bundle) : Prop :=
  b' = mkRBundle (rb_Name b) (rb_Objects b') (rb_Package b) (rb_Channels b) (rb_BundleImage b) (rb_version b) (rb_csv b)
    (rb_v1beta1crds b) (rb_v1crds b) (rb_Dependencies b) (rb_Properties b) (rb_Annotations b) (rb_cacheStale b').
Lemma add_objects_spec objs st :
  ∃ l, rb_Objects (foldl add_object st objs).1 = rb_Objects st.1 ++ l ∧ sublist l objs ∧
    filter (λ o, ¬ is_csv o) l = filter (λ o, ¬ is_csv o) objs ∧
    filter is_csv l = (if st.2 then [] else take 1 (filter is_csv objs)) ∧
    same_but_objects st.1 (foldl add_object st objs).1 ∧ 
    rb_cacheStale (foldl add_object st objs).1 = rb_cacheStale st.1 || bool_decide (l ≠ []).
Proof.
  revert st. induction objs as [|o objs IH]; intros [b found]; cbn [foldl].
  - exists []. simpl. rewrite app_nil_r. split_and!; [done|constructor|done|by destruct found|by destruct b|by rewrite orb_false_r].
  - unfold add_object at 2 4 6. cbn [fst snd]. destruct (decide (is_csv o)) as [Hc|Hc]; [destruct found|].
    + destruct (IH (b, true)) as (l & E1 & E2 & E3 & E4 & E5 & E6). exists l.
      rewrite filter_cons_False by tauto. split_and!; [done|by constructor|done..].
    + destruct (IH (Add b o, true)) as (l & E1 & E2 & E3 & E4 & E5 & E6). exists (o :: l).
      rewrite !(filter_cons_False (λ o, ¬ is_csv o)) by tauto. rewrite !filter_cons_True by done. cbn [fst snd] in *.
      split_and!; [by rewrite E1; simpl; rewrite <- app_assoc|by constructor|done|by rewrite E4|done|].
      rewrite E6. simpl. by rewrite orb_true_r.
    + destruct (IH (Add b o, found)) as (l & E1 & E2 & E3 & E4 & E5 & E6). exists (o :: l).
      rewrite !(filter_cons_True (λ o, ¬ is_csv o)) by done. rewrite !(filter_cons_False is_csv) by done. cbn [fst snd] in *.
      split_and!; [by rewrite E1; simpl; rewrite <- app_assoc|by constructor|by f_equal|done|done|].
      rewrite E6. simpl. by rewrite orb_true_r.
Qed.

Lemma property_set_spec seen l :
  NoDup (property_String <$> property_set seen l) ∧
  ∀ k, k ∈ property_String <$> property_set seen l ↔ k ∈ property_String <$> l ∧ k ∉ seen.
Proof.
  revert seen. induction l as [|p l IH]; intros seen; simpl; [split; [constructor|set_solver]|].
  case_decide as Hp; csimpl.
  - destruct (IH seen) as [IH1 IH2]. split; [done|]. intros k. rewrite IH2. set_solver.
  - destruct (IH ({[property_String p]} ∪ seen)) as [IH1 IH2]. split.
    + constructor; [|done]. rewrite IH2. set_solver.
    + intros k. rewrite elem_of_cons, IH2, elem_of_cons. destruct (decide (k = property_String p)); set_solver.
Qed.

Lemma ProvidedAPIs_ext b b' :
  settled b → settled b' → rb_csv b' = rb_csv b → rb_v1crds b' = rb_v1crds b → rb_v1beta1crds b' = rb_v1beta1crds b →
  (ProvidedAPIs b').2 = (ProvidedAPIs b).2.
Proof.
  intros Hs Hs' Ec E1 E2. destruct b, b'. unfold settled in *. simpl in *. subst.
  unfold ProvidedAPIs, CustomResourceDefinitions, the_csv, Bundle_ClusterServiceVersion, wrap_bm, mbind, BM_bind, cache, get, lift. simpl.
  destruct rb_csv as [csv|]; simpl; [|done]. destruct (wrap_err _ _); [|done..]. by destruct (mapR service_key _).
Qed.

Lemma Version_ext b b' :
  settled b → settled b' → rb_csv b' = rb_csv b → rb_version b' = rb_version b → (Bundle_Version b').2 = (Bundle_Version b).2.
Proof.
  intros Hs Hs' Ec Ev. unfold Bundle_Version. rewrite !cache_fresh, Ec, Ev by done. case_decide; [done|].
  destruct (rb_csv b); [by destruct (GetVersion _)|done].
Qed.

Section spec.
Context `{GoRuntime}.

(** The properties a bundle is given: those of the metadata, the package, those
    its CSV is annotated with, and one for each API. *)
Definition package_properties (an : registry_Annotations) (version : string) : list registry_Property :=
  if decide (an_PackageName an = "") then [] else [mkRProp PackageType (Some (marshal_PackageProperty (an_PackageName an) version))].
Definition csv_properties (csv : ClusterServiceVersion) : list registry_Property :=
  match csv_Annotations csv !! "olm.properties" with Some text => lenient_properties text | None => [] end.
Definition gvk_properties (provided : gset APIKey) : list registry_Property :=
  (λ k, mkRProp GVKType (Some (marshal_GVK (ak_Group k) (ak_Kind k) (ak_Version k)))) <$> elements provided.

Lemma Version_settled b b' v : settled b → Bundle_Version b = (b', Ok v) → b' = set_version b v.
Proof.
  intros Hs. unfold Bundle_Version. case_decide; [intros [= <- <-]; by rewrite set_version_id|].
  rewrite cache_fresh by done. destruct (rb_csv b); [destruct (GetVersion _); by intros [= <- <-]|].
  intros [= <- <-]. by rewrite set_version_id.
Qed.
Lemma csv_settled b b' c : settled b → Bundle_ClusterServiceVersion b = (b', Ok c) → b' = b ∧ rb_csv b = c.
Proof. intros Hs. unfold Bundle_ClusterServiceVersion, mbind, BM_bind. rewrite cache_fresh by done. unfold get. naive_solver. Qed.

Lemma derived_Ok b b' an ps :
  settled b → rb_Annotations b = Some an → derivedProperties b = (b', Ok ps) →
  ∃ csv v provided, rb_csv b = Some csv ∧ b' = set_version b v ∧ (an_PackageName an ≠ "" → (Bundle_Version b').2 = Ok v) ∧
    (ProvidedAPIs b').2 = Ok provided ∧
    ∀ k, k ∈ property_String <$> ps ↔ k ∈ property_String <$> (package_properties an v ++ csv_properties csv ++ gvk_properties provided).
Proof.
  intros Hs Han E. unfold derivedProperties in E. apply bm_bind_Ok in E as (b1 & c & E1 & E).
  apply wrap_bm_Ok, csv_settled in E1 as [-> Ec]; [|done]. destruct c as [csv|]; [|by inv_bm]. exists csv.
  apply bm_bind_Ok in E as (b2 & an' & E2 & E). apply get_Ok in E2 as [-> ->]. rewrite Han in E.
  apply bm_bind_Ok in E as (b3 & packages & E3 & E).
  assert (∃ v, b3 = set_version b v ∧ packages = package_properties an v ∧ (an_PackageName an ≠ "" → (Bundle_Version b3).2 = Ok v)) as (v & -> & -> & Hv).
  { unfold package_properties. case_decide; [injection E3 as <- <-; exists (rb_version b); rewrite set_version_id; naive_solver|].
    apply bm_bind_Ok in E3 as (b4 & v & E4 & E3). injection E3 as <- <-. pose proof (Version_settled _ _ _ Hs E4) as ->.
    exists v. split_and!; [done..|]. intros _.
    assert (cache (set_version b v) = (set_version b v, Ok tt)) as Hc by (by apply cache_fresh).
    by destruct (Version_again _ _ _ _ E4 Hc) as [_ ->]. }
  apply bm_bind_Ok in E as (b5 & provided & E5 & E). injection E as <- <-.
  apply wrap_bm_Ok in E5. pose proof (stable_Ok _ _ _ _ stable_ProvidedAPIs (Hs : settled (set_version b v)) E5) as ->.
  exists v, provided. split_and!; [done..| |by rewrite E5|]; [done|].
  intros k. unfold propertySet. rewrite (proj2 (property_set_spec _ _)), !fmap_app, !elem_of_app.
  unfold gvk_properties. rewrite !list_elem_of_fmap. setoid_rewrite list_elem_of_fmap. setoid_rewrite range_set_perm. set_solver.
Qed.
(** Filling a stale cache takes the CSV of the first object that is one. *)
Lemma cache_csv b b' :
  rb_cacheStale b = true → rb_csv b = None → cache b = (b', Ok tt) →
  settled b' ∧ match head (filter is_csv (rb_Objects b)) with
               | Some o => ∃ c, o_asCSV o = inl c ∧ rb_csv b' = Some c
               | None => rb_csv b' = None
               end.
Proof.
  intros Hs Hn E. split; [by destruct (cache_settles _ _ E)|].
  assert (∀ l b0, rb_csv (cache_crds b0 l).1 = rb_csv b0) as Hc.
  { induction l as [|o l IH]; intros b0; simpl; [done|].
    destruct (cache_crd_spec b0 o) as [[_ E0]|[_ [e E0]]]; rewrite E0; [|done]. by rewrite IH. }
  assert (head (filter is_csv (rb_Objects b)) = snd <$> list_find is_csv (rb_Objects b)) as ->.
  { clear. induction (rb_Objects b) as [|o l IH]; [done|]. simpl. rewrite filter_cons. case_decide; [done|]. rewrite IH.
    by destruct (list_find is_csv l) as [[]|]. }
  unfold cache in E. rewrite Hs in E. simpl in E. destruct (snd <$> list_find is_csv (rb_Objects b)) as [o|].
  - destruct (o_asCSV o) as [c|e] eqn:Eo; [|done]. pose proof (Hc (rb_Objects b) (set_csv b (Some c))) as Hx.
    destruct (cache_crds _ _) as [b1 [e|]]; [done|]. injection E as <-. eauto.
  - pose proof (Hc (rb_Objects b) b) as Hx. destruct (cache_crds _ _) as [b1 [e|]]; [done|]. injection E as <-. simpl in *. congruence.
Qed.

(** The objects of a bundle: those of the files that decode, but only the first CSV. *)
Definition objects_of (files : list manifest_file) (l : list k8s_object) (o : k8s_object) : Prop :=
  let decoded := omap decoded_object files in
  sublist l decoded ∧ filter (λ o, ¬ is_csv o) l = filter (λ o, ¬ is_csv o) decoded ∧
  filter is_csv l = [o] ∧ head (filter is_csv decoded) = Some o.
(** Every CRD the CSV owns is among the APIs of the bundle. *)
Definition owned_provided (csv : ClusterServiceVersion) (provided : gset APIKey) : Prop :=
  ∃ defs keys, GetCustomResourceDefintions csv = Ok defs ∧ mapR crd_name_key defs.1 = Ok keys ∧ ∀ k, k ∈ keys → k ∈ provided.

Lemma AllProvided_Ok b b' csv :
  settled b → rb_csv b = Some csv → AllProvidedAPIsInBundle b = (b', Ok tt) →
  b' = b ∧ ∃ provided, (ProvidedAPIs b).2 = Ok provided ∧ owned_provided csv provided.
Proof.
  intros Hs Hc E. unfold AllProvidedAPIsInBundle in E. apply bm_bind_Ok in E as (b1 & c & E1 & E).
  pose proof (stable_Ok _ _ _ _ stable_the_csv Hs E1) as ->.
  assert (c = csv) as ->.
  { unfold the_csv in E1. apply bm_bind_Ok in E1 as (b2 & c' & E2 & E1). apply csv_settled in E2 as [-> E2]; [|done].
    apply lift_Ok in E1 as [_ E1]. apply deref_Ok in E1. congruence. }
  apply bm_bind_Ok in E as (b2 & provided & E2 & E). pose proof (stable_Ok _ _ _ _ stable_ProvidedAPIs Hs E2) as ->.
  inv_bm. subst. split; [done|]. exists provided. rewrite E2. split; [done|]. eexists _, _. split_and!; [done..|].
  inv_ok. intros k Hk. destruct (decide (k ∈ provided)) as [|Hn]; [done|].
  match goal with Hh : fst <$> head ?l = None |- _ => assert (l = []) as Hl by (by destruct l) end.
  exfalso. eapply (elem_of_nil (A := error * APIKey)). rewrite <- Hl. apply list_elem_of_omap. exists k.
  rewrite range_set_perm, elem_of_elements, elem_of_list_to_set. split; [done|]. by rewrite decide_False.
Qed.
Lemma addManifests_Ok dir b' :
  addManifests dir zero_rbundle = (b', Ok tt) →
  ∃ files csv o provided, dir = Ok files ∧ objects_of files (rb_Objects b') o ∧ o_asCSV o = inl csv ∧
    settled b' ∧ rb_csv b' = Some csv ∧ rb_Name b' = csv_Name csv ∧ rb_Properties b' = [] ∧ rb_Dependencies b' = [] ∧
    (ProvidedAPIs b').2 = Ok provided ∧ owned_provided csv provided.
Proof.
  intros E. unfold addManifests in E. apply bm_bind_Ok in E as (b0 & files & E0 & E). apply lift_Ok in E0 as [-> ->].
  apply bm_bind_Ok in E as (b1 & [] & E1 & E). injection E1 as E1. rewrite add_manifests_decoded in E1.
  destruct (add_objects_spec (omap decoded_object files) (zero_rbundle, false)) as (l & O1 & O2 & O3 & O4 & O5 & O6).
  rewrite E1 in O1, O5, O6. simpl in O1, O4, O6. unfold same_but_objects in O5. simpl in O5. clear E1.
  apply bm_bind_Ok in E as (b2 & n & E2 & E). apply get_Ok in E2 as [-> ->]. case_decide as Hsize; [by inv_bm|].
  unfold Size in Hsize. rewrite O1 in Hsize. assert (rb_cacheStale b1 = true) as Hst by (rewrite O6; by destruct l).
  apply bm_bind_Ok in E as (b2 & c & E2 & E). unfold Bundle_ClusterServiceVersion in E2. apply bm_bind_Ok in E2 as (b3 & [] & E2 & E3).
  apply get_Ok in E3 as [-> ->]. pose proof (frame_cache b1) as F. rewrite E2 in F. simpl in F. destruct F as (_ & F1 & F2 & _ & _ & F3 & _ & _).
  destruct (cache_csv b1 b3) as [Hs Hc]; [done|by rewrite O5|done|].
  destruct (rb_csv b3) as [csv|] eqn:Ecsv; [|by inv_bm]. apply bm_bind_Ok in E as (b4 & [] & E4 & E). injection E4 as <-.
  apply wrap_bm_Ok in E. destruct (AllProvided_Ok (set_name b3 (csv_Name csv)) b' csv) as (-> & provided & Hp & Hown); [done..|].
  rewrite O1, O4 in Hc. destruct (filter is_csv (omap decoded_object files)) as [|o os] eqn:Ef; simpl in Hc; [done|].
  destruct Hc as (c & Ho & [= <-]). exists files, csv, o, provided. split_and!; try done.
  - simpl. rewrite F3, O1. split_and!; [done|done|by rewrite O4|by rewrite Ef].
  - simpl. rewrite F1. by rewrite O5.
  - simpl. rewrite F2. by rewrite O5.
Qed.

(** C31. Parsing a bundle directory: the bundle holds the objects of the visible
    files that decode, in order, with only the first CSV, whose name it takes; its
    package and channels are those of the annotations; every CRD the CSV owns is
    among the APIs it provides; and its properties are, each once, those of the
    metadata, the package with the version, those annotated on the CSV, and one
    for each API provided. *)
Theorem bundleParser_Parse_spec root b :
  bundleParser_Parse (Some root) = Ok b →
  ∃ mfiles dfiles csv o an provided,
    fs_manifests root = Ok (Ok mfiles) ∧ fs_metadata root = Ok (Ok dfiles) ∧
    objects_of mfiles (rb_Objects b) o ∧ o_asCSV o = inl csv ∧ rb_csv b = Some csv ∧ rb_Name b = csv_Name csv ∧
    find_annotations dfiles = Some an ∧ rb_Annotations b = Some an ∧ rb_Package b = an_PackageName an ∧
    rb_Channels b = AnnotationsFile_GetChannels an ∧ rb_Dependencies b = default [] (find_dependencies dfiles) ∧
    (ProvidedAPIs b).2 = Ok provided ∧ owned_provided csv provided ∧
    (an_PackageName an ≠ "" → (Bundle_Version b).2 = Ok (rb_version b)) ∧
    NoDup (property_String <$> rb_Properties b) ∧
    ∀ k, k ∈ property_String <$> rb_Properties b ↔
      k ∈ property_String <$> (default [] (find_properties dfiles) ++ package_properties an (rb_version b) ++ csv_properties csv ++ gvk_properties provided).
Proof.
  unfold bundleParser_Parse. destruct (parse root zero_rbundle) as [b0 [[]|e|]] eqn:E; [|done..]. intros [= <-]. unfold parse in E.
  apply bm_bind_Ok in E as (b1 & manifests & E1 & E). apply lift_Ok in E1 as [-> E1]. apply wrap_err_Ok in E1.
  apply bm_bind_Ok in E as (b2 & [] & E2 & E). destruct (addManifests_Ok _ _ E2) as (mfiles & csv & o & provided & -> & Ho & Hcsv & Hs & Hc & Hn & Hp & Hd & Hprov & Hown).
  apply bm_bind_Ok in E as (b3 & metadata & E3 & E). apply lift_Ok in E3 as [-> E3]. apply wrap_err_Ok in E3.
  apply bm_bind_Ok in E as (b4 & [] & E4 & E). unfold addMetadata in E4. apply bm_bind_Ok in E4 as (b5 & dfiles & E5 & E4).
  apply lift_Ok in E5 as [-> ->]. destruct (find_annotations dfiles) as [an|] eqn:Ean; [|by inv_bm]. injection E4 as <-.
  apply bm_bind_Ok in E as (b6 & derived & E6 & E). apply wrap_bm_Ok in E6. injection E as <-.
  destruct (derived_Ok _ _ an _ (Hs : settled (set_metadata b2 an _ _)) eq_refl E6) as (csv' & v & provided' & Hc' & -> & Hv & Hprov' & Hk).
  simpl in Hc'. assert (csv' = csv) as -> by congruence.
  rewrite (ProvidedAPIs_ext b2) in Hprov' by done. assert (provided' = provided) as -> by congruence.
  exists mfiles, dfiles, csv, o, an, provided. simpl. rewrite Hd, Hp. split_and!; try done.
  - rewrite (ProvidedAPIs_ext b2) by done. done.
  - intros Hne. rewrite <- (Hv Hne). by apply Version_ext.
  - apply property_set_spec.
  - intros k. unfold propertySet. rewrite (proj2 (property_set_spec _ _)), fmap_app, elem_of_app, Hk, (fmap_app _ (default [] _)), elem_of_app. simpl. set_solver.
Qed.
End spec.

(** ** Example *)
Definition ex_bundle_fs : bundle_fs := mkBundleFS
  (Ok (Ok [mkMFile ".hidden" false (Ok (Some (ex_crd "Foo"))); mkMFile "bar.crd.yaml" false (Ok (Some (ex_crd "Bar")));
           mkMFile "csv.yaml" false (Ok (head (rb_Objects ex_add_bundle))); mkMFile "csv2.yaml" false (Ok (head (rb_Objects ex_add_bundle)));
           mkMFile "notes.txt" false (Err json_error)]))
  (Ok (Ok [mkMDFile (Ok ex_annotations) (Ok []) (Ok []); mkMDFile (Err json_error) (Ok []) (Ok [mkRProp LabelType (Some "{}")])])).
Lemma bundleParser_Parse_spec_witness :
  ∃ b csv, bundleParser_Parse (H := go_default) (Some ex_bundle_fs) = Ok b ∧ length (rb_Objects b) = 2 ∧
    rb_csv b = Some csv ∧ rb_Name b = csv_Name csv ∧ length (rb_Properties b) = 3 ∧ NoDup (property_String <$> rb_Properties b).
Proof.
  assert (is_Ok (bundleParser_Parse (H := go_default) (Some ex_bundle_fs))) as [b E] by (vm_compute; eexists; reflexivity).
  destruct (bundleParser_Parse_spec (H := go_default) _ _ E) as (mf & df & csv & o & an & pr & _ & _ & _ & _ & Hc & Hn & _ & _ & _ & _ & _ & _ & _ & _ & Hd & _).
  exists b, csv. split_and!; [done| |done|done| |done].
  - vm_compute in E. injection E as <-. reflexivity.
  - vm_compute in E. injection E as <-. reflexivity.
Defined.
