(* ===== verification/Populator.v ===== *)
(** * Adding unpacked bundles to the index

    [pkg/registry/populator.go]: the checks before insertion, the manifest of a
    package from the versions of its bundles, and the two ways bundles are added,
    by the edges they declare and by semver.

    The bundles are parsed from directories, which are a parameter.  The
    computations change the index; as those of the file SqlAdd they may still be
    running when the fuel is spent. *)
From S2P Require Import Prelude Semver Json JsonCompact JsonStream Property JsonTotal Model ModelOps Declcfg DeclcfgConv DeclcfgRoundtrip DeclcfgWrite DeclcfgLoad RegistryTypes RegistryBundle RegistryBundleSpec Api Query Conversion Graph Sql SqlLoad SqlGraph SqlAdd SqlQuery BundleParse.
From stdpp Require Import options.

(** ** The manifest of a package *)
Record bundleVersion := mkBV { bv_name : string; bv_version : Version; bv_count : nat }.
Definition zero_version : Version := mkVersion 0 0 0 [] [].
Definition bundleVersion_compare (b v : bundleVersion) : res Z := BuildIdCompare (bv_version b) (bv_version v).

(** One channel of a bundle: [current] counts the bundles of its version met so far. *)
Definition head_step (st : gmap string bundleVersion * bundleVersion) (channel : string) : res (gmap string bundleVersion * bundleVersion) :=
  let '(heads, current) := st in
  match heads !! channel with
  | None => Ok (<[channel := current]> heads, current)
  | Some head =>
      c ← bundleVersion_compare current head;
      if (c <? 0)%Z then Ok (heads, current)
      else let current := if (c =? 0)%Z then mkBV (bv_name current) (bv_version current) (bv_count current + bv_count head) else current in
           Ok (<[channel := current]> heads, current)
  end.
Record manifest_state := mkMS {
  ms_heads : gmap string bundleVersion;
  ms_pkgName : string;
  ms_defaultChannel : string;
  ms_maxVersion : bundleVersion
}.
Definition manifest_step (st : manifest_state) (bundle : registry_Bundle) : res manifest_state :=
  if decide (ms_pkgName st ≠ "" ∧ ms_pkgName st ≠ rb_Package bundle) then Err (ErrNew "more than one package in input")
  else
    rawVersion ← wrap_err (λ e, Errorf "error getting bundle %s version: %s" [AStr (rb_Name bundle); AErr e]) (Bundle_Version bundle).2;
    let rawVersion := if decide (rawVersion = "") then "0.0.0-z" else rawVersion in
    version ← wrap_err (λ e, Errorf "error parsing bundle %s version %s: %s" [AStr (rb_Name bundle); AStr rawVersion; AErr e]) (Parse rawVersion);
    hc ← foldR head_step (ms_heads st, mkBV (rb_Name bundle) version 1) (rb_Channels bundle);
    let '(heads, current) := hc in
    c ← bundleVersion_compare current (ms_maxVersion st);
    if (c <? 0)%Z then Ok (mkMS heads (rb_Package bundle) (ms_defaultChannel st) (ms_maxVersion st))
    else
      let current := if (c =? 0)%Z then mkBV (bv_name current) (bv_version current) (bv_count current + bv_count (ms_maxVersion st)) else current in
      Ok (mkMS heads (rb_Package bundle)
            (match rb_Annotations bundle with
             | Some an => if decide (an_DefaultChannelName an = "") then ms_defaultChannel st else an_DefaultChannelName an
             | None => ms_defaultChannel st
             end) current).
Section manifest.
Context `{GoRuntime}.
Definition pick_head (single : bool) (pm : PackageManifest) (ch : string * bundleVersion) : res PackageManifest :=
  if decide (1 < bv_count ch.2) then Err (Errorf "more than one potential channel head for %s" [AStr ch.1])
  else Ok (mkManifest (pm_PackageName pm) (pm_Channels pm ++ [mkPkgChannel ch.1 (bv_name ch.2)])
             (if single then ch.1 else pm_DefaultChannelName pm)).
(** The caches that reading the versions fills are not used afterwards.  The last
    error prints the heads. *)
Definition SemverPackageManifest (bundles : list registry_Bundle) : res PackageManifest :=
  st ← foldR manifest_step (mkMS ∅ "" "" (mkBV "" zero_version 0)) bundles;
  if decide (1 < bv_count (ms_maxVersion st)) then
    Err (Errorf "more than one bundle with maximum version %s" [AStr (Version_String (bv_version (ms_maxVersion st)))])
  else
    let single := bool_decide (size (ms_heads st) = 1) in
    let channels := range (ms_heads st) in
    pkg ← foldR (pick_head single) (mkManifest (ms_pkgName st) [] (ms_defaultChannel st)) channels;
    if (single && bool_decide (ms_defaultChannel st = "")) || existsb (λ ch, bool_decide (ch.1 = ms_defaultChannel st)) channels
    then Ok pkg
    else Err (Errorf "unable to determine default channel among channel heads: %+v" (AStr <$> channels.*1)).
End manifest.

(** ** Computations on the index *)
Definition PM (A : Type) : Type := db → db * option (res A).
#[export] Instance PM_ret : MRet PM := λ A a d, (d, Some (Ok a)).
#[export] Instance PM_bind : MBind PM := λ A B f m d,
  match m d with
  | (d', Some (Ok a)) => f a d'
  | (d', Some (Err e)) => (d', Some (Err e))
  | (d', Some Panic) => (d', Some Panic)
  | (d', None) => (d', None)
  end.
Definition pm_res {A} (r : res A) : PM A := λ d, (d, Some r).
Definition pm_read {A} (q : db → res A) : PM A := λ d, (d, Some (q d)).
Definition pm_tx {A} (m : TX A) : PM A := λ d, let '(d', r) := m d in (d', Some r).
(** A computation on a bundle; the bundle with its cache, and the outcome. *)
Definition pm_bundle {A} (m : LM A) (b : registry_Bundle) : PM (registry_Bundle * res A) := λ d,
  match m b d with
  | (b', d', Some Panic) => (d', Some Panic)
  | (b', d', Some r) => (d', Some (Ok (b', r)))
  | (_, d', None) => (d', None)
  end.
Definition pm_wrap {A} (f : error → error) (m : PM A) : PM A := λ d, let '(d', r) := m d in (d', wrap_err f <$> r).
Fixpoint pm_fold {A B} (f : B → A → PM B) (b : B) (l : list A) : PM B :=
  match l with [] => mret b | x :: l' => b' ← f b x; pm_fold f b' l' end.
(** [if err := m; err != nil { errs = append(errs, err) }] *)
Definition pm_append {A} (errs : list error) (m : PM A) : PM (list error) := λ d,
  match m d with
  | (d', Some (Ok _)) => (d', Some (Ok errs))
  | (d', Some (Err e)) => (d', Some (Ok (errs ++ [e])))
  | (d', Some Panic) => (d', Some Panic)
  | (d', None) => (d', None)
  end.

Section populator.
Context `{GoRuntime}.
Variable enableAlpha : bool.
Variable decode_install : RawMessage → res install_strategy.
Variable decode_meta : string → res (string * string).
Variable decode_object : string → res k8s_object.
Variable odd_names : gset string → gset string → gset string → api_tables → res (list (gvk * string)).
Variable fuel : nat.
(** The fields of the populator. *)
Variable DirFS : string → bundle_fs.
Variable imageDirMap : gmap string string.
Variable overwriteDirMap : gmap string (gmap string string).
Variable overwrite : bool.

(** ** The checks before insertion *)
Definition BundleImageAlreadyAddedErr (image : string) : error := Errorf "Bundle %s already exists" [AStr image].
Definition PackageVersionAlreadyAddedErr : error := ErrNew "Bundle already added that provides package and csv".
Definition OverwriteErr (msg : string) : error := ErrNew msg.
(** The error texts are compared; [GetBundleThatReplaces] returns this one when
    nothing replaces the bundle in the channel. *)
Definition not_replaced (pkg channel : string) (e : error) : bool :=
  match e with
  | Errorf f [AStr a; AStr b] => bool_decide (f = "no entry found for %s %s" ∧ a = pkg ∧ b = channel)
  | _ => false
  end.
(** The channels of the package, up to a [break]: the errors and [validOverwrite]. *)
Fixpoint check_overwrites (d : db) (b : registry_Bundle) (channels : list string) (errs : list error) (validOverwrite : bool)
    : res (list error * bool) :=
  match channels with
  | [] => Ok (errs, validOverwrite)
  | channel :: channels' =>
      match SQLQuerier_GetBundle decode_meta odd_names d (rb_Package b) channel (rb_Name b) with
      | Panic => Panic
      | Err _ => check_overwrites d b channels' errs validOverwrite
      | Ok _ =>
          if negb overwrite then Ok (errs ++ [PackageVersionAlreadyAddedErr], validOverwrite)
          else match SQLQuerier_GetBundleThatReplaces decode_meta odd_names d (rb_Name b) (rb_Package b) channel with
               | Panic => Panic
               | Err e => if not_replaced (rb_Package b) channel e then check_overwrites d b channels' errs true
                          else Ok (errs ++ [e], validOverwrite)
               | Ok _ => Ok (errs ++ [OverwriteErr "Cannot overwrite a bundle that is not at the head of a channel using --overwrite-latest"], false)
               end
      end
  end.
(** The images in turn, with the packages that have an overwrite. *)
Fixpoint check_images (d : db) (images : gset string) (bundles : list registry_Bundle) (attempted : gset string) (errs : list error) : res unit :=
  match bundles with
  | [] => NewAggregate errs
  | b :: bundles' =>
      match GetBundlePathsForPackage d (rb_Package b) with
      | Panic => Panic
      | Err _ => Ok tt
      | Ok bundlePaths =>
          let errs := errs ++ ((λ _, BundleImageAlreadyAddedErr (rb_BundleImage b)) <$> filter (λ path, path ∈ images) bundlePaths) in
          channels ← ListChannels d (rb_Package b);
          ev ← check_overwrites d b channels errs false;
          let '(errs, validOverwrite) := ev in
          if validOverwrite : bool then
            if decide (rb_Package b ∈ attempted) then
              NewAggregate (errs ++ [OverwriteErr "Cannot overwrite more than one bundle at a time for a given package using --overwrite-latest"])
            else check_images d images bundles' ({[rb_Package b]} ∪ attempted) errs
          else check_images d images bundles' attempted errs
      end
  end.
Definition globalSanityCheck (d : db) (imagesToAdd : list registry_Bundle) : res unit :=
  check_images d (list_to_set (rb_BundleImage <$> imagesToAdd)) imagesToAdd ∅ [].

(** ** Adding *)
Definition add_replaces_bundle (st : gmap string (list registry_Bundle) * list error) (img : registry_Bundle)
    : PM (gmap string (list registry_Bundle) * list error) :=
  r ← pm_bundle (AddOperatorBundle enableAlpha decode_install fuel) img;
  let '(b, outcome) := r in
  mret (match outcome with
        | Ok _ => (<[rb_Package b := default [] (st.1 !! rb_Package b) ++ [b]]> st.1, st.2)
        | Err e => (st.1, st.2 ++ [e])
        | Panic => st
        end).
(** The upgrade graph of a package is made again from all its bundles. *)
Definition regenerate (errs : list error) (pb : string * list registry_Bundle) : PM (list error) :=
  pm_append errs (
    existing ← pm_read (λ d, ListRegistryBundles decode_object d (Some pb.1));
    packageManifest ← pm_res (SemverPackageManifest (existing ++ pb.2));
    pm_tx (AddPackageChannels packageManifest)).
Definition loadManifestsReplaces (images : list registry_Bundle) : PM unit :=
  st ← pm_fold add_replaces_bundle (∅, []) images;
  errs ← pm_fold regenerate st.2 (range st.1);
  pm_res (NewAggregate errs).

Definition package_graph (d : db) (pkg : string) : res graph_Package :=
  match SQLGraphLoader_Generate d pkg with
  | Err e => if is_error e ErrPackageNotInDatabase then Ok (mkGPackage pkg "" ∅) else Err e
  | r => r
  end.
Definition loadManifestsSemver (bundle : registry_Bundle) (skippatch : bool) : PM unit :=
  graph ← pm_read (λ d, package_graph d (rb_Package bundle));
  an ← pm_res (deref (rb_Annotations bundle));
  let '(bundle, updatedGraph, r) := AddBundleToGraph bundle graph an skippatch in
  _ ← pm_res r;
  br ← pm_bundle (AddBundleSemver enableAlpha decode_install fuel updatedGraph) bundle;
  pm_res (wrap_err (λ e, Errorf "error loading bundle into db: %s" [AErr e]) br.2).
(** [loadOperatorBundle] has no caller. *)
Definition loadOperatorBundle (manifest : PackageManifest) (bundle : registry_Bundle) : PM unit :=
  if decide (pm_PackageName manifest = "") then mret tt
  else br ← pm_bundle (AddBundlePackageChannels enableAlpha decode_install fuel manifest) bundle;
       pm_res (wrap_err (λ e, Errorf "error loading bundle into db: %s" [AErr e]) br.2).

Definition clear_old_bundles : PM unit :=
  pm_wrap (λ e, Errorf "Error deleting previous bundles: %s" [AErr e]) (pm_tx ClearNonHeadBundles).
(** A mode is an integer; [None] is one that is none of the three constants. *)
Definition loadManifests (imagesToAdd imagesToReAdd : list registry_Bundle) (mode : option Mode) : PM unit :=
  _ ← pm_read (λ d, globalSanityCheck d imagesToAdd);
  match mode with
  | Some ReplacesMode =>
      _ ← pm_fold (λ _ pkg, pm_tx (RemovePackage pkg)) tt (range overwriteDirMap).*1;
      loadManifestsReplaces (imagesToAdd ++ imagesToReAdd)
  | Some SemVerMode => _ ← pm_fold (λ _ b, loadManifestsSemver b false) tt imagesToAdd; clear_old_bundles
  | Some SkipPatchMode => _ ← pm_fold (λ _ b, loadManifestsSemver b true) tt imagesToAdd; clear_old_bundles
  | None => pm_res (Err (ErrNew "Unsupported update mode"))
  end.
(** The images that parse, and the errors of the others. *)
Fixpoint read_images (l : list (string * string)) : res (list registry_Bundle * list error) :=
  match l with
  | [] => Ok ([], [])
  | (to, from) :: l' =>
      match NewImageInput DirFS to from with
      | Panic => Panic
      | Err e => r ← read_images l'; Ok (r.1, e :: r.2)
      | Ok i => r ← read_images l'; Ok (ii_Bundle i :: r.1, r.2)
      end
  end.
Definition Populate (mode : option Mode) : PM unit :=
  toAdd ← pm_res (read_images (range imageDirMap));
  toReAdd ← pm_res (read_images (range overwriteDirMap ≫= λ pm, range pm.2));
  _ ← pm_res (NewAggregate (toAdd.2 ++ toReAdd.2));
  loadManifests toAdd.1 toReAdd.1 mode.
End populator.
