(* ===== verification/PopulatorSpec.v ===== *)
(** * What the populator does

    The manifest made from the versions of bundles; that adding bundles keeps the
    index consistent; and what the checks before insertion let pass. *)
From S2P Require Import Prelude Semver Json JsonCompact JsonStream Property JsonTotal Model ModelOps Declcfg DeclcfgConv DeclcfgRoundtrip DeclcfgWrite DeclcfgLoad RegistryTypes RegistryBundle RegistryBundleSpec Api Query QuerySpec Conversion Server Graph GraphSpec Sql SqlLoad SqlInv SqlTail SqlGraph SqlRoundtrip SqlChannels SqlAdd SqlAddInv SqlAddSpec SqlQuery SqlQuerySpec BundleParse BundleParseSpec Populator.
From stdpp Require Import options.

(** ** The order of versions *)
Lemma compare_flip x y c : BuildIdCompare x y = Ok c → BuildIdCompare y x = Ok (- c)%Z.
Proof.
  unfold BuildIdCompare. rewrite (cmp_opp (cmp := Version_Compare) x y). destruct (Z.eqb_spec (Version_Compare x y) 0) as [E|E]; simpl.
  - rewrite E. simpl. destruct (buildAsPrerelease x) as [x'| |]; simpl; [|done..]. destruct (buildAsPrerelease y) as [y'| |]; simpl; [|done..].
    intros [= <-]. by rewrite (cmp_opp (cmp := Version_Compare) x' y').
  - intros [= <-]. destruct (Z.eqb_spec (- Version_Compare x y) 0); simpl; [lia|done].
Qed.
(** A version not below a second that is not below a third. *)
Lemma compare_trans x y z c1 c2 :
  BuildIdCompare x y = Ok c1 → (0 ≤ c1)%Z → BuildIdCompare y z = Ok c2 → (0 ≤ c2)%Z →
  ∃ c3, BuildIdCompare x z = Ok c3 ∧ (0 ≤ c3)%Z ∧ ((0 < c1)%Z ∨ (0 < c2)%Z → (0 < c3)%Z).
Proof.
  assert (∀ u v w, (0 ≤ Version_Compare u v)%Z → (0 ≤ Version_Compare v w)%Z →
    (0 ≤ Version_Compare u w)%Z ∧ ((0 < Version_Compare u v)%Z ∨ (0 < Version_Compare v w)%Z → (0 < Version_Compare u w)%Z)) as Ht.
  { intros u v w H1 H2. pose proof (cmp_opp (cmp := Version_Compare) u v). pose proof (cmp_opp (cmp := Version_Compare) v w).
    pose proof (cmp_opp (cmp := Version_Compare) u w). pose proof (cmp_trans (cmp := Version_Compare) w v u).
    pose proof (cmp_lt_trans Version_Compare w v u). pose proof (cmp_le_lt_trans Version_Compare w v u). lia. }
  unfold BuildIdCompare. destruct (Z.eqb_spec (Version_Compare x y) 0) as [E1|E1]; destruct (Z.eqb_spec (Version_Compare y z) 0) as [E2|E2]; simpl.
  - rewrite (cmp_eq_l Version_Compare x y z E1), E2. simpl.
    destruct (buildAsPrerelease x) as [x'| |]; simpl; [|done..]. destruct (buildAsPrerelease y) as [y'| |]; simpl; [|done..].
    destruct (buildAsPrerelease z) as [z'| |]; simpl; [|done..]. intros [= <-] H1 [= <-] H2. eexists. split; [done|]. by apply Ht.
  - rewrite (cmp_eq_l Version_Compare x y z E1). intros _ _ [= <-] H2. exists (Version_Compare y z).
    destruct (Z.eqb_spec (Version_Compare y z) 0); simpl; [done|]. split_and!; [done|lia|lia].
  - rewrite <- (cmp_eq_r Version_Compare y z x E2). intros [= <-] H1 _ _. exists (Version_Compare x y).
    destruct (Z.eqb_spec (Version_Compare x y) 0); simpl; [done|]. split_and!; [done|lia|lia].
  - intros [= <-] H1 [= <-] H2. destruct (Ht x y z H1 H2) as [H3 H4]. exists (Version_Compare x z).
    destruct (Z.eqb_spec (Version_Compare x z) 0); simpl; [lia|]. split_and!; [done|lia|lia].
Qed.

(** ** Heads *)
(** The head [h] of the bundles of [Q], counted once when no other has its version. *)
Definition positioned := nat → registry_Bundle → Version → Prop.
Definition top (Q : positioned) (h : bundleVersion) : Prop :=
  ∃ i b, Q i b (bv_version h) ∧ bv_name h = rb_Name b ∧ 1 ≤ bv_count h ∧
    ∀ j b' v', Q j b' v' → (j = i ∧ b' = b ∧ v' = bv_version h) ∨
      ∃ c, BuildIdCompare (bv_version h) v' = Ok c ∧ (0 ≤ c)%Z ∧ (bv_count h = 1 → (0 < c)%Z).
Definition bump (current head : bundleVersion) (c : Z) : bundleVersion :=
  if (c =? 0)%Z then mkBV (bv_name current) (bv_version current) (bv_count current + bv_count head) else current.
Lemma top_iff Q Q' h : (∀ i b v, Q i b v ↔ Q' i b v) → top Q h → top Q' h.
Proof. intros E (i & b & Hi & Hn & Hc & Hall). exists i, b. split_and!; [by apply E|done..|]. intros j b' v' Hj%E. eauto. Qed.
Lemma top_first Q i b v n : (∀ j b' v', Q j b' v' ↔ j = i ∧ b' = b ∧ v' = v) → 1 ≤ n → top Q (mkBV (rb_Name b) v n).
Proof. intros E Hn. exists i, b. simpl. split_and!; [by apply E|done..|]. intros j b' v' Hj%E. by left. Qed.
(** Another bundle, above or not. *)
Lemma top_step Q Q' h i b v n c :
  top Q h → 1 ≤ n → BuildIdCompare v (bv_version h) = Ok c → (∀ j b' v', Q' j b' v' ↔ Q j b' v' ∨ (j = i ∧ b' = b ∧ v' = v)) →
  top Q' (if (c <? 0)%Z then h else bump (mkBV (rb_Name b) v n) h c).
Proof.
  intros (i0 & b0 & Hi & Hn & Hc & Hall) Hn' E HQ. destruct (Z.ltb_spec c 0) as [Hlt|Hge].
  - exists i0, b0. split_and!; [apply HQ; by left|done..|]. intros j b' v' [Hj|(-> & -> & ->)]%HQ; [eauto|].
    right. apply compare_flip in E. eexists. split; [done|]. lia.
  - assert (∀ m, (c = 0%Z → 2 ≤ m) → 1 ≤ m → top Q' (mkBV (rb_Name b) v m)) as Hm.
    { intros m Hm1 Hm2. exists i, b. simpl. split_and!; [apply HQ; by right|done..|].
      intros j b' v' [Hj|Hj]%HQ; [|by left]. right. destruct (Hall _ _ _ Hj) as [(-> & -> & ->)|(c2 & E2 & H2 & _)].
      - exists c. split_and!; [done|done|]. intros ->. destruct (decide (c = 0%Z)); [lia|lia].
      - destruct (compare_trans _ _ _ _ _ E Hge E2 H2) as (c3 & E3 & H3 & Hs). exists c3. split_and!; [done|done|].
        intros ->. apply Hs. destruct (decide (c = 0%Z)); lia. }
    unfold bump. simpl. destruct (Z.eqb_spec c 0); apply Hm; lia.
Qed.

(** The version a bundle is ordered by. *)
Definition bundle_semver (b : registry_Bundle) : res Version :=
  raw ← (Bundle_Version b).2; Parse (if decide (raw = "") then "0.0.0-z" else raw).
(** The bundles of a channel met so far: those before the [k]th, and the [k]th
    when the channel is among those of it that were visited. *)
Definition met (bundles : list registry_Bundle) (k : nat) (visited : list string) (c : string) : positioned := λ j b v,
  bundles !! j = Some b ∧ bundle_semver b = Ok v ∧ c ∈ rb_Channels b ∧ (j < k ∨ (j = k ∧ c ∈ visited)).
Definition heads_ok (bundles : list registry_Bundle) (k : nat) (visited : list string) (heads : gmap string bundleVersion) : Prop :=
  ∀ c, match heads !! c with
       | Some h => top (met bundles k visited c) h
       | None => ∀ j b v, ¬ met bundles k visited c j b v
       end.

Lemma heads_step bundles k visited heads b v n c heads' cur :
  bundles !! k = Some b → bundle_semver b = Ok v → c ∈ rb_Channels b → 1 ≤ n → heads_ok bundles k visited heads →
  head_step (heads, mkBV (rb_Name b) v n) c = Ok (heads', cur) →
  heads_ok bundles k (visited ++ [c]) heads' ∧ ∃ n', cur = mkBV (rb_Name b) v n' ∧ 1 ≤ n'.
Proof.
  intros Hk Hv Hc Hn Hok E.
  assert (∀ c' j b' v', c' ≠ c → met bundles k visited c' j b' v' ↔ met bundles k (visited ++ [c]) c' j b' v') as Hne.
  { intros c' j b' v' Hne. unfold met. rewrite elem_of_app, list_elem_of_singleton. naive_solver. }
  assert (∀ j b' v', met bundles k (visited ++ [c]) c j b' v' ↔ met bundles k visited c j b' v' ∨ j = k ∧ b' = b ∧ v' = v) as Heq.
  { intros j b' v'. unfold met. rewrite elem_of_app, list_elem_of_singleton. split.
    - intros (? & ? & ? & [?|[-> [?|_]]]); [left; naive_solver..|]. right. naive_solver congruence.
    - intros [?|(-> & -> & ->)]; [naive_solver|]. split_and!; auto. }
  assert (∀ h', top (met bundles k (visited ++ [c]) c) h' → ∀ m, m = heads ∧ heads !! c = Some h' ∨ m = <[c := h']> heads → heads_ok bundles k (visited ++ [c]) m) as Hset.
  { intros h' Ht m Hm c'. specialize (Hok c'). destruct (decide (c' = c)) as [->|Hne'].
    - destruct Hm as [[-> ->]| ->]; [done|]. by rewrite lookup_insert_eq.
    - replace (m !! c') with (heads !! c') by (destruct Hm as [[-> _]| ->]; [done|by rewrite lookup_insert_ne]).
      destruct (heads !! c'); [by eapply top_iff; [intros j b' v'; by apply Hne|]|]. intros j b' v'. rewrite <- Hne by done. apply Hok. }
  unfold head_step in E. pose proof (Hok c) as Hokc. destruct (heads !! c) as [h|] eqn:Eh.
  - apply bind_Ok in E as (z & Ez & E). pose proof (top_step _ _ _ _ _ _ _ _ Hokc Hn Ez Heq) as Ht.
    destruct (z <? 0)%Z eqn:Ez'; injection E as <- <-.
    + split; [|eauto]. eapply Hset; [done|]. by left.
    + unfold bump in Ht. simpl in Ht. split; [eapply Hset; [done|by right]|]. destruct (z =? 0)%Z; eexists; (split; [done|lia]).
  - injection E as <- <-. split; [|eauto]. eapply Hset; [|by right]. apply (top_first _ k b); [|done]. intros j b' v'. rewrite Heq. split; [|by right].
    intros [Hm|?]; [|done]. by apply Hokc in Hm.
Qed.
Lemma heads_fold bundles k b v chs : ∀ visited heads n heads' cur,
  bundles !! k = Some b → bundle_semver b = Ok v → (∀ c, c ∈ chs → c ∈ rb_Channels b) → 1 ≤ n → heads_ok bundles k visited heads →
  foldR head_step (heads, mkBV (rb_Name b) v n) chs = Ok (heads', cur) → heads_ok bundles k (visited ++ chs) heads'.
Proof.
  induction chs as [|c chs IH]; intros visited heads n heads' cur Hk Hv Hch Hn Hok E; simpl in E.
  - injection E as <- <-. by rewrite app_nil_r.
  - apply bind_Ok in E as ([heads1 cur1] & E1 & E). destruct (heads_step _ _ _ _ _ _ _ _ _ _ Hk Hv (Hch c ltac:(by left)) Hn Hok E1) as (Hok1 & n1 & -> & Hn1).
    specialize (IH (visited ++ [c]) heads1 n1 heads' cur Hk Hv). rewrite <- app_assoc in IH. apply IH; try done. intros c' Hc'. apply Hch. by right.
Qed.
Lemma manifest_heads l : ∀ pre st st',
  heads_ok (pre ++ l) (length pre) [] (ms_heads st) → foldR manifest_step st l = Ok st' →
  heads_ok (pre ++ l) (length (pre ++ l)) [] (ms_heads st').
Proof.
  induction l as [|b l IH]; intros pre st st' Hok E; simpl in E.
  - injection E as <-. by rewrite app_nil_r in *.
  - apply bind_Ok in E as (st1 & E1 & E). specialize (IH (pre ++ [b]) st1 st'). rewrite <- app_assoc in IH. apply IH; [|done].
    unfold manifest_step in E1. case_decide; [done|]. apply bind_Ok in E1 as (raw & Er & E1). apply wrap_err_Ok in Er.
    apply bind_Ok in E1 as (v & Ev & E1). apply wrap_err_Ok in Ev. apply bind_Ok in E1 as ([heads cur] & Eh & E1).
    assert (bundle_semver b = Ok v) as Hv by (unfold bundle_semver; rewrite Er; done).
    assert ((pre ++ b :: l) !! length pre = Some b) as Hk by (by rewrite list_lookup_middle).
    pose proof (heads_fold _ _ _ _ _ _ _ _ _ _ Hk Hv (λ c Hc, Hc) (le_n 1) Hok Eh) as Hok1.
    assert (ms_heads st1 = heads) as -> by (apply bind_Ok in E1 as (z & _ & E1); destruct (z <? 0)%Z; by injection E1 as <-).
    intros c. specialize (Hok1 c). rewrite length_app. simpl.
    assert (∀ j b' v', met (pre ++ b :: l) (length pre) ([] ++ rb_Channels b) c j b' v' ↔ met (pre ++ b :: l) (length pre + 1) [] c j b' v') as Heq.
    { intros j b' v'. unfold met. simpl. split.
      - intros (H1 & ? & ? & [?|[-> ?]]); (split_and!; [done..|]; left; lia).
      - intros (H1 & ? & ? & [?|[_ Hx]]); [|inversion Hx]. split_and!; [done..|]. destruct (decide (j = length pre)) as [->|]; [|left; lia].
        right. split; [done|]. congruence. }
    destruct (heads !! c); [by eapply top_iff|]. intros j b' v'. rewrite <- Heq. apply Hok1.
Qed.
Lemma manifest_package l : ∀ st st',
  Forall (λ b, rb_Package b ≠ "") l → foldR manifest_step st l = Ok st' →
  (ms_pkgName st ≠ "" → ms_pkgName st' = ms_pkgName st) ∧ Forall (λ b, rb_Package b = ms_pkgName st') l.
Proof.
  induction l as [|b l IH]; intros st st' Hl E; simpl in E; [by injection E as <-|].
  apply Forall_cons in Hl as [Hb Hl]. apply bind_Ok in E as (st1 & E1 & E). destruct (IH _ _ Hl E) as [IH1 IH2].
  unfold manifest_step in E1. case_decide as Hp; [done|]. apply bind_Ok in E1 as (raw & _ & E1). apply bind_Ok in E1 as (v & _ & E1).
  apply bind_Ok in E1 as ([heads cur] & _ & E1). apply bind_Ok in E1 as (z & _ & E1).
  assert (ms_pkgName st1 = rb_Package b) as Hp1 by (destruct (z <? 0)%Z; by injection E1 as <-). rewrite Hp1 in *. rewrite (IH1 Hb) in *.
  split; [|by constructor]. intros Hne. destruct (decide (ms_pkgName st = rb_Package b)); [done|tauto].
Qed.

Lemma manifest_semver l : ∀ st st' b, foldR manifest_step st l = Ok st' → b ∈ l → is_Ok (bundle_semver b).
Proof.
  induction l as [|b l IH]; intros st0 st' b' E Hb'; [inversion Hb'|].
  simpl in E. apply bind_Ok in E as (st1 & E1 & E). apply elem_of_cons in Hb' as [->|Hb']; [|by eapply IH].
  unfold manifest_step in E1. case_decide; [done|]. apply bind_Ok in E1 as (raw & Er & E1). apply wrap_err_Ok in Er.
  apply bind_Ok in E1 as (v & Ev & E1). apply wrap_err_Ok in Ev. exists v. unfold bundle_semver. by rewrite Er.
Qed.

Section manifest_spec.
Context `{GoRuntime}.
Lemma pick_heads single l pm pm' :
  foldR (pick_head single) pm l = Ok pm' →
  pm_Channels pm' = pm_Channels pm ++ ((λ ch, mkPkgChannel ch.1 (bv_name ch.2)) <$> l) ∧ pm_PackageName pm' = pm_PackageName pm ∧
  (∀ ch, ch ∈ l → bv_count ch.2 ≤ 1) ∧
  pm_DefaultChannelName pm' = (if single then default (pm_DefaultChannelName pm) (last l.*1) else pm_DefaultChannelName pm).
Proof.
  revert pm. induction l as [|ch l IH]; intros pm E; cbn [foldR] in E.
  - injection E as <-. rewrite app_nil_r. split_and!; [done|done|inversion 1|by destruct single].
  - apply bind_Ok in E as (pm1 & E1 & E). unfold pick_head in E1. case_decide as Hc; [done|]. injection E1 as <-.
    destruct (IH _ E) as (-> & -> & Hl & ->). simpl. rewrite <- app_assoc. split_and!; [done|done| |].
    + intros ch' [->|Hch]%elem_of_cons; [lia|auto].
    + destruct single; [|done]. change (list_fmap _ _ fst l) with l.*1. rewrite last_cons. by destruct (last l.*1).
Qed.

(** C14. The manifest made from the versions of a package's bundles: its channels
    are exactly those of the bundles, each once; the head of a channel is one of
    its bundles and above every other one of them; the default channel is one of
    the channels; and all bundles are of the package. *)
Theorem SemverPackageManifest_spec bundles pm :
  SemverPackageManifest bundles = Ok pm →
  NoDup (pch_Name <$> pm_Channels pm) ∧
  (∀ c, c ∈ pch_Name <$> pm_Channels pm ↔ ∃ b, b ∈ bundles ∧ c ∈ rb_Channels b) ∧
  (∀ ch, ch ∈ pm_Channels pm → ∃ i b v, bundles !! i = Some b ∧ pch_Name ch ∈ rb_Channels b ∧ rb_Name b = pch_CurrentCSVName ch ∧
    bundle_semver b = Ok v ∧ ∀ j b' v', j ≠ i → bundles !! j = Some b' → pch_Name ch ∈ rb_Channels b' → bundle_semver b' = Ok v' →
      ∃ c, BuildIdCompare v v' = Ok c ∧ (0 < c)%Z) ∧
  pm_DefaultChannelName pm ∈ pch_Name <$> pm_Channels pm ∧
  (Forall (λ b, rb_Package b ≠ "") bundles → Forall (λ b, rb_Package b = pm_PackageName pm) bundles).
Proof.
  intros (st & Est & E)%bind_Ok. case_decide; [done|]. apply bind_Ok in E as (pkg & Ep & E).
  set (found := _ || _) in E. destruct found eqn:Efound; [|done]. injection E as <-. unfold found in Efound. clear found.
  destruct (pick_heads _ _ _ _ Ep) as (Echs & Epkg & Hcount & Edef). simpl in *.
  assert (pch_Name <$> pm_Channels pkg = (range (ms_heads st)).*1) as Enames by (by rewrite Echs, <- list_fmap_compose).
  assert (heads_ok bundles (length bundles) [] (ms_heads st)) as Hok.
  { refine (manifest_heads bundles [] _ _ _ Est). intros c. simpl. rewrite lookup_empty. intros j b v (_ & _ & _ & [?|[_ Hx]]); [lia|inversion Hx]. }
  assert (∀ i b c v, bundles !! i = Some b → bundle_semver b = Ok v → c ∈ rb_Channels b → met bundles (length bundles) [] c i b v) as Hmet.
  { intros i b c v Hi Hv Hc. split_and!; [done..|]. left. by eapply lookup_lt_Some. }
  assert (∀ b, b ∈ bundles → is_Ok (bundle_semver b)) as Hsem by eauto using manifest_semver.
  rewrite Enames. split_and!.
  - apply range_NoDup.
  - intros c. rewrite list_elem_of_fmap. split.
    + intros ([c' h] & -> & Hr%range_elem). specialize (Hok c'). simpl. rewrite Hr in Hok.
      destruct Hok as (i & b & (Hi & _ & Hc & _) & _). exists b. split; [by eapply list_elem_of_lookup_2|done].
    + intros (b & Hb & Hc). destruct (Hsem b Hb) as [v Hv]. apply list_elem_of_lookup_1 in Hb as [i Hi]. specialize (Hok c).
      destruct (ms_heads st !! c) as [h|] eqn:Eh; [exists (c, h); by rewrite range_elem|]. exfalso. by eapply Hok, Hmet.
  - intros ch Hch. rewrite Echs in Hch. apply list_elem_of_fmap in Hch as ([c h] & -> & Hr). simpl. pose proof (Hcount _ Hr) as Hone.
    apply range_elem in Hr. specialize (Hok c). rewrite Hr in Hok. destruct Hok as (i & b & (Hi & Hv & Hc & _) & Hn & Hge & Hall). simpl in Hone.
    exists i, b, (bv_version h). split_and!; [done..|]. intros j b' v' Hj Hb' Hc' Hv'.
    destruct (Hall j b' v') as [[-> _]|(z & Ez & _ & Hz)]; [by apply Hmet|done|]. exists z. split; [done|]. apply Hz. lia.
  - rewrite Edef. case_bool_decide as Hs; simpl in Efound.
    + destruct (last (range (ms_heads st)).*1) as [c|] eqn:El; simpl.
      * apply last_Some in El as [l' ->]. apply elem_of_app. right. by left.
      * exfalso. apply last_None in El. pose proof (range_perm (ms_heads st)) as Hp. apply fmap_nil_inv in El. rewrite El in Hp.
        apply Permutation_nil_l in Hp. symmetry in Hp. apply map_to_list_empty_iff in Hp. rewrite Hp, map_size_empty in Hs. done.
    + apply existsb_exists in Efound as (ch & Hch%list_elem_of_In & Ec%bool_decide_eq_true). apply list_elem_of_fmap. exists ch. done.
  - intros Hne. rewrite Epkg. simpl. by apply (manifest_package _ _ _ Hne Est).
Qed.
End manifest_spec.

(** ** Examples *)
Definition ex_versioned (name version : string) (channels : list string) : registry_Bundle :=
  mkRBundle name [] "foo" channels "" version None [] [] [] [] (Some (mkAnnotations "foo" "" "a")) false.
Lemma SemverPackageManifest_spec_witness :
  ∃ pm, SemverPackageManifest (H := go_default) [ex_versioned "foo.v1" "1.0.0" ["a"; "b"]; ex_versioned "foo.v2" "1.0.0+1" ["a"]] = Ok pm ∧
    pm = mkManifest "foo" [mkPkgChannel "a" "foo.v2"; mkPkgChannel "b" "foo.v1"] "a" ∧ NoDup (pch_Name <$> pm_Channels pm).
Proof.
  assert (SemverPackageManifest (H := go_default) [ex_versioned "foo.v1" "1.0.0" ["a"; "b"]; ex_versioned "foo.v2" "1.0.0+1" ["a"]] =
    Ok (mkManifest "foo" [mkPkgChannel "a" "foo.v2"; mkPkgChannel "b" "foo.v1"] "a")) as E by (vm_compute; reflexivity).
  eexists. split_and!; [exact E|reflexivity|]. apply (SemverPackageManifest_spec (H := go_default) _ _ E).
Defined.
(** The count of the bundles of a version is carried from one channel to the
    next: although every channel has one greatest bundle, and so has the package,
    the manifest is refused because of two bundles of the same version below the
    head of another channel. *)
Theorem SemverPackageManifest_contested :
  SemverPackageManifest (H := go_default)
    [ex_versioned "foo.v1" "1.0.0" ["a"]; ex_versioned "foo.v1b" "1.0.0" ["a"; "b"]; ex_versioned "foo.v2" "2.0.0" ["a"]] =
    Err (Errorf "more than one potential channel head for %s" [AStr "b"]) ∧
  SemverPackageManifest (H := go_default)
    [ex_versioned "foo.v1" "1.0.0" ["a"]; ex_versioned "foo.v1b" "1.0.0" ["b"; "a"]; ex_versioned "foo.v2" "2.0.0" ["a"]] =
    Ok (mkManifest "foo" [mkPkgChannel "a" "foo.v2"; mkPkgChannel "b" "foo.v1b"] "a").
Proof. vm_compute. split; reflexivity. Qed.

(** ** The index stays consistent *)
Definition ppreserves (I : db → Prop) {A} (m : PM A) : Prop := ∀ d, I d → I (m d).1.
Section ppreserves.
Variable I : db → Prop.
Lemma pkeeps_ret {A} (a : A) : ppreserves I (mret a).
Proof. by intros d. Qed.
Lemma pkeeps_res {A} (r : res A) : ppreserves I (pm_res r).
Proof. by intros d. Qed.
Lemma pkeeps_read {A} (q : db → res A) : ppreserves I (pm_read q).
Proof. by intros d. Qed.
Lemma pkeeps_bind {A B} (m : PM A) (f : A → PM B) : ppreserves I m → (∀ a, ppreserves I (f a)) → ppreserves I (m ≫= f).
Proof. intros Hm Hf d Hd. specialize (Hm d Hd). unfold mbind, PM_bind. destruct (m d) as [d' [[a| |]|]]; [|done..]. by apply Hf. Qed.
Lemma pkeeps_tx {A} (m : TX A) : preserves I m → ppreserves I (pm_tx m).
Proof. intros Hm d Hd. specialize (Hm d Hd). unfold pm_tx. by destruct (m d). Qed.
Lemma pkeeps_bundle {A} (m : LM A) b : lpreserves I m → ppreserves I (pm_bundle m b).
Proof. intros Hm d Hd. specialize (Hm b d Hd). unfold pm_bundle. by destruct (m b d) as [[b' d'] [[a| |]|]]. Qed.
Lemma pkeeps_wrap {A} f (m : PM A) : ppreserves I m → ppreserves I (pm_wrap f m).
Proof. intros Hm d Hd. specialize (Hm d Hd). unfold pm_wrap. by destruct (m d). Qed.
Lemma pkeeps_append {A} errs (m : PM A) : ppreserves I m → ppreserves I (pm_append errs m).
Proof. intros Hm d Hd. specialize (Hm d Hd). unfold pm_append. by destruct (m d) as [d' [[a| |]|]]. Qed.
Lemma pkeeps_fold {A B} (f : B → A → PM B) b l : (∀ b x, ppreserves I (f b x)) → ppreserves I (pm_fold f b l).
Proof. intros Hf. revert b. induction l; intros b; simpl; [apply pkeeps_ret|]. by apply pkeeps_bind. Qed.
End ppreserves.
Ltac pkeep :=
  repeat first
    [ progress intros
    | match goal with |- ppreserves _ (match ?x with _ => _ end) => destruct x end
    | apply pkeeps_bind | apply pkeeps_tx | apply pkeeps_bundle | apply pkeeps_wrap | apply pkeeps_append | apply pkeeps_fold
    | apply pkeeps_ret | apply pkeeps_res | apply pkeeps_read
    | progress cbv beta zeta
    | solve [eauto 4 with index] ].

Section populate.
Context `{GoRuntime}.
Variables (enableAlpha : bool) (decode_install : RawMessage → res install_strategy) (decode_meta : string → res (string * string))
  (decode_object : string → res k8s_object) (odd_names : gset string → gset string → gset string → api_tables → res (list (gvk * string)))
  (fuel : nat) (DirFS : string → bundle_fs) (imageDirMap : gmap string string) (overwriteDirMap : gmap string (gmap string string)) (overwrite : bool).

(** Populating an index keeps it consistent, in every mode, whatever is in the
    directories, whether it succeeds, fails half way or is stopped. *)
Lemma index_Populate mode :
  ppreserves index_ok (Populate enableAlpha decode_install decode_meta decode_object odd_names fuel DirFS imageDirMap overwriteDirMap overwrite mode).
Proof.
  unfold Populate, loadManifests, loadManifestsReplaces, add_replaces_bundle, regenerate, loadManifestsSemver, clear_old_bundles. pkeep.
Qed.

(** *** Every image is stored *)
Definition stored (d : db) (b : registry_Bundle) : Prop :=
  ∃ name row rest, Serialize b = Ok (name, rb_BundleImage b, rest.1.1, rest.1.2, rest.2) ∧
    operatorbundle d !! name = Some row ∧ ob_bundlepath row = Some (rb_BundleImage b).
Lemma Serialize_same b b' : same_input b b' → Serialize b' = Serialize b.
Proof. intros (_ & _ & _ & _ & Ei & Eo & _ & Ea). unfold Serialize. by rewrite Ei, Eo, Ea. Qed.
Lemma stored_mono d d' b : operatorbundle d ⊆ operatorbundle d' → stored d b → stored d' b.
Proof. intros Hs (name & row & rest & E & Hr & Hp). exists name, row, rest. split_and!; [done|by eapply lookup_weaken|done]. Qed.
Lemma pm_bind_Ok {A B} (f : A → PM B) (m : PM A) d d' y :
  (m ≫= f) d = (d', Some (Ok y)) ↔ ∃ d1 x, m d = (d1, Some (Ok x)) ∧ f x d1 = (d', Some (Ok y)).
Proof. unfold mbind, PM_bind. destruct (m d) as [d1 [[x| |]|]]; naive_solver. Qed.

Lemma AddOperatorBundle_stores b d b' d' :
  AddOperatorBundle false decode_install fuel b d = (b', d', Some (Ok tt)) → operatorbundle d ⊆ operatorbundle d' ∧ stored d' b.
Proof.
  intros Ea. destruct (AddOperatorBundle_Ok _ _ _ _ _ _ Ea) as (Hin & f & Hr & Ha). destruct Ha as [Hfresh Hb _ _ _ _ _ _].
  split; [rewrite Hb; by apply insert_subseteq|]. destruct (rd_serialize _ _ _ Hr) as [an Es].
  rewrite (Serialize_same _ _ Hin) in Es. pose proof Hin as (_ & _ & _ & _ & Ei & _). rewrite Ei in Es.
  exists (f_csvName f). eexists _, ((_, _), _). split_and!; [exact Es|rewrite Hb; apply lookup_insert_eq|done].
Qed.
Lemma add_replaces_Ok l : ∀ st d d' st',
  pm_fold (add_replaces_bundle false decode_install fuel) st l d = (d', Some (Ok st')) → st'.2 = [] →
  st.2 = [] ∧ operatorbundle d ⊆ operatorbundle d' ∧ ∀ b, b ∈ l → stored d' b.
Proof.
  induction l as [|b l IH]; intros st d d' st' E Hn; cbn [pm_fold] in E.
  - injection E as <- <-. split_and!; [done|done|]. inversion 1.
  - apply pm_bind_Ok in E as (d1 & st1 & E1 & E). destruct (IH _ _ _ _ E Hn) as (Hn1 & Hsub & Hall). clear IH E.
    apply pm_bind_Ok in E1 as (d2 & [b2 outcome] & E2 & E1). injection E1 as <- <-. unfold pm_bundle in E2.
    destruct (AddOperatorBundle false decode_install fuel b d) as [[b3 d3] [[[]|e|]|]] eqn:Ea; simplify_eq; simpl in *.
    + destruct (AddOperatorBundle_stores _ _ _ _ Ea) as [Hsub1 Hst]. split_and!; [done|by etrans|].
      intros b' [->|Hb']%elem_of_cons; [|auto]. by eapply stored_mono.
    + by destruct st as [? []].
Qed.
Lemma regenerate_Ok l : ∀ errs d d' errs',
  pm_fold (regenerate decode_object) errs l d = (d', Some (Ok errs')) → errs' = [] → errs = [] ∧ operatorbundle d' = operatorbundle d.
Proof.
  induction l as [|pb l IH]; intros errs d d' errs' E Hn; cbn [pm_fold] in E; [by injection E as <- <-|].
  apply pm_bind_Ok in E as (d1 & errs1 & E1 & E). destruct (IH _ _ _ _ E Hn) as [Hn1 ->].
  assert (operatorbundle d1 = operatorbundle d) as Hb.
  { unfold regenerate, pm_append, mbind, PM_bind, pm_read, pm_res, pm_tx in E1.
    destruct (ListRegistryBundles decode_object d (Some pb.1)) as [ex|e|]; [|by simplify_eq..].
    destruct (SemverPackageManifest (ex ++ pb.2)) as [pm|e|]; [|by simplify_eq..].
    pose proof (AddPackageChannels_bundles pm d). destruct (AddPackageChannels pm d) as [d2 [| |]]; by simplify_eq/=. }
  split; [|done]. unfold regenerate, pm_append in E1. revert E1.
  match goal with |- context [match ?m with _ => _ end] => destruct m as [d2 [[| |]|]] end; intros; simplify_eq; [done|]. by destruct errs.
Qed.
Lemma read_images_Ok l bundles :
  read_images DirFS l = Ok (bundles, []) → ∀ to from, (to, from) ∈ l → ∃ i, NewImageInput DirFS to from = Ok i ∧ ii_Bundle i ∈ bundles.
Proof.
  revert bundles. induction l as [|[to from] l IH]; intros bundles E to' from' Hin; [inversion Hin|]. simpl in E.
  destruct (NewImageInput DirFS to from) as [i|e|] eqn:Ei; [|by inv_ok|done]. apply bind_Ok in E as ([bs es] & E & [= <- ->]).
  apply elem_of_cons in Hin as [[= -> ->]|Hin]; [exists i; split; [done|by left]|].
  destruct (IH _ E _ _ Hin) as (i' & ? & ?). exists i'. split; [done|by right].
Qed.

End populate.

Definition ex_dirs : string → bundle_fs := λ _,
  mkBundleFS
    (Ok (Ok [mkMFile "csv.yaml" false (Ok (Some (mkObj "ClusterServiceVersion" "v1alpha1" "foo.v0.2.0"
       (inl (mkCSV "foo.v0.2.0" ∅ (Some (print_struct true [("version", "0.2.0")]))))
       (inr (ErrNew "not a CRD")) (inr (ErrNew "not a CRD")) (inl "{csv}"))))]))
    (Ok (Ok [mkMDFile (Ok (mkAnnotations "foo" "stable,beta" "stable")) (Ok []) (Ok [])])).
Definition ex_populate (d : db) : db * option (res unit) :=
  Populate (H := go_default) false ex_install (λ s, Ok ("", s)) (λ _, Err json_error) (λ _ _ _ _, Ok []) 0 ex_dirs
    {[ "quay.io/foo:2" := "bundle" ]} ∅ false (Some ReplacesMode) d.

(** ** The checks before insertion *)
Section checks.
Context `{GoRuntime}.
Variables (decode_meta : string → res (string * string)) (odd_names : gset string → gset string → gset string → api_tables → res (list (gvk * string)))
  (overwrite : bool).
Let get d p c n := SQLQuerier_GetBundle decode_meta odd_names d p c n.
Let replacing d n p c := SQLQuerier_GetBundleThatReplaces decode_meta odd_names d n p c.

(** The bundle is not in the channel, or it may be overwritten: nothing replaces it. *)
Definition addable (d : db) (b : registry_Bundle) (c : string) : Prop :=
  ∀ x, get d (rb_Package b) c (rb_Name b) = Ok x →
    overwrite = true ∧ ∃ e, replacing d (rb_Name b) (rb_Package b) c = Err e ∧ not_replaced (rb_Package b) c e = true.
Lemma check_overwrites_Ok d b chs : ∀ errs v errs' v',
  check_overwrites decode_meta odd_names overwrite d b chs errs v = Ok (errs', v') → errs' = [] → errs = [] ∧ ∀ c, c ∈ chs → addable d b c.
Proof.
  induction chs as [|c chs IH]; intros errs v errs' v' E Hn; cbn [check_overwrites] in E.
  - injection E as <- <-. split; [done|]. inversion 1.
  - destruct (SQLQuerier_GetBundle _ _ d _ c _) as [x|e|] eqn:Eg; [|..|done].
    + destruct overwrite eqn:Eo; simpl in E; [|injection E as <- <-; by destruct errs].
      destruct (SQLQuerier_GetBundleThatReplaces _ _ d _ _ c) as [y|e|] eqn:Er; [|..|done].
      * injection E as <- <-. by destruct errs.
      * destruct (not_replaced _ _ e) eqn:En; [|injection E as <- <-; by destruct errs].
        destruct (IH _ _ _ _ E Hn) as [-> Hall]. split; [done|]. intros c' [->|Hc]%elem_of_cons; [|auto].
        intros z _. split; [done|]. by exists e.
    + destruct (IH _ _ _ _ E Hn) as [-> Hall]. split; [done|]. intros c' [->|Hc]%elem_of_cons; [|auto]. intros z Hz. unfold get in Hz. congruence.
Qed.
Lemma NewAggregate_Ok errs u : NewAggregate errs = Ok u → errs = [].
Proof. by destruct errs. Qed.
Definition checked (d : db) (images : gset string) (b : registry_Bundle) : Prop :=
  ∃ paths channels, GetBundlePathsForPackage d (rb_Package b) = Ok paths ∧ (∀ p, p ∈ paths → p ∉ images) ∧
    ListChannels d (rb_Package b) = Ok channels ∧ ∀ c, c ∈ channels → addable d b c.
Lemma check_images_Ok d images l : ∀ attempted errs,
  (∀ b, b ∈ l → is_Ok (GetBundlePathsForPackage d (rb_Package b))) →
  check_images decode_meta odd_names overwrite d images l attempted errs = Ok tt →
  errs = [] ∧ ∀ b, b ∈ l → checked d images b.
Proof.
  induction l as [|b l IH]; intros attempted errs Hp E; cbn [check_images] in E.
  - apply NewAggregate_Ok in E. split; [done|]. inversion 1.
  - destruct (Hp b ltac:(by left)) as [paths Epaths]. rewrite Epaths in E. apply bind_Ok in E as (channels & Ech & E).
    apply bind_Ok in E as ([errs1 v] & Eo & E).
    assert (errs1 = [] ∧ ∀ b, b ∈ l → checked d images b) as [-> Hl]; [|destruct (check_overwrites_Ok _ _ _ _ _ _ _ Eo eq_refl) as [Hn Hc]].
    { destruct v; [case_decide|].
      - apply NewAggregate_Ok in E. by destruct errs1.
      - apply (IH _ _ (λ b' Hb', Hp b' ltac:(by right)) E).
      - apply (IH _ _ (λ b' Hb', Hp b' ltac:(by right)) E). }
    apply app_eq_nil in Hn as [-> Hpaths]. split; [done|]. intros b' [->|Hb]%elem_of_cons; [|auto].
    exists paths, channels. split_and!; [done| |done|done]. intros p Hin Him.
    apply fmap_nil_inv in Hpaths. assert (p ∈ filter (λ path, path ∈ images) paths) as Hf by (by apply list_elem_of_filter).
    rewrite Hpaths in Hf. inversion Hf.
Qed.

Lemma mapR_Err {A B} (f : A → res B) l x : (∀ y, f y ≠ Panic) → x ∈ l → is_Err (f x) → is_Err (mapR f l).
Proof.
  intros Hf. induction l as [|y l IH]; intros Hx [e He]; [inversion Hx|]. simpl. apply elem_of_cons in Hx as [<-|Hx].
  - rewrite He. by eexists.
  - specialize (Hf y). destruct (f y) as [z|e'|]; simpl; [|by eexists|done]. destruct IH as [e' ->]; [done|by eexists|]. by eexists.
Qed.

(** The checks before insertion.  When every bundle of the packages concerned
    has a path, an accepted set of images is new: none of its images is the path
    of a bundle of these packages, and a bundle of the same package, channel and
    name is in the index only when overwriting is allowed and nothing replaces it
    there.  But when the package of the first image has a bundle with an empty
    path, as those added from manifests have, the check accepts everything. *)
Theorem globalSanityCheck_spec d l :
  (globalSanityCheck decode_meta odd_names overwrite d l = Ok tt → (∀ b, b ∈ l → is_Ok (GetBundlePathsForPackage d (rb_Package b))) →
   ∀ b, b ∈ l → checked d (list_to_set (rb_BundleImage <$> l)) b) ∧
  (∀ i e row b l', channel_entry d !! i = Some e → operatorbundle d !! er_bundle e = Some row → ob_bundlepath row = Some "" →
   rb_Package b = er_package e → l = b :: l' → globalSanityCheck decode_meta odd_names overwrite d l = Ok tt).
Proof.
  split.
  - intros E Hp b Hb. by apply (check_images_Ok _ _ _ _ _ Hp E).
  - intros i e row b l' He Hr Hpath Hpkg ->. unfold globalSanityCheck. cbn [check_images]. rewrite Hpkg.
    assert (is_Err (GetBundlePathsForPackage d (er_package e))) as [err ->]; [|done].
    unfold GetBundlePathsForPackage. apply (mapR_Err _ _ (Some "")); [intros y; by case_decide|..|by rewrite decide_True; eexists].
    apply elem_of_distinct, list_elem_of_bind. exists (i, e). rewrite elem_of_map_to_list. split; [|done]. simpl.
    rewrite decide_True, Hr, Hpath by done. by left.
Qed.
End checks.
