(* ===== verification/Migrator.v ===== *)
(** * Migrating an index

    [pkg/sqlite/migrator.go] and the set of migrations of
    [pkg/sqlite/migrations/migrations.go]: which migrations are run, in which
    order, and how the version is kept.

    What a migration does to the contents of the database is its own; the migrator
    is written for any.  The table of versions may be missing, and its first row
    counts.  A transaction that is neither committed nor rolled back stays open.
    [int] has 64 bits. *)
From S2P Require Import Prelude.
From stdpp Require Import options.
Local Open Scope Z_scope.

(** ** Sets of migrations *)
Section migrations.
Context {C : Type}.

Record Migration := mkMigration { mig_Id : Z; mig_Up : C → res C; mig_Down : C → res C }.
(** A pointer in a set may not be there: [Only] of a key that is missing is nil. *)
Abbreviation MigrationSet := (gmap Z Migration).
Abbreviation Migrations := (list (option Migration)).

Definition keys (m : MigrationSet) : list Z := insertion_sort Z.ltb (map_to_list m).*1.
Definition From_ (m : MigrationSet) (key : Z) : Migrations := (λ k, m !! k) <$> filter (λ k, ¬ k < key) (keys m).
Definition To (m : MigrationSet) (key : Z) : Migrations := (λ k, m !! k) <$> filter (λ k, ¬ k > key) (keys m).
Definition Only (m : MigrationSet) (key : Z) : Migrations := [m !! key].
Definition registerMigration (m : MigrationSet) (km : Z * Migration) : res MigrationSet :=
  match m !! km.1 with
  | Some _ => Panic
  | None => if decide (mig_Id km.2 = km.1) then Ok (<[km.1 := km.2]> m) else Panic
  end.

(** ** The migrator *)
Definition int64 (z : Z) : Z := (z + 2 ^ 63) mod 2 ^ 64 - 2 ^ 63.
Definition NilVersion : Z := -1.
Record database := mkDatabase { contents : C; versions : option (list Z) }.

Definition version (d : database) : Z :=
  match versions d with
  | Some (v :: _) => v
  | _ => NilVersion
  end.
Definition ensureMigrationTable (d : database) : database := mkDatabase (contents d) (Some (default [] (versions d))).
Definition setVersion (d : database) (v : Z) : database := mkDatabase (contents d) (Some [v]).

Definition out_of_order : error := ErrNew "migration applied out of order".
Definition up_step (d : database) (migration : option Migration) : res database :=
  migration ← deref migration;
  if decide (mig_Id migration ≠ int64 (version d + 1)) then Err out_of_order
  else c ← mig_Up migration (contents d); Ok (setVersion (mkDatabase c (versions d)) (mig_Id migration)).
Definition down_step (d : database) (migration : option Migration) : res database :=
  migration ← deref migration;
  if decide (mig_Id migration ≠ version d) then Err out_of_order
  else c ← mig_Down migration (contents d); Ok (setVersion (mkDatabase c (versions d)) (int64 (mig_Id migration - 1))).

(** The database, whether a transaction was left open, and the outcome: only a
    failed commit rolls back. *)
Record migrated := mkMigrated { md_database : database; md_open : bool; md_outcome : res unit }.
Definition run_steps (step : database → option Migration → res database) (ms : Migrations) (d : database) : migrated :=
  match foldR step (ensureMigrationTable d) ms with
  | Ok d' => mkMigrated d' false (Ok tt)
  | Err e => mkMigrated d true (Err e)
  | Panic => mkMigrated d true Panic
  end.
Definition Up (ms : Migrations) (d : database) : migrated := run_steps up_step ms d.
Definition Down (ms : Migrations) (d : database) : migrated := run_steps down_step ms d.
Definition Migrate (m : MigrationSet) (d : database) : migrated := Up (From_ m (int64 (version d + 1))) d.
End migrations.
Arguments Migration : clear implicits.
Arguments database : clear implicits.
Arguments migrated : clear implicits.

(** ** The migrations of the index *)
Definition InitMigrationKey : Z := 0.
Definition RelatedImagesMigrationKey : Z := 1.
Definition BundlePathMigrationKey : Z := 2.
Definition RequiredApiMigrationKey : Z := 3.
Definition CascadeDeleteMigrationKey : Z := 4.
Definition VersionSkipRangeMigrationKey : Z := 5.
Definition AssociateApisWithBundleMigrationKey : Z := 6.
Definition ReplacesSkipsMigrationKey : Z := 7.
Definition DependenciesMigrationKey : Z := 8.
Definition PropertiesMigrationKey : Z := 9.
Definition BundlePathPkgMigrationKey : Z := 10.
Definition SubstitutesForMigrationKey : Z := 11.
Definition DeprecatedMigrationKey : Z := 12.
Definition migration_keys : list Z :=
  [InitMigrationKey; RelatedImagesMigrationKey; BundlePathMigrationKey; RequiredApiMigrationKey; CascadeDeleteMigrationKey;
   VersionSkipRangeMigrationKey; AssociateApisWithBundleMigrationKey; ReplacesSkipsMigrationKey; DependenciesMigrationKey;
   PropertiesMigrationKey; BundlePathPkgMigrationKey; SubstitutesForMigrationKey; DeprecatedMigrationKey].
(** The [init] functions of the package, in the order of the files. *)
Definition All {C} (migration : Z → Migration C) : res (gmap Z (Migration C)) :=
  foldR registerMigration ∅ ((λ k, (k, migration k)) <$> migration_keys).

(** ** What a run does *)
Section spec.
Context {C : Type}.
Implicit Types (d : database C) (m : gmap Z (Migration C)).

Lemma keys_perm m : keys m ≡ₚ (map_to_list m).*1.
Proof. apply insertion_sort_perm. Qed.
Lemma ltb_strict_weak : strict_weak Z.ltb.
Proof. split; intros; rewrite ?Z.ltb_lt, ?Z.ltb_ge in *; lia. Qed.
(** The migrations up to [n], each under its own key. *)
Record contiguous m (n : Z) : Prop := {
  ct_keys : ∀ k, is_Some (m !! k) ↔ 0 ≤ k < n;
  ct_ids : ∀ k mg, m !! k = Some mg → mig_Id mg = k
}.
Lemma seqZ_sorted a n : StronglySorted Z.le (seqZ a n).
Proof.
  destruct (decide (n < 0)) as [?|Hn]; [rewrite seqZ_nil by lia; constructor|]. revert a. pattern n. apply natlike_ind; [|clear|lia].
  - intros a. rewrite seqZ_nil by lia. constructor.
  - intros k Hk IH a. rewrite seqZ_cons by lia. constructor; [rewrite Z.pred_succ; apply IH|].
    apply Forall_forall. intros x Hx%elem_of_seqZ. lia.
Qed.
Lemma keys_contiguous m n : contiguous m n → keys m = seqZ 0 n.
Proof.
  intros Hc. apply (StronglySorted_unique Z.le).
  - pose proof (insertion_sort_sorted _ (map_to_list m).*1 ltb_strict_weak) as Hs. fold (keys m) in Hs.
    induction Hs as [|x l Hl IH Hx]; constructor; [done|]. eapply Forall_impl; [exact Hx|]. intros y. apply Z.ltb_ge.
  - apply seqZ_sorted.
  - rewrite keys_perm. apply NoDup_Permutation; [apply NoDup_fst_map_to_list|apply NoDup_seqZ|].
    intros k. rewrite elem_of_seqZ, Z.add_0_l, <- (ct_keys _ _ Hc), list_elem_of_fmap. split.
    + intros ([k' x] & -> & Hx%elem_of_map_to_list). eauto.
    + intros [x Hx]. exists (k, x). by rewrite elem_of_map_to_list.
Qed.
Lemma filter_seqZ a n : 0 ≤ a ≤ n → filter (λ k, ¬ k < a) (seqZ 0 n) = seqZ a (n - a).
Proof.
  intros Ha. replace n with (a + (n - a)) at 1 by lia. rewrite seqZ_app by lia. rewrite Z.add_0_l, filter_app, filter_none, filter_full; [done|..].
  all: intros x Hx%elem_of_seqZ; lia.
Qed.

(** The steps of consecutive migrations. *)
Definition ups (m : gmap Z (Migration C)) (c : C) (k : Z) : res C := mg ← deref (m !! k); mig_Up mg c.
Lemma int64_id z : - 2 ^ 63 ≤ z < 2 ^ 63 → int64 z = z.
Proof. intros Hz. unfold int64. rewrite Z.mod_small; lia. Qed.
Lemma version_set d v : version (setVersion d v) = v.
Proof. done. Qed.
Lemma up_steps m n d len :
  contiguous m n → n < 2 ^ 63 → 0 ≤ len → -1 ≤ version d → version d + 1 + len ≤ n →
  foldR up_step d ((λ k, m !! k) <$> seqZ (version d + 1) len) =
    c ← foldR (ups m) (contents d) (seqZ (version d + 1) len);
    Ok (mkDatabase c (if decide (len = 0) then versions d else Some [version d + len])).
Proof.
  intros Hm Hn Hlen. revert d. pattern len. apply natlike_ind; [| |done]; clear len Hlen.
  - intros d Hv Hle. rewrite seqZ_nil by lia. simpl. by destruct d.
  - intros len Hlen IH d Hv Hle. rewrite seqZ_cons, Z.pred_succ by lia. cbn [foldR fmap list_fmap].
    destruct (proj2 (ct_keys _ _ Hm (version d + 1))) as [mg Hmg]; [lia|]. rewrite Hmg.
    assert (ups m (contents d) (version d + 1) = mig_Up mg (contents d)) as -> by (unfold ups; by rewrite Hmg).
    assert (up_step d (Some mg) = c ← mig_Up mg (contents d); Ok (setVersion (mkDatabase c (versions d)) (version d + 1))) as ->.
    { unfold up_step. simpl. rewrite (ct_ids _ _ Hm _ _ Hmg), int64_id, decide_False by (try lia; tauto). done. }
    destruct (mig_Up mg (contents d)) as [c|e|]; simpl; [|done..].
    specialize (IH (setVersion (mkDatabase c (versions d)) (version d + 1))). rewrite version_set in IH. cbn [contents setVersion] in IH.
    change (list_fmap _ _ ?f ?l) with (f <$> l). replace (Z.succ (version d + 1)) with (version d + 1 + 1) by lia. rewrite IH by lia.
    destruct (foldR (ups m) c _) as [c'|e|]; simpl; [|done..]. rewrite (decide_False (P := Z.succ len = 0)) by lia. do 2 f_equal.
    case_decide; f_equal; f_equal; lia.
Qed.


(** One migration up and down again: when undoing a migration gives back the
    contents it was applied to, running it and then undoing it leaves the contents
    and the version of the index as they were. *)
Theorem Up_Down_roundtrip m n d mg :
  contiguous m n → 0 < n < 2 ^ 63 → -1 ≤ version d → m !! (version d + 1) = Some mg →
  (∀ c c', mig_Up mg c = Ok c' → mig_Down mg c' = Ok c) → is_Ok (mig_Up mg (contents d)) →
  let k := version d + 1 in
  let up := Up (Only m k) d in
  let down := Down (Only m k) (md_database up) in
  md_outcome up = Ok tt ∧ version (md_database up) = k ∧
  md_outcome down = Ok tt ∧ contents (md_database down) = contents d ∧ version (md_database down) = version d.
Proof.
  intros Hm Hn Hv Hmg Hinv [c Hc]. cbv zeta. unfold Only, Up, Down, run_steps. rewrite Hmg.
  pose proof (ct_ids _ _ Hm _ _ Hmg) as Hid. pose proof (proj1 (ct_keys _ _ Hm (version d + 1)) (ex_intro _ mg Hmg)) as Hk.
  assert (version (ensureMigrationTable d) = version d) as Hve by (unfold version; simpl; by destruct (versions d) as [[]|]).
  assert (foldR up_step (ensureMigrationTable d) [Some mg] = Ok (mkDatabase c (Some [version d + 1]))) as ->.
  { simpl. unfold up_step. simpl. rewrite Hve, Hid, int64_id, decide_False by (lia || tauto). simpl. by rewrite Hc. }
  cbn [md_outcome md_database]. assert (foldR down_step (ensureMigrationTable (mkDatabase c (Some [version d + 1]))) [Some mg] =
    Ok (mkDatabase (contents d) (Some [version d]))) as ->; [|done].
  cbn [foldR]. unfold down_step. cbn -[version]. change (version (ensureMigrationTable _)) with (version d + 1).
  rewrite Hid, decide_False by tauto.
  rewrite (Hinv _ _ Hc). simpl. unfold setVersion. simpl. rewrite int64_id by lia. do 4 f_equal. lia.
Qed.

Lemma register_all (migration : Z → Migration C) l : (∀ k, mig_Id (migration k) = k) → ∀ m0, NoDup l → (∀ k, k ∈ l → m0 !! k = None) →
  ∃ m, foldR registerMigration m0 ((λ k, (k, migration k)) <$> l) = Ok m ∧
    ∀ k, m !! k = if decide (k ∈ l) then Some (migration k) else m0 !! k.
Proof.
  intros Hid. induction l as [|k l IH]; intros m0 Hnd Hnew; [by exists m0|]. apply NoDup_cons in Hnd as [Hk Hnd]. cbn [foldR fmap list_fmap].
  assert (registerMigration m0 (k, migration k) = Ok (<[k := migration k]> m0)) as ->.
  { unfold registerMigration. simpl. rewrite (Hnew k ltac:(by left)), Hid. by rewrite decide_True. }
  simpl.
  destruct (IH (<[k := migration k]> m0) Hnd) as (m & E & Hm).
  { intros k' Hk'. rewrite lookup_insert_ne by set_solver. apply Hnew. by right. }
  exists m. split; [exact E|]. intros k'. rewrite Hm. destruct (decide (k' = k)) as [->|Hne].
  - rewrite (decide_False (P := k ∈ l)), lookup_insert_eq by done. rewrite decide_True by left. done.
  - rewrite lookup_insert_ne by done. destruct (decide (k' ∈ l)) as [Hin|Hin].
    + rewrite decide_True; [done|]. by right.
    + rewrite decide_False; [done|]. by intros [?|?]%elem_of_cons.
Qed.
End spec.

(** The migrations of the index register without a panic and are numbered
    without a gap, so that a migration of any index ends at version 12 or fails. *)
Theorem All_contiguous {C} (migration : Z → Migration C) :
  (∀ k, mig_Id (migration k) = k) → ∃ m, All migration = Ok m ∧ contiguous m 13.
Proof.
  intros Hid. assert (migration_keys = seqZ 0 13) as Hk by (vm_compute; reflexivity).
  destruct (register_all migration migration_keys Hid ∅) as (m & E & Hm); [rewrite Hk; apply NoDup_seqZ|intros; apply lookup_empty|].
  exists m. split; [exact E|]. rewrite Hk in Hm. split.
  - intros k. rewrite Hm. case_decide as Hin; rewrite elem_of_seqZ in Hin; [split; [lia|eauto]|]. rewrite lookup_empty. split; [by intros []|lia].
  - intros k mg. rewrite Hm, lookup_empty. case_decide; [by intros [= <-]|done].
Qed.

(** ** Examples *)
(** Contents that log the migrations. *)
Definition ex_migration (k : Z) : Migration (list Z) :=
  mkMigration k (λ c, Ok (k :: c)) (λ c, match c with x :: c' => if decide (x = k) then Ok c' else Err out_of_order | [] => Err out_of_order end).
Lemma ex_contiguous n : 0 ≤ n → contiguous (list_to_map ((λ k, (k, ex_migration k)) <$> seqZ 0 n)) n.
Proof.
  intros Hn. assert (∀ k mg, (list_to_map ((λ k, (k, ex_migration k)) <$> seqZ 0 n) : gmap Z _) !! k = Some mg ↔ 0 ≤ k < n ∧ mg = ex_migration k) as E.
  { intros k mg. rewrite <- elem_of_list_to_map by (rewrite <- list_fmap_compose, (list_fmap_ext _ id), list_fmap_id by done; apply NoDup_seqZ).
    rewrite list_elem_of_fmap. setoid_rewrite elem_of_seqZ. split; [intros (? & [= -> ->] & ?); split; [lia|done]|]. intros [? ->]. exists k. split; [done|lia]. }
  split; [|intros k mg [_ ->]%E; done]. intros k. split; [intros [mg Hm%E]; lia|]. intros Hk. exists (ex_migration k). by apply E.
Qed.
Lemma Up_Down_roundtrip_witness :
  let m := list_to_map ((λ k, (k, ex_migration k)) <$> seqZ 0 5) in
  let d := mkDatabase [1; 0] (Some [1]) in
  contents (md_database (Down (Only m 2) (md_database (Up (Only m 2) d)))) = contents d.
Proof.
  apply (Up_Down_roundtrip (list_to_map ((λ k, (k, ex_migration k)) <$> seqZ 0 5)) 5 (mkDatabase [1; 0] (Some [1])) (ex_migration 2));
    [apply ex_contiguous; lia|lia|vm_compute; congruence|vm_compute; reflexivity| |by eexists].
  intros c c' [= <-]. simpl. reflexivity.
Defined.
Lemma All_contiguous_witness : ∃ m, All ex_migration = Ok m ∧ contiguous m 13.
Proof. apply All_contiguous. reflexivity. Defined.
