(* ===== verification/DirLoad.v ===== *)
(** * Filling the index from a directory or a config map

    [pkg/sqlite/directory.go] and [pkg/sqlite/configmap.go]: a walk through a
    directory tree that loads the bundle around every CSV and then every package
    manifest, and the same from the lists in a config map.

    A tree is what [filepath.Walk] and [ioutil.ReadDir] see of a directory that
    does not change meanwhile; a file is what opening it and decoding its first
    document gives.  YAML, and the conversion of typed objects to unstructured ones,
    are parameters. *)
From S2P Require Import Prelude Semver Json JsonCompact JsonStream Property JsonTotal Model ModelOps Declcfg DeclcfgConv DeclcfgRoundtrip DeclcfgWrite DeclcfgLoad RegistryTypes RegistryBundle RegistryBundleSpec Api Query Conversion Graph Sql SqlLoad SqlGraph SqlAdd SqlQuery BundleParse Populator.
From stdpp Require Import options.

(** ** Directory trees *)
(** The object of a file is [None] when it does not decode; an object without
    content is [Some None]. *)
Record file := mkFile {
  fl_open : option error;
  fl_object : option (option k8s_object);
  fl_manifest : PackageManifest + error
}.
#[local] Set Warnings "-register-all".
(** An entry of a directory: a file, a directory with the error of listing it or
    its entries by name, or an entry whose information cannot be read. *)
Inductive tree : Type :=
  | TFile (name : string) (f : file)
  | TDir (name : string) (unlisted : option error) (entries : list tree)
  | TGone (name : string) (not_exist : bool) (e : error).
Definition tree_name (t : tree) : string := match t with TFile n _ | TDir n _ _ | TGone n _ _ => n end.
Definition hidden (name : string) : bool := String.prefix "." name.
Definition under (dir name : string) : string := dir +:+ "/" +:+ name.

(** [ioutil.ReadDir]: entries that are gone are left out. *)
Fixpoint ReadDir (entries : list tree) : res (list tree) :=
  match entries with
  | [] => Ok []
  | TGone _ false e :: _ => Err e
  | TGone _ true _ :: entries' => ReadDir entries'
  | t :: entries' => l ← ReadDir entries'; Ok (t :: l)
  end.

(** ** Walking *)
(** What a walk function is called with: the path, what is known of the entry, and the
    directory it is in with what listing that gives. *)
Inductive entry_info : Type :=
  | IFile (name : string) (f : file) (dir : string) (files : res (list tree))
  | IDir (name : string) (err : option error)
  | INil (err : error).
(** A walk function returns nil, [filepath.SkipDir] or another error. *)
Inductive walk_result : Type := WNil | WSkipDir | WErr (e : error).
Definition WalkFunc (S : Type) : Type := S → string → entry_info → PM (S * walk_result).

Section walk.
Context {S : Type} (walkFn : WalkFunc S).
(** [filepath.walk], with the walk over the names of a directory inside. *)
Fixpoint walk_tree (dir : string) (files : res (list tree)) (s : S) (path : string) (t : tree) : PM (S * walk_result) :=
  match t with
  | TFile name f => walkFn s path (IFile name f dir files)
  | TGone _ _ e => walkFn s path (INil e)
  | TDir name unlisted entries =>
      r ← walkFn s path (IDir name unlisted);
      match unlisted, r.2 with
      | None, WNil =>
          (fix walk_names (s : S) (l : list tree) : PM (S * walk_result) :=
             match l with
             | [] => mret (s, WNil)
             | t' :: l' =>
                 r ← walk_tree path (ReadDir entries) s (under path (tree_name t')) t';
                 match t', r.2 with
                 | _, WNil => walk_names r.1 l'
                 | (TDir _ _ _ | TGone _ _ _), WSkipDir => walk_names r.1 l'
                 | _, _ => mret r
                 end
             end) r.1 entries
      | _, _ => mret r
      end
  end.
(** [filepath.Walk]; the root is in the directory [dir]. *)
Definition Walk (dir : string) (files : res (list tree)) (s : S) (root : string) (t : tree) : PM (S * option error) :=
  r ← walk_tree dir files s root t;
  mret (r.1, match r.2 with WErr e => Some e | _ => None end).
End walk.

Definition collectWalkErrs (walk : string → entry_info → PM walk_result) : WalkFunc (list error) := λ errs path f,
  r ← walk path f;
  mret (match r with WErr e => (errs ++ [e], WNil) | r => (errs, r) end).

Section loaders.
Context `{GoRuntime}.
Variable enableAlpha : bool.
Variable decode_install : RawMessage → res install_strategy.
Variable fuel : nat.

(** ** The directory loader *)
(** The objects of a directory that belong to the bundle of the CSV; other CSVs do
    not. *)
Definition loadBundle_step (csvName dir : string) (st : registry_Bundle * list error) (t : tree) : registry_Bundle * list error :=
  match t with
  | TFile name f =>
      if hidden name then st
      else match fl_open f with
           | Some e => (st.1, st.2 ++ [Errorf "unable to load file %s: %s" [AStr (under dir name); AErr e]])
           | None =>
               match fl_object f with
               | Some (Some obj) =>
                   if decide (o_Kind obj = "ClusterServiceVersion" ∧ o_Name obj ≠ csvName) then st else (Add st.1 obj, st.2)
               | _ => st
               end
           end
  | _ => st
  end.
Definition empty_bundle (name : string) : registry_Bundle := mkRBundle name [] "" [] "" "" None [] [] [] [] None false.
(** The bundle, which is nil when the directory cannot be listed, and the error. *)
Definition loadBundle (csvName dir : string) (files : res (list tree)) : option registry_Bundle * res unit :=
  match files with
  | Ok files =>
      let '(bundle, errs) := foldl (loadBundle_step csvName dir) (empty_bundle csvName, []) files in
      (Some bundle, NewAggregate errs)
  | Err e => (None, Err e)
  | Panic => (None, Panic)
  end.
Definition walk_aggregate (errs : list error) : walk_result :=
  match NewAggregate errs with Err e => WErr e | _ => WNil end.
(** A method that fills the cache of a bundle, with the error it returns. *)
Definition pm_method {A} (m : BM A) (b : registry_Bundle) : PM (registry_Bundle * res A) := pm_bundle (of_bm m) b.
Definition errs_of {A} (f : error → error) (r : res A) : list error := match r with Err e => [f e] | _ => [] end.
Definition store_bundle (csvName : string) (b : registry_Bundle) : PM (list error) :=
  r ← pm_bundle (AddOperatorBundle enableAlpha decode_install fuel) b;
  match r.2 with
  | Err e =>
      v ← pm_method Bundle_Version r.1;
      mret [Errorf "error adding operator bundle %s/%s/%s: %s"
              [AStr csvName; AStr (match v.2 with Ok version => version | _ => "" end); AStr (rb_BundleImage r.1); AErr e]]
  | _ => mret []
  end.
Definition load_csv (csvName dir : string) (files : res (list tree)) : PM walk_result :=
  let '(bundle, r) := loadBundle csvName dir files in
  let errs := errs_of (λ e, Errorf "error loading objs in directory: %s" [AErr e]) r in
  match bundle with
  | None => mret (walk_aggregate (errs ++ [ErrNew "no bundle objects found"]))
  | Some bundle =>
      if decide (Size bundle = 0) then mret (walk_aggregate (errs ++ [ErrNew "no bundle objects found"]))
      else
        p ← pm_method AllProvidedAPIsInBundle bundle;
        let errs := errs ++ errs_of (λ e, Errorf "error checking provided apis in bundle %s: %s" [AStr (rb_Name p.1); AErr e]) p.2 in
        es ← store_bundle csvName p.1;
        mret (walk_aggregate (errs ++ es))
  end.
Definition invalid_file : error := Errorf "invalid file: %v" [].
Definition dir_result (name : string) : walk_result := if hidden name then WSkipDir else WNil.
Definition LoadBundleWalkFunc (path : string) (f : entry_info) : PM walk_result :=
  match f with
  | INil _ => mret (WErr invalid_file)
  | IDir name _ => mret (dir_result name)
  | IFile name f dir files =>
      if hidden name then mret WNil
      else match fl_open f with
           | Some e => mret (WErr (Errorf "unable to load file %s: %s" [AStr path; AErr e]))
           | None =>
               match fl_object f with
               | Some (Some csv) => if decide (o_Kind csv = "ClusterServiceVersion") then load_csv (o_Name csv) dir files else mret WNil
               | _ => mret WNil
               end
           end
  end.
Definition LoadPackagesWalkFunc (path : string) (f : entry_info) : PM walk_result :=
  match f with
  | INil _ => mret (WErr invalid_file)
  | IDir name _ => mret (dir_result name)
  | IFile name f _ _ =>
      if hidden name then mret WNil
      else match fl_open f with
           | Some e => mret (WErr (Errorf "unable to load package from file %s: %s" [AStr path; AErr e]))
           | None =>
               match fl_manifest f with
               | inr e => mret (WErr (Errorf "could not decode contents of file %s into package: %s" [AStr path; AErr e]))
               | inl manifest =>
                   if decide (pm_PackageName manifest = "") then mret WNil
                   else errs ← pm_append [] (pm_wrap (λ e, Errorf "error loading package into db: %s" [AErr e]) (pm_tx (AddPackageChannels manifest)));
                        mret (match errs with e :: _ => WErr e | [] => WNil end)
               end
           end
  end.
Definition DirectoryLoader_Populate (dir : string) (files : res (list tree)) (directory : string) (t : tree) : PM unit :=
  r ← Walk (collectWalkErrs LoadBundleWalkFunc) dir files [] directory t;
  let errs := r.1 ++ option_list r.2 in
  r ← Walk (collectWalkErrs LoadPackagesWalkFunc) dir files errs directory t;
  pm_res (NewAggregate (r.1 ++ option_list r.2)).

(** ** The config map loader *)
Definition ConfigMapCRDName : string := "customResourceDefinitions".
Definition ConfigMapCSVName : string := "clusterServiceVersions".
Definition ConfigMapPackageName : string := "packages".
(** A CRD of the list.  [Spec.Versions] may be nil; the last field is the object
    the converter makes of the CRD with given versions. *)
Record listed_crd := mkListedCRD {
  lc_Group : string;
  lc_Kind : string;
  lc_Plural : string;
  lc_Version : string;
  lc_Versions : option (list string);
  lc_object : option (list string) → k8s_object + error
}.
(** A CSV of the list with the object the converter makes of it. *)
Definition listed_csv : Type := ClusterServiceVersion * (k8s_object + error).
Definition crd_map : Type := gmap APIKey k8s_object.

Definition defaulted_versions (crd : listed_crd) : option (list string) :=
  match lc_Versions crd with
  | None => if decide (lc_Version crd = "") then None else Some [lc_Version crd]
  | versions => versions
  end.
Definition crd_version_step (crd : listed_crd) (st : crd_map * list error) (version : string) : crd_map * list error :=
  let gvk := mkAPIKey (lc_Group crd) version (lc_Kind crd) (lc_Plural crd) in
  match st.1 !! gvk with
  | Some _ => (st.1, st.2 ++ [Errorf "can't add the same CRD twice in one configmap: %v"
                                [AStr (ak_Group gvk); AStr (ak_Version gvk); AStr (ak_Kind gvk); AStr (ak_Plural gvk)]])
  | None =>
      match lc_object crd (defaulted_versions crd) with
      | inr e => (st.1, st.2 ++ [Errorf "error marshaling crd: %s" [AErr e]])
      | inl o => (<[gvk := o]> st.1, st.2)
      end
  end.
Definition crd_step (st : crd_map * list error) (crd : listed_crd) : crd_map * list error :=
  foldl (crd_version_step crd) st (default [] (defaulted_versions crd)).

(** An owned CRD is added to the bundle; the error that is printed is nil. *)
Definition add_owned (crds : crd_map) (st : registry_Bundle * list error) (owned : option DefinitionKey) : res (registry_Bundle * list error) :=
  owned ← deref owned;
  match SplitN "."%char (dk_Name owned) 1 with
  | [plural; group] =>
      match crds !! mkAPIKey group (dk_Version owned) (dk_Kind owned) plural with
      | None => Ok (st.1, st.2 ++ [Errorf "couldn't find owned CRD in crd list %v: %s"
                                     [AStr group; AStr (dk_Version owned); AStr (dk_Kind owned); AStr plural]])
      | Some crdUnst => Ok (Add st.1 crdUnst, st.2)
      end
  | _ => Ok (st.1, st.2 ++ [Errorf "error parsing owned name: %s" []])
  end.
(** The bundle of a CSV of the list with the CRDs it owns, or none after an error. *)
Definition bundle_of_csv (crds : crd_map) (csv : listed_csv) : res (option registry_Bundle * list error) :=
  match csv.2 with
  | inr e => Ok (None, [Errorf "error marshaling csv: %s" [AErr e]])
  | inl csvUnst =>
      bundle ← NewBundle (csv_Name csv.1) (Some (mkAnnotations "" "" "")) [csvUnst];
      match GetCustomResourceDefintions csv.1 with
      | Err e => Ok (None, [e])
      | Panic => Panic
      | Ok defs => r ← foldR (add_owned crds) (bundle, []) defs.1; Ok (Some r.1, r.2)
      end
  end.
Definition csv_step (crds : crd_map) (errs : list error) (csv : listed_csv) : PM (list error) :=
  r ← pm_res (bundle_of_csv crds csv);
  match r.1 with
  | None => mret (errs ++ r.2)
  | Some bundle => es ← store_bundle (csv_Name csv.1) bundle; mret (errs ++ r.2 ++ es)
  end.
Definition package_step (errs : list error) (packageManifest : PackageManifest) : PM (list error) :=
  pm_append errs (pm_wrap (λ e, Errorf "error loading package %s: %s" [AStr (pm_PackageName packageManifest); AErr e])
                    (pm_tx (AddPackageChannels packageManifest))).

Variable YAMLToJSON : string → string + error.
Variable unmarshal_crds : string → list listed_crd + error.
Variable unmarshal_csvs : string → list listed_csv + error.
Variable unmarshal_manifests : string → list PackageManifest + error.
Definition missing_key (key : string) : error := Errorf "couldn't find expected key %s in configmap" [AStr key].
(** A list under a key, with the errors of reading and of decoding it wrapped. *)
Definition list_under {A} (data : gmap string string) (key : string) (unmarshal : string → list A + error) (loading parsing : error → error)
    : list A + error :=
  match data !! key with
  | None => inr (missing_key key)
  | Some yaml =>
      match YAMLToJSON yaml with
      | inr e => inr (loading e)
      | inl js => match unmarshal js with inr e => inr (parsing e) | inl l => inl l end
      end
  end.
Definition load_packages (data : gmap string string) (errs : list error) : PM unit :=
  match list_under data ConfigMapPackageName unmarshal_manifests
          (λ e, Errorf "error loading package list: %s" [AErr e]) (λ e, Errorf "error parsing package list: %s" [AErr e]) with
  | inr e => pm_res (NewAggregate (errs ++ [e]))
  | inl manifests => errs ← pm_fold package_step errs manifests; pm_res (NewAggregate errs)
  end.
(** The loader keeps the CRDs it has loaded for a second call: the map after the
    call, and the call. *)
Definition ConfigMapLoader_Populate (configMapData : gmap string string) (crds : crd_map) : crd_map * PM unit :=
  match list_under configMapData ConfigMapCRDName unmarshal_crds id id with
  | inr e => (crds, pm_res (Err e))
  | inl parsedCRDList =>
      let '(crds, errs) := foldl crd_step (crds, []) parsedCRDList in
      (crds,
       match list_under configMapData ConfigMapCSVName unmarshal_csvs
               (λ e, Errorf "error loading CSV list: %s" [AErr e]) (λ e, Errorf "error parsing CSV list: %s" [AErr e]) with
       | inr e => pm_res (NewAggregate (errs ++ [e]))
       | inl parsedCSVList =>
           errs ← pm_fold (csv_step crds) errs parsedCSVList;
           load_packages configMapData errs
       end)
  end.
End loaders.
