(* ===== verification/DirLoadSpec.v ===== *)
(** * The loaders for directories and config maps: what they load

    A walk visits exactly the files outside hidden directories, in order; a loader
    that succeeds has stored every CSV and every package manifest it was given; and
    the index stays consistent whatever is loaded. *)
From S2P Require Import Prelude Semver Json JsonCompact JsonStream Property JsonTotal Model ModelOps Declcfg DeclcfgConv DeclcfgRoundtrip DeclcfgWrite DeclcfgLoad RegistryTypes RegistryBundle RegistryBundleSpec Api Query Conversion Graph Sql SqlLoad SqlInv SqlGraph SqlChannels SqlAdd SqlAddInv SqlAddSpec SqlQuery BundleParse Populator PopulatorSpec DirLoad.
From stdpp Require Import options.

(** ** Walks *)
Section tree_ind.
Variable P : tree → Prop.
Hypothesis HFile : ∀ name f, P (TFile name f).
Hypothesis HGone : ∀ name b e, P (TGone name b e).
Hypothesis HDir : ∀ name u entries, Forall P entries → P (TDir name u entries).
Fixpoint tree_nested_ind (t : tree) : P t :=
  match t with
  | TFile name f => HFile name f
  | TGone name b e => HGone name b e
  | TDir name u entries =>
      HDir name u entries ((fix go l : Forall P l := match l with [] => Forall_nil_2 _ | t' :: l' => Forall_cons_2 _ _ _ (tree_nested_ind t') (go l') end) entries)
  end.
End tree_ind.

(** The files a walk comes to: those that are not hidden, in directories that are
    listed and not hidden; and the entries that cannot be read. *)
Fixpoint visible (dir : string) (files : res (list tree)) (path : string) (t : tree) : list (string * entry_info) :=
  match t with
  | TFile name f => if hidden name then [] else [(path, IFile name f dir files)]
  | TGone _ _ e => [(path, INil e)]
  | TDir name unlisted entries =>
      if hidden name then []
      else match unlisted with
           | Some _ => []
           | None => flat_map (λ t', visible path (ReadDir entries) (under path (tree_name t')) t') entries
           end
  end.
(** A pass over the files, which collects errors. *)
Definition visit_step (walk : string → entry_info → PM walk_result) (errs : list error) (x : string * entry_info) : PM (list error) :=
  r ← walk x.1 x.2; mret (match r with WErr e => errs ++ [e] | _ => errs end).
Definition visit_all (walk : string → entry_info → PM walk_result) (errs : list error) (l : list (string * entry_info)) : PM (list error) :=
  pm_fold (visit_step walk) errs l.

Lemma pm_bind_assoc {A B C} (m : PM A) (f : A → PM B) (g : B → PM C) d : ((m ≫= f) ≫= g) d = (m ≫= λ a, f a ≫= g) d.
Proof. unfold mbind, PM_bind. by destruct (m d) as [d' [[| |]|]]. Qed.
Lemma pm_bind_ext {A B} (m : PM A) (f g : A → PM B) d : (∀ a d, f a d = g a d) → (m ≫= f) d = (m ≫= g) d.
Proof. intros E. unfold mbind, PM_bind. destruct (m d) as [d' [[| |]|]]; by rewrite ?E. Qed.
Lemma pm_bind_ext_l {A B} (m m' : PM A) (f : A → PM B) d : m d = m' d → (m ≫= f) d = (m' ≫= f) d.
Proof. intros E. unfold mbind, PM_bind. by rewrite E. Qed.
Lemma pm_fold_app {A B} (f : B → A → PM B) l1 l2 : ∀ b d, pm_fold f b (l1 ++ l2) d = (b' ← pm_fold f b l1; pm_fold f b' l2) d.
Proof.
  induction l1 as [|x l1 IH]; intros b d; simpl; [done|]. rewrite pm_bind_assoc. apply pm_bind_ext. intros. apply IH.
Qed.

(** What the two walk functions have in common. *)
Record walks_files (walk : string → entry_info → PM walk_result) : Prop := {
  wf_dir : ∀ path name e d, walk path (IDir name e) d = (d, Some (Ok (dir_result name)));
  wf_hidden : ∀ path name f dir files d, hidden name = true → walk path (IFile name f dir files) d = (d, Some (Ok WNil));
  wf_noskip : ∀ path i d d', (∀ name e, i ≠ IDir name e) → walk path i d ≠ (d', Some (Ok WSkipDir))
}.

Section walks.
Variable walk : string → entry_info → PM walk_result.
Hypothesis Hwalk : walks_files walk.
Definition not_dir (t : tree) : bool := match t with TDir _ _ _ => false | _ => true end.
(** A walk is a pass over the visible files; it returns nil, or [SkipDir] for a
    hidden directory. *)
Definition tree_result (t : tree) : walk_result := match t with TDir name _ _ => dir_result name | _ => WNil end.
Lemma collect_file errs path i d :
  (∀ name e, i ≠ IDir name e) →
  collectWalkErrs walk errs path i d = (errs' ← visit_step walk errs (path, i); mret (errs', WNil)) d.
Proof using All.
  intros Hi. unfold collectWalkErrs, visit_step. simpl. rewrite pm_bind_assoc. pose proof (wf_noskip _ Hwalk path i d) as Hs.
  unfold mbind, PM_bind. destruct (walk path i d) as [d' [[[]| |]|]]; try done. by destruct (Hs d' Hi).
Qed.
Lemma collect_dir errs path name e d : collectWalkErrs walk errs path (IDir name e) d = (d, Some (Ok (errs, dir_result name))).
Proof using All.
  unfold collectWalkErrs, mbind, PM_bind. rewrite (wf_dir _ Hwalk). unfold dir_result. by destruct (hidden name).
Qed.
Lemma walk_visible t : ∀ dir files errs path d,
  walk_tree (collectWalkErrs walk) dir files errs path t d =
  (errs' ← visit_all walk errs (visible dir files path t); mret (errs', tree_result t)) d.
Proof using All.
  induction t as [name f|name b e|name u entries IH] using tree_nested_ind; intros dir files errs path d.
  - cbn [walk_tree visible]. destruct (hidden name) eqn:Eh; unfold visit_all; cbn [pm_fold tree_result].
    + unfold collectWalkErrs, mbind, PM_bind. by rewrite (wf_hidden _ Hwalk).
    + rewrite collect_file by done. rewrite pm_bind_assoc. by apply pm_bind_ext.
  - cbn [walk_tree visible]. unfold visit_all. cbn [pm_fold tree_result]. rewrite collect_file by done. rewrite pm_bind_assoc. by apply pm_bind_ext.
  - cbn [walk_tree visible tree_result]. unfold mbind at 1, PM_bind at 1. rewrite collect_dir. cbn [fst snd]. unfold dir_result.
    destruct (hidden name) eqn:Eh; [by destruct u|]. destruct u as [e|]; [done|].
    generalize (ReadDir entries). intros listing. revert errs d. induction IH as [|t l Ht Hl IHl]; intros errs d; [done|].
    cbn [flat_map]. unfold visit_all at 1. rewrite (pm_bind_ext_l _ _ _ _ (pm_fold_app _ _ _ _ _)), pm_bind_assoc.
    rewrite (pm_bind_ext_l _ _ _ _ (Ht _ _ _ _ _)), pm_bind_assoc. apply pm_bind_ext. intros errs' d'.
    etrans; [|apply IHl]. destruct t as [| |]; try done. cbn. unfold dir_result. by destruct (hidden name0).
Qed.
Lemma Walk_visible t dir files errs root d :
  Walk (collectWalkErrs walk) dir files errs root t d = (errs' ← visit_all walk errs (visible dir files root t); mret (errs', None)) d.
Proof using All.
  unfold Walk. rewrite (pm_bind_ext_l _ _ _ _ (walk_visible t _ _ _ _ _)), pm_bind_assoc. apply pm_bind_ext. intros errs' d'.
  cbn. f_equal. do 2 f_equal. destruct t as [| |]; cbn; try done. unfold dir_result. by destruct (hidden name).
Qed.
End walks.

(** ** Packages of the index *)
Definition has_package (d : db) (p : string) : Prop := is_Some (package d !! p).
Section packages.
Variable p : string.
Abbreviation keeps_package := (preserves (λ d, has_package d p)).
Lemma package_statement u :
  (∀ d d', has_package d p → u d = Ok d' → has_package d' p) → keeps_package (statement u).
Proof. intros Hu d Hd. unfold statement. destruct (u d) as [d'| |] eqn:E; [|done..]. by eapply Hu. Qed.
Lemma package_insert_package q : keeps_package (statement (insert_package q)).
Proof.
  apply package_statement. unfold insert_package, has_package. intros d d' Hd E. case_decide; simplify_eq/=.
  destruct (decide (p = q)) as [->|]; [rewrite lookup_insert_eq|rewrite lookup_insert_ne by done]; eauto.
Qed.
Lemma package_insert_channel c q h : keeps_package (statement (insert_channel c q h)).
Proof. apply package_statement. unfold insert_channel. intros d d' Hd E. repeat case_decide; by simplify_eq/=. Qed.
Lemma package_update_default c q : keeps_package (statement (update_default_channel c q)).
Proof.
  apply package_statement. unfold update_default_channel, has_package. intros d d' Hd E.
  destruct (package d !! q); [|by simplify_eq]. case_decide; simplify_eq/=.
  destruct (decide (p = q)) as [->|]; [rewrite lookup_insert_eq|rewrite lookup_insert_ne by done]; eauto.
Qed.
Lemma package_insert_entry c q n k : keeps_package (statement (insert_entry c q n k)).
Proof. apply package_statement. unfold insert_entry. intros d d' Hd E. repeat case_decide; by simplify_eq/=. Qed.
Lemma package_update_replaces r i : keeps_package (statement (update_replaces r i)).
Proof. apply package_statement. unfold update_replaces. intros d d' Hd E. by simplify_eq/=. Qed.
Lemma package_insert_property r : keeps_package (statement (insert_property r)).
Proof. apply package_statement. unfold insert_property. intros d d' Hd E. repeat case_match; by simplify_eq/=. Qed.
End packages.
Create HintDb packages.
#[export] Hint Resolve package_insert_package package_insert_channel package_update_default package_insert_entry
  package_update_replaces package_insert_property : packages.
#[export] Hint Resolve keeps_ret keeps_err keeps_select keeps_try keeps_append_err : packages.
Ltac pkgs :=
  repeat first
    [ progress intros
    | match goal with |- preserves _ (match ?x with _ => _ end) => destruct x end
    | match goal with |- preserves _ (_ ≫= _) => apply keeps_bind end
    | match goal with |- preserves _ (tx_fold _ _ _) => apply keeps_fold end
    | match goal with |- preserves _ (tx_try _) => apply keeps_try end
    | match goal with |- preserves _ (append_err _ _) => apply keeps_append_err end
    | progress cbv beta zeta
    | solve [eauto 3 with packages] ].

Lemma package_channel_pass p pkg c cycle csv id depth errs :
  preserves (λ d, has_package d p) (channel_pass pkg c cycle csv id depth errs).
Proof.
  unfold channel_pass, add_skip, getBundleSkipsReplacesVersion, getBundlePathIfExists, addPackageProperty, addProperty, addChannelEntry, addReplaces, deprecated.
  pkgs.
Qed.
Lemma package_channel_loop p pkg c fuel : ∀ cycle csv id depth errs,
  preserves (λ d, has_package d p) (channel_loop pkg c fuel cycle csv id depth errs).
Proof. induction fuel as [|fuel IH]; intros; cbn [channel_loop]; [apply keeps_ret|]. apply keeps_bind; [apply package_channel_pass|]. pkgs. Qed.
#[export] Hint Resolve package_channel_loop : packages.
Lemma package_add_channels p m st errs l :
  preserves (λ d, has_package d p) (st ← tx_fold (add_manifest_channel m) st l; tx_fold (add_channel_entries (pm_PackageName m)) (errs st) (ad_channels st)).
Proof. unfold add_manifest_channel, add_channel_entries, deprecated, addChannelEntry. pkgs. Qed.

(** The packages of the index stay, and that of the manifest is added. *)
Lemma AddPackageChannels_packages m d d' :
  AddPackageChannels m d = (d', Ok tt) → has_package d' (pm_PackageName m) ∧ ∀ p, has_package d p → has_package d' p.
Proof.
  unfold AddPackageChannels, transaction. intros E.
  set (pkg := pm_PackageName m) in *. set (d1 := (rmPackage pkg d).1) in *.
  assert (rmPackage pkg d = (d1, Ok tt)) as E1 by done. unfold mbind, TX_bind in E. rewrite E1 in E.
  assert (package d1 !! pkg = None) as Hnone by (apply map_lookup_filter_None; left; apply lookup_delete_eq).
  set (d2 := set_packages d1 (<[pkg := None]> (package d1))).
  assert (statement (insert_package pkg) d1 = (d2, Ok tt)) as E2.
  { unfold statement, insert_package. rewrite decide_False; [done|]. rewrite Hnone. by intros []. }
  assert (∀ p, has_package d2 p → has_package (addPackageChannels m d1).1 p) as Hkeep.
  { intros p Hp. unfold addPackageChannels. fold pkg. unfold mbind at 1, TX_bind at 1, tx_try. rewrite E2. cbv zeta.
    apply (package_add_channels p m _ (λ st, Some (if ad_hasDefault st then ad_errs st else ad_errs st ++ _))). exact Hp. }
  assert (d' = (addPackageChannels m d1).1) as ->.
  { revert E. unfold outcome. destruct (addPackageChannels m d1) as [d3 [[errs|]|e|]]; [|done..].
    destruct (NewAggregate errs); [|done..]. case_decide; [|done]. by intros [= <-]. }
  split; [apply Hkeep; unfold has_package; simpl; rewrite lookup_insert_eq; eauto|].
  intros p [dc Hp]. apply Hkeep. unfold has_package. simpl. destruct (decide (p = pkg)) as [->|Hne]; [rewrite lookup_insert_eq; eauto|].
  rewrite lookup_insert_ne by done. exists dc. apply map_lookup_filter_Some. split; [by rewrite lookup_delete_ne|].
  unfold is_default_of. simpl. destruct dc as [c|]; [|done]. apply bool_decide_eq_false. intros Hc. apply elem_of_dom in Hc as [h Hc].
  apply map_lookup_filter_Some in Hc as [_ Hc]. simpl in Hc. by apply bool_decide_eq_true in Hc.
Qed.

(** ** The directory loader *)
Section directory.
Context `{GoRuntime}.
Variables (enableAlpha : bool) (decode_install : RawMessage → res install_strategy) (fuel : nat).

Lemma walk_aggregate_noskip errs : walk_aggregate errs ≠ WSkipDir.
Proof. unfold walk_aggregate. by destruct (NewAggregate errs). Qed.
Lemma load_csv_noskip alpha n dir files d d' : load_csv alpha decode_install fuel n dir files d ≠ (d', Some (Ok WSkipDir)).
Proof.
  unfold load_csv. destruct (loadBundle n dir files) as [[b|] r].
  - case_decide; [intros [= _ E]; by eapply walk_aggregate_noskip|]. intros (d1 & p & _ & E)%pm_bind_Ok.
    apply pm_bind_Ok in E as (d2 & es & _ & [= _ E]). by eapply walk_aggregate_noskip.
  - intros [= _ E]. by eapply walk_aggregate_noskip.
Qed.
Lemma bundle_walks alpha : walks_files (LoadBundleWalkFunc alpha decode_install fuel).
Proof.
  split.
  - done.
  - intros path name f dir files d Eh. simpl. by rewrite Eh.
  - intros path [name f dir files|name e|e] d d' Hi; [|by destruct (Hi name e)|done]. simpl.
    destruct (hidden name); [done|]. destruct (fl_open f); [done|]. destruct (fl_object f) as [[csv|]|]; [|done..].
    case_decide; [apply load_csv_noskip|done].
Qed.
Lemma package_walks : walks_files LoadPackagesWalkFunc.
Proof.
  split.
  - done.
  - intros path name f dir files d Eh. simpl. by rewrite Eh.
  - intros path [name f dir files|name e|e] d d' Hi; [|by destruct (Hi name e)|done]. simpl.
    destruct (hidden name); [done|]. destruct (fl_open f); [done|]. destruct (fl_manifest f) as [m|e]; [|done].
    case_decide; [done|]. intros (d1 & errs & _ & E)%pm_bind_Ok. by destruct errs.
Qed.

Lemma DirectoryLoader_passes alpha dir files root t d :
  DirectoryLoader_Populate alpha decode_install fuel dir files root t d =
  (errs ← visit_all (LoadBundleWalkFunc alpha decode_install fuel) [] (visible dir files root t);
   errs ← visit_all LoadPackagesWalkFunc errs (visible dir files root t);
   pm_res (NewAggregate errs)) d.
Proof.
  unfold DirectoryLoader_Populate.
  rewrite (pm_bind_ext_l _ _ _ _ (Walk_visible _ (bundle_walks _) _ _ _ _ _ _)), pm_bind_assoc. apply pm_bind_ext. intros errs d1.
  change ((mret (errs, None) : PM _) ≫= ?f) with (λ d, f (errs, @None error) d). cbn [fst snd option_list]. rewrite app_nil_r.
  rewrite (pm_bind_ext_l _ _ _ _ (Walk_visible _ package_walks _ _ _ _ _ _)), pm_bind_assoc. apply pm_bind_ext. intros errs' d2.
  unfold mbind, PM_bind, mret, PM_ret. simpl. by rewrite app_nil_r.
Qed.
(** C25. Loading a directory is two passes over its visible files, in the order of
    the walk: first every bundle around a CSV, then every package manifest, with
    the errors of all of them.  Files and directories whose name starts with a dot
    are not visited: a loader started at such a directory, the current one
    included, loads nothing and succeeds. *)
Theorem DirectoryLoader_Populate_visits dir files root t d :
  DirectoryLoader_Populate enableAlpha decode_install fuel dir files root t d =
    (errs ← visit_all (LoadBundleWalkFunc enableAlpha decode_install fuel) [] (visible dir files root t);
     errs ← visit_all LoadPackagesWalkFunc errs (visible dir files root t);
     pm_res (NewAggregate errs)) d ∧
  (hidden (tree_name t) = true → (∀ name b e, t ≠ TGone name b e) →
   DirectoryLoader_Populate enableAlpha decode_install fuel dir files root t d = (d, Some (Ok tt))).
Proof.
  rewrite DirectoryLoader_passes. split; [done|]. intros Eh Hgone.
  assert (visible dir files root t = []) as ->; [|done].
  destruct t as [name f|name u entries|name b e]; simpl in *; [by rewrite Eh..|by destruct (Hgone name b e)].
Qed.

Lemma index_DirectoryLoader dir files root t :
  ppreserves index_ok (DirectoryLoader_Populate enableAlpha decode_install fuel dir files root t).
Proof.
  intros d Hd. rewrite DirectoryLoader_passes. revert d Hd.
  change (ppreserves index_ok (errs ← visit_all (LoadBundleWalkFunc enableAlpha decode_install fuel) [] (visible dir files root t);
    errs ← visit_all LoadPackagesWalkFunc errs (visible dir files root t); pm_res (NewAggregate errs))).
  unfold visit_all, visit_step, LoadBundleWalkFunc, LoadPackagesWalkFunc, load_csv, store_bundle, pm_method. pkeep; apply lkeeps_bm.
Qed.

(** *** A successful pass *)
Lemma visit_all_Ok (walk : string → entry_info → PM walk_result) (R : db → db → Prop) `{!PreOrder R} (Q : db → entry_info → Prop) l :
  (∀ path i d d' r, walk path i d = (d', Some (Ok r)) → (∀ e, r ≠ WErr e) → R d d' ∧ Q d' i) →
  (∀ i d d', R d d' → Q d i → Q d' i) →
  ∀ errs d d' errs', visit_all walk errs l d = (d', Some (Ok errs')) → errs' = [] → errs = [] ∧ R d d' ∧ ∀ x, x ∈ l → Q d' x.2.
Proof.
  intros Hstep Hmono. unfold visit_all. induction l as [|[path i] l IH]; intros errs d d' errs' E Hn.
  - injection E as <- <-. split_and!; [done|done|]. inversion 1.
  - apply pm_bind_Ok in E as (d1 & errs1 & E1 & E). destruct (IH _ _ _ _ E Hn) as (Hn1 & HR & Hall).
    apply pm_bind_Ok in E1 as (d2 & r & E2 & E1). injection E1 as <- Er.
    assert (errs = [] ∧ ∀ e, r ≠ WErr e) as [-> Hr] by (destruct r; [naive_solver..|by destruct errs; simplify_eq]).
    destruct (Hstep _ _ _ _ _ E2 Hr) as [HR1 HQ]. split_and!; [done|by etrans|].
    intros x [->|Hx]%elem_of_cons; [|auto]. by eapply Hmono.
Qed.

Lemma pm_method_Ok {A} (m : BM A) b d d' x : frame m → pm_method m b d = (d', Some (Ok x)) → d' = d ∧ same_input b x.1.
Proof.
  intros Hm. specialize (Hm b). unfold pm_method, pm_bundle, of_bm. destruct (m b) as [b' [a|e|]]; intros; by simplify_eq.
Qed.
Lemma stored_same d b b' : same_input b b' → stored d b' → stored d b.
Proof.
  intros Hin (name & row & rest & E & Hr & Hp). pose proof Hin as (_ & _ & _ & _ & Ei & _). rewrite (Serialize_same _ _ Hin), Ei in *.
  exists name, row, rest. done.
Qed.
Lemma store_bundle_Ok n b d d' es :
  store_bundle false decode_install fuel n b d = (d', Some (Ok es)) → es = [] → operatorbundle d ⊆ operatorbundle d' ∧ stored d' b.
Proof.
  unfold store_bundle. intros (d1 & [b1 r] & E1 & E)%pm_bind_Ok Hes. unfold pm_bundle in E1. simpl in *.
  destruct (AddOperatorBundle false decode_install fuel b d) as [[b2 d2] [[[]|e|]|]] eqn:Ea; simplify_eq; simpl in *.
  - injection E as <-. by eapply AddOperatorBundle_stores.
  - apply pm_bind_Ok in E as (d3 & v & _ & E). by simplify_eq.
Qed.

(** *** What a directory leaves in the index *)
Definition bundle_loaded (d : db) (i : entry_info) : Prop :=
  match i with
  | IFile name f dir files => hidden name = false →
      fl_open f = None ∧ ∀ csv, fl_object f = Some (Some csv) → o_Kind csv = "ClusterServiceVersion" →
        ∃ b, loadBundle (o_Name csv) dir files = (Some b, Ok tt) ∧ Size b ≠ 0 ∧ stored d b
  | IDir _ _ => True
  | INil _ => False
  end.
Definition package_loaded (d : db) (i : entry_info) : Prop :=
  match i with
  | IFile name f _ _ => hidden name = false →
      ∃ m, fl_manifest f = inl m ∧ (pm_PackageName m = "" ∨ has_package d (pm_PackageName m))
  | IDir _ _ => True
  | INil _ => False
  end.
Lemma walk_aggregate_Ok errs : walk_aggregate errs = WNil → errs = [].
Proof. by destruct errs. Qed.
Lemma load_csv_Ok n dir files d d' :
  load_csv false decode_install fuel n dir files d = (d', Some (Ok WNil)) →
  operatorbundle d ⊆ operatorbundle d' ∧ ∃ b, loadBundle n dir files = (Some b, Ok tt) ∧ Size b ≠ 0 ∧ stored d' b.
Proof.
  unfold load_csv. destruct (loadBundle n dir files) as [[b|] r] eqn:El.
  - case_decide as Hsz; [intros [= _ E%walk_aggregate_Ok]; by apply app_eq_nil in E as [_ ?]|]. intros (d1 & p & E1 & E)%pm_bind_Ok.
    apply pm_method_Ok in E1 as [-> Hin]; [|unfold AllProvidedAPIsInBundle; auto 20 with frame].
    apply pm_bind_Ok in E as (d2 & es & E2 & [= <- E%walk_aggregate_Ok]).
    apply app_eq_nil in E as [E Hes]. apply app_eq_nil in E as [Er _]. destruct (store_bundle_Ok _ _ _ _ _ E2 Hes) as [Hsub Hst].
    split; [done|]. exists b. split_and!; [|done|by eapply stored_same]. f_equal. revert Er. unfold loadBundle in El.
    destruct files as [l| |]; [|done..]. destruct (foldl _ _ l) as [b' errs]. injection El as _ <-. by destruct errs.
  - intros [= _ E%walk_aggregate_Ok]. by apply app_eq_nil in E as [_ ?].
Qed.
Definition more_bundles (d d' : db) : Prop := operatorbundle d ⊆ operatorbundle d'.
#[export] Instance more_bundles_preorder : PreOrder more_bundles.
Proof. unfold more_bundles. split; [by intros d|]. intros d1 d2 d3 ??. by etrans. Qed.
Definition more_packages (d d' : db) : Prop := operatorbundle d' = operatorbundle d ∧ ∀ p, has_package d p → has_package d' p.
#[export] Instance more_packages_preorder : PreOrder more_packages.
Proof. unfold more_packages. split; [by intros d|]. intros d1 d2 d3 [] []. split; [congruence|auto]. Qed.
Lemma walk_bundle_Ok path i d d' r :
  LoadBundleWalkFunc false decode_install fuel path i d = (d', Some (Ok r)) → (∀ e, r ≠ WErr e) → more_bundles d d' ∧ bundle_loaded d' i.
Proof.
  destruct i as [name f dir files|name e|e]; simpl; [|by intros [= <- <-]|by intros [= <- <-] Hr; destruct (Hr invalid_file)].
  destruct (hidden name); [by intros [= <- <-]|]. destruct (fl_open f); [intros [= <- <-] Hr; by edestruct Hr|].
  destruct (fl_object f) as [[csv|]|]; [|by intros [= <- <-]..]. case_decide as Hk; [|intros [= <- <-] Hr; split; [done|naive_solver]].
  intros E Hr. destruct r; [|by apply load_csv_noskip in E|by edestruct Hr]. apply load_csv_Ok in E as (Hsub & b & Hb). split; [done|]. naive_solver.
Qed.
Lemma walk_package_Ok path i d d' r :
  LoadPackagesWalkFunc path i d = (d', Some (Ok r)) → (∀ e, r ≠ WErr e) → more_packages d d' ∧ package_loaded d' i.
Proof.
  destruct i as [name f dir files|name e|e]; simpl; [|by intros [= <- <-]|by intros [= <- <-] Hr; destruct (Hr invalid_file)].
  destruct (hidden name); [by intros [= <- <-]|]. destruct (fl_open f); [intros [= <- <-] Hr; by edestruct Hr|].
  destruct (fl_manifest f) as [m|e]; [|intros [= <- <-] Hr; by edestruct Hr]. case_decide as Hk; [intros [= <- <-] Hr; split; [done|naive_solver]|].
  intros (d1 & errs & E1 & [= <- <-])%pm_bind_Ok Hr. destruct errs as [|e errs]; [|by destruct (Hr e)].
  unfold pm_append, pm_wrap, pm_tx in E1. pose proof (AddPackageChannels_bundles m d) as Hb.
  destruct (AddPackageChannels m d) as [d2 [[]|e|]] eqn:Ea; simplify_eq/=.
  apply AddPackageChannels_packages in Ea as [Hp Hall]. split; [done|]. eauto.
Qed.

Lemma bundle_loaded_mono i d d' : more_bundles d d' → bundle_loaded d i → bundle_loaded d' i.
Proof.
  destruct i as [name f dir files| |]; simpl; [|done..]. intros HR Hl Hh. destruct (Hl Hh) as [Ho Hl']. split; [done|]. intros csv Hc Hk.
  destruct (Hl' csv Hc Hk) as (b & ? & ? & ?). exists b. split_and!; [done..|]. by eapply stored_mono.
Qed.
Lemma package_loaded_mono i d d' : more_packages d d' → package_loaded d i → package_loaded d' i.
Proof. destruct i; simpl; [|done..]. intros [_ HR] Hl Hh. destruct (Hl Hh) as (m & Hm & [|]); eauto 6. Qed.

End directory.

(** ** The config map loader *)
Definition crd_key (crd : listed_crd) (version : string) : APIKey := mkAPIKey (lc_Group crd) version (lc_Kind crd) (lc_Plural crd).
Definition crd_loaded (crds : crd_map) (crd : listed_crd) (version : string) : Prop :=
  ∃ o, lc_object crd (defaulted_versions crd) = inl o ∧ crds !! crd_key crd version = Some o.
Lemma crd_loaded_mono crds crds' crd v : crds ⊆ crds' → crd_loaded crds crd v → crd_loaded crds' crd v.
Proof. intros Hs (o & Ho & Hl). exists o. split; [done|]. by eapply lookup_weaken. Qed.
Lemma crd_versions_Ok crd l : ∀ st,
  (foldl (crd_version_step crd) st l).2 = [] →
  st.2 = [] ∧ st.1 ⊆ (foldl (crd_version_step crd) st l).1 ∧ ∀ v, v ∈ l → crd_loaded (foldl (crd_version_step crd) st l).1 crd v.
Proof.
  induction l as [|v l IH]; intros st Hn; [split_and!; [done|done|inversion 1]|]. cbn [foldl] in *.
  destruct (IH _ Hn) as (Hn1 & Hs & Hall). revert Hn1 Hs Hall. set (fin := (foldl _ _ l).1). clearbody fin. intros Hn1 Hs Hall.
  unfold crd_version_step in Hn1, Hs. fold (crd_key crd v) in Hn1, Hs. destruct (st.1 !! crd_key crd v) eqn:El; [by apply app_eq_nil in Hn1 as [_ ?]|].
  destruct (lc_object crd (defaulted_versions crd)) as [o|e] eqn:Eo; [|by apply app_eq_nil in Hn1 as [_ ?]]. simpl in *.
  split_and!; [done|etrans; [by apply insert_subseteq|done]|]. intros v' [->|Hv]%elem_of_cons; [|auto].
  exists o. split; [done|]. eapply lookup_weaken; [|done]. apply lookup_insert_eq.
Qed.
Lemma crds_Ok l : ∀ st,
  (foldl crd_step st l).2 = [] →
  st.2 = [] ∧ st.1 ⊆ (foldl crd_step st l).1 ∧
  ∀ crd v, crd ∈ l → v ∈ default [] (defaulted_versions crd) → crd_loaded (foldl crd_step st l).1 crd v.
Proof.
  induction l as [|crd l IH]; intros st Hn; [split_and!; [done|done|inversion 1]|]. cbn [foldl] in *.
  destruct (IH _ Hn) as (Hn1 & Hs & Hall). destruct (crd_versions_Ok crd _ _ Hn1) as (Hn2 & Hs2 & Hall2).
  split_and!; [done|by etrans|]. intros crd' v [->|Hc]%elem_of_cons Hv; [|auto]. eapply crd_loaded_mono; [done|]. by apply Hall2.
Qed.

(** The object is the CRD of the list that the CSV owns. *)
Definition owned_by (crds : crd_map) (owned : option DefinitionKey) (o : k8s_object) : Prop :=
  ∃ key, crd_name_key owned = Ok key ∧ crds !! key = Some o.
Lemma add_owned_errs crds defs : ∀ st st', foldR (add_owned crds) st defs = Ok st' → ∃ es, st'.2 = st.2 ++ es.
Proof.
  induction defs as [|def defs IH]; intros st st' E; simpl in E; [simplify_eq; exists []; by rewrite app_nil_r|].
  apply bind_Ok in E as (st1 & E1 & E). destruct (IH _ _ E) as [es Hes]. unfold add_owned in E1. apply bind_Ok in E1 as (k & _ & E1).
  assert (∃ es1, st1.2 = st.2 ++ es1) as [es1 H1]; [|exists (es1 ++ es); by rewrite Hes, H1, app_assoc].
  repeat case_match; simplify_eq; simpl; first [by eexists | exists []; by rewrite app_nil_r].
Qed.
Lemma add_owned_Ok crds defs : ∀ b b',
  foldR (add_owned crds) (b, []) defs = Ok (b', []) → ∃ objs, rb_Objects b' = rb_Objects b ++ objs ∧ Forall2 (owned_by crds) defs objs.
Proof.
  induction defs as [|def defs IH]; intros b b' E; simpl in E; [simplify_eq; exists []; split; [by rewrite app_nil_r|constructor]|].
  apply bind_Ok in E as ([b1 es1] & E1 & E). destruct (add_owned_errs _ _ _ _ E) as [es Hes]. simpl in Hes.
  symmetry in Hes. apply app_eq_nil in Hes as [-> _].
  destruct (IH _ _ E) as (objs & Ho & Hall).
  unfold add_owned in E1. apply bind_Ok in E1 as (k & Ek & E1). destruct def as [k'|]; [|done]. injection Ek as ->.
  destruct (SplitN "." (dk_Name k) 1) as [|plural [|group [|]]] eqn:Es; cbn in E1; try discriminate E1.
  destruct (crds !! _) as [o|] eqn:El; [|discriminate E1]. injection E1 as <-. exists (o :: objs). split; [rewrite Ho; simpl; by rewrite <- app_assoc|].
  constructor; [|done]. eexists. split; [|exact El]. unfold crd_name_key, deref. cbn [mbind res_bind]. by rewrite Es.
Qed.

Section config_map.
Context `{GoRuntime}.
Variables (decode_install : RawMessage → res install_strategy) (fuel : nat) (YAMLToJSON : string → string + error)
  (unmarshal_crds : string → list listed_crd + error) (unmarshal_csvs : string → list listed_csv + error)
  (unmarshal_manifests : string → list PackageManifest + error).

(** The bundle of a listed CSV: the CSV and the CRDs it owns. *)
Definition csv_loaded (d : db) (crds : crd_map) (csv : listed_csv) : Prop :=
  ∃ b o objs defs, csv.2 = inl o ∧ GetCustomResourceDefintions csv.1 = Ok defs ∧ rb_Name b = csv_Name csv.1 ∧
    rb_Objects b = o :: objs ∧ Forall2 (owned_by crds) defs.1 objs ∧ stored d b.
Lemma csv_loaded_mono d d' crds csv : more_bundles d d' → csv_loaded d crds csv → csv_loaded d' crds csv.
Proof. intros HR (b & o & objs & defs & ? & ? & ? & ? & ? & ?). exists b, o, objs, defs. split_and!; [done..|]. by eapply stored_mono. Qed.
Lemma add_owned_name crds defs : ∀ st st', foldR (add_owned crds) st defs = Ok st' → rb_Name st'.1 = rb_Name st.1.
Proof.
  induction defs as [|def defs IH]; intros st st' E; simpl in E; [by simplify_eq|].
  apply bind_Ok in E as (st1 & E1 & E). rewrite (IH _ _ E). unfold add_owned in E1. apply bind_Ok in E1 as (k & _ & E1).
  by repeat case_match; simplify_eq.
Qed.
Lemma csv_step_Ok crds errs csv d d' :
  csv_step false decode_install fuel crds errs csv d = (d', Some (Ok [])) → errs = [] ∧ more_bundles d d' ∧ csv_loaded d' crds csv.
Proof.
  unfold csv_step. intros (d1 & [ob es] & [= <- E1] & E)%pm_bind_Ok. simpl in E. unfold bundle_of_csv in E1.
  destruct (csv.2) as [o|e] eqn:Eo; [|simplify_eq; simpl in E; by destruct errs].
  apply bind_Ok in E1 as (b0 & Eb & E1). destruct (GetCustomResourceDefintions csv.1) as [defs|e|] eqn:Ed; [|simplify_eq; by destruct errs|done].
  apply bind_Ok in E1 as ([b es'] & Ef & [= <- <-]). apply pm_bind_Ok in E as (d2 & es2 & E2 & [= <- Ee]). simpl in *.
  apply app_eq_nil in Ee as [-> Ee]. apply app_eq_nil in Ee as [-> ->].
  destruct (store_bundle_Ok _ _ _ _ _ _ _ E2 eq_refl) as [Hsub Hst]. split_and!; [done|done|].
  pose proof (add_owned_name _ _ _ _ Ef) as Hname. destruct (add_owned_Ok _ _ _ _ Ef) as (objs & Hobjs & Hall).
  simpl in Eb. injection Eb as <-. exists b, o, objs, defs. split_and!; done.
Qed.
Lemma csvs_Ok crds l : ∀ errs d d',
  pm_fold (csv_step false decode_install fuel crds) errs l d = (d', Some (Ok [])) →
  errs = [] ∧ more_bundles d d' ∧ ∀ csv, csv ∈ l → csv_loaded d' crds csv.
Proof.
  induction l as [|csv l IH]; intros errs d d' E; [injection E as <- ->; split_and!; [done|done|inversion 1]|].
  cbn [pm_fold] in E. apply pm_bind_Ok in E as (d1 & errs1 & E1 & E). destruct (IH _ _ _ E) as (-> & HR & Hall).
  destruct (csv_step_Ok _ _ _ _ _ E1) as (-> & HR1 & Hl). split_and!; [done|by etrans|].
  intros csv' [->|Hc]%elem_of_cons; [by eapply csv_loaded_mono|auto].
Qed.
Lemma packages_Ok l : ∀ errs d d',
  pm_fold package_step errs l d = (d', Some (Ok [])) →
  errs = [] ∧ more_packages d d' ∧ ∀ m, m ∈ l → has_package d' (pm_PackageName m).
Proof.
  induction l as [|m l IH]; intros errs d d' E; [injection E as <- ->; split_and!; [done|done|inversion 1]|].
  cbn [pm_fold] in E. apply pm_bind_Ok in E as (d1 & errs1 & E1 & E). destruct (IH _ _ _ E) as (-> & HR & Hall).
  unfold package_step, pm_append, pm_wrap, pm_tx in E1. pose proof (AddPackageChannels_bundles m d) as Hb.
  destruct (AddPackageChannels m d) as [d2 [[]|e|]] eqn:Ea; simplify_eq/=; [|by destruct errs].
  apply AddPackageChannels_packages in Ea as [Hp Hk]. split_and!; [done|etrans; [|done]; done|].
  intros m' [->|Hm]%elem_of_cons; [by apply HR|auto].
Qed.

Lemma index_ConfigMapLoader enableAlpha data crds :
  ppreserves index_ok (ConfigMapLoader_Populate enableAlpha decode_install fuel YAMLToJSON unmarshal_crds unmarshal_csvs unmarshal_manifests data crds).2.
Proof.
  unfold ConfigMapLoader_Populate. destruct (list_under _ _ _ _ _) as [l|]; [|by intros d]. destruct (foldl crd_step _ _) as [crds' errs]. simpl.
  unfold load_packages, csv_step, package_step, store_bundle, pm_method. pkeep; apply lkeeps_bm.
Qed.
End config_map.

(** ** Examples *)
Definition ex_csv_object : k8s_object :=
  mkObj "ClusterServiceVersion" "v1alpha1" "foo.v0.2.0"
    (inl (mkCSV "foo.v0.2.0" ∅ (Some (print_struct true [("version", "0.2.0")])))) (inr json_error) (inr json_error) (inl "{}").
Definition ex_manifest : PackageManifest := mkManifest "foo" [mkPkgChannel "stable" "foo.v0.2.0"] "stable".
Definition ex_csv_file : file := mkFile None (Some (Some ex_csv_object)) (inl (mkManifest "" [] "")).
Definition ex_package_file : file := mkFile None None (inl ex_manifest).
Definition ex_bad_file : file := mkFile (Some json_error) None (inr json_error).
Definition ex_files : list tree := [TFile ".hidden" ex_bad_file; TFile "csv.yaml" ex_csv_file; TFile "foo.package.yaml" ex_package_file].
Definition ex_tree : tree := TDir "manifests" None [TDir ".git" None [TFile "config" ex_bad_file]; TDir "foo" None ex_files].
Definition ex_load (d : db) : db * option (res unit) :=
  DirectoryLoader_Populate (H := go_default) false ex_install 0 "." (Ok [ex_tree]) "manifests" ex_tree d.
Definition ex_crd_object : k8s_object :=
  mkObj "CustomResourceDefinition" "v1beta1" "foos.example.com" (inr json_error) (inr json_error)
    (inl (mkCRD "example.com" ["v1"] "v1" "Foo" "foos" "foos.example.com")) (inl "{}").
Definition ex_listed_crd : listed_crd := mkListedCRD "example.com" "Foo" "foos" "v1" None (λ _, inl ex_crd_object).
Definition ex_listed_csv : listed_csv := (mkCSV "foo.v0.2.0" ∅ (Some (print_struct true [("version", "0.2.0")])), inl ex_csv_object).
Definition ex_data : gmap string string :=
  {[ ConfigMapCRDName := "crds"; ConfigMapCSVName := "csvs"; ConfigMapPackageName := "packages" ]}.
Definition ex_config_map (d : db) : db * option (res unit) :=
  (ConfigMapLoader_Populate (H := go_default) false ex_install 0 inl (λ _, inl [ex_listed_crd]) (λ _, inl [ex_listed_csv]) (λ _, inl [ex_manifest])
     ex_data ∅).2 d.
