(* ===== verification/Commands.v ===== *)
(** * The registry commands

    [pkg/lib/registry/registry.go]: adding bundle images to an index, deleting,
    pruning and deprecating, over the loader, the populator and the queries.

    Opening the database file and the image registry that pulls and unpacks are
    parameters, and so is the migration of an older index (file Migrator is about
    it).  A command returns, or it leaves the program through the logger's [Fatal],
    or it is still running when the fuel of the loader is spent. *)
From S2P Require Import Prelude Semver Json JsonCompact JsonStream Property JsonTotal Model ModelOps Declcfg DeclcfgConv DeclcfgRoundtrip DeclcfgWrite DeclcfgLoad RegistryTypes RegistryBundle RegistryBundleSpec Api Query Conversion Graph Sql SqlLoad SqlInv SqlGraph SqlAdd SqlAddInv SqlQuery BundleParse Populator PopulatorSpec.
From stdpp Require Import options.

Inductive command_outcome : Type :=
  | Running
  | Exited (e : error)
  | Returned (r : res unit).
Definition command : Type := db → db * command_outcome.
Definition returned (x : db * option (res unit)) : db * command_outcome :=
  (x.1, match x.2 with Some r => Returned r | None => Running end).

(** [image.Registry]: pulling an image and unpacking it into a directory. *)
Record image_registry := mkRegistry {
  Pull : string → option error;
  Unpack : string → string → option error
}.
Inductive ContainerTool := NoneTool | PodmanTool | DockerTool | OtherTool.

Section commands.
Context `{GoRuntime}.
Variable decode_install : RawMessage → res install_strategy.
Variable decode_meta : string → res (string * string).
Variable decode_object : string → res k8s_object.
Variable odd_names : gset string → gset string → gset string → api_tables → res (list (gvk * string)).
Variable fuel : nat.
(** The temporary directory made for an image, and what is in a directory. *)
Variable TempDir : string → string + error.
Variable DirFS : string → bundle_fs.
(** Opening the database with the loader, and migrating it. *)
Variable Open : option error.
Variable migrate : db → db * res unit.
Variable NewRegistry : ContainerTool → res image_registry.

(** ** Adding *)
Definition unpackImage (reg : image_registry) (ref : string) : res (string * string) :=
  let workingDir := match TempDir ref with inl dir => dir | inr _ => "" end in
  _ ← NewAggregate ((match TempDir ref with inl _ => [] | inr e => [e] end) ++
                    option_list (Pull reg ref) ++ option_list (Unpack reg ref workingDir));
  Ok (ref, workingDir).
(** What the bundles of a package unpack to, as they are received: the image that
    overwrites for the bundle of its name, the stored image for the others. *)
Definition unpack_bundle (reg : image_registry) (img : registry_Bundle) (to from : string) (bundle : BundleKey) : res (string * string) :=
  if decide (bk_CsvName bundle ≠ rb_Name img) then unpackImage reg (bk_BundlePath bundle) else Ok (to, from).
Definition unpacked_maps : Type := gmap string string * gmap string (gmap string string).
Definition re_add (reg : image_registry) (img : registry_Bundle) (to from : string) (maps : unpacked_maps) (bundle : BundleKey) : res unpacked_maps :=
  tf ← unpack_bundle reg img to from bundle;
  Ok (delete tf.1 maps.1, <[rb_Package img := <[tf.1 := tf.2]> (default ∅ (maps.2 !! rb_Package img))]> maps.2).
(** One image given to the command; entries deleted meanwhile are not visited. *)
Definition find_overwrite (d : db) (reg : image_registry) (maps : unpacked_maps) (tf : string * string) : res unpacked_maps :=
  if decide (maps.1 !! tf.1 = None) then Ok maps
  else
    img ← NewImageInput DirFS tf.1 tf.2;
    match GetBundlePathIfExists d (rb_Name (ii_Bundle img)) with
    | Panic => Panic
    | Err e => if is_error e ErrBundleImageNotInDatabase then Ok maps else Err e
    | Ok overwritten =>
        if decide (overwritten = "") then Err (ErrNew "index add --overwrite-latest is only supported when using bundle images")
        else
          bundles ← GetBundlesForPackage d (rb_Package (ii_Bundle img));
          let pkg := rb_Package (ii_Bundle img) in
          foldR (re_add reg (ii_Bundle img) tf.1 tf.2) (maps.1, <[pkg := default ∅ (maps.2 !! pkg)]> maps.2) (range_set bundles)
    end.
Definition unpack_refs (reg : image_registry) (refs : list string) : res (gmap string string) :=
  foldR (λ m ref, tf ← unpackImage reg ref; Ok (<[tf.1 := tf.2]> m)) ∅ refs.
Definition populate (enableAlpha : bool) (reg : image_registry) (refs : list string) (mode : option Mode) (overwrite : bool) : PM unit :=
  unpackedImageMap ← pm_res (unpack_refs reg refs);
  maps ← pm_read (λ d, if overwrite then foldR (find_overwrite d reg) (unpackedImageMap, ∅) (range unpackedImageMap)
                       else Ok (unpackedImageMap, ∅));
  Populate enableAlpha decode_install decode_meta decode_object odd_names fuel DirFS maps.1 maps.2 overwrite mode.

Record AddToRegistryRequest := mkAddReq {
  ar_Permissive : bool;
  ar_Bundles : list string;
  ar_Mode : option Mode;
  ar_ContainerTool : ContainerTool;
  ar_Overwrite : bool;
  ar_EnableAlpha : bool
}.
(** Opening and migrating, and then the rest of a command. *)
Definition opened (wrap : error → error) (k : db → db * command_outcome) : command := λ d,
  match Open with
  | Some e => (d, Returned (Err e))
  | None => match migrate d with
            | (d', Ok _) => k d'
            | (d', Err e) => (d', Returned (Err (wrap e)))
            | (d', Panic) => (d', Returned Panic)
            end
  end.
(** For a tool that is none of the three there is no registry: the command panics
    when it pulls the first image, or when it destroys the registry. *)
Definition nil_registry (request : AddToRegistryRequest) (d : db) : db * command_outcome :=
  match ar_Bundles request with
  | _ :: _ => (d, Returned Panic)
  | [] => match returned (populate (ar_EnableAlpha request) (mkRegistry (λ _, None) (λ _ _, None)) [] (ar_Mode request) (ar_Overwrite request) d) with
          | (d', Returned _) => (d', Returned Panic)
          | x => x
          end
  end.
Definition AddToRegistry (request : AddToRegistryRequest) : command :=
  opened id (λ d,
    match ar_ContainerTool request with
    | OtherTool => nil_registry request d
    | tool =>
        match NewRegistry tool with
        | Err e => (d, Returned (Err e))
        | Panic => (d, Returned Panic)
        | Ok reg =>
            match returned (populate (ar_EnableAlpha request) reg (ar_Bundles request) (ar_Mode request) (ar_Overwrite request) d) with
            | (d', Returned (Err e)) => (d', Returned (if ar_Permissive request then Ok tt else Err e))
            | x => x
            end
        end
    end).

(** ** Deleting and pruning *)
(** The packages one by one; without [Permissive] the first failure exits. *)
Fixpoint remove_packages (permissive : bool) (packages : list string) (k : db → db * command_outcome) (d : db) : db * command_outcome :=
  match packages with
  | [] => k d
  | pkg :: packages' =>
      match PackageRemover_Remove pkg d with
      | (d', Ok _) => remove_packages permissive packages' k d'
      | (d', Err e) => if permissive then remove_packages permissive packages' k d'
                       else (d', Exited (Errorf "error deleting packages from database: %s" [AErr e]))
      | (d', Panic) => (d', Returned Panic)
      end
  end.
Definition remove_stranded (d : db) : db * command_outcome :=
  let '(d', r) := RemoveStrandedBundles d in
  (d', Returned (wrap_err (λ e, Errorf "error removing stranded packages from database: %s" [AErr e]) r)).
Definition DeleteFromRegistry (permissive : bool) (packages : list string) : command :=
  opened id (remove_packages permissive packages remove_stranded).
Definition PruneStrandedFromRegistry : command := opened id remove_stranded.
Definition PruneFromRegistry (permissive : bool) (keep : list string) : command :=
  opened id (λ d,
    match SQLQuerier_ListPackages d with
    | Err e => (d, Returned (Err e))
    | Panic => (d, Returned Panic)
    | Ok packages =>
        let pkgMap : gset string := list_to_set keep in
        remove_packages permissive (filter (λ pkg, pkg ∉ pkgMap) packages) (λ d, (d, Returned (Ok tt))) d
    end).

(** ** Deprecating *)
(** The paths of the index, the missing ones, and an error when there are any. *)
Definition checkForBundlePaths (d : db) (bundlePaths : list string) : list string * list string * res unit :=
  if decide (bundlePaths = []) then ([], [], Ok tt)
  else match SQLQuerier_ListBundles decode_meta odd_names d with
       | Panic => (bundlePaths, [], Panic)
       | Err e => (bundlePaths, [], Err e)
       | Ok [] => ([], bundlePaths, Ok tt)
       | Ok registryBundles =>
           let registryBundlePaths : gset string := list_to_set (ab_BundlePath <$> registryBundles) in
           let missing := filter (λ b, b ∉ registryBundlePaths) bundlePaths in
           (filter (λ b, b ∈ registryBundlePaths) bundlePaths, missing,
            if decide (missing = []) then Ok tt
            else Err (Errorf "target bundlepaths for deprecation missing from registry: %v" (AStr <$> missing)))
       end.
Definition deprecate_found (permissive : bool) (toDeprecate : list string) (d : db) : db * command_outcome :=
  match Deprecate toDeprecate d with
  | (d', Err e) => (d', Returned (if permissive then Ok tt else Err e))
  | (d', r) => (d', Returned r)
  end.
Definition DeprecateFromRegistry (permissive : bool) (bundles : list string) : command :=
  opened (λ e, Errorf "unable to migrate database: %s" [AErr e]) (λ d,
    match checkForBundlePaths d bundles with
    | (_, _, Panic) => (d, Returned Panic)
    | (_, _, Err e) as x => if permissive then deprecate_found permissive x.1.1 d else (d, Returned (Err e))
    | (toDeprecate, _, Ok _) => deprecate_found permissive toDeprecate d
    end).
End commands.
