(* ===== verification/CommandsSpec.v ===== *)
(** * What the registry commands do to an index

    Every command keeps the index consistent, pruning keeps exactly the packages
    it is told to keep, and overwriting by version does nothing. *)
From S2P Require Import Prelude Semver Json JsonCompact JsonStream Property JsonTotal Model ModelOps Declcfg DeclcfgConv DeclcfgRoundtrip DeclcfgWrite DeclcfgLoad RegistryTypes RegistryBundle RegistryBundleSpec Api Query Conversion Graph Sql SqlLoad SqlInv SqlGraph SqlAdd SqlAddInv SqlQuery BundleParse Populator PopulatorSpec DirLoad DirLoadSpec Commands SqlAddSpec.
From stdpp Require Import options.

(** ** Deleting a bundle leaves no reference to it *)
Section api_rows.
Context (lost : api_row → Prop) `{!∀ r, Decision (lost r)}.

Definition lefts (l : list (api_row + api_row)) : list api_row := omap (λ x, match x with inl r => Some r | inr _ => None end) l.
Definition rights (l : list (api_row + api_row)) : list api_row := omap (λ x, match x with inr r => Some r | inl _ => None end) l.
(** Every lost row of the tables is still to be deleted. *)
Definition pending (l : list (api_row + api_row)) (t : api_tables) : Prop :=
  filter lost (api_provider t) ⊆+ lefts l ∧ filter lost (api_requirer t) ⊆+ rights l.

Lemma remove_row_perm r l k : remove_row r l = Some k → l ≡ₚ r :: k.
Proof.
  revert k. induction l as [|x l IH]; intros k; simpl; [done|]. case_decide as E; [by intros [= <-]; subst|].
  intros (k' & Hk & ->)%fmap_Some. rewrite (IH k' Hk). apply Permutation_swap.
Qed.
Lemma remove_row_None r l : remove_row r l = None → r ∉ l.
Proof.
  induction l as [|x l IH]; simpl; [by intros _ ?%elem_of_nil|]. case_decide; [done|]. rewrite fmap_None. set_solver.
Qed.
(** One row less on both sides. *)
Lemma pending_row r l k :
  lost r → filter lost l ⊆+ r :: k → filter lost (match remove_row r l with Some l' => l' | None => l end) ⊆+ k.
Proof.
  intros Hr Hl. destruct (remove_row r l) as [l'|] eqn:E.
  - apply remove_row_perm in E. rewrite E, filter_cons_True in Hl by done. by apply (submseteq_app_inv_l _ _ [r]).
  - apply remove_row_None in E. apply submseteq_cons_r in Hl as [Hl|(l' & Hp & _)]; [done|].
    assert (r ∈ filter lost l) as [_ ?]%list_elem_of_filter by (rewrite Hp; left). done.
Qed.
Lemma filter_le (P Q : api_row → Prop) `{!∀ r, Decision (P r), !∀ r, Decision (Q r)} l : filter P (filter Q l) ⊆+ filter P l.
Proof.
  induction l as [|x l IH]; [done|]. rewrite (filter_cons Q). destruct (decide (Q x)); rewrite !(filter_cons P).
  - destruct (decide (P x)); [by apply submseteq_skip|done].
  - destruct (decide (P x)); [by apply submseteq_cons|done].
Qed.
Lemma pending_cleanup l t g : pending l t → pending l (api_cleanup t g).
Proof.
  intros [Hp Hr]. unfold api_cleanup. destruct (api_used t g); [done|]. split; simpl; (etrans; [apply filter_le|done]).
Qed.
Lemma pending_step x l t : lost (match x with inl r | inr r => r end) → pending (x :: l) t → pending l (delete_api_row t x).
Proof.
  intros Hx [Hp Hr]. destruct x as [r|r]; simpl in *.
  - pose proof (pending_row _ _ _ Hx Hp) as Hp'. destruct (remove_row r (api_provider t)); [apply pending_cleanup|]; by split.
  - pose proof (pending_row _ _ _ Hx Hr) as Hr'. destruct (remove_row r (api_requirer t)); [apply pending_cleanup|]; by split.
Qed.
Lemma pending_all l t :
  (∀ x, x ∈ l → lost (match x with inl r | inr r => r end)) → pending l t → pending [] (delete_api_rows t l).
Proof.
  unfold delete_api_rows. revert t. induction l as [|x l IH]; intros t Hl Ht; simpl; [done|].
  apply IH; [set_solver|]. apply pending_step; [|done]. apply Hl. left.
Qed.
End api_rows.

Lemma api_cleanup_sub t g r : r ∈ api_provider (api_cleanup t g) ++ api_requirer (api_cleanup t g) → r ∈ api_provider t ++ api_requirer t.
Proof.
  unfold api_cleanup. destruct (api_used t g); [done|]. simpl.
  rewrite !elem_of_app, !list_elem_of_filter. naive_solver.
Qed.
Lemma delete_api_rows_sub l t r :
  r ∈ api_provider (delete_api_rows t l) ++ api_requirer (delete_api_rows t l) → r ∈ api_provider t ++ api_requirer t.
Proof.
  unfold delete_api_rows. revert t. induction l as [|x l IH]; intros t; simpl; [done|]. intros Hr. specialize (IH _ Hr). clear Hr. revert IH.
  unfold delete_api_row. destruct x as [y|y].
  - destruct (remove_row y (api_provider t)) as [k|] eqn:E; [|done]. intros Hr%api_cleanup_sub. simpl in Hr.
    rewrite elem_of_app in *. destruct Hr; [left; by eapply remove_row_elem|by right].
  - destruct (remove_row y (api_requirer t)) as [k|] eqn:E; [|done]. intros Hr%api_cleanup_sub. simpl in Hr.
    rewrite elem_of_app in *. destruct Hr; [by left|right; by eapply remove_row_elem].
Qed.
Lemma lefts_app l k : lefts (l ++ k) = lefts l ++ lefts k.
Proof. apply omap_app. Qed.
Lemma rights_app l k : rights (l ++ k) = rights l ++ rights k.
Proof. apply omap_app. Qed.
Lemma lefts_rows l k : lefts ((inl <$> l) ++ (inr <$> k)) = l.
Proof.
  rewrite lefts_app. assert (lefts (inr <$> k) = []) as -> by (by induction k).
  rewrite app_nil_r. induction l as [|x l IH]; [done|]. cbn. f_equal. exact IH.
Qed.
Lemma rights_rows l k : rights ((inl <$> l) ++ (inr <$> k)) = k.
Proof.
  rewrite rights_app. assert (rights (inl <$> l) = []) as -> by (by induction l).
  simpl. induction k as [|x k IH]; [done|]. cbn. f_equal. exact IH.
Qed.

Section removing.
Context `{GoRuntime}.

(** The rows that reference a deleted bundle are deleted with it. *)
Lemma delete_bundles_apis P d : apis_resolved d → apis_resolved (delete_bundles P d).
Proof.
  unfold apis_resolved. rewrite !Forall_forall. intros Hd r Hr. unfold delete_bundles in *. simpl in *.
  set (gone := filter (λ nb, P nb.1 = true) (operatorbundle d)) in *.
  set (lost := λ r, refers_to gone (ar_bundle r) (ar_version r) (ar_path r) = true) in *.
  set (rows := any_order _) in *.
  assert (pending lost [] (delete_api_rows (apis d) rows)) as [Hp Hq].
  { apply pending_all.
    - intros x. unfold rows. rewrite any_order_perm, elem_of_app, !list_elem_of_fmap.
      intros [(y & -> & [? _]%list_elem_of_filter)|(y & -> & [? _]%list_elem_of_filter)]; done.
    - assert (rows ≡ₚ (inl <$> filter lost (api_provider (apis d))) ++ (inr <$> filter lost (api_requirer (apis d)))) as E
        by apply any_order_perm.
      split; [unfold lefts|unfold rights]; rewrite E.
      + change (omap _ ?l) with (lefts l). by rewrite lefts_rows.
      + change (omap _ ?l) with (rights l). by rewrite rights_rows. }
  apply submseteq_nil_r in Hp, Hq. assert (¬ lost r) as Hl.
  { intros Hl. apply elem_of_app in Hr as [Hr|Hr].
    - by apply (filter_nil_not_elem_of _ _ _ Hp Hl).
    - by apply (filter_nil_not_elem_of _ _ _ Hq Hl). }
  apply delete_api_rows_sub in Hr. specialize (Hd r Hr). clear Hr. clearbody rows.
  rewrite ref_ok_true in *. intros v p Hv Hpth. destruct (Hd v p Hv Hpth) as (b & Hb & ? & ?).
  exists b. split; [|done]. apply map_lookup_filter_Some. split; [done|]. simpl.
  destruct (P (ar_bundle r)) eqn:E; [|done]. destruct Hl. unfold lost, refers_to.
  assert (gone !! ar_bundle r = Some b) as -> by (by apply map_lookup_filter_Some).
  unfold ref_matches. rewrite Hv, Hpth. by apply bool_decide_eq_true.
Qed.

(** ** Removing a package *)
(** What is kept of the packages other than [p]: everything but bundles. *)
Record shrinks (p : string) (d d' : db) : Prop := {
  sh_packages : package d' ⊆ package d;
  sh_channels : channel d' ⊆ channel d;
  sh_entries : channel_entry d' ⊆ channel_entry d;
  sh_package : ∀ q, q ≠ p → package d' !! q = package d !! q;
  sh_channel : ∀ k, k.1 ≠ p → channel d' !! k = channel d !! k;
  sh_entry : ∀ i e, channel_entry d !! i = Some e → er_package e ≠ p → channel_entry d' !! i = Some e
}.
#[global] Instance shrinks_refl p : Reflexive (shrinks p).
Proof. by intros d. Qed.
#[global] Instance shrinks_trans p : Transitive (shrinks p).
Proof.
  intros d1 d2 d3 [P1 C1 E1 p1 c1 e1] [P2 C2 E2 p2 c2 e2]. split; [by etrans|by etrans|by etrans|..].
  - intros q Hq. by rewrite p2, p1.
  - intros k Hk. by rewrite c2, c1.
  - eauto.
Qed.

Lemma delete_channels_shrinks p Q d :
  (∀ k h, channel d !! k = Some h → Q k h = true → k.1 = p) → shrinks p d (delete_channels Q d).
Proof.
  intros HQ. split; simpl; [apply map_filter_subseteq..| | |].
  - intros q Hq. destruct (package d !! q) as [dc|] eqn:E; [|by apply map_lookup_filter_None; left].
    apply map_lookup_filter_Some. split; [done|]. simpl. destruct dc as [c|]; [|done]. simpl. apply bool_decide_eq_false.
    intros (h & Hh & Hq')%elem_gone. by apply HQ in Hq'.
  - intros k Hk. destruct (channel d !! k) as [h|] eqn:E; [|by apply map_lookup_filter_None; left].
    apply map_lookup_filter_Some. split; [done|]. simpl. destruct (Q k h) eqn:Eq; [|done]. by apply HQ in Eq.
  - intros i e He Hp. apply map_lookup_filter_Some. split; [done|]. simpl. intros (h & Hh & Hq)%elem_gone. by apply HQ in Hq.
Qed.
Lemma delete_bundles_shrinks p P d :
  (∀ k h, channel d !! k = Some h → P h = true → k.1 = p) → shrinks p d (delete_bundles P d).
Proof.
  intros HP. destruct (delete_channels_shrinks p (λ _ head, bool_decide (is_Some (filter (λ nb, P nb.1 = true) (operatorbundle d) !! head))) d)
    as [? ? ? ? ? ?]; [|by split].
  intros k h Hk Hs%bool_decide_eq_true. destruct Hs as [b [_ Hb]%map_lookup_filter_Some]. eauto.
Qed.
Lemma delete_entries_shrinks p P d :
  (∀ i e, channel_entry d !! i = Some e → P e = true → er_package e = p) → shrinks p d (delete_entries P d).
Proof.
  intros HP. split; simpl; [done|done|apply map_filter_subseteq|done|done|].
  intros i e He Hp. apply map_lookup_filter_Some. split; [done|]. simpl. destruct (P e) eqn:E; [|done]. by destruct Hp; eapply HP.
Qed.

(** An index whose packages do not share bundles: the head of a channel has an
    entry in it, a channel belongs to a package, an entry replaces an entry of its
    package, and the entries of a bundle are of one package. *)
Record healthy (d : db) : Prop := {
  he_ok : index_ok d;
  he_head : ∀ k h, channel d !! k = Some h → ∃ i e, channel_entry d !! i = Some e ∧ er_package e = k.1 ∧ er_bundle e = h;
  he_package : ∀ k h, channel d !! k = Some h → is_Some (package d !! k.1);
  he_replaces : ∀ i e r e', channel_entry d !! i = Some e → er_replaces e = Some r → channel_entry d !! r = Some e' → er_package e' = er_package e;
  he_own : ∀ i j e e', channel_entry d !! i = Some e → channel_entry d !! j = Some e' → er_bundle e = er_bundle e' → er_package e = er_package e'
}.
(** The bundles of a package, and nothing of another one among them. *)
Definition bundles_of (d : db) (p : string) : gset string :=
  map_fold (λ _ e s, if decide (er_package e = p) then {[er_bundle e]} ∪ s else s) ∅ (channel_entry d).
Lemma elem_of_bundles_of d p n : n ∈ bundles_of d p ↔ ∃ i e, channel_entry d !! i = Some e ∧ er_package e = p ∧ er_bundle e = n.
Proof.
  unfold bundles_of. apply (map_fold_weak_ind (λ s (m : gmap Z entry_row), n ∈ s ↔ ∃ i e, m !! i = Some e ∧ er_package e = p ∧ er_bundle e = n)).
  - split; [set_solver|]. intros (i & e & He & _). by rewrite lookup_empty in He.
  - intros i e m s Hi IH. case_decide as E.
    + rewrite elem_of_union, elem_of_singleton, IH. split.
      * intros [->|(j & e' & Hj & ?)]; [exists i, e; by simplify_map_eq|].
        exists j, e'. rewrite lookup_insert_ne by congruence. done.
      * intros (j & e' & [[<- <-]|[_ Hj]]%lookup_insert_Some & <- & <-); [by left|right; eauto].
    + rewrite IH. split.
      * intros (j & e' & Hj & ?). exists j, e'. rewrite lookup_insert_ne by congruence. done.
      * intros (j & e' & [[<- <-]|[_ Hj]]%lookup_insert_Some & ? & ?); [done|eauto].
Qed.
Definition own_names (p : string) (names : list string) (d : db) : Prop :=
  (∀ k h, channel d !! k = Some h → h ∈ names → k.1 = p) ∧
  (∀ i e, channel_entry d !! i = Some e → er_bundle e ∈ names → er_package e = p).
Lemma own_names_shrinks p names d d' : shrinks p d d' → own_names p names d → own_names p names d'.
Proof. intros Hs [H1 H2]. split; intros; [eapply H1|eapply H2]; (eassumption || by eapply lookup_weaken; [eassumption|apply Hs]). Qed.

Lemma rmBundle_shrinks p n names d :
  own_names p names d → n ∈ names → apis_resolved d →
  ∃ d', rmBundle n d = (d', Ok tt) ∧ shrinks p d d' ∧ apis_resolved d' ∧
    (∀ i e, channel_entry d' !! i = Some e → er_bundle e ≠ n) ∧
    operatorbundle d' = filter (λ nb, nb.1 ≠ n) (operatorbundle d).
Proof.
  intros [Hc He] Hn Ha. eexists. split; [reflexivity|]. simpl.
  set (d1 := delete_bundles _ d).
  assert (shrinks p d d1) as Hs. { apply delete_bundles_shrinks. intros k h Hk ->%bool_decide_eq_true. eauto. }
  split_and!.
  - transitivity d1; [done|]. destruct (delete_entries_shrinks p (λ e, bool_decide (er_bundle e = n)) d1) as [? ? ? ? ? ?]; [|by split].
    intros i e Hi Hb%bool_decide_eq_true. eapply He; [eapply lookup_weaken; [exact Hi|apply Hs]|]. by rewrite Hb.
  - assert (apis_resolved d1) as H1 by by apply delete_bundles_apis.
    unfold apis_resolved in *. simpl. rewrite Forall_forall in *. intros r Hr. apply H1.
    apply delete_api_rows_sub in Hr. simpl in Hr. by apply delete_api_rows_sub in Hr.
  - intros i e [_ Hb]%map_lookup_filter_Some. simpl in Hb. by apply bool_decide_eq_false in Hb.
  - simpl. apply map_filter_ext. intros m row _. simpl. rewrite bool_decide_eq_false. done.
Qed.
Lemma rmBundles_shrinks p names l d :
  own_names p names d → (∀ n, n ∈ l → n ∈ names) → apis_resolved d →
  ∃ d', tx_each rmBundle l d = (d', Ok tt) ∧ shrinks p d d' ∧ apis_resolved d' ∧
    (∀ i e, channel_entry d' !! i = Some e → er_bundle e ∉ l) ∧
    operatorbundle d' = filter (λ nb, nb.1 ∉ l) (operatorbundle d).
Proof.
  revert d. induction l as [|n l IH]; intros d Ho Hl Ha.
  - exists d. split_and!; [done|reflexivity|done|by intros ? ? _ ?%elem_of_nil|].
    symmetry. apply map_filter_id. intros m row _. by intros ?%elem_of_nil.
  - destruct (rmBundle_shrinks p n names d Ho) as (d1 & E1 & Hs1 & Ha1 & He1 & Hb1); [apply Hl; left|done|].
    destruct (IH d1) as (d2 & E2 & Hs2 & Ha2 & He2 & Hb2); [by eapply own_names_shrinks|set_solver|done|].
    exists d2. split_and!; [|by etrans|done| |].
    + cbn [tx_each]. unfold mbind, TX_bind. by rewrite E1.
    + intros i e Hi [Hn|Hn]%elem_of_cons; [|by eapply He2]. eapply He1; [eapply lookup_weaken; [exact Hi|apply Hs2]|done].
    + rewrite Hb2, Hb1, map_filter_filter. apply map_filter_ext. intros m row _. simpl. set_solver.
Qed.

(** The index without the package [p]. *)
Record removed (p : string) (d d' : db) : Prop := {
  rm_shrinks : shrinks p d d';
  rm_package : package d' !! p = None;
  rm_channel : ∀ k h, channel d' !! k = Some h → k.1 ≠ p;
  rm_entry : ∀ i e, channel_entry d' !! i = Some e → er_package e ≠ p;
  rm_bundle : ∀ n row, operatorbundle d' !! n = Some row ↔
    operatorbundle d !! n = Some row ∧ ∃ i e, channel_entry d' !! i = Some e ∧ er_bundle e = n
}.
Lemma shrinks_resolved p d d' :
  healthy d → shrinks p d d' → (∀ i e, channel_entry d' !! i = Some e → er_package e ≠ p) → entries_resolved d'.
Proof.
  intros Hd Hs Hn i e Hi. assert (channel_entry d !! i = Some e) as Hi' by (eapply lookup_weaken; [exact Hi|apply Hs]).
  destruct (er_replaces e) as [r|] eqn:Er; [|done].
  pose proof (proj1 (proj2 (he_ok d Hd)) i e Hi') as Hr. simpl in Hr. rewrite Er in Hr. destruct Hr as [e' He'].
  exists e'. apply (sh_entry p d d'); [done|done|]. rewrite (he_replaces d Hd i e r e') by done. by eapply Hn.
Qed.
(** The tables of channels and packages after the deletions of the first transaction. *)
Lemma drop_package_shrinks p d :
  shrinks p d (delete_channels (λ k _, bool_decide (k.1 = p)) (delete_package p d)).
Proof.
  transitivity (delete_package p d).
  - split; simpl; [apply delete_subseteq|done|done| |done|done]. intros q Hq. by rewrite lookup_delete_ne.
  - apply delete_channels_shrinks. intros k h _. apply bool_decide_eq_true_1.
Qed.
Lemma elem_of_used (m : gmap Z entry_row) n :
  n ∈ (map_fold (λ _ e s, {[er_bundle e]} ∪ s) ∅ m : gset string) ↔ ∃ i e, m !! i = Some e ∧ er_bundle e = n.
Proof.
  apply (map_fold_weak_ind (λ s (m : gmap Z entry_row), n ∈ s ↔ ∃ i e, m !! i = Some e ∧ er_bundle e = n)).
  - split; [set_solver|]. intros (i & e & He & _). by rewrite lookup_empty in He.
  - intros i e m' s Hi IH. rewrite elem_of_union, elem_of_singleton, IH. split.
    + intros [->|(j & e' & Hj & ?)]; [exists i, e; by simplify_map_eq|]. exists j, e'. rewrite lookup_insert_ne by congruence. done.
    + intros (j & e' & [[<- <-]|[_ Hj]]%lookup_insert_Some & <-); [by left|right; eauto].
Qed.
(** The last deletion, of the bundles without an entry. *)
Lemma stranded_removed p d d1 :
  healthy d → shrinks p d d1 → package d1 !! p = None → (∀ k h, channel d1 !! k = Some h → k.1 ≠ p) →
  (∀ i e, channel_entry d1 !! i = Some e → er_package e ≠ p) → apis_resolved d1 →
  operatorbundle d1 = filter (λ nb, nb.1 ∉ bundles_of d p) (operatorbundle d) →
  ∃ d', RemoveStrandedBundles d1 = (d', Ok tt) ∧ removed p d d'.
Proof.
  intros Hd Hs Hp Hc He Ha Hb. unfold RemoveStrandedBundles, transaction, rmStrandedBundles, statement.
  set (used := map_fold _ _ (channel_entry d1)). set (d2 := delete_bundles _ d1).
  assert (shrinks p d1 d2) as Hs2.
  { apply delete_bundles_shrinks. intros k h Hk Hu%bool_decide_eq_true. destruct Hu. apply elem_of_used.
    specialize (Hc k h Hk). destruct (he_head d Hd k h) as (i & e & Hi & Hpk & Hbn); [eapply lookup_weaken; [exact Hk|apply Hs]|].
    exists i, e. split; [|done]. apply (sh_entry p d d1); [done|done|]. by rewrite Hpk. }
  assert (shrinks p d d2) as Hs' by (by etrans). assert (channel_entry d2 = channel_entry d1) as Ee.
  { apply map_eq. intros i. apply option_eq. intros e. split; [intros; eapply lookup_weaken; [done|apply Hs2]|].
    intros Hi. apply (sh_entry p d1 d2); [done|done|]. by eapply He. }
  exists d2. rewrite decide_True.
  - split; [done|]. split; [done|..].
    + apply eq_None_not_Some. intros [x Hx]. eapply lookup_weaken in Hx; [|apply Hs2]. by rewrite Hp in Hx.
    + intros k h Hk. eapply Hc, lookup_weaken; [exact Hk|apply Hs2].
    + rewrite Ee. apply He.
    + intros n row. rewrite Ee. unfold d2. simpl. rewrite map_lookup_filter_Some, Hb, map_lookup_filter_Some. simpl.
      rewrite bool_decide_eq_false. split.
      * intros [[Hr _] Hu]. split; [done|]. apply elem_of_used. by apply dec_stable.
      * intros [Hr (i & e & Hi & Hn)]. split; [|intros Hu; destruct Hu; apply elem_of_used; eauto]. split; [done|].
        intros (j & e' & Hj & Hpk & Hbn)%elem_of_bundles_of. apply (He i e Hi).
        rewrite <- Hpk. eapply (he_own d Hd i j); [eapply lookup_weaken; [exact Hi|apply Hs]|done|congruence].
  - split; [|by apply delete_bundles_apis]. eapply shrinks_resolved; [done..|]. rewrite Ee. apply He.
Qed.
(** Removing a package from a healthy index succeeds, and removes exactly it. *)
Lemma RemovePackage_removed p d : healthy d → ∃ d', RemovePackage p d = (d', Ok tt) ∧ removed p d d'.
Proof.
  intros Hd. unfold RemovePackage, transaction, getCSVNames, select. set (names := range_set (bundles_of d p)).
  assert (∀ n, n ∈ names ↔ n ∈ bundles_of d p) as Hnames by (intros n; unfold names; by rewrite range_set_perm, elem_of_elements).
  assert (own_names p names d) as Ho.
  { split.
    - intros k h Hk (i & e & Hi & Hp & Hb)%Hnames%elem_of_bundles_of.
      destruct (he_head d Hd k h Hk) as (j & e' & Hj & Hp' & Hb'). rewrite <- Hp', <- Hp. eapply (he_own d Hd j i); [done..|congruence].
    - intros i e Hi (j & e' & Hj & Hp & Hb)%Hnames%elem_of_bundles_of. rewrite <- Hp. eapply (he_own d Hd i j); [done..|congruence]. }
  destruct (rmBundles_shrinks p names names d Ho) as (d1 & E1 & Hs1 & Ha1 & He1 & Hb1); [done|apply (he_ok d Hd)|].
  set (d2 := delete_channels (λ k _, bool_decide (k.1 = p)) (delete_package p d1)).
  assert (shrinks p d d2) as Hs2 by (etrans; [exact Hs1|apply drop_package_shrinks]).
  assert (∀ i e, channel_entry d2 !! i = Some e → er_package e ≠ p) as He2.
  { intros i e [Hi _]%map_lookup_filter_Some Hp. simpl in Hi. apply (He1 i e Hi). apply Hnames, elem_of_bundles_of.
    exists i, e. split; [|done]. eapply lookup_weaken; [exact Hi|apply Hs1]. }
  destruct (stranded_removed p d d2) as (d' & E' & Hr); [done|done| | |done| |..|].
  - apply map_lookup_filter_None. left. simpl. apply lookup_delete_eq.
  - intros k h [_ Hk]%map_lookup_filter_Some. simpl in Hk. by apply bool_decide_eq_false in Hk.
  - exact Ha1.
  - simpl. rewrite Hb1. apply map_filter_ext. intros n row _. simpl. by rewrite Hnames.
  - exists d'. split; [|done]. unfold mbind at 1, TX_bind at 1. unfold mbind, TX_bind. fold names.
    change (range_set (map_fold _ ∅ (channel_entry d))) with names. rewrite E1. simpl. fold d2.
    rewrite decide_True; [done|]. split; [by eapply shrinks_resolved|done].
Qed.

Lemma healthy_removed p d d' : healthy d → removed p d d' → index_ok d' → healthy d'.
Proof.
  intros [Hok Hh Hpk Hr Ho] [Hs Hp Hc He Hb] Hok'.
  assert (∀ i e, channel_entry d' !! i = Some e → channel_entry d !! i = Some e) as Hw
    by (intros; eapply lookup_weaken; [done|apply Hs]).
  assert (∀ k h, channel d' !! k = Some h → channel d !! k = Some h) as Hw'
    by (intros; eapply lookup_weaken; [done|apply Hs]).
  split; [done| | |eauto|eauto].
  - intros k h Hk. destruct (Hh k h) as (i & e & Hi & Hpe & Hbe); [eauto|]. exists i, e. split; [|done].
    apply (sh_entry p d d'); [done|done|]. rewrite Hpe. eauto.
  - intros k h Hk. rewrite (sh_package p d d'); eauto.
Qed.

(** What remains of an index without some of its packages. *)
Record without (l : list string) (d d' : db) : Prop := {
  wo_package : package d' = filter (λ pd, pd.1 ∉ l) (package d);
  wo_channel : channel d' = filter (λ kh, kh.1.1 ∉ l) (channel d);
  wo_entry : channel_entry d' = filter (λ ie, er_package ie.2 ∉ l) (channel_entry d);
  wo_bundle : ∀ n i e, channel_entry d' !! i = Some e → er_bundle e = n → operatorbundle d' !! n = operatorbundle d !! n
}.
Lemma without_nil d : without [] d d.
Proof. split; [symmetry; apply map_filter_id; intros; by intros ?%elem_of_nil..|done]. Qed.
Lemma removed_without p d d' : removed p d d' → without [p] d d'.
Proof.
  intros [Hs Hp Hc He Hb]. split.
  - apply map_eq. intros q. apply option_eq. intros x. rewrite map_lookup_filter_Some. simpl. rewrite list_elem_of_singleton.
    destruct (decide (q = p)) as [->|Hq]; [rewrite Hp; naive_solver|]. rewrite (sh_package p d d') by done. naive_solver.
  - apply map_eq. intros k. apply option_eq. intros x. rewrite map_lookup_filter_Some. simpl. rewrite list_elem_of_singleton.
    destruct (decide (k.1 = p)) as [Hk|Hk]; [split; [by intros ?%Hc|naive_solver]|]. rewrite (sh_channel p d d') by done. naive_solver.
  - apply map_eq. intros i. apply option_eq. intros x. rewrite map_lookup_filter_Some. simpl. rewrite list_elem_of_singleton. split.
    + intros Hi. split; [eapply lookup_weaken; [done|apply Hs]|eauto].
    + intros [Hi Hx]. by apply (sh_entry p d d').
  - intros n i e Hi Hn. apply option_eq. intros row. rewrite Hb. naive_solver.
Qed.
Lemma without_cons p l d d1 d2 : without [p] d d1 → without l d1 d2 → without (p :: l) d d2.
Proof.
  intros [Hp1 Hc1 He1 Hb1] [Hp2 Hc2 He2 Hb2]. split.
  - rewrite Hp2, Hp1, map_filter_filter. apply map_filter_ext. intros; simpl. set_solver.
  - rewrite Hc2, Hc1, map_filter_filter. apply map_filter_ext. intros; simpl. set_solver.
  - rewrite He2, He1, map_filter_filter. apply map_filter_ext. intros; simpl. set_solver.
  - intros n i e Hi Hn. rewrite (Hb2 n i e) by done. apply (Hb1 n i e); [|done]. rewrite He2 in Hi.
    by apply map_lookup_filter_Some in Hi as [? _].
Qed.

Lemma sanitize_one p : p ≠ "" → str_free ","%char p → sanitizePackageList (Split ","%char p) = [p].
Proof. intros Hp Hf. rewrite Split_free by done. unfold sanitizePackageList. simpl. rewrite decide_False by set_solver. done. Qed.
Lemma remove_all permissive l k d :
  healthy d → (∀ p, p ∈ l → p ≠ "" ∧ str_free ","%char p) →
  ∃ d', remove_packages permissive l k d = k d' ∧ healthy d' ∧ without l d d'.
Proof.
  revert d. induction l as [|p l IH]; intros d Hd Hl; [exists d; auto using without_nil|].
  destruct (RemovePackage_removed p d Hd) as (d1 & E & Hr). destruct (Hl p) as [Hp Hf]; [left|].
  assert (healthy d1) as Hd1.
  { apply (healthy_removed p d); [done..|]. pose proof (index_RemovePackage p d (he_ok d Hd)) as Hi. by rewrite E in Hi. }
  destruct (IH d1 Hd1) as (d2 & E2 & Hd2 & Hw); [intros; apply Hl; by right|]. exists d2. split_and!; [|done|].
  - rewrite <- E2. cbn [remove_packages]. unfold PackageRemover_Remove. rewrite (sanitize_one p Hp Hf).
    cbn [tx_fold]. unfold mbind, TX_bind, tx_try. by rewrite E.
  - eapply without_cons; [by apply removed_without|done].
Qed.

Section prune.
Variable Open : option error.
Variable migrate : db → db * res unit.

(** C19. Pruning keeps exactly the packages it is given.  On an index whose packages
    do not share bundles (and have names the remover can take apart), pruning
    succeeds, in both modes, and leaves the packages to keep with their default
    channels, all their channels with their heads, all their entries and the
    bundles of these, as they were, and of every other package nothing. *)
Theorem PruneFromRegistry_spec permissive keep d d0 :
  Open = None → migrate d = (d0, Ok tt) → healthy d0 →
  (∀ p, is_Some (package d0 !! p) → p ≠ "" ∧ str_free ","%char p) →
  ∃ d', PruneFromRegistry Open migrate permissive keep d = (d', Returned (Ok tt)) ∧ index_ok d' ∧
    package d' = filter (λ pd, pd.1 ∈ keep) (package d0) ∧
    channel d' = filter (λ kh, kh.1.1 ∈ keep) (channel d0) ∧
    channel_entry d' = filter (λ ie, er_package ie.2 ∈ keep) (channel_entry d0) ∧
    ∀ i e, channel_entry d' !! i = Some e → operatorbundle d' !! er_bundle e = operatorbundle d0 !! er_bundle e.
Proof.
  intros HO Hm Hd Hn. unfold PruneFromRegistry, opened. rewrite HO, Hm. unfold SQLQuerier_ListPackages.
  set (l := filter _ _). assert (∀ p, p ∈ l ↔ is_Some (package d0 !! p) ∧ p ∉ keep) as Hl.
  { intros p. unfold l. rewrite list_elem_of_filter, elem_of_list_to_set, list_elem_of_fmap. split.
    - intros [? ([q x] & -> & ?%range_elem)]. split; [by eexists|done].
    - intros [[x Hx] ?]. split; [done|]. exists (p, x). by rewrite range_elem. }
  destruct (remove_all permissive l (λ d, (d, Returned (Ok tt))) d0 Hd) as (d' & E & Hd' & [Hp Hc He Hb]).
  { intros p [? _]%Hl. auto. }
  assert (∀ p, is_Some (package d0 !! p) → p ∉ l ↔ p ∈ keep) as Hk.
  { intros p Hs. rewrite Hl. destruct (decide (p ∈ keep)); naive_solver. }
  exists d'. split_and!; [done|apply Hd'|..].
  - rewrite Hp. apply map_filter_ext. intros p x Hx. apply Hk. by eexists.
  - rewrite Hc. apply map_filter_ext. intros k x Hx. apply Hk. by eapply he_package.
  - rewrite He. apply map_filter_ext. intros i x Hx. apply Hk.
    destruct (fk_entry d0 (proj1 (he_ok d0 Hd)) i x Hx) as [h Hh]. by eapply (he_package d0 Hd (er_package x, er_channel x)).
  - intros i e Hi. by eapply Hb.
Qed.
End prune.
End removing.

(** ** All commands *)
Section consistent.
Context `{GoRuntime}.
Variable decode_install : RawMessage → res install_strategy.
Variable decode_meta : string → res (string * string).
Variable decode_object : string → res k8s_object.
Variable odd_names : gset string → gset string → gset string → api_tables → res (list (gvk * string)).
Variable fuel : nat.
Variable TempDir : string → string + error.
Variable DirFS : string → bundle_fs.
Variable Open : option error.
Variable migrate : db → db * res unit.
Variable NewRegistry : ContainerTool → res image_registry.

Inductive registry_command : Type :=
  | AddCommand (request : AddToRegistryRequest)
  | DeleteCommand (permissive : bool) (packages : list string)
  | PruneStrandedCommand
  | PruneCommand (permissive : bool) (keep : list string)
  | DeprecateCommand (permissive : bool) (bundles : list string)
  | LoadDirectory (enableAlpha : bool) (dir : string) (files : res (list tree)) (directory : string) (t : tree)
  | LoadConfigMap (enableAlpha : bool) (YAMLToJSON : string → string + error) (unmarshal_crds : string → list listed_crd + error)
      (unmarshal_csvs : string → list listed_csv + error) (unmarshal_manifests : string → list PackageManifest + error)
      (data : gmap string string) (crds : crd_map).
Definition run_command (c : registry_command) : command :=
  match c with
  | AddCommand request => AddToRegistry decode_install decode_meta decode_object odd_names fuel TempDir DirFS Open migrate NewRegistry request
  | DeleteCommand permissive packages => DeleteFromRegistry Open migrate permissive packages
  | PruneStrandedCommand => PruneStrandedFromRegistry Open migrate
  | PruneCommand permissive keep => PruneFromRegistry Open migrate permissive keep
  | DeprecateCommand permissive bundles => DeprecateFromRegistry decode_meta odd_names Open migrate permissive bundles
  | LoadDirectory enableAlpha dir files directory t => λ d, returned (DirectoryLoader_Populate enableAlpha decode_install fuel dir files directory t d)
  | LoadConfigMap enableAlpha YAMLToJSON unmarshal_crds unmarshal_csvs unmarshal_manifests data crds => λ d,
      returned ((ConfigMapLoader_Populate enableAlpha decode_install fuel YAMLToJSON unmarshal_crds unmarshal_csvs unmarshal_manifests data crds).2 d)
  end.
Definition run_commands (cs : list registry_command) (d : db) : db := foldl (λ d c, (run_command c d).1) d cs.

Definition cpreserves (k : command) : Prop := ∀ d, index_ok d → index_ok (k d).1.
Lemma cpreserves_opened wrap k :
  (∀ d, index_ok d → index_ok (migrate d).1) → cpreserves k → cpreserves (opened Open migrate wrap k).
Proof.
  intros Hm Hk d Hd. unfold opened. destruct Open; [done|]. specialize (Hm d Hd). destruct (migrate d) as [d' [[]| |]]; [by apply Hk|done..].
Qed.
Lemma cpreserves_returned (m : PM unit) : ppreserves index_ok m → cpreserves (λ d, returned (m d)).
Proof. intros Hm d Hd. by apply (Hm d). Qed.
Lemma cpreserves_stranded : cpreserves remove_stranded.
Proof.
  intros d Hd. unfold remove_stranded. pose proof (keeps_transaction _ keeps_rmStrandedBundles d Hd) as Hi.
  fold RemoveStrandedBundles in Hi. by destruct (RemoveStrandedBundles d).
Qed.
Lemma cpreserves_remove permissive l k : cpreserves k → cpreserves (remove_packages permissive l k).
Proof.
  intros Hk. induction l as [|p l IH]; intros d Hd; simpl; [by apply Hk|]. pose proof (index_PackageRemover p d Hd) as Hi.
  destruct (PackageRemover_Remove p d) as [d' [[]| |]]; [by apply IH| |done]. destruct permissive; [by apply IH|done].
Qed.
Lemma cpreserves_deprecate permissive l : cpreserves (deprecate_found permissive l).
Proof.
  intros d Hd. unfold deprecate_found. pose proof (index_Deprecate l d Hd) as Hi. by destruct (Deprecate l d) as [d' [[]| |]].
Qed.
Lemma index_populate enableAlpha reg refs mode overwrite :
  ppreserves index_ok (populate decode_install decode_meta decode_object odd_names fuel TempDir DirFS enableAlpha reg refs mode overwrite).
Proof. unfold populate. do 2 (apply pkeeps_bind; [first [apply pkeeps_res|apply pkeeps_read]|intros]). apply index_Populate. Qed.


(** ** Overwriting by version *)
Lemma re_add_gone reg img to from l maps maps' :
  foldR (re_add TempDir reg img to from) maps l = Ok maps' →
  maps'.1 ⊆ maps.1 ∧ ((∃ k, k ∈ l ∧ bk_CsvName k = rb_Name img) → maps'.1 !! to = None).
Proof.
  revert maps. induction l as [|k l IH]; intros maps; simpl.
  - intros [= <-]. split; [done|]. by intros (k & ?%elem_of_nil & _).
  - intros Hf. inv_ok. unfold re_add in *. inv_ok. subst. simpl in *.
    edestruct IH as [Hs Hn]; [eassumption|]. simpl in *. split.
    + etrans; [exact Hs|apply delete_subseteq].
    + intros (k' & [->|Hk]%elem_of_cons & Hname); [|by apply Hn; eauto].
      unfold unpack_bundle in *. rewrite decide_False in * by (by intros ?). inv_ok. subst. simpl in *.
      apply (lookup_weaken_None _ _ _ (lookup_delete_eq _ _) Hs).
Qed.
Lemma range_singleton (k v : string) : range {[k := v]} = [(k, v)].
Proof. apply Permutation_singleton_r. by rewrite range_perm, map_to_list_singleton. Qed.
Lemma range_nothing : range (∅ : gmap string string) = [].
Proof. apply Permutation_nil_r. by rewrite range_perm, map_to_list_empty. Qed.
(** Without images that were not set aside, only the clean-up is left. *)
Lemma Populate_nothing enableAlpha overwriteDirMap (skippatch : bool) d :
  let d' := (Populate enableAlpha decode_install decode_meta decode_object odd_names fuel DirFS ∅ overwriteDirMap true
               (Some (if skippatch then SkipPatchMode else SemVerMode)) d).1 in
  d' = d ∨ d' = (ClearNonHeadBundles d).1.
Proof.
  unfold Populate. rewrite range_nothing. unfold mbind, PM_bind, pm_res. cbn [read_images].
  destruct (read_images DirFS _) as [[add errs]| |]; [|by left..]. cbn [snd fst app].
  destruct (NewAggregate errs) as [[]| |]; [|by left..].
  right. unfold loadManifests, globalSanityCheck, pm_read, mbind, PM_bind. cbn [check_images NewAggregate].
  destruct skippatch; cbn [pm_fold]; unfold mret, PM_ret, clear_old_bundles, pm_wrap, pm_tx; by destruct (ClearNonHeadBundles d).
Qed.
Lemma find_overwrite_empty reg ref dir d img path bundles maps :
  NewImageInput DirFS ref dir = Ok img → GetBundlePathIfExists d (rb_Name (ii_Bundle img)) = Ok path →
  GetBundlesForPackage d (rb_Package (ii_Bundle img)) = Ok bundles →
  (∃ k, k ∈ bundles ∧ bk_CsvName k = rb_Name (ii_Bundle img)) →
  find_overwrite TempDir DirFS d reg ({[ref := dir]}, ∅) (ref, dir) = Ok maps → maps.1 = ∅.
Proof.
  intros Hi Hp Hb (k & Hk & Hn). unfold find_overwrite. cbn [fst snd]. rewrite lookup_singleton_eq. rewrite decide_False by done.
  rewrite Hi. cbn. rewrite Hp. case_decide; [done|]. rewrite Hb. cbn. intros Hf. apply re_add_gone in Hf as [Hs Hg]. cbn in Hs.
  apply map_empty. intros key. destruct (decide (key = ref)) as [->|Hne].
  - apply Hg. exists k. split; [|done]. by rewrite range_set_perm, elem_of_elements.
  - apply (lookup_weaken_None _ _ _ (lookup_singleton_ne _ _ _ (not_eq_sym Hne)) Hs).
Qed.

(** Overwriting in the modes that order bundles by version does nothing: an
    image whose CSV is in the index is set aside to be added again, and these
    modes add only what was not set aside.  Only old bundles are cleared, and the
    command reports no error for it. *)
Theorem overwrite_by_version_ignored reg ref d img path bundles skippatch enableAlpha :
  (∀ dir, unpackImage TempDir reg ref = Ok (ref, dir) → NewImageInput DirFS ref dir = Ok img) →
  GetBundlePathIfExists d (rb_Name (ii_Bundle img)) = Ok path →
  GetBundlesForPackage d (rb_Package (ii_Bundle img)) = Ok bundles →
  (∃ k, k ∈ bundles ∧ bk_CsvName k = rb_Name (ii_Bundle img)) →
  let d' := (populate decode_install decode_meta decode_object odd_names fuel TempDir DirFS enableAlpha reg [ref]
               (Some (if skippatch : bool then SkipPatchMode else SemVerMode)) true d).1 in
  d' = d ∨ d' = (ClearNonHeadBundles d).1.
Proof.
  intros Hi Hp Hb Hk. unfold populate, unpack_refs. cbn [foldR].
  destruct (unpackImage TempDir reg ref) as [[to dir]| |] eqn:Eu; [|by left..].
  assert (to = ref) as ->. { unfold unpackImage in Eu. by inv_ok; simplify_eq. }
  specialize (Hi dir eq_refl). cbn. rewrite insert_empty. unfold mbind, PM_bind, pm_res, pm_read.
  rewrite range_singleton. cbn [foldR].
  destruct (find_overwrite TempDir DirFS d reg ({[ref := dir]}, ∅) (ref, dir)) as [maps| |] eqn:Ef; [|by left..].
  cbn. rewrite (find_overwrite_empty reg ref dir d img path bundles maps) by done. apply Populate_nothing.
Qed.
End consistent.

(** ** Examples *)
Definition ex_two : db := mkDB
  {[ "p.v1" := ex_row "img:p" ""; "q.v1" := ex_row "img:q" "" ]}
  {[ "p" := Some "stable"; "q" := Some "stable" ]}
  {[ ("p", "stable") := "p.v1"; ("q", "stable") := "q.v1" ]}
  {[ 1%Z := mkEntryRow "stable" "p" "p.v1" None 0; 2%Z := mkEntryRow "stable" "q" "q.v1" None 0 ]} [] ∅ [] [] empty_apis.
Ltac inv_lookup :=
  repeat match goal with
  | H : <[_ := _]> _ !! _ = Some _ |- _ => apply lookup_insert_Some in H as [[? ?]|[? H]]
  | H : {[_ := _]} !! _ = Some _ |- _ => apply lookup_singleton_Some in H as [? ?]
  end.
Lemma ex_two_healthy : healthy ex_two.
Proof.
  split.
  - apply (bool_decide_unpack _). vm_compute. exact I.
  - intros k h Hk. cbn in Hk. inv_lookup; subst; [exists 1%Z|exists 2%Z]; eexists; (split; [reflexivity|done]).
  - intros k h Hk. cbn in Hk. inv_lookup; subst; by eexists.
  - intros i e r e' Hi Hr Hj. cbn in Hi. inv_lookup; by subst.
  - intros i j e e' Hi Hj Hb. cbn in Hi, Hj. inv_lookup; subst; cbn in *; congruence.
Qed.
Definition ex_migrate : db → db * res unit := λ d, (d, Ok tt).
Lemma PruneFromRegistry_spec_witness :
  ∃ d', PruneFromRegistry (H := go_default) None ex_migrate false ["q"; "r"] ex_two = (d', Returned (Ok tt)) ∧ dom (package d') = {["q"]}.
Proof.
  destruct (PruneFromRegistry_spec (H := go_default) None ex_migrate false ["q"; "r"] ex_two ex_two) as (d' & E & _ & Hp & _).
  - reflexivity.
  - reflexivity.
  - exact ex_two_healthy.
  - intros p [x Hx]. cbn in Hx. inv_lookup; subst; done.
  - exists d'. split; [exact E|]. rewrite Hp. vm_compute. reflexivity.
Defined.
Definition ex_registry : image_registry := mkRegistry (λ _, None) (λ _ _, None).
Definition ex_run (cs : list registry_command) (d : db) : db :=
  run_commands (H := go_default) ex_install (λ s, Ok ("", s)) (λ _, Err json_error) (λ _ _ _ _, Ok []) 0 (λ _, inl "bundle") ex_dirs None ex_migrate
    (λ _, Ok ex_registry) cs d.
Definition ex_add_command (ref : string) : registry_command := AddCommand (mkAddReq false [ref] (Some ReplacesMode) NoneTool false false).
(** Image 3 has the CSV of image 2, which is in the index; in semver mode it is
    not added, and there is no error. *)
Definition ex_filled : db := ex_run [ex_add_command "quay.io/foo:2"] empty_db.
Lemma ex_image : ∃ img, NewImageInput (H := go_default) ex_dirs "quay.io/foo:3" "bundle" = Ok img ∧
  rb_Name (ii_Bundle img) = "foo.v0.2.0" ∧ rb_Package (ii_Bundle img) = "foo".
Proof.
  assert (match NewImageInput (H := go_default) ex_dirs "quay.io/foo:3" "bundle" with
          | Ok img => bool_decide (rb_Name (ii_Bundle img) = "foo.v0.2.0" ∧ rb_Package (ii_Bundle img) = "foo") | _ => false end = true) as E by (vm_compute; reflexivity).
  destruct (NewImageInput ex_dirs "quay.io/foo:3" "bundle") as [img| |]; [|discriminate E..]. exists img. split; [done|]. by apply bool_decide_eq_true_1 in E.
Qed.
Lemma ex_bundles : ∃ bundles, GetBundlesForPackage (H := go_default) ex_filled "foo" = Ok bundles ∧ mkKey "quay.io/foo:2" "0.2.0" "foo.v0.2.0" ∈ bundles.
Proof.
  assert (match GetBundlesForPackage (H := go_default) ex_filled "foo" with
          | Ok bundles => bool_decide (mkKey "quay.io/foo:2" "0.2.0" "foo.v0.2.0" ∈ bundles) | _ => false end = true) as E by (vm_compute; reflexivity).
  destruct (GetBundlesForPackage ex_filled "foo") as [bundles| |]; [|discriminate E..]. exists bundles. split; [done|]. by apply bool_decide_eq_true_1 in E.
Qed.
Lemma overwrite_by_version_ignored_witness :
  let r := populate (H := go_default) ex_install (λ s, Ok ("", s)) (λ _, Err json_error) (λ _ _ _ _, Ok []) 0 (λ _, inl "bundle") ex_dirs false
             ex_registry ["quay.io/foo:3"] (Some SemVerMode) true ex_filled in
  (r.1 = ex_filled ∨ r.1 = (ClearNonHeadBundles ex_filled).1) ∧ r.2 = Some (Ok tt).
Proof.
  split; [|vm_compute; reflexivity]. pose proof ex_image as (img & Ei & En & Ep) . pose proof ex_bundles as (bundles & Eb & Hk).
  apply (overwrite_by_version_ignored (H := go_default) ex_install (λ s, Ok ("", s)) (λ _, Err json_error) (λ _ _ _ _, Ok []) 0 (λ _, inl "bundle") ex_dirs
    ex_registry "quay.io/foo:3" ex_filled img "quay.io/foo:2" bundles false false).
  - intros dir Hd. unfold unpackImage in Hd. cbn in Hd. injection Hd as <-. exact Ei.
  - rewrite En. vm_compute. reflexivity.
  - rewrite Ep. exact Eb.
  - rewrite En. exists (mkKey "quay.io/foo:2" "0.2.0" "foo.v0.2.0"). split; [exact Hk|reflexivity].
Defined.
