(* ===== verification/BundleFormat.v ===== *)
(** * The format and the content of bundle images

    [pkg/lib/bundle/generate.go], [chartutil.go], [validate.go],
    [supported_resources.go], [interpreter.go], [errors.go] and
    [pkg/lib/validation/bundle.go]: the media type of a directory, the annotations
    generated for a bundle, and the validation of a bundle directory.

    A directory is what listing it returns, a file what reading it returns.  The
    YAML decoders and the validators of other projects are parameters. *)
From S2P Require Import Prelude Semver Json JsonCompact JsonStream Property JsonTotal Model ModelOps Declcfg DeclcfgConv DeclcfgRoundtrip DeclcfgWrite DeclcfgLoad RegistryTypes RegistryBundle RegistryBundleSpec Graph DirGraph SqlLoad.
From stdpp Require Import options.

Definition RegistryV1Type : string := "registry+v1".
Definition PlainType : string := "plain".
Definition HelmType : string := "helm".
Definition AnnotationsFile : string := "annotations.yaml".
Definition ManifestsDir : string := "manifests/".
Definition MetadataDir : string := "metadata/".
Definition ManifestsLabel : string := "operators.operatorframework.io.bundle.manifests.v1".
Definition MetadataLabel : string := "operators.operatorframework.io.bundle.metadata.v1".
Definition MediatypeLabel : string := "operators.operatorframework.io.bundle.mediatype.v1".
Definition PackageLabel : string := "operators.operatorframework.io.bundle.package.v1".
Definition ChannelsLabel : string := "operators.operatorframework.io.bundle.channels.v1".
Definition ChannelDefaultLabel : string := "operators.operatorframework.io.bundle.channel.default.v1".

Record dir_item := mkItem { it_Name : string; it_IsDir : bool; it_Read : string + error }.
Definition directory : Type := list dir_item + error.
(** [items, _ := ioutil.ReadDir(directory)] *)
Definition listed (d : directory) : list dir_item := match d with inl l => l | inr _ => [] end.
Definition listing_error (d : directory) : list error := match d with inl _ => [] | inr e => [e] end.

(** ** Supported resources *)
Definition CSVKind : string := "ClusterServiceVersion".
Definition CRDKind : string := "CustomResourceDefinition".
Definition supportedResources : gmap string bool := list_to_map
  [(CSVKind, true); (CRDKind, false); ("ClusterRole", false); ("ClusterRoleBinding", false); ("Service", true); ("ServiceAccount", true);
   ("Role", true); ("RoleBinding", true); ("PrometheusRule", true); ("ServiceMonitor", true); ("Secret", true); ("ConfigMap", true);
   ("PodDisruptionBudget", true); ("PriorityClass", false); ("VerticalPodAutoscaler", false); ("ConsoleYamlSample", false)].
Definition IsSupported (kind : string) : bool * bool :=
  match supportedResources !! kind with Some namespaced => (true, namespaced) | None => (false, false) end.

(** ** Annotations *)
Definition GenerateAnnotations (mediaType manifests metadata packageName channels channelDefault : string) : gmap string string :=
  let annotations := list_to_map [(MediatypeLabel, mediaType); (ManifestsLabel, manifests); (MetadataLabel, metadata);
                                  (PackageLabel, packageName); (ChannelsLabel, channels)] in
  if decide (channelDefault ≠ "") then <[ChannelDefaultLabel := channelDefault]> annotations else annotations.

Section format.
Context `{GoRuntime}.

(** The errors of one expected annotation; [existing] has been decoded. *)
Definition missing_annotation (existing : gmap string string) (li : string * string) : list error :=
  match existing !! li.1 with
  | None => [Errorf "Missing field: %s" [AStr li.1]]
  | Some value => err_if (bool_decide (li.2 ≠ value)) (Errorf "Expect field %q to have value %q instead of %q" [AStr li.1; AStr li.2; AStr value])
  end.
Definition ValidateAnnotations (existing expected : string) (unmarshal : string → gmap string string + error) : res unit :=
  match unmarshal existing with
  | inr e => Err e
  | inl fileAnnotations =>
      match unmarshal expected with
      | inr e => Err e
      | inl expectedAnnotations => NewAggregate (range expectedAnnotations ≫= missing_annotation fileAnnotations)
      end
  end.

(** One label of the loop of [validateAnnotations].  The third case compares the
    label with the value [MetadataDir]. *)
Definition annotation_errors (fileAnnotations : gmap string string) (li : string * string) : list error :=
  let '(label, item) := li in
  let val := default "" (fileAnnotations !! label) in
  let ok := bool_decide (is_Some (fileAnnotations !! label)) in
  err_if (negb ok && bool_decide (label ≠ ChannelDefaultLabel)) (Errorf "Missing annotation %q" [AStr label]) ++
  (if decide (label = MediatypeLabel) then
     err_if (bool_decide (item ≠ val)) (Errorf "Expecting annotation %q to have value %q instead of %q" [AStr label; AStr item; AStr val])
   else if decide (label = ManifestsLabel) then
     err_if (bool_decide (item ≠ ManifestsDir)) (Errorf "Expecting annotation %q to have value %q instead of %q" [AStr label; AStr ManifestsDir; AStr val])
   else if decide (label = MetadataDir) then
     err_if (bool_decide (item ≠ MetadataLabel)) (Errorf "Expecting annotation %q to have value %q instead of %q" [AStr label; AStr MetadataDir; AStr val])
   else if decide (label = ChannelsLabel) then
     err_if (bool_decide (val = "")) (Errorf "Expecting annotation %q to have non-empty value" [AStr label])
   else if decide (label = ChannelDefaultLabel) then
     err_if (ok && bool_decide (val = "")) (Errorf "Expecting annotation %q to have non-empty value" [AStr label])
   else []).
Definition expected_annotations (mediaType : string) : gmap string string := list_to_map
  [(MediatypeLabel, mediaType); (ManifestsLabel, ManifestsDir); (MetadataLabel, MetadataDir); (PackageLabel, "");
   (ChannelsLabel, ""); (ChannelDefaultLabel, "")].
Definition validateAnnotations (mediaType : string) (fileAnnotations : gmap string string) : list error :=
  range (expected_annotations mediaType) ≫= annotation_errors fileAnnotations.

(** ** Dependencies *)
Definition validate_dependency (range_parses : string → bool) (d : Dependency) : list error :=
  match GetTypeValue d with
  | DepGVK dp => GVKDependency_Validate dp
  | DepPackage dp => PackageDependency_Validate range_parses dp
  | DepLabel dp => LabelDependency_Validate dp
  | DepNil => [Errorf "couldn't parse dependency of type %s" [AStr (dep_Type d)]]
  end.
Definition validateDependencies (range_parses : string → bool) (dependencies : list Dependency) : list error :=
  dependencies ≫= validate_dependency range_parses.

(** ** The media type *)
(** [Unstructured]: group and version, and the kind, of its [GroupVersionKind]. *)
Record k8s_file := mkK8sFile { kf_GroupVersion : string; kf_Kind : string; kf_object : k8s_object }.
Variable decode_unstructured : string → k8s_file + error.
(** The name in a chart file; [None] when the document is null. *)
Variable decode_chart : string → option string + error.

Definition IsChartDir (dirName : string) (stat : bool + error) (items : list dir_item) : res bool :=
  match stat with
  | inr e => Err e
  | inl false => Err (Errorf "%q is not a directory" [AStr dirName])
  | inl true =>
      match snd <$> list_find (λ i, it_Name i = "Chart.yaml") items with
      | None => Err (Errorf "no %s exists in directory %q" [AStr "Chart.yaml"; AStr dirName])
      | Some chart =>
          match it_Read chart with
          | inr _ => Err (Errorf "cannot read %s in directory %q" [AStr "Chart.yaml"; AStr dirName])
          | inl content =>
              match decode_chart content with
              | inr e => Err e
              | inl None => Err (Errorf "chart metadata (%s) missing" [AStr "Chart.yaml"])
              | inl (Some name) => if decide (name = "") then Err (Errorf "invalid chart (%s): name must not be empty" [AStr "Chart.yaml"]) else Ok true
              end
          end
      end
  end.
(** The files of the directory with the objects they decode to. *)
Fixpoint read_k8s_files (dir : string) (items : list dir_item) : res (list (string * option k8s_file)) :=
  match items with
  | [] => Ok []
  | item :: items' =>
      if it_IsDir item then read_k8s_files dir items'
      else match it_Read item with
           | inr _ => Err (Errorf "Unable to read file %s in bundle" [AStr (dir +:+ "/" +:+ it_Name item)])
           | inl fileBlob =>
               files ← read_k8s_files dir items';
               Ok ((it_Name item, match decode_unstructured fileBlob with inl unst => Some unst | inr _ => None end) :: files)
           end
  end.
Definition is_csv_file (f : string * option k8s_file) : bool :=
  match f.2 with Some unst => bool_decide (kf_Kind unst = CSVKind) | None => false end.
Definition GetMediaType (dir : string) (d : directory) : res string :=
  files ← read_k8s_files dir (listed d);
  if decide (files = []) then Err (Errorf "The directory %s contains no yaml files" [AStr dir])
  else match IsChartDir dir (inl true) (listed d) with
       | Ok _ => Ok HelmType
       | Panic => Panic
       | Err _ => Ok (if existsb is_csv_file files then RegistryV1Type else PlainType)
       end.

(** ** The format of a bundle directory *)
(** Decoding a file into the values decoded so far: the annotations, and the
    pointer to the dependencies file. *)
Variable decode_annotations : string → option (gmap string string) → option (gmap string string) * option error.
Variable decode_dependencies : string → option (list Dependency) → option (list Dependency) * option error.
Variable range_parses : string → bool.

Definition DecodeFile {A} (decode : string → A → A * option error) (f : dir_item) (into : A) : A * option error :=
  match it_Read f with inl content => decode content into | inr e => (into, Some e) end.
Record format_state := mkFormat {
  fm_annotations : option (gmap string string);
  fm_annotationsFound : bool;
  fm_dependencies : option (list Dependency);
  fm_dependenciesFound : bool
}.
Definition dependencies_step (st : format_state) (f : dir_item) : res format_state :=
  if fm_dependenciesFound st then Ok st
  else match DecodeFile decode_dependencies f (fm_dependencies st) with
       | (deps, Some _) => Ok (mkFormat (fm_annotations st) (fm_annotationsFound st) deps false)
       | (deps, None) => l ← deref deps; Ok (mkFormat (fm_annotations st) (fm_annotationsFound st) deps (bool_decide (0 < length l)))
       end.
Definition metadata_step (st : format_state) (f : dir_item) : res format_state :=
  if fm_annotationsFound st then dependencies_step st f
  else match DecodeFile decode_annotations f (fm_annotations st) with
       | (Some an, None) => Ok (mkFormat (Some an) true (fm_dependencies st) (fm_dependenciesFound st))
       | (an, _) => dependencies_step (mkFormat an false (fm_dependencies st) (fm_dependenciesFound st)) f
       end.
(** [NewValidationError] of a non-empty list *)
Definition validation_outcome (errs : list error) : res unit :=
  match errs with [] => Ok tt | _ => Err (Errorf "Bundle validation errors: %s" (AErr <$> errs)) end.
Definition has_dir (name : string) (d : directory) : bool := existsb (λ i, it_IsDir i && bool_decide (it_Name i = name)) (listed d).
Definition error_list {A} (r : res A) : list error := match r with Err e => [e] | _ => [] end.
Definition ValidateBundleFormat (dir : string) (root manifests metadata : directory) : res unit :=
  match listing_error root ++
        err_if (negb (has_dir "manifests" root)) (ErrNew "Unable to locate manifests directory") ++
        err_if (negb (has_dir "metadata" root)) (ErrNew "Unable to locate metadata directory") with
  | _ :: _ as errs => validation_outcome errs
  | [] =>
      let mediaType := GetMediaType (dir +:+ "/manifests") manifests in
      st ← foldR metadata_step (mkFormat None false (Some []) false) (listed metadata);
      validation_outcome (
        error_list mediaType ++ listing_error metadata ++
        (if fm_annotationsFound st
         then validateAnnotations (match mediaType with Ok t => t | _ => "" end) (default ∅ (fm_annotations st))
         else [ErrNew "Could not find annotations file"]) ++
        (if fm_dependenciesFound st then validateDependencies range_parses (default [] (fm_dependencies st)) else []))
  end.

(** ** CRDs *)
(** Errors and warnings of a [ManifestResult]. *)
Definition manifest_result : Type := list error * list error.
Definition key_of (c : crd) (version : string) : DefinitionKey := mkDefKey "" (crd_Kind c) (crd_Name c) version.
Definition definition_keys (c : crd + crd) : list DefinitionKey :=
  match c with
  | inl c => key_of c <$> crd_Versions c
  | inr c => if decide (crd_Version c ≠ "") then [key_of c (crd_Version c)] else key_of c <$> crd_Versions c
  end.
Definition ErrInvalidParse (msg : string) (e : error) : error := Errorf msg [AErr e].
Definition keyToString (key : DefinitionKey) : string :=
  if decide (dk_Name key = "") then dk_Group key +:+ "/" +:+ dk_Version key +:+ " " +:+ dk_Kind key
  else dk_Name key +:+ "/" +:+ dk_Version key.
Definition ErrInvalidBundle (key : DefinitionKey) (name : string) : error :=
  Errorf "owned CRD %s not found in bundle %q" [AStr (keyToString key); AStr name].
Definition WarnInvalidBundle (key : DefinitionKey) (name : string) : error :=
  Errorf "CRD %s is present in bundle %q but not defined in CSV" [AStr (keyToString key); AStr name].
End format.

#[export] Instance DefinitionKey_eq_dec : EqDecision DefinitionKey.
Proof. solve_decision. Defined.
#[export] Program Instance DefinitionKey_countable : Countable DefinitionKey :=
  inj_countable' (λ k, (dk_Group k, dk_Kind k, dk_Name k, dk_Version k)) (λ '(g, k, n, v), mkDefKey g k n v) _.
Next Obligation. by intros []. Qed.

Section content.
Context `{GoRuntime}.

(** The owned keys in turn; a key that was seen is taken from the set. *)
Fixpoint check_owned (name : string) (owned : list (option DefinitionKey)) (keySet : gset DefinitionKey) : res (list error * gset DefinitionKey) :=
  match owned with
  | [] => Ok ([], keySet)
  | ownedKey :: owned' =>
      key ← deref ownedKey;
      if decide (key ∈ keySet) then check_owned name owned' (keySet ∖ {[key]})
      else r ← check_owned name owned' keySet; Ok (ErrInvalidBundle key name :: r.1, r.2)
  end.
Definition validateOwnedCRDs (bundle : registry_Bundle) (csv : ClusterServiceVersion) : res manifest_result :=
  match GetCustomResourceDefintions csv with
  | Panic => Panic
  | Err e => Ok ([ErrInvalidParse "error getting CSV CRDs" e], [])
  | Ok (owned, _) =>
      match (CustomResourceDefinitions bundle).2 with
      | Panic => Panic
      | Err e => Ok ([ErrInvalidParse "error getting bundle CRDs" e], [])
      | Ok crds =>
          r ← check_owned (rb_Name bundle) owned (list_to_set (crds ≫= definition_keys));
          Ok (r.1, (λ key, WarnInvalidBundle key (rb_Name bundle)) <$> range_set r.2)
      end
  end.
(** The CSV of a bundle without one is nil. *)
Definition validateBundle (bundle : registry_Bundle) : res manifest_result :=
  match Bundle_ClusterServiceVersion bundle with
  | (_, Panic) => Panic
  | (_, Err e) => Ok ([ErrInvalidParse "error getting bundle CSV" e], [])
  | (bundle, Ok csv) =>
      csv ← deref csv;
      result ← validateOwnedCRDs bundle csv;
      match GetVersion csv with
      | Panic => Panic
      | Err e => Ok (result.1 ++ [ErrInvalidParse "error getting bundle CSV version" e], result.2)
      | Ok _ => Ok result
      end
  end.

(** ** The content of a bundle directory *)
Variable decode_unstructured : string → k8s_file + error.
Variable decode_chart : string → option string + error.
(** The typed CSV, filled by every CSV of the directory in turn, its name and what
    the validators of the operator-framework/api project report on it. *)
Context {V : Type} (zero_csv : V).
Variable from_unstructured : k8s_object → V → V * option error.
Variable v1_csv_name : V → string.
Variable csv_validator : V → list error.
Variable operatorhub_validator : string → V → list error.
Variable crd_v1_validator crd_v1beta1_validator : string → list error + error.
Variable object_validator : list k8s_object → list error.
(** [validateKubectlable]: the JSON of a file, its metadata, and the errors in these. *)
Context {Meta : Type}.
Variable yaml_to_json : string → string + error.
Variable unmarshal_meta : string → Meta + error.
Variable validate_object_meta : Meta → list error.

Definition validateKubectlable (fileBytes : string) : option error :=
  match yaml_to_json fileBytes with
  | inr e => Some e
  | inl json =>
      match unmarshal_meta json with
      | inr e => Some e
      | inl parsedMeta =>
          match validate_object_meta parsedMeta with
          | [] => None
          | errs => Some (Errorf "error validating object metadata: %s. %v" (AErr <$> errs))
          end
      end
  end.
(** The names of the optional validators, from lists separated by commas. *)
Definition parseOptions (args : list string) : gset string := list_to_set (args ≫= λ arg, TrimSpace <$> Split ","%char arg).

Record content_state := mkContent { cs_errs : list error; cs_csvName : string; cs_csv : V; cs_objs : list k8s_object }.
Definition add_content_errs (st : content_state) (errs : list error) : content_state :=
  mkContent (cs_errs st ++ errs) (cs_csvName st) (cs_csv st) (cs_objs st).
Definition crd_errors (gv data : string) : list error :=
  match (if decide (gv = "apiextensions.k8s.io/v1") then crd_v1_validator data
         else if decide (gv = "apiextensions.k8s.io/v1beta1") then crd_v1beta1_validator data
         else inr (Errorf "Unsupported api version of CRD: %s" [AStr gv])) with
  | inl errs => errs
  | inr e => [e]
  end.
Definition content_step (manifestDir mediaType : string) (st : content_state) (item : dir_item) : content_state :=
  let fileWithPath := manifestDir +:+ "/" +:+ it_Name item in
  match it_Read item with
  | inr _ => add_content_errs st [Errorf "Unable to read file %s in supported types" [AStr fileWithPath]]
  | inl data =>
      match decode_unstructured data with
      | inr e => add_content_errs st [e]
      | inl k8sFile =>
          let st := mkContent (cs_errs st) (cs_csvName st) (cs_csv st) (cs_objs st ++ [kf_object k8sFile]) in
          let kind := kf_Kind k8sFile in
          if bool_decide (mediaType = RegistryV1Type) && negb (IsSupported kind).1 then
            add_content_errs st [Errorf "%s is not supported type for registryV1 bundle: %s" [AStr kind; AStr fileWithPath]]
          else if decide (kind = CSVKind) then
            match from_unstructured (kf_object k8sFile) (cs_csv st) with
            | (csv, Some e) => mkContent (cs_errs st ++ [e]) (cs_csvName st) csv (cs_objs st)
            | (csv, None) => mkContent (cs_errs st ++ csv_validator csv) (v1_csv_name csv) csv (cs_objs st)
            end
          else if decide (kind = CRDKind) then add_content_errs st (crd_errors (kf_GroupVersion k8sFile) data)
          else add_content_errs st (option_list (validateKubectlable data))
      end
  end.
Definition bundle_errors (st : content_state) : res (list error) :=
  if decide (cs_objs st = []) then Ok []
  else
    bundle ← NewBundle (cs_csvName st) (Some (mkAnnotations "" "" "")) (cs_objs st);
    result ← validateBundle bundle;
    Ok result.1.
Definition ValidateBundleContent (optional : list string) (manifestDir : string) (d : directory) : res unit :=
  let mediaType := GetMediaType decode_unstructured decode_chart manifestDir d in
  match mediaType with
  | Panic => Panic
  | Ok "helm" => Ok tt
  | _ =>
      let t := match mediaType with Ok t => t | _ => "" end in
      let st := foldl (content_step manifestDir t) (mkContent (error_list mediaType ++ listing_error d) "" zero_csv []) (listed d) in
      errs ← bundle_errors st;
      let optionalValidators := parseOptions optional in
      validation_outcome (
        cs_errs st ++ errs ++
        (if decide ("operatorhub" ∈ optionalValidators) then operatorhub_validator (cs_csvName st) (cs_csv st) else []) ++
        (if decide ("bundle-objects" ∈ optionalValidators) then object_validator (cs_objs st) else []))
  end.
End content.

(** ** A bundle inside a package directory *)
Record bundleDirInterpreter := mkInterpreter { bi_bundleCsvName : string; bi_pkg : graph_Package }.
Section interpreter.
Context `{GoRuntime} {R : Type}.
Variable ParseRange : string → res R.
(** The package directory, [bundleDir/..], is listed when the loader is made and
    twice when it generates the package. *)
Definition NewBundleDirInterperter (bundleDir packageDir : string) (bundle : res (list bundle_entry)) (content content' content'' : res (list package_entry))
    : res bundleDirInterpreter :=
  csv ← wrap_err (λ e, Errorf "error loading CSV from bundle directory, %v" [AErr e]) (ReadCSVFromBundleDirectory bundleDir bundle);
  pkgDir ← wrap_err (λ e, Errorf "error loading package from directory, %v" [AErr e]) (NewPackageGraphLoaderFromDir packageDir content);
  p ← (Generate ParseRange pkgDir content' content'').2;
  Ok (mkInterpreter (csv_Name csv) p).
(** [sort.Strings] gives the one sorted list. *)
Definition GetBundleChannels (b : bundleDirInterpreter) : list string :=
  insertion_sort str_lt (filter (λ nc, existsb (λ k, bool_decide (bk_CsvName k.1 = bi_bundleCsvName b)) (range (gc_Nodes nc.2)) = true) (range (gp_Channels (bi_pkg b)))).*1.
End interpreter.
Definition interpreter_GetDefaultChannel (b : bundleDirInterpreter) : string := gp_DefaultChannel (bi_pkg b).
Definition GetPackageName (b : bundleDirInterpreter) : string := gp_Name (bi_pkg b).
