(* ===== verification/BundleFormatSpec.v ===== *)
(** * What the validation of bundles accepts

    The annotations that are accepted, among them the generated ones; the content
    of an accepted bundle; and what happens to a bundle without a CSV. *)
From S2P Require Import Prelude Semver Json JsonCompact JsonStream Property JsonTotal Model ModelOps Declcfg DeclcfgConv DeclcfgRoundtrip DeclcfgWrite DeclcfgLoad RegistryTypes RegistryBundle RegistryBundleSpec Graph DirGraph SqlLoad BundleFormat.
From stdpp Require Import options.

Lemma bind_nil {A B} (f : A → list B) l : l ≫= f = [] ↔ ∀ x, x ∈ l → f x = [].
Proof.
  induction l as [|x l IH]; simpl; [split; [by intros _ ? ?%elem_of_nil|done]|]. rewrite app_nil, IH. set_solver.
Qed.
Lemma validation_outcome_Ok errs : validation_outcome errs = Ok tt ↔ errs = [].
Proof. destruct errs; simpl; naive_solver. Qed.

(** ** Annotations *)
Section annotations.
Context `{GoRuntime}.

Definition annotations_ok (mediaType : string) (an : gmap string string) : Prop :=
  an !! MediatypeLabel = Some mediaType ∧ is_Some (an !! ManifestsLabel) ∧ is_Some (an !! MetadataLabel) ∧
  is_Some (an !! PackageLabel) ∧ (∃ c, an !! ChannelsLabel = Some c ∧ c ≠ "") ∧ an !! ChannelDefaultLabel ≠ Some "".
Lemma mediatype_errors t an : annotation_errors an (MediatypeLabel, t) = [] ↔ an !! MediatypeLabel = Some t.
Proof.
  unfold annotation_errors. destruct (an !! MediatypeLabel) as [v|]; cbn; [|naive_solver].
  case_bool_decide; naive_solver.
Qed.
Lemma present_errors l i an :
  (l, i) ∈ [(ManifestsLabel, ManifestsDir); (MetadataLabel, MetadataDir); (PackageLabel, "")] →
  annotation_errors an (l, i) = [] ↔ is_Some (an !! l).
Proof.
  intros Hl. unfold annotation_errors. rewrite !elem_of_cons, elem_of_nil in Hl.
  destruct Hl as [[= -> ->]|[[= -> ->]|[[= -> ->]|[]]]]; (destruct (an !! _) as [v|]; cbn; unfold is_Some; naive_solver).
Qed.
Lemma channels_errors an : annotation_errors an (ChannelsLabel, "") = [] ↔ ∃ c, an !! ChannelsLabel = Some c ∧ c ≠ "".
Proof.
  unfold annotation_errors. destruct (an !! ChannelsLabel) as [[|a v]|]; cbn; naive_solver.
Qed.
Lemma default_errors an : annotation_errors an (ChannelDefaultLabel, "") = [] ↔ an !! ChannelDefaultLabel ≠ Some "".
Proof.
  unfold annotation_errors. destruct (an !! ChannelDefaultLabel) as [[|a v]|]; cbn; naive_solver.
Qed.
Lemma validateAnnotations_nil mediaType an : validateAnnotations mediaType an = [] ↔ annotations_ok mediaType an.
Proof.
  unfold validateAnnotations. rewrite bind_nil.
  assert (∀ x, x ∈ range (expected_annotations mediaType) ↔
    x ∈ [(MediatypeLabel, mediaType); (ManifestsLabel, ManifestsDir); (MetadataLabel, MetadataDir); (PackageLabel, "");
         (ChannelsLabel, ""); (ChannelDefaultLabel, "")]) as Hx.
  { intros [l i]. rewrite range_elem. unfold expected_annotations. rewrite <- elem_of_list_to_map; [done|].
    apply (bool_decide_unpack _). vm_compute. exact I. }
  setoid_rewrite Hx. rewrite <- Forall_forall, !Forall_cons, Forall_nil, mediatype_errors, channels_errors, default_errors.
  rewrite !present_errors by set_solver. unfold annotations_ok. tauto.
Qed.
Lemma ValidateAnnotations_Ok unmarshal s t m g :
  unmarshal s = inl m → unmarshal t = inl g → ValidateAnnotations s t unmarshal = Ok tt ↔ g ⊆ m.
Proof.
  intros Hs Ht. unfold ValidateAnnotations. rewrite Hs, Ht.
  assert (∀ l, NewAggregate l = Ok tt ↔ l = []) as -> by (intros []; simpl; naive_solver).
  rewrite bind_nil, map_subseteq_spec. split.
  - intros Hm l i Hl. specialize (Hm (l, i) (proj2 (range_elem _ _ _) Hl)). unfold missing_annotation in Hm. cbn in Hm.
    destruct (m !! l) as [v|]; [|done]. apply err_if_nil, bool_decide_eq_false, dec_stable in Hm. by subst.
  - intros Hm [l i] Hl%range_elem. unfold missing_annotation. cbn. rewrite (Hm l i Hl).
    apply err_if_nil, bool_decide_eq_false. naive_solver.
Qed.

(** Generated annotations are accepted.  The annotations made for a bundle that
    has channels pass the validation of the bundle format for its media type, and
    generating again over a file of annotations succeeds exactly when the file has
    all of them; and in general the annotations that pass are those with the media
    type, with the labels of the directories and the package whatever their
    values, with channels, and without an empty default channel. *)
Theorem annotations_accepted marshal unmarshal mediaType pkg channels channelDefault m :
  let g := GenerateAnnotations mediaType ManifestsDir MetadataDir pkg channels channelDefault in
  unmarshal (marshal g) = inl g → unmarshal (marshal m) = inl m → channels ≠ "" →
  validateAnnotations mediaType g = [] ∧
  (ValidateAnnotations (marshal m) (marshal g) unmarshal = Ok tt ↔ g ⊆ m) ∧
  (validateAnnotations mediaType m = [] ↔ annotations_ok mediaType m).
Proof.
  intros g Hg Hm Hc. split_and!; [|by apply ValidateAnnotations_Ok|apply validateAnnotations_nil].
  apply validateAnnotations_nil. unfold g, GenerateAnnotations, annotations_ok. case_decide as Ed; cbn; rewrite ?lookup_insert_ne by done;
    simplify_map_eq; split_and!; eauto; try done.
  intros [= ->]. done.
Qed.
End annotations.

(** ** Owned CRDs *)
Section crds.
Context `{GoRuntime}.

Lemma check_owned_spec name keys s r :
  check_owned name (Some <$> keys) s = Ok r →
  (r.1 = [] ↔ NoDup keys ∧ ∀ k, k ∈ keys → k ∈ s) ∧ r.2 = s ∖ list_to_set keys.
Proof.
  revert s r. induction keys as [|key keys IH]; intros s r; simpl.
  - intros [= <-]. cbn. split; [|set_solver]. split; [intros _; split; [constructor|set_solver]|done].
  - case_decide as Hk.
    + intros Hr. destruct (IH _ _ Hr) as [H1 ->]. split; [|set_solver]. rewrite H1, NoDup_cons. set_solver.
    + intros Hr. inv_ok. subst. cbn. destruct (IH _ _ ltac:(eassumption)) as [_ ->]. split; [|set_solver].
      split; [done|]. intros [_ Hs]. destruct Hk. apply Hs. left.
Qed.
Lemma check_owned_total name keys s : ∃ r, check_owned name (Some <$> keys) s = Ok r.
Proof.
  revert s. induction keys as [|key keys IH]; intros s; [simpl; eauto|].
  rewrite fmap_cons. cbn [check_owned deref mbind res_bind]. case_decide; [apply IH|].
  destruct (IH s) as [r Hr]. eexists. unfold mbind, res_bind in *. rewrite Hr. reflexivity.
Qed.
(** The CRDs the CSV owns, each named once, are CRDs of the bundle. *)
Lemma validateBundle_Ok b b' csv keys required crds v :
  Bundle_ClusterServiceVersion b = (b', Ok (Some csv)) → GetCustomResourceDefintions csv = Ok (Some <$> keys, required) →
  (CustomResourceDefinitions b').2 = Ok crds → GetVersion csv = Ok v →
  ∃ errs warnings, validateBundle b = Ok (errs, warnings) ∧
    (errs = [] ↔ NoDup keys ∧ ∀ k, k ∈ keys → k ∈ crds ≫= definition_keys) ∧
    warnings ≡ₚ (λ key, WarnInvalidBundle key (rb_Name b')) <$> elements (list_to_set (crds ≫= definition_keys) ∖ list_to_set keys : gset DefinitionKey).
Proof.
  intros Hc Ho Hd Hv. unfold validateBundle. rewrite Hc. cbn [deref mbind res_bind]. unfold validateOwnedCRDs. rewrite Ho, Hd.
  destruct (check_owned_total (rb_Name b') keys (list_to_set (crds ≫= definition_keys))) as [r Hr]. rewrite Hr. cbn [mbind res_bind].
  rewrite Hv. destruct (check_owned_spec _ _ _ _ Hr) as [H1 H2]. eexists _, _. split; [done|]. split.
  - rewrite H1. setoid_rewrite elem_of_list_to_set. done.
  - rewrite range_set_perm. by rewrite H2.
Qed.
Lemma validateBundle_nil b b' : Bundle_ClusterServiceVersion b = (b', Ok None) → validateBundle b = Panic.
Proof. intros Hc. unfold validateBundle. by rewrite Hc. Qed.
End crds.

(** ** The content *)
Section content.
Context `{GoRuntime}.
Variable decode_unstructured : string → k8s_file + error.
Variable decode_chart : string → option string + error.
Context {V : Type} (zero_csv : V).
Variable from_unstructured : k8s_object → V → V * option error.
Variable v1_csv_name : V → string.
Variable csv_validator : V → list error.
Variable operatorhub_validator : string → V → list error.
Variable crd_v1_validator crd_v1beta1_validator : string → list error + error.
Variable object_validator : list k8s_object → list error.
Context {Meta : Type}.
Variable yaml_to_json : string → string + error.
Variable unmarshal_meta : string → Meta + error.
Variable validate_object_meta : Meta → list error.
Notation step := (content_step decode_unstructured from_unstructured v1_csv_name csv_validator crd_v1_validator crd_v1beta1_validator
  yaml_to_json unmarshal_meta validate_object_meta).
Notation validate := (ValidateBundleContent decode_unstructured decode_chart zero_csv from_unstructured v1_csv_name csv_validator
  operatorhub_validator crd_v1_validator crd_v1beta1_validator object_validator yaml_to_json unmarshal_meta validate_object_meta).

(** The objects of the files that are read and decode. *)
Definition decoded_objects (items : list dir_item) : list k8s_object :=
  omap (λ i, match it_Read i with
             | inl data => match decode_unstructured data with inl f => Some (kf_object f) | inr _ => None end
             | inr _ => None
             end) items.
(** A file without a complaint. *)
Definition item_ok (mediaType : string) (i : dir_item) : Prop :=
  ∃ data f, it_Read i = inl data ∧ decode_unstructured data = inl f ∧
    (mediaType = RegistryV1Type → is_Some (supportedResources !! kf_Kind f)) ∧
    (kf_Kind f = CRDKind → crd_errors crd_v1_validator crd_v1beta1_validator (kf_GroupVersion f) data = []) ∧
    (kf_Kind f ≠ CSVKind → kf_Kind f ≠ CRDKind → validateKubectlable yaml_to_json unmarshal_meta validate_object_meta data = None).
Lemma content_step_objs dir t st i : cs_objs (step dir t st i) = cs_objs st ++ decoded_objects [i].
Proof.
  unfold content_step, decoded_objects, add_content_errs. cbn [omap list_omap].
  destruct (it_Read i) as [data|e]; [|by rewrite app_nil_r]. destruct (decode_unstructured data) as [f|e]; [|by rewrite app_nil_r].
  repeat (case_match; try done).
Qed.
Lemma content_objs dir t items st : cs_objs (foldl (step dir t) st items) = cs_objs st ++ decoded_objects items.
Proof.
  revert st. induction items as [|i items IH]; intros st; cbn [foldl]; [by rewrite app_nil_r|].
  rewrite IH, content_step_objs, <- app_assoc. f_equal. symmetry. apply (omap_app _ [i] items).
Qed.
Lemma content_step_errs dir t st i : cs_errs (step dir t st i) = [] → cs_errs st = [] ∧ item_ok t i.
Proof.
  unfold content_step, item_ok. destruct (it_Read i) as [data|e]; [|cbn; by intros [_ ?]%app_nil].
  destruct (decode_unstructured data) as [f|e] eqn:Ef; [|cbn; by intros [_ ?]%app_nil]. cbn [cs_errs cs_csvName cs_csv cs_objs].
  destruct (bool_decide (t = RegistryV1Type) && negb (IsSupported (kf_Kind f)).1) eqn:Es; [cbn; by intros [_ ?]%app_nil|].
  assert (t = RegistryV1Type → is_Some (supportedResources !! kf_Kind f)) as Hs.
  { intros ->. rewrite bool_decide_true in Es by done. unfold IsSupported in Es. destruct (supportedResources !! kf_Kind f); [by eexists|done]. }
  destruct (decide (kf_Kind f = CSVKind)) as [Hcsv|Hcsv]; [|destruct (decide (kf_Kind f = CRDKind)) as [Hcrd|Hcrd]].
  - intros He. assert (cs_errs st = []) as Hn. { destruct (from_unstructured _ _) as [csv [e|]]; cbn in He; by apply app_nil in He as [? _]. }
    split; [done|]. exists data, f. split_and!; try done. rewrite Hcsv. by intros ?.
  - cbn. intros [Hn Hc]%app_nil. split; [done|]. exists data, f. by split_and!.
  - cbn. intros [Hn Hc]%app_nil. split; [done|]. exists data, f. split_and!; try done.
    intros _ _. by destruct (validateKubectlable _ _ _ data).
Qed.
Lemma content_errs dir t items st : cs_errs (foldl (step dir t) st items) = [] → cs_errs st = [] ∧ Forall (item_ok t) items.
Proof.
  revert st. induction items as [|i items IH]; intros st; cbn [foldl]; [done|].
  intros [(Hst & Hi)%content_step_errs Hf]%IH. split; [done|]. by constructor.
Qed.


(** C39. A directory of plain objects, which the media type allows, cannot be
    validated: the CSV of its bundle is nil, and the validation panics. *)
Theorem ValidateBundleContent_panics optional dir d :
  GetMediaType decode_unstructured decode_chart dir d = Ok PlainType → decoded_objects (listed d) ≠ [] →
  (∀ name b, NewBundle name (Some (mkAnnotations "" "" "")) (decoded_objects (listed d)) = Ok b → (Bundle_ClusterServiceVersion b).2 = Ok None) →
  validate optional dir d = Panic.
Proof.
  intros Ht Hne Hc. unfold ValidateBundleContent. rewrite Ht. cbv zeta. set (st := foldl _ _ _).
  assert (cs_objs st = decoded_objects (listed d)) as Ho by apply content_objs.
  assert (bundle_errors st = Panic) as ->; [|done].
  unfold bundle_errors. rewrite Ho, decide_False by done. destruct (NewBundle _ _ _) as [b| |] eqn:Eb; [|done..].
  specialize (Hc _ _ Eb). cbn [mbind res_bind]. destruct (Bundle_ClusterServiceVersion b) as [b' r] eqn:Ec. cbn in Hc. subst r.
  by rewrite (validateBundle_nil b b').
Qed.
End content.

(** ** Examples *)
Definition ex_generated : gmap string string := GenerateAnnotations RegistryV1Type ManifestsDir MetadataDir "foo" "stable,beta" "stable".
Lemma annotations_accepted_witness : validateAnnotations (H := go_default) RegistryV1Type ex_generated = [].
Proof.
  refine (proj1 (annotations_accepted (H := go_default) (λ _, "text") (λ _, inl ex_generated) RegistryV1Type "foo" "stable,beta" "stable" ex_generated _ _ _)).
  - reflexivity.
  - reflexivity.
  - done.
Defined.

Definition ex_owner : ClusterServiceVersion := mkCSV "foo.v0.1.0" ∅ (Some (
  "{" +:+ print_string true "customresourcedefinitions" +:+ ":{" +:+ print_string true "owned" +:+ ":[" +:+
  print_struct true [("kind", "Bar"); ("name", "Bars.example.com"); ("version", "v1")] +:+ "]}}")).
Definition ex_decode_file (content : string) : k8s_file + error :=
  if decide (content = "csv") then inl (mkK8sFile "operators.coreos.com/v1alpha1" CSVKind
    (mkObj CSVKind "v1alpha1" "foo.v0.1.0" (inl ex_owner) (inr (ErrNew "not a CRD")) (inr (ErrNew "not a CRD")) (inl "{csv}")))
  else if decide (content = "crd") then inl (mkK8sFile "apiextensions.k8s.io/v1" CRDKind (ex_crd "Bar"))
  else inr (ErrNew "not an object").
Definition ex_validate (d : directory) : res unit :=
  ValidateBundleContent (H := go_default) ex_decode_file (λ _, inr (ErrNew "not a chart")) "" (λ o csv, (o_Name o, None)) id (λ _, []) (λ _ _, [])
    (λ _, inl []) (λ _, inl []) (λ _, []) inl inl (λ _ : string, []) [] "manifests" d.
Definition ex_manifests : directory := inl [mkItem "bar.crd.yaml" false (inl "crd"); mkItem "foo.csv.yaml" false (inl "csv")].
Definition ex_plain : directory := inl [mkItem "bar.crd.yaml" false (inl "crd")].
Lemma ValidateBundleContent_panics_witness : ex_validate ex_plain = Panic.
Proof.
  apply (ValidateBundleContent_panics (H := go_default)).
  - vm_compute. reflexivity.
  - done.
  - intros name b Hb. cbn in Hb. injection Hb as <-. reflexivity.
Defined.
