(* ===== verification/ConfigMapBundle.v ===== *)
(** * Bundles in config maps

    [pkg/configmap/configmap_writer.go], [pkg/configmap/configmap.go] and
    [pkg/lib/encoding/encoding.go]: the files of a bundle are written into a config
    map, compressed or not, within a limit of bytes, and a bundle is read from a
    config map.

    The Kubernetes client, the YAML decoders and the compression are parameters;
    sizes are 64-bit unsigned integers. *)
From S2P Require Import Prelude Semver Json JsonCompact JsonStream Property JsonTotal Model ModelOps Declcfg DeclcfgConv DeclcfgRoundtrip DeclcfgWrite DeclcfgLoad RegistryTypes RegistryBundle Api SqlLoad BundleFormat.
From stdpp Require Import options.

(** ** Names *)
(** [[-A-Za-z0-9_.]] *)
Definition allowed_key_char (c : ascii) : bool :=
  in_range 65 90 c || in_range 97 122 c || in_range 48 57 c || bool_decide (c ∈ ["-"; "_"; "."]%char).
(** Every character that is not allowed becomes one tilde, also one of several
    bytes, and every byte that is not part of a character. *)
Fixpoint TranslateInvalidChars (s : string) : string :=
  match s with
  | EmptyString => ""
  | String c s1 =>
      if allowed_key_char c then String c (TranslateInvalidChars s1)
      else String "~" (
        if (code c <? 128)%N then TranslateInvalidChars s1
        else match utf8_len c s1, s1 with
             | Some 2, String _ s2 => TranslateInvalidChars s2
             | Some 3, String _ (String _ s3) => TranslateInvalidChars s3
             | Some 4, String _ (String _ (String _ s4)) => TranslateInvalidChars s4
             | _, _ => TranslateInvalidChars s1
             end)
  end.

Record ConfigMap := mkConfigMap {
  cm_Annotations : option (gmap string string);
  cm_Data : gmap string string;
  cm_BinaryData : gmap string string
}.
Definition GzipKey : string := "olm.contentEncoding".
Definition GzipEncoding : string := "gzip+base64".
Definition ImageKey : string := "olm.sourceImage".
(** Reading the annotations, which may be nil, and making them when they are. *)
Definition initAndGetAnnotations (cm : ConfigMap) : gmap string string := default ∅ (cm_Annotations cm).
Definition annotate (k v : string) (cm : ConfigMap) : ConfigMap :=
  mkConfigMap (Some (<[k := v]> (initAndGetAnnotations cm))) (cm_Data cm) (cm_BinaryData cm).
Definition setGzipEncodingAnnotation (cm : ConfigMap) : ConfigMap := annotate GzipKey GzipEncoding cm.
Definition hasGzipEncodingAnnotation (cm : ConfigMap) : bool := bool_decide (default ∅ (cm_Annotations cm) !! GzipKey = Some GzipEncoding).

(** The annotations file, as this package decodes it. *)
Record writer_annotations := mkWriterAnnotations {
  wa_Resources : string; wa_MediaType : string; wa_Metadata : string; wa_Package : string; wa_Channels : string; wa_ChannelDefault : string
}.
Definition label_annotations (a : writer_annotations) : gmap string string := list_to_map
  [(ManifestsLabel, wa_Resources a); (MediatypeLabel, wa_MediaType a); (MetadataLabel, wa_Metadata a); (PackageLabel, wa_Package a);
   (ChannelsLabel, wa_Channels a); (ChannelDefaultLabel, wa_ChannelDefault a)].

Definition uint64 (z : Z) : Z := (z mod 2 ^ 64)%Z.

Section configmap.
Context `{GoRuntime}.
Variable gzip : string → string.
Variable gunzip : string → string + error.
Variable unmarshal_annotations : string → writer_annotations + error.
Variable decode_object : string → k8s_object + error.

(** ** Encoding *)
Definition GzipBase64Encode (data : string) : string := b64_encode (gzip data).
Definition GzipBase64Decode (data : string) : string + error :=
  match b64_decode data with Some z => gunzip z | None => inr (ErrNew "illegal base64 data at input byte") end.

(** ** Writing *)
Record writer_state := mkWriter { ws_cm : ConfigMap; ws_totalSize : Z }.
Definition encoded (gz : bool) (content : string) : string := if gz then GzipBase64Encode content else content.
Definition write_file (gz : bool) (maxDataSizeLimit : Z) (st : writer_state) (file : dir_item) : res writer_state :=
  match it_Read file with
  | inr e => Err e
  | inl content =>
      if decide (it_Name file = AnnotationsFile) then
        match unmarshal_annotations content with
        | inr e => Err e
        | inl a => Ok (mkWriter (mkConfigMap (Some (label_annotations a)) (cm_Data (ws_cm st)) (cm_BinaryData (ws_cm st))) (ws_totalSize st))
        end
      else
        let content := encoded gz content in
        let totalSize := uint64 (ws_totalSize st + Z.of_nat (String.length content)) in
        if (maxDataSizeLimit <? totalSize)%Z then Err (Errorf "bundle files exceeded %v bytes limit" [AInt maxDataSizeLimit])
        else
          let cm := ws_cm st in
          let validConfigMapKey := TranslateInvalidChars (it_Name file) in
          Ok (mkWriter (if gz then mkConfigMap (cm_Annotations cm) (cm_Data cm) (<[validConfigMapKey := content]> (cm_BinaryData cm))
                        else mkConfigMap (cm_Annotations cm) (<[validConfigMapKey := content]> (cm_Data cm)) (cm_BinaryData cm)) totalSize)
  end.
Definition write_dir (gz : bool) (maxDataSizeLimit : Z) (st : writer_state) (dir : directory) : res writer_state :=
  match dir with
  | inr e => Err e
  | inl files => foldR (write_file gz maxDataSizeLimit) st files
  end.
(** The config map got from the cluster, the two directories and the value of the
    environment variable; the config map that is sent back. *)
Definition ConfigMapWriter_Populate (get : ConfigMap + error) (update : ConfigMap → option error) (gz : bool) (maxDataSizeLimit : Z)
    (manifests metadata : directory) (sourceImage : string) : res ConfigMap :=
  match get with
  | inr e => Err e
  | inl cm =>
      st ← foldR (write_dir gz maxDataSizeLimit) (mkWriter (mkConfigMap (cm_Annotations cm) ∅ ∅) 0) [manifests; metadata];
      let cm := if decide (sourceImage ≠ "") then annotate ImageKey sourceImage (ws_cm st) else ws_cm st in
      let cm := if gz then setGzipEncodingAnnotation cm else cm in
      match update cm with Some e => Err e | None => Ok cm end
  end.

(** ** Reading *)
Definition decodeGzipBinaryData (cm : ConfigMap) : res (gmap string string) :=
  foldR (λ data nc,
    match GzipBase64Decode nc.2 with
    | inl decoded => Ok (<[nc.1 := decoded]> data)
    | inr e => Err (Errorf "error decoding gzip-encoded bundle data: %v" [AErr e])
    end) ∅ (range (cm_BinaryData cm)).
Definition set_csv_json (b : api_Bundle) (name json : string) : api_Bundle :=
  mkABundle name (ab_PackageName b) (ab_ChannelName b) json (ab_Object b) (ab_BundlePath b) (ab_ProvidedApis b) (ab_RequiredApis b)
    (ab_Version b) (ab_SkipRange b) (ab_Dependencies b) (ab_Properties b) (ab_Replaces b) (ab_Skips b).
Definition add_object (b : api_Bundle) (content : string) : api_Bundle :=
  mkABundle (ab_CsvName b) (ab_PackageName b) (ab_ChannelName b) (ab_CsvJson b) (ab_Object b ++ [content]) (ab_BundlePath b) (ab_ProvidedApis b) (ab_RequiredApis b)
    (ab_Version b) (ab_SkipRange b) (ab_Dependencies b) (ab_Properties b) (ab_Replaces b) (ab_Skips b).
Definition empty_abundle : api_Bundle := mkABundle "" "" "" "" [] "" [] [] "" "" [] [] "" [].
(** One entry of the data: the bundle and what was skipped. *)
Definition load_entry (st : api_Bundle * gmap string string) (nc : string * string) : res (api_Bundle * gmap string string) :=
  match decode_object nc.2 with
  | inr _ => Ok (st.1, <[nc.1 := nc.2]> st.2)
  | inl resource =>
      b ← (if decide (is_csv resource) then
             match o_encoded resource with
             | inr e => Err e
             | inl csvBytes => Ok (set_csv_json st.1 (o_Name resource) csvBytes)
             end
           else Ok st.1);
      Ok (add_object b nc.2, st.2)
  end.
Definition loadBundle (cm : ConfigMap) : res (api_Bundle * gmap string string) :=
  data ← (if hasGzipEncodingAnnotation cm then decodeGzipBinaryData cm else Ok (cm_Data cm));
  foldR load_entry (empty_abundle, ∅) (range data).
Definition Load (cm : option ConfigMap) : res api_Bundle :=
  match cm with
  | None => Err (ErrNew "ConfigMap must not be <nil>")
  | Some cm => bs ← wrap_err (λ e, Errorf "failed to extract bundle from configmap - %v" [AErr e]) (loadBundle cm); Ok bs.1
  end.
End configmap.
