(* ===== verification/ConfigMapSpec.v ===== *)
(** * Config maps hold the bundles written to them

    Reading back what was written, and the limit of bytes. *)
From S2P Require Import Prelude Semver Json JsonCompact JsonStream Property JsonTotal Model ModelOps Declcfg DeclcfgConv DeclcfgRoundtrip DeclcfgWrite DeclcfgLoad RegistryTypes RegistryBundle RegistryBundleSpec Api SqlLoad BundleFormat ConfigMapBundle.
From stdpp Require Import options.

(** ** What is written *)
(** The contents of the files other than annotations files, under their keys. *)
Definition file_contents (files : list dir_item) : list (string * string) :=
  omap (λ f, if decide (it_Name f = AnnotationsFile) then None
             else match it_Read f with inl c => Some (TranslateInvalidChars (it_Name f), c) | inr _ => None end) files.
Definition has_annotations (files : list dir_item) : Prop := ∃ f, f ∈ files ∧ it_Name f = AnnotationsFile.
Definition insert_files (m : gmap string string) (l : list (string * string)) : gmap string string := foldl (λ m kv, <[kv.1 := kv.2]> m) m l.
Lemma insert_files_app m l k : insert_files m (l ++ k) = insert_files (insert_files m l) k.
Proof. apply foldl_app. Qed.
Lemma insert_files_list m l : NoDup l.*1 → insert_files m l = list_to_map l ∪ m.
Proof.
  revert m. induction l as [|[k v] l IH]; intros m Hl; simpl; [by rewrite map_empty_union|].
  apply NoDup_cons in Hl as [Hk Hl]. unfold insert_files in *. simpl. rewrite IH by done.
  rewrite <- insert_union_l, insert_union_r; [done|]. by apply not_elem_of_list_to_map.
Qed.

Section written.
Context `{GoRuntime}.
Variable gzip : string → string.
Variable unmarshal_annotations : string → writer_annotations + error.
Notation write_file := (write_file gzip unmarshal_annotations).

Definition stored_entries (gz : bool) (files : list dir_item) : list (string * string) := prod_map id (encoded gzip gz) <$> file_contents files.
(** The map the files go to, and the one they do not go to. *)
Definition target (gz : bool) (cm : ConfigMap) : gmap string string := if gz then cm_BinaryData cm else cm_Data cm.
Definition other (gz : bool) (cm : ConfigMap) : gmap string string := if gz then cm_Data cm else cm_BinaryData cm.
Record wrote (gz : bool) (files : list dir_item) (st st' : writer_state) : Prop := {
  wr_target : target gz (ws_cm st') = insert_files (target gz (ws_cm st)) (stored_entries gz files);
  wr_other : other gz (ws_cm st') = other gz (ws_cm st);
  wr_annotations : cm_Annotations (ws_cm st') = cm_Annotations (ws_cm st) ∧ ¬ has_annotations files ∨
                   ∃ a, cm_Annotations (ws_cm st') = Some (label_annotations a)
}.
Lemma has_annotations_cons f files : has_annotations (f :: files) ↔ it_Name f = AnnotationsFile ∨ has_annotations files.
Proof. unfold has_annotations. set_solver. Qed.
Lemma write_file_wrote gz limit st f st' : write_file gz limit st f = Ok st' → wrote gz [f] st st'.
Proof.
  unfold ConfigMapBundle.write_file. destruct (it_Read f) as [c|e] eqn:Er; [|done]. case_decide as Ea.
  - destruct (unmarshal_annotations c) as [a|]; [|done]. intros [= <-].
    assert (stored_entries gz [f] = []) as Es by (unfold stored_entries, file_contents; cbn; by rewrite decide_True).
    split; cbn [ws_cm]; [rewrite Es; by destruct gz|by destruct gz|eauto].
  - cbv zeta. destruct (limit <? _)%Z; [done|]. intros [= <-].
    assert (stored_entries gz [f] = [(TranslateInvalidChars (it_Name f), encoded gzip gz c)]) as Es
      by (unfold stored_entries, file_contents; cbn; by rewrite decide_False, Er).
    split; cbn [ws_cm]; [rewrite Es; by destruct gz|by destruct gz|]. left. split; [by destruct gz|].
    rewrite has_annotations_cons. intros [?|(g & ?%elem_of_nil & _)]; done.
Qed.
Lemma stored_entries_app gz l k : stored_entries gz (l ++ k) = stored_entries gz l ++ stored_entries gz k.
Proof. unfold stored_entries, file_contents. by rewrite omap_app, fmap_app. Qed.
Lemma wrote_trans gz l k st1 st2 st3 : wrote gz l st1 st2 → wrote gz k st2 st3 → wrote gz (l ++ k) st1 st3.
Proof.
  intros [T1 O1 A1] [T2 O2 A2]. split.
  - by rewrite T2, T1, stored_entries_app, insert_files_app.
  - by rewrite O2, O1.
  - destruct A2 as [[E2 N2]|A2]; [|by right]. rewrite E2. destruct A1 as [[E1 N1]|A1]; [|by right]. left. split; [done|].
    unfold has_annotations in *. set_solver.
Qed.
Lemma wrote_nil gz st : wrote gz [] st st.
Proof. split; [done..|]. left. split; [done|]. by intros (f & ?%elem_of_nil & _). Qed.
Lemma write_files_wrote gz limit files st st' : foldR (write_file gz limit) st files = Ok st' → wrote gz files st st'.
Proof.
  revert st. induction files as [|f files IH]; intros st; simpl; [intros [= <-]; apply wrote_nil|].
  intros (st1 & H1%write_file_wrote & H2%IH)%bind_Ok. exact (wrote_trans gz [f] files _ _ _ H1 H2).
Qed.

End written.

(** ** Reading it back *)
Section read_back.
Variable decode_object : string → k8s_object + error.
Definition decodes (c : string) : bool := match decode_object c with inl _ => true | inr _ => false end.
(** The CSV of the bundle is one of the objects, unless none of them is a CSV. *)
Definition csv_from (contents : list string) (b : api_Bundle) : Prop :=
  (∃ c o s, c ∈ contents ∧ decode_object c = inl o ∧ is_csv o ∧ o_encoded o = inl s ∧ ab_CsvName b = o_Name o ∧ ab_CsvJson b = s) ∨
  (∀ c o, c ∈ contents → decode_object c = inl o → ¬ is_csv o) ∧ ab_CsvName b = "" ∧ ab_CsvJson b = "".
Definition csvs_encode (contents : list string) : Prop :=
  ∀ c o, c ∈ contents → decode_object c = inl o → is_csv o → ∃ s, o_encoded o = inl s.
Lemma csv_from_more seen b b' c :
  csv_from seen b → ab_CsvName b' = ab_CsvName b → ab_CsvJson b' = ab_CsvJson b →
  (∀ o, decode_object c = inl o → ¬ is_csv o) → csv_from (seen ++ [c]) b'.
Proof.
  intros Hs E1 E2 Hc. unfold csv_from. rewrite E1, E2. destruct Hs as [(c' & o' & s & ? & ?)|[Hn ?]]; [left; exists c', o', s; split; [set_solver|done]|right].
  split; [|done]. intros c' o' [Hc'| ->%list_elem_of_singleton]%elem_of_app Ho'; [by eapply Hn|by apply Hc].
Qed.
Lemma load_entry_step b sk seen k c :
  csvs_encode [c] → csv_from seen b →
  ∃ b' sk', load_entry decode_object (b, sk) (k, c) = Ok (b', sk') ∧
    ab_Object b' = ab_Object b ++ (if decodes c then [c] else []) ∧ csv_from (seen ++ [c]) b'.
Proof.
  intros He Hs. unfold load_entry, decodes. cbn [fst snd]. destruct (decode_object c) as [o|e] eqn:Ed.
  - case_decide as Ec.
    + destruct (He c o) as [s Eo]; [left|done..|]. rewrite Eo. eexists _, _. split; [reflexivity|]. split; [done|].
      left. exists c, o, s. split; [set_solver|done].
    + eexists _, _. split; [reflexivity|]. split; [done|]. eapply csv_from_more; [done..|]. intros o' Ho'. congruence.
  - eexists _, _. split; [reflexivity|]. split; [by rewrite app_nil_r|]. eapply csv_from_more; [done..|]. congruence.
Qed.
Lemma filter_decodes c l :
  filter (λ c, decodes c = true) (c :: l) = (if decodes c then [c] else []) ++ filter (λ c, decodes c = true) l.
Proof. rewrite filter_cons. destruct (decodes c) eqn:E; [by rewrite decide_True|by rewrite decide_False]. Qed.
Lemma load_entries l b sk seen :
  csvs_encode l.*2 → csv_from seen b →
  ∃ r, foldR (load_entry decode_object) (b, sk) l = Ok r ∧
    ab_Object r.1 = ab_Object b ++ filter (λ c, decodes c = true) l.*2 ∧ csv_from (seen ++ l.*2) r.1.
Proof.
  revert b sk seen. induction l as [|[k c] l IH]; intros b sk seen He Hs.
  - exists (b, sk). cbn. rewrite !app_nil_r. done.
  - destruct (load_entry_step b sk seen k c) as (b' & sk' & Hb & Ho & Hc); [|done|].
    { intros ? ? ->%list_elem_of_singleton. apply He. left. }
    destruct (IH b' sk' (seen ++ [c])) as (r & Hr & Ho' & Hc'); [|done|]. { intros ? ? ?. apply He. by right. }
    exists r. cbn [foldR]. rewrite Hb. split; [done|]. rewrite fmap_cons, filter_decodes. cbn [snd].
    rewrite Ho', Ho, <- !app_assoc in *. done.
Qed.
Lemma csvs_encode_perm l k : l ≡ₚ k → csvs_encode l → csvs_encode k.
Proof. intros Hp Hl c o Hc. apply Hl. by rewrite Hp. Qed.
Lemma csv_from_perm l k b : l ≡ₚ k → csv_from l b → csv_from k b.
Proof.
  intros Hp [(c & o & s & ? & ?)|[Hn ?]]; [left; exists c, o, s; by rewrite <- Hp|right; split; [|done]].
  intros c o Hc. apply Hn. by rewrite Hp.
Qed.
End read_back.

(** Decoding what was encoded gives the contents. *)
Section compressed.
Context `{GoRuntime}.
Variable gzip : string → string.
Variable gunzip : string → string + error.
Hypothesis gunzip_gzip : ∀ s, gunzip (gzip s) = inl s.

Lemma decode_encoded c : GzipBase64Decode gunzip (encoded gzip true c) = inl c.
Proof using gunzip_gzip. unfold GzipBase64Decode, encoded, GzipBase64Encode. by rewrite b64_roundtrip. Qed.
Lemma decode_rows (rows : list (string * string)) d :
  foldR (λ data nc, match GzipBase64Decode gunzip nc.2 with inl decoded => Ok (<[nc.1 := decoded]> data)
         | inr e => Err (Errorf "error decoding gzip-encoded bundle data: %v" [AErr e]) end) d (prod_map id (encoded gzip true) <$> rows) =
  Ok (insert_files d rows).
Proof using gunzip_gzip.
  revert d. induction rows as [|[k c] rows IH]; intros d; [done|]. rewrite fmap_cons. cbn [foldR prod_map fst snd]. rewrite decode_encoded. apply IH.
Qed.
Lemma decode_data (l : list (string * string)) cm :
  NoDup l.*1 → cm_BinaryData cm = list_to_map (prod_map id (encoded gzip true) <$> l) →
  decodeGzipBinaryData gunzip cm = Ok (list_to_map l).
Proof using gunzip_gzip.
  intros Hl Hd. unfold decodeGzipBinaryData. rewrite Hd.
  assert (range (list_to_map (prod_map id (encoded gzip true) <$> l) : gmap string string) ≡ₚ prod_map id (encoded gzip true) <$> l) as Hp.
  { rewrite range_perm. apply map_to_list_to_map. rewrite <- list_fmap_compose. exact Hl. }
  apply Permutation_map_inv in Hp as (l' & -> & Hp).
  change (map ?f ?k) with (f <$> k). rewrite decode_rows. f_equal. symmetry in Hp.
  rewrite insert_files_list, map_union_empty; [|by rewrite Hp]. apply list_to_map_proper; [by rewrite Hp|by rewrite Hp].
Qed.
End compressed.

(** ** Writing and reading *)
Section roundtrip.
Context `{GoRuntime}.
Variable gzip : string → string.
Variable gunzip : string → string + error.
Variable unmarshal_annotations : string → writer_annotations + error.
Variable decode_object : string → k8s_object + error.
Variable update : ConfigMap → option error.
Notation populate := (ConfigMapWriter_Populate gzip unmarshal_annotations).

(** What a successful write leaves in the config map. *)
Lemma populated cm0 gz limit mfiles dfiles image cm :
  populate (inl cm0) update gz limit (inl mfiles) (inl dfiles) image = Ok cm →
  ∃ st, wrote gzip gz (mfiles ++ dfiles) (mkWriter (mkConfigMap (cm_Annotations cm0) ∅ ∅) 0) st ∧
    target gz cm = target gz (ws_cm st) ∧ other gz cm = other gz (ws_cm st) ∧
    foldR (write_file gzip unmarshal_annotations gz limit) (mkWriter (mkConfigMap (cm_Annotations cm0) ∅ ∅) 0) (mfiles ++ dfiles) = Ok st ∧
    cm_Annotations cm = cm_Annotations (let c := if decide (image ≠ "") then annotate ImageKey image (ws_cm st) else ws_cm st in
                                         if gz then setGzipEncodingAnnotation c else c).
Proof.
  unfold ConfigMapWriter_Populate. intros (st & Hst & Hu)%bind_Ok. exists st.
  assert (foldR (write_file gzip unmarshal_annotations gz limit) (mkWriter (mkConfigMap (cm_Annotations cm0) ∅ ∅) 0) (mfiles ++ dfiles) = Ok st) as Hf.
  { rewrite foldR_app. cbn [foldR write_dir] in Hst. apply bind_Ok in Hst as (st1 & H1 & (st2 & H2 & [= <-])%bind_Ok). rewrite H1. exact H2. }
  split; [by eapply write_files_wrote|]. destruct (update _); [done|]. injection Hu as <-.
  split_and!; [..|done|done]; (destruct gz; case_decide; done).
Qed.
Lemma label_annotations_gzip a : label_annotations a !! GzipKey = None.
Proof. apply not_elem_of_list_to_map. cbn. apply (bool_decide_unpack _). vm_compute. exact I. Qed.
Lemma gzip_annotation cm0 gz files st image cm :
  wrote gzip gz files (mkWriter (mkConfigMap (cm_Annotations cm0) ∅ ∅) 0) st →
  (gz = false → hasGzipEncodingAnnotation cm0 = false ∨ has_annotations files) →
  cm_Annotations cm = cm_Annotations (let c := if decide (image ≠ "") then annotate ImageKey image (ws_cm st) else ws_cm st in
                                      if gz then setGzipEncodingAnnotation c else c) →
  hasGzipEncodingAnnotation cm = gz.
Proof.
  intros [_ _ Ha] Hs Hc. unfold hasGzipEncodingAnnotation. rewrite Hc. destruct gz.
  - apply bool_decide_eq_true. cbn. by rewrite lookup_insert_eq.
  - assert (default ∅ (cm_Annotations (ws_cm st)) !! GzipKey ≠ Some GzipEncoding) as Hn.
    { cbn in Ha. destruct Ha as [[-> Hf]|[a ->]]; [|change (label_annotations a !! GzipKey ≠ Some GzipEncoding); by rewrite label_annotations_gzip].
      destruct (Hs eq_refl) as [Hg|]; [|done]. by apply bool_decide_eq_false in Hg. }
    apply bool_decide_eq_false. case_decide; [|done]. cbn. unfold initAndGetAnnotations. by rewrite lookup_insert_ne.
Qed.

(** C22. A bundle written to a config map is read back.  When the writer succeeds,
    compressing or not, and the names of the files stay apart as keys, the loader
    returns a bundle whose objects are exactly the contents of the files that are
    objects, and whose CSV is one of them; provided the CSVs can be encoded and the
    config map does not keep, from an earlier use, the mark that says its contents
    are compressed. *)
Theorem config_map_roundtrip cm0 gz limit mfiles dfiles image cm :
  (∀ s, gunzip (gzip s) = inl s) →
  populate (inl cm0) update gz limit (inl mfiles) (inl dfiles) image = Ok cm →
  NoDup (file_contents (mfiles ++ dfiles)).*1 →
  (gz = false → hasGzipEncodingAnnotation cm0 = false ∨ has_annotations (mfiles ++ dfiles)) →
  csvs_encode decode_object (file_contents (mfiles ++ dfiles)).*2 →
  ∃ b, Load gunzip decode_object (Some cm) = Ok b ∧
    ab_Object b ≡ₚ filter (λ c, decodes decode_object c = true) (file_contents (mfiles ++ dfiles)).*2 ∧
    csv_from decode_object (file_contents (mfiles ++ dfiles)).*2 b.
Proof.
  intros Hz (st & Hw & Ht & _ & _ & Ha)%populated Hnd Hs He. set (files := mfiles ++ dfiles) in *. set (l := file_contents files) in *.
  pose proof (gzip_annotation cm0 gz files st image cm Hw Hs Ha) as Hg.
  assert (target gz cm = list_to_map (prod_map id (encoded gzip gz) <$> l)) as Htm.
  { rewrite Ht, (wr_target _ _ _ _ _ Hw). cbn [ws_cm].
    assert (target gz (mkConfigMap (cm_Annotations cm0) ∅ ∅) = ∅) as -> by (by destruct gz).
    rewrite insert_files_list, map_union_empty; [done|]. unfold stored_entries. rewrite <- list_fmap_compose. exact Hnd. }
  assert ((if hasGzipEncodingAnnotation cm then decodeGzipBinaryData gunzip cm else Ok (cm_Data cm)) = Ok (list_to_map l)) as Hd.
  { rewrite Hg. destruct gz; [by eapply decode_data|]. cbn in Htm. rewrite Htm. do 2 f_equal.
    rewrite <- (list_fmap_id l) at 2. apply list_fmap_ext. by intros ? [] ?. }
  assert (range (list_to_map l : gmap string string) ≡ₚ l) as Hp by (rewrite range_perm; by apply map_to_list_to_map).
  destruct (load_entries decode_object (range (list_to_map l : gmap string string)) empty_abundle ∅ []) as (r & Hr & Ho & Hc).
  - eapply csvs_encode_perm; [|done]. by rewrite Hp.
  - right. split; [by intros ? ? ?%elem_of_nil|done].
  - exists r.1. unfold Load, loadBundle. rewrite Hd. cbn [mbind res_bind]. rewrite Hr. split; [done|]. rewrite Ho. cbn. split; [by rewrite Hp|].
    eapply csv_from_perm; [|done]. cbn. by rewrite Hp.
Qed.

(** ** The limit *)
Fixpoint total_length (l : list string) : Z :=
  match l with [] => 0%Z | s :: l' => (Z.of_nat (String.length s) + total_length l')%Z end.
Definition data_size (m : gmap string string) : Z := total_length (map_to_list m).*2.
Lemma total_length_perm l k : l ≡ₚ k → total_length l = total_length k.
Proof. induction 1; cbn in *; lia. Qed.
Lemma data_size_insert m k v : (data_size (<[k := v]> m) ≤ data_size m + Z.of_nat (String.length v))%Z.
Proof.
  unfold data_size. rewrite <- insert_delete_eq.
  rewrite (total_length_perm (map_to_list (<[k := v]> (delete k m))).*2 (v :: (map_to_list (delete k m)).*2)).
  2:{ by rewrite map_to_list_insert by apply lookup_delete_eq. }
  cbn. assert (total_length (map_to_list (delete k m)).*2 ≤ total_length (map_to_list m).*2)%Z; [|lia].
  destruct (m !! k) as [w|] eqn:E; [|by rewrite delete_id].
  rewrite (total_length_perm (map_to_list m).*2 (w :: (map_to_list (delete k m)).*2)); [cbn; lia|].
  by rewrite <- (map_to_list_delete m k w E).
Qed.
Lemma insert_all_size m l : (data_size (insert_files m l) ≤ data_size m + total_length l.*2)%Z.
Proof.
  revert m. induction l as [|[k v] l IH]; intros m; cbn in *; [lia|]. pose proof (IH (<[k := v]> m)). pose proof (data_size_insert m k v).
  unfold insert_files in *. cbn in *. lia.
Qed.
Lemma total_length_app l k : total_length (l ++ k) = (total_length l + total_length k)%Z.
Proof. induction l; cbn in *; lia. Qed.
Lemma write_files_size gz limit files st st' :
  (0 ≤ ws_totalSize st ≤ limit)%Z → (limit ≤ 2 ^ 63)%Z → Forall (λ s, Z.of_nat (String.length s) < 2 ^ 63)%Z (stored_entries gzip gz files).*2 →
  foldR (write_file gzip unmarshal_annotations gz limit) st files = Ok st' →
  ws_totalSize st' = (ws_totalSize st + total_length (stored_entries gzip gz files).*2)%Z ∧ (ws_totalSize st' ≤ limit)%Z.
Proof.
  intros Ht Hl. revert st Ht. induction files as [|f files IH]; intros st Ht Hs; cbn [foldR].
  - intros [= <-]. cbn. lia.
  - change (f :: files) with ([f] ++ files) in *. rewrite stored_entries_app, fmap_app in *. apply Forall_app in Hs as [Hf Hs].
    rewrite total_length_app. intros (st1 & H1 & H2)%bind_Ok.
    assert (ws_totalSize st1 = ws_totalSize st + total_length (stored_entries gzip gz [f]).*2 ∧ ws_totalSize st1 ≤ limit)%Z as [E1 L1].
    { unfold write_file in H1. destruct (it_Read f) as [c|e] eqn:Er; [|done]. unfold stored_entries, file_contents in *. cbn in *. rewrite Er in *.
      case_decide; [destruct (unmarshal_annotations c); [|done]; injection H1 as <-; cbn; lia|].
      cbn in *. apply Forall_cons in Hf as [Hf _]. revert H1. cbv zeta. unfold uint64. rewrite Z.mod_small by lia.
      destruct (Z.ltb_spec limit (ws_totalSize st + Z.of_nat (String.length (encoded gzip gz c)))%Z); [done|]. intros [= <-]. cbn. lia. }
    destruct (IH st1) as [E2 L2]; [|done|done|lia]. split; [|done]. rewrite E1. clear -Ht Hs E1. 
    assert (∀ l, 0 ≤ total_length l)%Z as Hp by (induction l; cbn in *; lia). pose proof (Hp (stored_entries gzip gz [f]).*2). lia.
Qed.

(** C40. The limit of bytes is kept.  When the writer succeeds under a limit of at
    most 2^63 bytes, with files of less than 2^63 bytes (a length is a signed 64-bit
    integer), no sum has wrapped: the contents of all files as they are stored,
    and so the data of the config map, are within the limit. *)
Theorem config_map_limit cm0 gz limit mfiles dfiles image cm :
  (0 ≤ limit ≤ 2 ^ 63)%Z → Forall (λ s, Z.of_nat (String.length s) < 2 ^ 63)%Z (stored_entries gzip gz (mfiles ++ dfiles)).*2 →
  populate (inl cm0) update gz limit (inl mfiles) (inl dfiles) image = Ok cm →
  (data_size (cm_Data cm) + data_size (cm_BinaryData cm) ≤ total_length (stored_entries gzip gz (mfiles ++ dfiles)).*2)%Z ∧
  (total_length (stored_entries gzip gz (mfiles ++ dfiles)).*2 ≤ limit)%Z.
Proof.
  intros Hl Hs (st & [Ht Ho _] & Et & Eo & Hf & _)%populated. apply write_files_size in Hf as [E L]; [|cbn; lia|lia|done]. cbn in E.
  split; [|lia]. rewrite <- Et in Ht. rewrite <- Eo in Ho.
  pose proof (insert_all_size ∅ (stored_entries gzip gz (mfiles ++ dfiles))) as Hi.
  assert (data_size ∅ = 0%Z) as E0 by (unfold data_size; by rewrite map_to_list_empty).
  destruct gz; cbn in Ht, Ho; rewrite Ht, Ho, E0 in *; lia.
Qed.
End roundtrip.

(** ** Examples *)
Definition ex_files : list dir_item := [mkItem "foo (csv).yaml" false (inl "csv"); mkItem "notes.txt" false (inl "notes")].
Definition ex_metadata : list dir_item := [mkItem "annotations.yaml" false (inl "annotations")].
Definition ex_decode_object (s : string) : k8s_object + error := if decide (s = "csv") then inl ex_csv_object else inr (ErrNew "not an object").
Definition ex_write (gz : bool) (limit : Z) : res ConfigMap :=
  ConfigMapWriter_Populate (λ s, s) (λ _, inl (mkWriterAnnotations "manifests/" "registry+v1" "metadata/" "foo" "stable" ""))
    (inl (mkConfigMap None ∅ ∅)) (λ _, None) gz limit (inl ex_files) (inl ex_metadata) "quay.io/foo:1".
Example ex_translate : TranslateInvalidChars "foo (csv).yaml" = "foo~~csv~.yaml".
Proof. reflexivity. Qed.
Lemma ex_write_Ok gz : is_Ok (ex_write gz 100) ∧ is_Ok (ex_write false 8).
Proof.
  assert (∀ r : res ConfigMap, match r with Ok _ => true | _ => false end = true → is_Ok r) as Hr by (intros [cm| |] ?; [by exists cm|done..]).
  split; apply Hr; destruct gz; vm_compute; reflexivity.
Qed.
Lemma config_map_roundtrip_witness : ∃ cm b, ex_write true 100 = Ok cm ∧
  Load (H := go_default) inl ex_decode_object (Some cm) = Ok b ∧ ab_Object b ≡ₚ ["csv"].
Proof.
  pose proof (proj1 (ex_write_Ok true)) as [cm Ew].
  destruct (config_map_roundtrip (H := go_default) (λ s, s) inl (λ _, inl (mkWriterAnnotations "manifests/" "registry+v1" "metadata/" "foo" "stable" ""))
    ex_decode_object (λ _, None) (mkConfigMap None ∅ ∅) true 100 ex_files ex_metadata "quay.io/foo:1" cm) as (b & Hb & Ho & _).
  - intros s. reflexivity.
  - exact Ew.
  - apply (bool_decide_unpack _). vm_compute. exact I.
  - discriminate.
  - intros c o Hc Hd. assert ((file_contents (ex_files ++ ex_metadata)).*2 = ["csv"; "notes"]) as E by (vm_compute; reflexivity). rewrite E in Hc. apply elem_of_cons in Hc as [->|[->|[]%elem_of_nil]%elem_of_cons]; vm_compute in Hd; [|discriminate].
    injection Hd as <-. intros _. eexists. reflexivity.
  - exists cm, b. split; [done|]. split; [exact Hb|]. rewrite Ho. apply reflexive_eq. vm_compute. reflexivity.
Defined.
Lemma config_map_limit_witness : ∃ cm, ex_write false 8 = Ok cm ∧ (data_size (cm_Data cm) + data_size (cm_BinaryData cm) ≤ 8)%Z.
Proof.
  pose proof (proj2 (ex_write_Ok true)) as [cm Ew]. exists cm. split; [done|].
  destruct (config_map_limit (λ s, s) (λ _, inl (mkWriterAnnotations "manifests/" "registry+v1" "metadata/" "foo" "stable" ""))
    (λ _, None) (mkConfigMap None ∅ ∅) false 8 ex_files ex_metadata "quay.io/foo:1" cm) as [H1 H2].
  - lia.
  - repeat constructor.
  - exact Ew.
  - lia.
Defined.
