(* ===== verification/Render.v ===== *)
(** * Rendering references as declarative config

    [internal/action/render.go] and [internal/action/init.go]: each reference, a
    directory of configs, a database file or an image of either or of a bundle,
    becomes a declarative config, the objects of its bundles become properties, and
    the configs are put together.

    Opening and migrating a database file, listing a directory and the image
    registry are parameters; so is the detection of file types. *)
From S2P Require Import Prelude Semver Json JsonCompact JsonStream Property JsonTotal Model ModelOps Declcfg DeclcfgConv DeclcfgRoundtrip DeclcfgWrite DeclcfgLoad RegistryTypes RegistryBundle RegistryBundleSpec Api Query QuerySpec Conversion Graph Sql SqlLoad SqlInv SqlGraph SqlAdd SqlQuery SqlQuerySpec SqlModel BundleParse BundleFormat.
From stdpp Require Import options.

(** ** Related images of the index *)
Definition image_rows (rows : list (string * string)) : gmap string (gset string) :=
  foldl (λ images r, <[r.2 := {[r.1]} ∪ default ∅ (images !! r.2)]> images) ∅ rows.
Definition with_images (b : declcfg_Bundle) (ris : list declcfg_RelatedImage) : declcfg_Bundle :=
  mkDBundle (db_Schema b) (db_Name b) (db_Package b) (db_Image b) (db_Properties b) ris (db_CsvJSON b) (db_Objects b).
Definition with_bundles (cfg : DeclarativeConfig) (bundles : list declcfg_Bundle) : DeclarativeConfig :=
  mkCfg (cfg_Packages cfg) bundles (cfg_Others cfg).

Section render.
Context `{GoRuntime}.
Variable decode_meta : string → res (string * string).
Variable odd_names : gset string → gset string → gset string → api_tables → res (list (gvk * string)).
Variable decode_icons : string → res (list (string * string)).
Variable kind : string → option string.
Variable read : string → string → res string.

(** One bundle of the config.  The set of its name is shared by the bundles of that
    name: what one of them has already is deleted from it for good. *)
Definition extend_images (images : gmap string (gset string)) (b : declcfg_Bundle) : gmap string (gset string) * declcfg_Bundle :=
  match images !! db_Name b with
  | None => (images, b)
  | Some ris =>
      let ris := ris ∖ list_to_set (dri_Image <$> db_RelatedImages b) in
      (<[db_Name b := ris]> images, with_images b (db_RelatedImages b ++ (mkDRI "" <$> range_set ris)))
  end.
Fixpoint add_all_images (images : gmap string (gset string)) (bundles : list declcfg_Bundle) : list declcfg_Bundle :=
  match bundles with
  | [] => []
  | b :: bundles' => let '(images', b') := extend_images images b in b' :: add_all_images images' bundles'
  end.
Definition populateDBRelatedImages (cfg : DeclarativeConfig) (d : db) : DeclarativeConfig :=
  with_bundles cfg (add_all_images (image_rows (related_image d)) (cfg_Bundles cfg)).

(** ** Bundles *)
Definition getRelatedImages : BM (list declcfg_RelatedImage) :=
  csv ← the_csv;
  l ← lift (related_images csv);
  lift (Ok ((λ i, mkDRI (rel_Name i) (rel_Ref i)) <$> l)).
Definition bundleToDeclcfg : BM DeclarativeConfig := λ b,
  (bundleProperties ← wrap_bm (λ e, Errorf "get properties for bundle %q: %v" [AStr (rb_Name b); AErr e]) PropertiesFromBundle;
   relatedImages ← wrap_bm (λ e, Errorf "get related images for bundle %q: %v" [AStr (rb_Name b); AErr e]) getRelatedImages;
   lift (Ok (mkCfg [] [mkDBundle schemaBundle (rb_Name b) (rb_Package b) (rb_BundleImage b) bundleProperties relatedImages "" []] []))) b.

(** The properties that are objects are replaced by the objects themselves. *)
Definition render_objects (b : declcfg_Bundle) : res declcfg_Bundle :=
  objs ← mapR (MustBuildBundleObjectData init_scheme) (db_Objects b);
  Ok (with_properties b (filter (λ p, p_Type p ≠ TypeBundleObject) (db_Properties b) ++ objs)).
Definition renderBundleObjects (cfg : DeclarativeConfig) : res DeclarativeConfig :=
  bundles ← mapR render_objects (cfg_Bundles cfg); Ok (with_bundles cfg bundles).
Definition combineConfigs (cfgs : list DeclarativeConfig) : DeclarativeConfig :=
  foldl (λ out cfg, mkCfg (cfg_Packages out ++ cfg_Packages cfg) (cfg_Bundles out ++ cfg_Bundles cfg) (cfg_Others out ++ cfg_Others cfg))
    (mkCfg [] [] []) cfgs.

(** ** References *)
(** Opening and migrating a database file, and walking a directory of configs. *)
Variable open_index : string → res db.
Variable ignore_matcher : string → res (string → bool).
Variable ConfigFS : string → option (list walk_entry).
Variable DirFS : string → bundle_fs.
Variable TempDir : string + error.
(** The name of the type of a file, and whether it is that of a database. *)
Variable MatchFile : string → (string * bool) + error.
(** The type of what a path leads to, if anything: whether it is a directory. *)
Variable Stat : string → option bool.
Record render_registry := mkRenderRegistry {
  rr_Pull : string → option error;
  rr_Labels : string → gmap string string + error;
  rr_Unpack : string → string → option error
}.
Definition DbLocationLabel : string := "operators.operatorframework.io.index.database.v1".
Definition ConfigsLocationLabel : string := "operators.operatorframework.io.index.configs.v1".

Definition sqliteToDeclcfg (dbFile : string) : res DeclarativeConfig :=
  d ← open_index dbFile;
  hm ← ToModel decode_meta odd_names decode_icons d;
  cfg ← ConvertFromModel hm.1 hm.2;
  Ok (populateDBRelatedImages cfg d).
Definition checkDBFile (ref : string) : res unit :=
  match MatchFile ref with
  | inr e => Err e
  | inl (typ, is_sqlite) =>
      if (is_sqlite : bool) then Ok tt else Err (Errorf "ref %q has unsupported file type: %s" [AStr ref; AStr typ])
  end.
Definition load_configs (dir : string) : res DeclarativeConfig := LoadFS kind read (ignore_matcher dir) (ConfigFS dir).
Definition filepath_Join (dir name : string) : string := dir +:+ "/" +:+ name.
(** The labels are listed in the order of their keys. *)
Definition undetermined (ref : string) (labels : gmap string string) : error :=
  if decide (labels = ∅) then Errorf "render %q: image type could not be determined: image has no labels" [AStr ref]
  else Errorf "render %q: image type could not be determined, found labels\n%s"
         [AStr ref; AStr (Join ((λ k, "  " +:+ k +:+ "=" +:+ default "" (labels !! k)) <$> sort_slice str_lt (elements (dom labels))) newline)].
Definition image_config (ref tmpDir : string) (labels : gmap string string) : res DeclarativeConfig :=
  match labels !! DbLocationLabel with
  | Some dbFile => sqliteToDeclcfg (filepath_Join tmpDir dbFile)
  | None =>
      match labels !! ConfigsLocationLabel with
      | Some configsDir => load_configs (filepath_Join tmpDir configsDir)
      | None =>
          match labels !! PackageLabel with
          | Some _ => img ← NewImageInput DirFS ref tmpDir; (bundleToDeclcfg (ii_Bundle img)).2
          | None => Err (undetermined ref labels)
          end
      end
  end.
Definition of_option_err (e : option error) : res unit := match e with Some e => Err e | None => Ok tt end.
Definition of_sum {A} (x : A + error) : res A := match x with inl a => Ok a | inr e => Err e end.
Definition imageToDeclcfg (reg : render_registry) (imageRef : string) : res DeclarativeConfig :=
  _ ← of_option_err (rr_Pull reg imageRef);
  labels ← of_sum (rr_Labels reg imageRef);
  tmpDir ← of_sum TempDir;
  _ ← of_option_err (rr_Unpack reg imageRef tmpDir);
  image_config imageRef tmpDir labels.
Definition render_error (ref : string) (e : error) : error := Errorf "render reference %q: %v" [AStr ref; AErr e].
Definition render_ref (reg : render_registry) (ref : string) : res DeclarativeConfig :=
  cfg ← match Stat ref with
        | Some true => wrap_err (render_error ref) (load_configs ref)
        | Some false => _ ← checkDBFile ref; wrap_err (render_error ref) (sqliteToDeclcfg ref)
        | None => wrap_err (render_error ref) (imageToDeclcfg reg ref)
        end;
  renderBundleObjects cfg.
Definition Render_Run (registry : option render_registry) (created : res render_registry) (refs : list string) : res DeclarativeConfig :=
  reg ← match registry with
        | Some reg => Ok reg
        | None => wrap_err (λ e, Errorf "create registry: %v" [AErr e]) created
        end;
  cfgs ← mapR (render_ref reg) refs;
  Ok (combineConfigs cfgs).
End render.

(** ** Starting a package *)
Record Init := mkInit {
  init_Package : string;
  init_DefaultChannel : string;
  init_DescriptionReader : option (string + error);
  init_IconReader : option (string + error)
}.
(** [filetype.Match]: the type and the value of the MIME type. *)
Definition Init_Run (filetype_Match : string → (string * string) + error) (i : Init) : res declcfg_Package :=
  description ← match init_DescriptionReader i with
                | None => Ok ""
                | Some r => wrap_err (λ e, Errorf "read description: %v" [AErr e]) (of_sum r)
                end;
  icon ← match init_IconReader i with
         | None => Ok None
         | Some r =>
             iconData ← wrap_err (λ e, Errorf "read icon: %v" [AErr e]) (of_sum r);
             iconType ← wrap_err (λ e, Errorf "detect icon mediatype: %v" [AErr e]) (of_sum (filetype_Match iconData));
             if decide (iconType.1 = "image") then Ok (Some (mkDIcon iconData iconType.2))
             else Err (Errorf "detected invalid type %q: not an image" [AStr iconType.2])
         end;
  Ok (mkDPackage schemaPackage (init_Package i) (init_DefaultChannel i) icon description).
