(* ===== verification/RenderSpec.v ===== *)
(** * Rendering: what ends up in the config

    The objects of bundles survive being rendered and read again, the images of the
    index are added once, and the config of an index has exactly its packages and
    listed bundles. *)
From S2P Require Import Prelude Semver Json JsonCompact JsonStream Property JsonTotal Model ModelOps Declcfg DeclcfgConv DeclcfgRoundtrip DeclcfgWrite DeclcfgLoad RegistryTypes RegistryBundle RegistryBundleSpec Api Query QuerySpec Conversion Graph Sql SqlLoad SqlInv SqlGraph SqlAdd SqlQuery SqlQuerySpec SqlModel BundleParse BundleFormat Render.
From stdpp Require Import options.

(** ** Related images *)
Lemma image_rows_elem rows i n : i ∈ default ∅ (image_rows rows !! n) ↔ (i, n) ∈ rows.
Proof.
  unfold image_rows. induction rows as [|[i' n'] rows IH] using rev_ind; [set_solver|].
  rewrite foldl_snoc, elem_of_app, list_elem_of_singleton, <- IH. cbn [fst snd]. destruct (decide (n' = n)) as [->|Hne].
  - rewrite lookup_insert_eq. simpl. set_solver.
  - rewrite lookup_insert_ne by done. naive_solver.
Qed.

Section images.
Context `{GoRuntime}.
(** What one bundle gets: the images of the rows of its name that it lacks. *)
Definition images_added (rows : string → gset string) (b b' : declcfg_Bundle) : Prop :=
  ∃ l, b' = with_images b (db_RelatedImages b ++ (mkDRI "" <$> l)) ∧ NoDup l ∧
    ∀ i, i ∈ l ↔ i ∈ rows (db_Name b) ∧ i ∉ dri_Image <$> db_RelatedImages b.
Lemma with_images_same b : with_images b (db_RelatedImages b ++ []) = b.
Proof. rewrite app_nil_r. by destruct b. Qed.
Lemma extend_images_spec images b :
  images_added (λ n, default ∅ (images !! n)) b (extend_images images b).2 ∧
  ∀ n, n ≠ db_Name b → (extend_images images b).1 !! n = images !! n.
Proof.
  unfold extend_images, images_added. destruct (images !! db_Name b) as [ris|]; simpl.
  - split; [|intros n Hn; by rewrite lookup_insert_ne].
    exists (range_set (ris ∖ list_to_set (dri_Image <$> db_RelatedImages b))). split_and!; [done| |].
    + rewrite range_set_perm. apply NoDup_elements.
    + intros i. rewrite range_set_perm, elem_of_elements, elem_of_difference, elem_of_list_to_set. done.
  - split; [|done]. exists []. rewrite with_images_same. split_and!; [done|constructor|set_solver].
Qed.
Lemma add_all_images_spec rows bundles : ∀ images,
  NoDup (db_Name <$> bundles) → (∀ n, n ∈ db_Name <$> bundles → default ∅ (images !! n) = rows n) →
  Forall2 (images_added rows) bundles (add_all_images images bundles).
Proof.
  induction bundles as [|b bundles IH]; intros images Hnd Hrows; [constructor|]. rewrite fmap_cons in *. apply NoDup_cons in Hnd as [Hb Hnd].
  cbn [add_all_images]. pose proof (extend_images_spec images b) as [(l & E & Hl & Hin) H2].
  destruct (extend_images images b) as [images' b']. simpl in *. constructor.
  - exists l. split_and!; [done|done|]. intros i. rewrite Hin, Hrows; [done|]. by left.
  - apply IH; [done|]. intros n Hn. rewrite H2; [apply Hrows; by right|]. by intros ->.
Qed.

(** Taking the related images of an index into its config: every bundle keeps
    its images and gets after them, each once, exactly the images the index has for
    its name that it did not have; nothing else changes. *)
Theorem populateDBRelatedImages_spec cfg d :
  NoDup (db_Name <$> cfg_Bundles cfg) →
  cfg_Packages (populateDBRelatedImages cfg d) = cfg_Packages cfg ∧ cfg_Others (populateDBRelatedImages cfg d) = cfg_Others cfg ∧
  Forall2 (λ b b', ∃ l, b' = with_images b (db_RelatedImages b ++ (mkDRI "" <$> l)) ∧ NoDup l ∧
      ∀ i, i ∈ l ↔ (i, db_Name b) ∈ related_image d ∧ i ∉ dri_Image <$> db_RelatedImages b)
    (cfg_Bundles cfg) (cfg_Bundles (populateDBRelatedImages cfg d)).
Proof.
  intros Hnd. split_and!; [done|done|]. eapply Forall2_impl; [by apply (add_all_images_spec (λ n, default ∅ (image_rows (related_image d) !! n)))|].
  intros b b' (l & E & Hl & Hin). exists l. split_and!; [done|done|]. intros i. by rewrite Hin, image_rows_elem.
Qed.
End images.

(** ** Objects *)
Section objects.
Lemma Parse_one_others out p out' :
  Parse_one out p = Ok out' → p_Type p ≠ TypeBundleObject → ps_BundleObjects out' = ps_BundleObjects out.
Proof.
  destruct out as [pk pr ch gv gr sk sr bo ot]. unfold Parse_one.
  repeat match goal with
  | |- context [if decide (p_Type p = ?t) then (?m ≫= _) else _] =>
      destruct (decide (p_Type p = t)) as [E|?]; [destruct m; simpl; [intros [= <-] Ht; first [reflexivity|by destruct Ht]|done..]|]
  end.
  destruct (Unmarshal _); [|done]. by intros [= <-].
Qed.
Lemma Parse_loop_others ps : ∀ i out, Forall property_ok ps → Forall (λ p, p_Type p ≠ TypeBundleObject) ps →
  ∃ out', Parse_loop i out ps = Ok out' ∧ ps_BundleObjects out' = ps_BundleObjects out.
Proof.
  induction ps as [|p ps IH]; intros i out Hok Ht; [by exists out|]. apply Forall_cons in Hok as [Hp Hok]. apply Forall_cons in Ht as [Htp Ht].
  destruct (property_ok_spec p) as [[_ Hall]|[Hn _]]; [|done]. destruct (Hall out) as [o Ho].
  destruct (IH (i + 1)%Z o Hok Ht) as (out' & E & Eb). exists out'. cbn [Parse_loop]. rewrite Ho. split; [exact E|].
  rewrite Eb. by eapply Parse_one_others.
Qed.
Lemma Parse_loop_app l k : ∀ i out, Parse_loop i out (l ++ k) = (out' ← Parse_loop i out l; Parse_loop (i + Z.of_nat (length l)) out' k).
Proof.
  induction l as [|p l IH]; intros i out; [cbn; by rewrite Z.add_0_r|]. cbn [app Parse_loop].
  destruct (wrap_err _ (Parse_one out p)); [|done..]. cbn [mbind res_bind]. rewrite IH.
  by replace (i + 1 + Z.of_nat (length l))%Z with (i + Z.of_nat (length (p :: l)))%Z by (cbn [length]; lia).
Qed.

(** The properties a bundle gets for its objects, and what they are read as. *)
Lemma object_properties (objs : list string) :
  ∃ ps, mapR (MustBuildBundleObjectData init_scheme) objs = Ok ps ∧ Forall (λ p, p_Type p = TypeBundleObject) ps ∧
    ∀ i out, ∃ out', Parse_loop i out ps = Ok out' ∧ ps_BundleObjects out' = ps_BundleObjects out ++ (mkFile "" <$> objs).
Proof.
  induction objs as [|o objs (ps & E & Ht & Hp)].
  - exists []. split_and!; [done|constructor|]. intros i out. exists out. by rewrite app_nil_r.
  - assert (iface_valid (IBundleObject (mkFile "" o))) as Hv by (split; [done|by left]).
    destruct (Build_Parse_one _ no_properties Hv) as (q & Hb & _). exists (q :: ps).
    assert (MustBuildBundleObjectData init_scheme o = Ok q) as Hm by (unfold MustBuildBundleObjectData, MustBuild; by rewrite Hb).
    split_and!; [cbn [mapR]; by rewrite Hm, E| |].
    + constructor; [|done]. unfold Build in Hb. simpl in Hb. destruct (jsonMarshal _); [|done..]. by injection Hb as <-.
    + intros i out. destruct (Build_Parse_one _ out Hv) as (q' & Hb' & Hq). assert (q' = q) as -> by congruence.
      destruct (Hp (i + 1)%Z (add_iface out (IBundleObject (mkFile "" o)))) as (out' & E' & Eb). exists out'.
      cbn [Parse_loop]. rewrite Hq. split; [exact E'|]. rewrite Eb. destruct out. simpl. by rewrite <- app_assoc.
Qed.

Definition object_prop (p : property_Property) : Prop := p_Type p = TypeBundleObject.
(** A bundle as a file holds it: the objects and the CSV are not written. *)
Definition as_written (b : declcfg_Bundle) : declcfg_Bundle :=
  mkDBundle (db_Schema b) (db_Name b) (db_Package b) (db_Image b) (db_Properties b) (db_RelatedImages b) "" [].

Variables (kind : string → option string) (read : string → string → res string).
Lemma render_one b path :
  is_Ok (property_Parse (db_Properties b)) →
  ∃ ps, mapR (MustBuildBundleObjectData init_scheme) (db_Objects b) = Ok ps ∧ Forall object_prop ps ∧
    let b' := with_properties b (filter (λ p, p_Type p ≠ TypeBundleObject) (db_Properties b) ++ ps) in
    render_objects b = Ok b' ∧ render_objects b' = Ok b' ∧
    readBundleObjects kind read [as_written b'] path = Ok [with_objects kind b' (db_Objects b)].
Proof.
  intros Hok. destruct (object_properties (db_Objects b)) as (ps & E & Ht & Hp). exists ps. split_and!; [done|done|].
  assert (Forall (λ p, p_Type p ≠ TypeBundleObject) (filter (λ p, p_Type p ≠ TypeBundleObject) (db_Properties b))) as Hf.
  { apply Forall_forall. intros p Hp'. by apply list_elem_of_filter in Hp' as [? _]. }
  split_and!.
  - unfold render_objects. by rewrite E.
  - unfold render_objects. cbn [with_properties db_Objects db_Properties]. rewrite E. cbn [mbind res_bind]. do 2 f_equal.
    rewrite Forall_forall in Hf, Ht. rewrite filter_app, (filter_full _ (filter _ _)) by done.
    rewrite (filter_none _ ps); [by rewrite app_nil_r|]. intros p Hin Hne. by apply Hne, Ht.
  - assert (Forall property_ok (db_Properties b)) as Hall.
    { destruct Hok as [props Hprops]. destruct (Parse_loop_cases 0 no_properties (db_Properties b)) as [[? _]|(j & p & e & _ & _ & _ & _ & E')]; [done|].
      unfold property_Parse in Hprops. congruence. }
    assert (Forall property_ok (filter (λ p, p_Type p ≠ TypeBundleObject) (db_Properties b))) as Hall'.
    { apply Forall_forall. intros p Hp'. apply list_elem_of_filter in Hp' as [_ Hp']. rewrite Forall_forall in Hall. auto. }
    unfold readBundleObjects. cbn [mapR as_written with_properties db_Properties db_Objects db_Name].
    destruct (Parse_loop_others _ 0 no_properties Hall' Hf) as (out & E1 & Eb1).
    destruct (Hp (0 + Z.of_nat (length (filter (λ p, p_Type p ≠ TypeBundleObject) (db_Properties b))))%Z out) as (out' & E2 & Eb2).
    assert (property_Parse (filter (λ p, p_Type p ≠ TypeBundleObject) (db_Properties b) ++ ps) = Ok out') as ->.
    { unfold property_Parse. by rewrite Parse_loop_app, E1. }
    cbn [wrap_err mbind res_bind]. rewrite Eb2, Eb1. cbn [no_properties ps_BundleObjects app].
    assert (append_objects read (filepath_Dir path) 0 [] (mkFile "" <$> db_Objects b) = Ok (db_Objects b)) as ->; [|done].
    apply append_objects_Ok. exists (db_Objects b). split; [|done]. apply Forall2_fmap_l, Forall_Forall2_diag, Forall_forall. done.
Qed.
Lemma mapR_cons_Ok {A B} (f : A → res B) x l y k : f x = Ok y → mapR f l = Ok k → mapR f (x :: l) = Ok (y :: k).
Proof. intros E E'. simpl. by rewrite E, E'. Qed.
Lemma readBundleObjects_cons b bs path b' bs' :
  readBundleObjects kind read [b] path = Ok [b'] → readBundleObjects kind read bs path = Ok bs' → readBundleObjects kind read (b :: bs) path = Ok (b' :: bs').
Proof.
  unfold readBundleObjects. intros E E'. apply mapR_cons_Ok; [|done]. apply mapR_Ok, Forall2_cons_1 in E as [E _]. done.
Qed.

(** C21. The objects of bundles survive being rendered: for bundles whose properties
    parse, rendering succeeds and changes only properties, those that are objects
    being replaced by the objects of the bundle; written to a file, which does not
    hold the objects, and read again, from any path and without opening another
    file, every bundle has its objects back and its CSV is found among them; and
    rendering again changes nothing. *)
Theorem render_roundtrip cfg path :
  Forall (λ b, is_Ok (property_Parse (db_Properties b))) (cfg_Bundles cfg) →
  ∃ cfg', renderBundleObjects cfg = Ok cfg' ∧ cfg_Packages cfg' = cfg_Packages cfg ∧ cfg_Others cfg' = cfg_Others cfg ∧
    Forall2 (λ b b', ∃ ps, b' = with_properties b (filter (λ p, p_Type p ≠ TypeBundleObject) (db_Properties b) ++ ps) ∧ Forall object_prop ps)
      (cfg_Bundles cfg) (cfg_Bundles cfg') ∧
    readBundleObjects kind read (as_written <$> cfg_Bundles cfg') path = Ok ((λ b', with_objects kind b' (db_Objects b')) <$> cfg_Bundles cfg') ∧
    renderBundleObjects cfg' = Ok cfg'.
Proof.
  intros Hall.
  assert (∃ bs, mapR render_objects (cfg_Bundles cfg) = Ok bs ∧
    Forall2 (λ b b', ∃ ps, b' = with_properties b (filter (λ p, p_Type p ≠ TypeBundleObject) (db_Properties b) ++ ps) ∧ Forall object_prop ps) (cfg_Bundles cfg) bs ∧
    readBundleObjects kind read (as_written <$> bs) path = Ok ((λ b', with_objects kind b' (db_Objects b')) <$> bs) ∧
    mapR render_objects bs = Ok bs) as (bs & E & HF & Er & Ei).
  { induction Hall as [|b l Hb Hall (bs & E & HF & Er & Ei)]; [by exists []|].
    destruct (render_one b path Hb) as (ps & Em & Hps & E1 & E2 & E3). eexists (_ :: bs). split_and!.
    - by apply mapR_cons_Ok.
    - constructor; [|done]. eauto.
    - rewrite !fmap_cons. by apply readBundleObjects_cons.
    - by apply mapR_cons_Ok. }
  exists (with_bundles cfg bs). unfold renderBundleObjects. rewrite E. split_and!; [done..|]. cbn [with_bundles cfg_Bundles]. by rewrite Ei.
Qed.
End objects.

(** ** The config of an index *)
(** Every bundle of a channel has the name it is under and the channel's package. *)
Definition channel_bundles (h : heap) : Prop := ∀ cl ch n bl,
  h_channels h !! cl = Some ch → bundles_of ch !! n = Some bl →
  ∃ b, h_bundles h !! bl = Some b ∧ Bundle_Name b = n ∧ Bundle_Package b = Channel_Package ch.
Definition no_bundles (chs : gmap loc model_Channel) : Prop := ∀ cl ch, chs !! cl = Some ch → bundles_of ch = ∅.
Lemma init_package_no_bundles st rPkg : no_bundles (h_channels st.1) → no_bundles (h_channels (init_package st rPkg).1).
Proof.
  destruct st as [h m]. simpl. generalize (fresh (dom (h_packages h))) as pl. intros pl Hn.
  assert (∀ l chs channels, no_bundles chs → no_bundles (foldl (init_channel pl) (chs, channels) l).1) as Hl.
  { clear. induction l as [|ch l IH]; intros chs channels Hn; [done|]. cbn [foldl]. unfold init_channel at 2. apply IH. cbn [fst].
    intros cl ch' Hc. apply lookup_insert_Some in Hc as [[_ <-]|[_ Hc]]; [done|by eapply Hn]. }
  specialize (Hl (pm_Channels rPkg) (h_channels h) ∅ Hn). by destruct (foldl _ _ _).
Qed.

Lemma foldR_domain {A B} (good : gmap string B → Prop) (f : gmap string B → A → res (gmap string B)) (keys : A → gset string) l : ∀ R R',
  (∀ x R R', x ∈ l → good R → f R x = Ok R' → good R' ∧ dom R' = dom R ∪ keys x) →
  good R → foldR f R l = Ok R' → good R' ∧ dom R' = dom R ∪ ⋃ (keys <$> l).
Proof.
  induction l as [|x l IH]; intros R R' Hf Hg E; simpl in E; [injection E as <-; split; [done|set_solver]|].
  apply bind_Ok in E as (R1 & E1 & E). destruct (Hf x R R1) as [Hg1 Hd1]; [left|done..|].
  destruct (IH R1 R') as [Hg2 Hd2]; [intros; eapply Hf; [by right|done..]|done..|]. split; [done|].
  rewrite Hd2, Hd1. simpl. set_solver.
Qed.
Definition named (p : string) (R : gmap string declcfg_Bundle) : Prop := ∀ n b, R !! n = Some b → db_Name b = n ∧ db_Package b = p.
Lemma traverse_named h p pl pkg0 R chb R' :
  Bundle_Package chb = Some pl → h_packages h !! pl = Some pkg0 → Package_Name pkg0 = p → named p R →
  traverse_bundle h R chb = Ok R' → named p R' ∧ dom R' = dom R ∪ {[Bundle_Name chb]}.
Proof.
  intros Hp Hpk Hpn Hg E. unfold traverse_bundle in E. apply bind_Ok in E as (b & Eb & [= <-]). split; [|rewrite dom_insert_L; set_solver].
  assert (db_Name b = Bundle_Name chb ∧ db_Package b = p) as [Hb1 Hb2].
  { destruct (R !! Bundle_Name chb) as [b0|] eqn:El; [injection Eb as <-; by apply Hg|]. rewrite Hp in Eb. simpl in Eb. rewrite Hpk in Eb. simpl in Eb.
    injection Eb as <-. done. }
  intros n b' [[<- <-]|[_ Hl]]%lookup_insert_Some; [done|by apply Hg].
Qed.
Section index.
Context `{GoRuntime}.
Variable decode_meta : string → res (string * string).
Variable odd_names : gset string → gset string → gset string → api_tables → res (list (gvk * string)).
Variable decode_icons : string → res (list (string * string)).

Lemma initialize_bundles d h m : initializeModelPackages d = Ok (h, m) → channel_bundles h.
Proof.
  unfold initializeModelPackages. intros (names & _ & (pkgs & _ & E)%bind_Ok)%bind_Ok. injection E as E.
  assert (no_bundles (h_channels (foldl init_package (empty_heap, ∅) pkgs).1)) as Hn.
  { clear E. assert (no_bundles (h_channels (empty_heap, ∅ : gmap string loc).1)) as H0 by (intros cl ch Hc; done).
    revert H0. generalize (empty_heap, ∅ : gmap string loc). induction pkgs as [|p pkgs IH]; intros st H0; [done|].
    cbn [foldl]. by apply IH, init_package_no_bundles. }
  rewrite E in Hn. intros cl ch n bl Hc Hb. rewrite (Hn _ _ Hc) in Hb. done.
Qed.
Lemma add_listed_bundles m h d T b h' :
  holds h m d T → channel_bundles h → add_listed m h b = Ok h' →
  channel_bundles h' ∧ h_packages h' = h_packages h ∧
  ∃ pl pkg, m !! ab_PackageName b = Some pl ∧ h_packages h !! pl = Some pkg ∧ is_Some (channels_of pkg !! ab_ChannelName b).
Proof.
  intros Hh Hc E. unfold add_listed in E. destruct (m !! ab_PackageName b) as [pl|] eqn:Em; [|done].
  destruct (Hh _ _ Em) as (pkg & E1 & E2 & E3 & E4 & E5). rewrite E1 in E. simpl in E.
  destruct (channels_of pkg !! ab_ChannelName b) as [cl|] eqn:Ec; [|done]. destruct (E5 _ _ Ec) as (ch & bs & F1 & F2 & F3 & F4 & F5).
  apply bind_Ok in E as (mb & Emb & E). rewrite F1 in E. simpl in E. rewrite F4 in E. simpl in E. injection E as <-.
  split_and!; [|done|exists pl, pkg; rewrite Ec; eauto]. set (bl := fresh (dom (h_bundles h))).
  assert (h_bundles h !! bl = None) as Hfresh by (apply not_elem_of_dom, is_fresh). apply wrap_err_Ok in Emb.
  assert (Bundle_Name mb = ab_CsvName b) as Hname by (unfold ConvertAPIBundleToModelBundle in Emb; inv_ok; by subst).
  intros cl' ch' n bl'. cbn [h_channels h_bundles]. intros Hl Hn.
  assert (∀ ch0, h_channels h !! cl' = Some ch0 → bundles_of ch0 !! n = Some bl' → ∃ b0,
    <[bl := with_links mb pl cl]> (h_bundles h) !! bl' = Some b0 ∧ Bundle_Name b0 = n ∧ Bundle_Package b0 = Channel_Package ch0) as Hold.
  { intros ch0 H1 H2. destruct (Hc _ _ _ _ H1 H2) as (b0 & ? & ? & ?). exists b0. rewrite lookup_insert_ne by congruence. done. }
  apply lookup_insert_Some in Hl as [[<- <-]|[_ Hl]]; [|by eapply Hold]. unfold bundles_of in Hn. cbn in Hn.
  apply lookup_insert_Some in Hn as [[<- <-]|[_ Hn]].
  - exists (with_links mb pl cl). rewrite lookup_insert_eq. split_and!; [done|done|]. simpl. by rewrite F2.
  - destruct (Hold _ F1) as (b0 & ? & ? & ?); [unfold bundles_of; by rewrite F4|]. exists b0. done.
Qed.
Lemma add_all_bundles m d l : ∀ h T h',
  holds h m d T → channel_bundles h → foldR (add_listed m) h l = Ok h' →
  channel_bundles h' ∧ h_packages h' = h_packages h ∧
  ∀ b, b ∈ l → ∃ pl pkg, m !! ab_PackageName b = Some pl ∧ h_packages h !! pl = Some pkg ∧ is_Some (channels_of pkg !! ab_ChannelName b).
Proof.
  induction l as [|b l IH]; intros h T h' Hh Hc E; simpl in E; [injection E as <-; split_and!; [done|done|inversion 1]|].
  apply bind_Ok in E as (h1 & E1 & E). destruct (add_listed_bundles _ _ _ _ _ _ Hh Hc E1) as (Hc1 & Hp1 & Hb).
  destruct (IH _ _ _ (add_listed_holds _ _ _ _ _ _ Hh E1) Hc1 E) as (Hc2 & Hp2 & Hall). rewrite Hp1 in *.
  split_and!; [done|done|]. intros b' [->|Hb']%elem_of_cons; auto.
Qed.
Lemma populate_icon_frame d h kv h' :
  populate_icon decode_meta odd_names decode_icons d h kv = Ok h' → h_channels h' = h_channels h ∧ h_bundles h' = h_bundles h.
Proof.
  unfold populate_icon. intros (pkg & Hp & E)%bind_Ok. do 4 (apply bind_Ok in E as (? & _ & E)). repeat case_match; by simplify_eq.
Qed.
Lemma Normalize_bundles h m h' : channel_bundles h → Normalize h m = Ok h' → channel_bundles h'.
Proof.
  intros Hc E. unfold Normalize in E. eapply (foldR_inv channel_bundles); [|exact Hc|exact E]. intros s [p pl] s' _ Hs E1.
  apply bind_Ok in E1 as (pkg & _ & E1). eapply (foldR_inv channel_bundles); [|exact Hs|exact E1]. intros s1 [c cl] s1' _ Hs1 E2.
  apply bind_Ok in E2 as (ch & _ & E2). eapply (foldR_inv channel_bundles); [|exact Hs1|exact E2]. intros s2 [n bl] s2' _ Hs2 E3.
  unfold normalize_at in E3. apply bind_Ok in E3 as (b & Hb%deref_Ok & [= <-]). intros cl' ch' n' bl'. cbn [h_channels h_bundles]. intros H1 H2.
  destruct (Hs2 _ _ _ _ H1 H2) as (b' & ? & ? & ?). destruct (decide (bl' = bl)) as [->|Hne].
  - assert (b' = b) as -> by congruence. exists (normalize_bundle b). rewrite lookup_insert_eq. done.
  - exists b'. rewrite lookup_insert_ne by done. done.
Qed.
Lemma ToModel_bundles d h m :
  ToModel decode_meta odd_names decode_icons d = Ok (h, m) →
  ∃ bundles, SQLQuerier_ListBundles decode_meta odd_names d = Ok bundles ∧
    dom m = dom (package d) ∧ holds h m d (list_to_set (listed_triple <$> bundles)) ∧ channel_bundles h ∧
    ∀ b, b ∈ bundles → is_Some (m !! ab_PackageName b) ∧ is_Some (channel d !! (ab_PackageName b, ab_ChannelName b)).
Proof.
  intros (bundles & h0 & h1 & h2 & E0 & Eb & E1 & E2 & Ev & E5)%ToModel_steps. exists bundles.
  destruct (ToModel_holds _ _ _ _ _ _ _ _ _ _ E0 E1 E2 E5) as [Hdom Hh]. destruct (initialize_holds _ _ _ E0) as [_ H0].
  destruct (add_all_bundles _ _ _ _ _ _ H0 (initialize_bundles _ _ _ E0) E1) as (Hc1 & _ & Hall). split_and!; [done..| |].
  - eapply Normalize_bundles; [|exact E5]. assert (h_channels h2 = h_channels h1 ∧ h_bundles h2 = h_bundles h1) as [F1 F2].
    { eapply (foldR_inv (λ x, h_channels x = h_channels h1 ∧ h_bundles x = h_bundles h1)); [|done|exact E2].
      intros s kv s' _ [Hs1 Hs2] Ei. apply populate_icon_frame in Ei as [-> ->]. done. }
    unfold channel_bundles. rewrite F1, F2. exact Hc1.
  - intros b Hb. destruct (Hall b Hb) as (pl & pkg & Hm & Hp & Hc). split; [eauto|].
    destruct (H0 _ _ Hm) as (pkg' & Hp' & _ & _ & Hch & _). assert (pkg' = pkg) as -> by congruence. by apply Hch.
Qed.

End index.

Section names.
Context `{GoRuntime}.
(** The bundles of a package: each name of its channels once. *)
Lemma traverse_names h m d T p pl pkg out :
  holds h m d T → channel_bundles h → m !! p = Some pl → h_packages h !! pl = Some pkg → traverseModelChannels h pkg = Ok out →
  NoDup (db_Name <$> out) ∧ Forall (λ b, db_Package b = p) out ∧
  ∀ n, n ∈ db_Name <$> out ↔ ∃ c, is_Some (channel d !! (p, c)) ∧ (p, c, n) ∈ T.
Proof.
  intros Hh Hc Hm Hpkg E. destruct (Hh _ _ Hm) as (pkg' & Hp' & Hname & _ & Hchs & Hch). assert (pkg' = pkg) as -> by congruence. clear Hp'.
  unfold traverseModelChannels in E. apply bind_Ok in E as (R & E & [= <-]).
  pose (keys := λ ccl : string * loc, match h_channels h !! ccl.2 with Some ch => dom (bundles_of ch) | None => ∅ end).
  apply (foldR_domain (named p) _ keys) in E as [Hg Hd].
  - assert (db_Name <$> ((λ '(_, b), with_properties b (Deduplicate (db_Properties b))) <$> range R) = (range R).*1) as Hn.
    { rewrite <- list_fmap_compose. apply list_fmap_ext. intros i [n b] Hi%list_elem_of_lookup_2%range_elem. simpl. by apply Hg. }
    rewrite Hn. split_and!; [apply range_NoDup| |].
    + apply Forall_fmap, Forall_forall. intros [n b] Hi%range_elem. simpl. by apply (Hg n b).
    + intros n. transitivity (n ∈ dom R).
      { rewrite list_elem_of_fmap, elem_of_dom. split; [intros ([n' b] & -> & Hi%range_elem); eauto|]. intros [b Hb]. exists (n, b). by rewrite range_elem. }
      rewrite Hd, dom_empty_L, union_empty_l_L, elem_of_union_list. setoid_rewrite list_elem_of_fmap. split.
      * intros (X & (ccl & -> & Hin) & Hn'). destruct ccl as [c cl]. apply range_elem in Hin. exists c. split; [apply Hchs; eauto|].
        destruct (Hch _ _ Hin) as (ch & bs & F1 & F2 & F3 & F4 & F5). apply F5. unfold keys in Hn'. cbn in Hn'. rewrite F1 in Hn'.
        unfold bundles_of in Hn'. rewrite F4 in Hn'. by apply elem_of_dom in Hn'.
      * intros (c & Hs & HT). apply Hchs in Hs as [cl Hcl]. exists (keys (c, cl)). split; [exists (c, cl); by rewrite range_elem|].
        destruct (Hch _ _ Hcl) as (ch & bs & F1 & F2 & F3 & F4 & F5). unfold keys. cbn. rewrite F1. unfold bundles_of. rewrite F4.
        apply elem_of_dom. by apply F5.
  - intros [c cl] R0 R1 Hin%range_elem Hg E1. destruct (Hch _ _ Hin) as (ch & bs & F1 & F2 & F3 & F4 & F5).
    rewrite F1 in E1. cbn [deref mbind res_bind] in E1. unfold keys. cbn [snd]. rewrite F1.
    apply (foldR_domain (named p) _ (λ nbl, {[nbl.1]})) in E1 as [Hg1 Hd1]; [|clear E1|done].
    + split; [done|]. rewrite Hd1. f_equal. apply set_eq. intros n. rewrite elem_of_union_list, elem_of_dom. setoid_rewrite list_elem_of_fmap. split.
      * intros (X & ([n' bl] & -> & Hin'%range_elem) & Hn%elem_of_singleton). simpl in Hn. subst. eauto.
      * intros [bl Hbl]. exists {[n]}. split; [exists (n, bl); by rewrite range_elem|set_solver].
    + intros [n bl] R2 R3 Hin2%range_elem Hg2 E2. destruct (Hc _ _ _ _ F1 Hin2) as (b & Hb1 & Hb2 & Hb3). rewrite Hb1 in E2. cbn in E2.
      cbn [fst]. rewrite <- Hb2. eapply traverse_named; [by rewrite Hb3|done|done|done|exact E2].
  - intros n b Hb. done.
Qed.

Definition bundle_id (b : declcfg_Bundle) : string * string := (db_Package b, db_Name b).
Definition in_channels (d : db) (T : gset (string * string * string)) (p n : string) : Prop :=
  ∃ c, is_Some (channel d !! (p, c)) ∧ (p, c, n) ∈ T.
Lemma from_packages_names h m d T l : ∀ cfg cfg',
  holds h m d T → channel_bundles h → (∀ p pl, (p, pl) ∈ l → m !! p = Some pl) → NoDup l.*1 →
  foldR (from_model_package h) cfg l = Ok cfg' →
  dp_Name <$> cfg_Packages cfg' = (dp_Name <$> cfg_Packages cfg) ++ l.*1 ∧
  ∃ new, cfg_Bundles cfg' = cfg_Bundles cfg ++ new ∧ NoDup (bundle_id <$> new) ∧
    ∀ p n, (p, n) ∈ bundle_id <$> new ↔ p ∈ l.*1 ∧ in_channels d T p n.
Proof.
  induction l as [|[p pl] l IH]; intros cfg cfg' Hh Hc Hm Hnd E; simpl in E.
  - injection E as <-. rewrite app_nil_r. split; [done|]. exists []. rewrite app_nil_r. split_and!; [done|constructor|]. simpl. set_solver.
  - apply bind_Ok in E as (cfg1 & E1 & E). rewrite fmap_cons in Hnd. apply NoDup_cons in Hnd as [Hp Hnd].
    destruct (IH _ _ Hh Hc (λ p pl Hin, Hm p pl (list_elem_of_further _ _ _ Hin)) Hnd E) as (Hps & new & Hb & Hn & Hin). clear IH E.
    unfold from_model_package in E1. apply bind_Ok in E1 as (pkg & Hpkg%deref_Ok & E1). apply bind_Ok in E1 as (out & Ho & E1).
    apply bind_Ok in E1 as (dc & _ & [= <-]). simpl in *. assert (m !! p = Some pl) as Hmp by (apply Hm; left).
    destruct (Hh _ _ Hmp) as (pkg' & Hp' & Hname & _). assert (pkg' = pkg) as -> by congruence.
    destruct (traverse_names _ _ _ _ _ _ _ _ Hh Hc Hmp Hpkg Ho) as (Ho1 & Ho2 & Ho3).
    assert (bundle_id <$> out = pair p <$> (db_Name <$> out)) as Hid.
    { rewrite <- list_fmap_compose. apply list_fmap_ext. intros i b Hi%list_elem_of_lookup_2. rewrite Forall_forall in Ho2. unfold bundle_id.
      simpl. by rewrite (Ho2 b Hi). }
    split; [rewrite Hps, fmap_app, <- app_assoc; simpl; by rewrite Hname|].
    exists (out ++ new). rewrite Hb, <- app_assoc. split; [done|]. rewrite fmap_app. split.
    + apply NoDup_app. split_and!; [rewrite Hid; by apply (NoDup_fmap_2 _)| |done]. intros [p' n] H1 H2. apply Hin in H2 as [H2 _].
      rewrite Hid in H1. apply list_elem_of_fmap in H1 as (n' & [= -> _] & _). by apply Hp.
    + intros p' n. rewrite elem_of_app, Hin, Hid, elem_of_cons, list_elem_of_fmap. setoid_rewrite Ho3. unfold in_channels. naive_solver.
Qed.
Lemma ConvertFromModel_names h m d T cfg :
  holds h m d T → channel_bundles h → ConvertFromModel h m = Ok cfg →
  NoDup (dp_Name <$> cfg_Packages cfg) ∧ (∀ p, p ∈ dp_Name <$> cfg_Packages cfg ↔ is_Some (m !! p)) ∧
  NoDup (bundle_id <$> cfg_Bundles cfg) ∧ ∀ p n, (p, n) ∈ bundle_id <$> cfg_Bundles cfg ↔ is_Some (m !! p) ∧ in_channels d T p n.
Proof.
  intros Hh Hc E. unfold ConvertFromModel in E. apply bind_Ok in E as (cfg1 & E1 & [= <-]). simpl.
  assert (∀ p pl, (p, pl) ∈ range m → m !! p = Some pl) as Hr by (intros p pl; apply range_elem).
  destruct (from_packages_names _ _ _ _ _ _ _ Hh Hc Hr (range_NoDup m) E1) as (Hp & new & Hb & Hn & Hin). simpl in *.
  assert (∀ p, p ∈ (range m).*1 ↔ is_Some (m !! p)) as Hdom.
  { intros p. rewrite list_elem_of_fmap. split; [intros ([p' pl] & -> & Hr'%range_elem); eauto|]. intros [pl Hpl]. exists (p, pl). by rewrite range_elem. }
  split_and!.
  - rewrite sort_slice_perm, Hp. apply range_NoDup.
  - intros p. by rewrite sort_slice_perm, Hp.
  - by rewrite sort_slice_perm, Hb.
  - intros p n. by rewrite sort_slice_perm, Hb, Hin, Hdom.
Qed.

(** *** What comes after leaves the names alone *)
Lemma add_all_images_ids bundles : ∀ images, bundle_id <$> add_all_images images bundles = bundle_id <$> bundles.
Proof.
  induction bundles as [|b bundles IH]; intros images; [done|]. cbn [add_all_images]. destruct (extend_images images b) as [images' b'] eqn:E.
  rewrite !fmap_cons, IH. f_equal. unfold extend_images in E. by destruct (images !! db_Name b); simplify_eq.
Qed.
Lemma renderBundleObjects_ids cfg cfg' :
  renderBundleObjects cfg = Ok cfg' → cfg_Packages cfg' = cfg_Packages cfg ∧ bundle_id <$> cfg_Bundles cfg' = bundle_id <$> cfg_Bundles cfg.
Proof.
  unfold renderBundleObjects. intros (bs & E%mapR_Ok & [= <-])%bind_Ok. simpl. split; [done|].
  induction E as [|b b' l l' Hb E IH]; [done|]. rewrite !fmap_cons, IH. f_equal. unfold render_objects in Hb. by apply bind_Ok in Hb as (ps & _ & [= <-]).
Qed.
Lemma combine_one cfg : combineConfigs [cfg] = cfg.
Proof. by destruct cfg. Qed.

End names.

Section run.
Context `{GoRuntime}.
Variables (decode_meta : string → res (string * string))
  (odd_names : gset string → gset string → gset string → api_tables → res (list (gvk * string)))
  (decode_icons : string → res (list (string * string))).
Variables (kind : string → option string) (read : string → string → res string) (open_index : string → res db)
  (ignore_matcher : string → res (string → bool)) (ConfigFS : string → option (list walk_entry)) (DirFS : string → bundle_fs)
  (TempDir : string + error) (MatchFile : string → (string * bool) + error) (Stat : string → option bool).
(** C17. Rendering an index gives a config of it: the packages are those of the
    index, each once, and the bundles are those that the queries list for a channel,
    each once for every package it is listed in. *)
Theorem render_index_spec reg created ref d cfg :
  Stat ref = Some false → open_index ref = Ok d →
  Render_Run decode_meta odd_names decode_icons kind read open_index ignore_matcher ConfigFS DirFS TempDir MatchFile Stat (Some reg) created [ref] = Ok cfg →
  NoDup (dp_Name <$> cfg_Packages cfg) ∧ (∀ p, p ∈ dp_Name <$> cfg_Packages cfg ↔ is_Some (package d !! p)) ∧
  ∃ bundles, SQLQuerier_ListBundles decode_meta odd_names d = Ok bundles ∧ NoDup (bundle_id <$> cfg_Bundles cfg) ∧
    ∀ p n, (p, n) ∈ bundle_id <$> cfg_Bundles cfg ↔ ∃ c, (p, c, n) ∈ listed_triple <$> bundles.
Proof.
  intros Hs Ho E. unfold Render_Run in E. cbn [mbind res_bind] in E. apply bind_Ok in E as (cfgs & E & [= <-]).
  apply mapR_Ok in E. apply Forall2_cons_inv_l in E as (cfg1 & ? & E & ->%Forall2_nil_inv_l & ->). rewrite combine_one.
  unfold render_ref in E. apply bind_Ok in E as (cfg0 & E0 & E). rewrite Hs in E0. apply bind_Ok in E0 as ([] & _ & E0%wrap_err_Ok).
  apply renderBundleObjects_ids in E as [-> ->]. unfold sqliteToDeclcfg in E0. rewrite Ho in E0. cbn [mbind res_bind] in E0.
  apply bind_Ok in E0 as ([h m] & Em & E0). apply bind_Ok in E0 as (cfg2 & Ec & [= <-]).
  destruct (ToModel_bundles _ _ _ _ _ _ Em) as (bundles & Eb & Hdom & Hh & Hc & Hall).
  destruct (ConvertFromModel_names _ _ _ _ _ Hh Hc Ec) as (H1 & H2 & H3 & H4). cbn [populateDBRelatedImages with_bundles cfg_Packages cfg_Bundles].
  rewrite add_all_images_ids. split_and!; [done| |].
  - intros p. rewrite H2, <- !elem_of_dom, Hdom. done.
  - exists bundles. split_and!; [done|done|]. intros p n. rewrite H4. unfold in_channels. setoid_rewrite elem_of_list_to_set. split.
    + intros (_ & c & _ & HT). eauto.
    + intros (c & HT). apply list_elem_of_fmap in HT as (b & Hb & Hin). unfold listed_triple in Hb. injection Hb as -> -> ->.
      destruct (Hall b Hin) as [? ?]. split; [done|]. exists (ab_ChannelName b). split; [done|]. apply list_elem_of_fmap. by exists b.
Qed.
End run.

(** ** Examples *)
Definition ex_rendered (name : string) (objects : list string) (images : list declcfg_RelatedImage) : declcfg_Bundle :=
  mkDBundle schemaBundle name "p" "img" [mkProp TypeSkips (Some (print_string false "v0")); mkProp TypeBundleObject (Some (print_struct false [("ref", "a.yaml")]))]
    images "" objects.
Definition ex_object_cfg : DeclarativeConfig := mkCfg [] [ex_rendered "p.v1" ["csv"; "crd"] []; ex_rendered "p.v2" [] []] [].
Lemma render_roundtrip_witness :
  ∃ cfg', renderBundleObjects ex_object_cfg = Ok cfg' ∧ (db_Objects <$> cfg_Bundles cfg') = [["csv"; "crd"]; []] ∧
    readBundleObjects (λ _, Some "ClusterServiceVersion") (λ _ _, Err json_error) (as_written <$> cfg_Bundles cfg') "dir/f.yaml" =
      Ok ((λ b', with_objects (λ _, Some "ClusterServiceVersion") b' (db_Objects b')) <$> cfg_Bundles cfg').
Proof.
  destruct (render_roundtrip (λ _, Some "ClusterServiceVersion") (λ _ _, Err json_error) ex_object_cfg "dir/f.yaml") as (cfg' & E & _ & _ & HF & Er & _).
  - repeat constructor; eexists; vm_compute; reflexivity.
  - exists cfg'. split_and!; [exact E| |exact Er]. revert E. vm_compute. intros [= <-]. reflexivity.
Defined.
Definition ex_images_cfg : DeclarativeConfig := mkCfg [] [ex_rendered "p.v1" [] [mkDRI "operator" "quay.io/a"]; ex_rendered "p.v2" [] []] [].
Lemma populateDBRelatedImages_spec_witness :
  let d := set_images empty_db [("quay.io/b", "p.v1"); ("quay.io/a", "p.v1"); ("quay.io/b", "p.v1")] in
  cfg_Packages (populateDBRelatedImages (H := go_default) ex_images_cfg d) = [] ∧
  ((λ b, dri_Image <$> db_RelatedImages b) <$> cfg_Bundles (populateDBRelatedImages (H := go_default) ex_images_cfg d)) = [["quay.io/a"; "quay.io/b"]; []].
Proof.
  intros d. split; [|vm_compute; reflexivity]. destruct (populateDBRelatedImages_spec (H := go_default) ex_images_cfg d) as (E & _).
  - apply (bool_decide_unpack _). vm_compute. exact I.
  - exact E.
Defined.
Definition ex_render : res DeclarativeConfig :=
  Render_Run (H := go_default) (λ s, Ok ("", s)) (λ _ _ _ _, Ok []) (λ _, Ok []) (λ _, None) (λ _ _, Err json_error) (λ _, Ok ex_index)
    (λ _, Ok (λ _, false)) (λ _, None) (λ _, mkBundleFS (Err json_error) (Err json_error)) (inl "tmp") (λ _, inl ("sqlite", true)) (λ _, Some false)
    (Some (mkRenderRegistry (λ _, None) (λ _, inl ∅) (λ _ _, None))) (Err json_error) ["index.db"].
Lemma render_index_spec_witness :
  ∃ cfg, ex_render = Ok cfg ∧ NoDup (dp_Name <$> cfg_Packages cfg) ∧ NoDup (bundle_id <$> cfg_Bundles cfg) ∧ cfg_Bundles cfg ≠ [].
Proof.
  assert (match ex_render with Ok cfg => negb (bool_decide (bundle_id <$> cfg_Bundles cfg = [])) | _ => false end = true) as Eb by (vm_compute; reflexivity).
  destruct ex_render as [cfg| |] eqn:E; [|discriminate Eb..]. exists cfg. split; [reflexivity|]. unfold ex_render in E.
  destruct (render_index_spec (H := go_default) _ _ _ _ _ _ _ _ _ _ _ _ _ _ "index.db" ex_index cfg eq_refl eq_refl E) as (H1 & _ & bundles & _ & H2 & _).
  split; [exact H1|split; [exact H2|]]. intros Hn. rewrite Hn in Eb. discriminate Eb.
Defined.
