(* ===== verification/Indexer.v ===== *)
(** * The indexer

    [pkg/lib/indexer/indexer.go], with the Dockerfile of
    [pkg/containertools/dockerfilegenerator.go] and the exporter of
    [pkg/lib/bundle/exporter.go]: an index image is pulled, its database is copied
    to a build directory, a registry command is run on it and an image is built from
    the result; or the bundles of an index are exported to a directory.

    The world is the files below the working directory and the images built.  What
    the operating system answers, the image registries and the container tool are
    parameters, as functions of the world.  A handler returns, or the program is
    left by the command, or the command does not end; deferred calls only run when a
    handler returns or panics. *)
From S2P Require Import Prelude Semver Json JsonCompact JsonStream Property JsonTotal Model ModelOps Declcfg DeclcfgConv DeclcfgRoundtrip DeclcfgWrite DeclcfgLoad RegistryTypes RegistryBundle RegistryBundleSpec Api Query Conversion Graph Sql SqlLoad SqlInv SqlGraph SqlAdd SqlAddInv SqlQuery BundleParse Populator PopulatorSpec Commands.
From stdpp Require Import options.

(** ** The world *)
Inductive content : Type :=
  | CDir
  | CEmpty
  | CDb (d : db)
  | CText (s : string).
(** An image that was built: its tag, its Dockerfile and the files at that time. *)
Record built := mkBuilt { bi_tag : string; bi_dockerfile : string; bi_files : gmap string content }.
Record world := mkWorld { files : gmap string content; images : list built }.
Definition on_files (f : gmap string content → gmap string content) (w : world) : world := mkWorld (f (files w)) (images w).
Definition put (path : string) (c : content) : world → world := on_files <[path := c]>.
(** A path is a directory or below it. *)
Definition within (dir path : string) : bool := bool_decide (path = dir) || String.prefix (dir +:+ "/") path.
Definition RemoveAll (dir : string) : world → world := on_files (filter (λ kv, within dir kv.1 = false)).
Definition Remove (path : string) : world → world := on_files (delete path).
(** [path.Join] of a clean directory and a path that may be absolute. *)
Definition trim_slash (s : string) : string := match s with String "/" s' => s' | _ => s end.
Definition path_Join (dir name : string) : string :=
  if decide (dir = "./") then trim_slash name else dir +:+ "/" +:+ trim_slash name.

(** ** Computations *)
Inductive ran (A : Type) : Type :=
  | Done (r : res A)
  | Exit (e : error)
  | Stuck.
Arguments Done {A} r.
Arguments Exit {A} e.
Arguments Stuck {A}.
Definition IM (A : Type) : Type := world → world * ran A.
#[export] Instance IM_ret : MRet IM := λ A a w, (w, Done (Ok a)).
#[export] Instance IM_bind : MBind IM := λ A B f m w,
  match m w with
  | (w', Done (Ok a)) => f a w'
  | (w', Done (Err e)) => (w', Done (Err e))
  | (w', Done Panic) => (w', Done Panic)
  | (w', Exit e) => (w', Exit e)
  | (w', Stuck) => (w', Stuck)
  end.
Definition im_res {A} (r : res A) : IM A := λ w, (w, Done r).
Definition im_do (f : world → world) : IM unit := λ w, (f w, Done (Ok tt)).
(** A call that may fail. *)
Definition im_try (e : world → option error) : IM unit := λ w, (w, Done (match e w with Some e => Err e | None => Ok tt end)).
(** [defer f()] *)
Definition deferring {A} (f : world → world) (m : IM A) : IM A := λ w,
  match m w with (w', Done r) => (f w', Done r) | x => x end.
(** [defer f()] where [f] is nil: the call panics when the function returns. *)
Definition deferring_nil {A} (m : IM A) : IM A := λ w,
  match m w with (w', Done _) => (w', Done Panic) | x => x end.

(** ** The Dockerfile *)
Definition defaultBinarySourceImage : string := "quay.io/operator-framework/upstream-opm-builder".
Definition DefaultDbLocation : string := "/database/index.db".
Definition DbLocationLabel : string := "operators.operatorframework.io.index.database.v1".
Definition quoted (s : string) : string := String "034" (s +:+ String "034" "").
Definition GenerateIndexDockerfile (binarySourceImage databasePath : string) : string :=
  let binarySourceImage := if decide (binarySourceImage = "") then defaultBinarySourceImage else binarySourceImage in
  "FROM " +:+ binarySourceImage +:+ newline +:+
  "LABEL " +:+ DbLocationLabel +:+ "=" +:+ DefaultDbLocation +:+ newline +:+
  "ADD " +:+ databasePath +:+ " " +:+ DefaultDbLocation +:+ newline +:+
  "EXPOSE 50051" +:+ newline +:+
  "ENTRYPOINT [" +:+ quoted "/bin/opm" +:+ "]" +:+ newline +:+
  "CMD [" +:+ Join (quoted <$> ["registry"; "serve"; "--database"; DefaultDbLocation]) ", " +:+ "]" +:+ newline.

Definition defaultDockerfileName : string := "index.Dockerfile".
Definition defaultImageTag : string := "operator-registry-index:latest".
Definition defaultDatabaseFolder : string := "database".
Definition defaultDatabaseFile : string := "index.db".
Definition tmpDirPrefix : string := "index_tmp_".
Definition tmpBuildDirPrefix : string := "index_build_tmp".

(** [image.Registry] of an index: the labels of an image and the files in it. *)
Record index_registry := mkIndexRegistry {
  ir_Pull : string → option error;
  ir_Labels : string → gmap string string + error;
  ir_Unpack : string → list (string * content) * option error
}.

(** What the operating system answers. *)
Record system := mkSystem {
  TempDir : string → world → string + error;
  TempFile : string → world → string + error;
  (** [None] when the path exists; otherwise whether the error is that it does not *)
  Stat : string → world → option (bool * error);
  MkdirAll : string → world → option error;
  OpenFile : string → world → option error;
  (** the outcome of copying into a file, with what of the content has arrived on an error *)
  Copy : string → content → world → option (error * content);
  WriteString : string → world → option error;
  (** the outcome of copying a directory, with the number of files that have arrived on an error *)
  CopyTree : string → string → world → option (error * nat);
  Build : string → string → world → option error
}.

Section indexer.
Context `{GoRuntime}.
Variable sys : system.
Variable RootCAs : option error.
Variable NewIndexRegistry : ContainerTool → res index_registry.
Variable PullTool : ContainerTool.

(** ** The parts of a handler *)
Definition make_dir (dir : string) : IM unit := _ ← im_try (MkdirAll sys dir); im_do (put dir CDir).
Definition make_temp (prefix : string) : IM string := λ w,
  match TempDir sys prefix w with
  | inr e => (w, Done (Err e))
  | inl dir => (put dir CDir w, Done (Ok dir))
  end.
(** A clean-up function: the directories and then the files it removes. *)
Record cleanup := mkCleanup { cl_dirs : list string; cl_files : list string }.
Definition clean (c : cleanup) (w : world) : world := foldl (flip Remove) (foldl (flip RemoveAll) w (cl_dirs c)) (cl_files c).
(** The build directory, the Dockerfile, the clean-up function, which may be nil,
    and the error. *)
Definition buildContext (generate : bool) (requestedDockerfile : string) (w : world) : world * (string * string * option cleanup * option error) :=
  if generate then
    (w, ("./", if decide (requestedDockerfile = "") then defaultDockerfileName else requestedDockerfile, Some (mkCleanup [] []), None))
  else
    match TempDir sys tmpBuildDirPrefix w with
    | inr e => (w, ("", "", None, Some e))
    | inl buildDir =>
        let w := put buildDir CDir w in
        if decide (requestedDockerfile ≠ "") then (w, (buildDir, requestedDockerfile, Some (mkCleanup [buildDir] []), None))
        else match TempFile sys defaultDockerfileName w with
             | inr e => let c := mkCleanup [buildDir] [] in (clean c w, (buildDir, "", Some c, Some e))
             | inl tempDockerfile => (put tempDockerfile CEmpty w, (buildDir, tempDockerfile, Some (mkCleanup [buildDir] [tempDockerfile]), None))
             end
    end.

(** The registry for pulling; without one of the three tools there is none, and the
    first call panics. *)
Definition pull_registry (tool : ContainerTool) : res index_registry :=
  match tool with
  | NoneTool => match RootCAs with
                | Some e => Err (Errorf "failed to get RootCAs: %v" [AErr e])
                | None => NewIndexRegistry tool
                end
  | OtherTool => Panic
  | _ => NewIndexRegistry tool
  end.
Definition unpack_into (dir : string) (l : list (string * content)) (w : world) : world :=
  foldl (λ w pc, put (path_Join dir pc.1) pc.2 w) w l.
Definition getDatabaseFile (workingDir fromIndex : string) : IM string :=
  if decide (fromIndex = "") then mret (path_Join workingDir defaultDatabaseFile)
  else
    reg ← im_res (pull_registry PullTool);
    _ ← im_try (λ _, ir_Pull reg fromIndex);
    labels ← im_res (match ir_Labels reg fromIndex with inl l => Ok l | inr e => Err e end);
    match labels !! DbLocationLabel with
    | None => im_res (Err (Errorf "index image %s missing label %s" [AStr fromIndex; AStr DbLocationLabel]))
    | Some dbLocation =>
        _ ← im_do (unpack_into workingDir (ir_Unpack reg fromIndex).1);
        _ ← im_try (λ _, (ir_Unpack reg fromIndex).2);
        mret (path_Join workingDir dbLocation)
    end.
(** A file that does not exist is made when it is opened. *)
Definition open_create (path : string) : IM unit :=
  _ ← im_try (OpenFile sys path);
  im_do (λ w, match files w !! path with Some _ => w | None => put path CEmpty w end).
(** The target directory is made when it does not exist. *)
Definition ensure_dir (dir : string) : IM unit := λ w,
  match Stat sys dir w with
  | None => (w, Done (Ok tt))
  | Some (true, _) => make_dir dir w
  | Some (false, e) => (w, Done (Err e))
  end.
Definition copy_file (from to : string) : IM string := λ w,
  let c := default CEmpty (files w !! from) in
  match Copy sys to c w with
  | Some (e, partial) => (put to partial w, Done (Err e))
  | None => (put to c w, Done (Ok to))
  end.
Definition copyDatabaseTo (databaseFile targetDir : string) : IM string :=
  let dbFile := path_Join targetDir defaultDatabaseFile in
  _ ← ensure_dir targetDir;
  _ ← open_create databaseFile;
  _ ← im_try (OpenFile sys dbFile);
  _ ← im_do (put dbFile CEmpty);
  copy_file databaseFile dbFile.
Definition ExtractDatabase (buildDir fromIndex : string) : IM string :=
  tmpDir ← make_temp tmpDirPrefix;
  deferring (RemoveAll tmpDir)
    (databaseFile ← getDatabaseFile tmpDir fromIndex;
     copyDatabaseTo databaseFile (path_Join buildDir defaultDatabaseFolder)).
Definition not_a_database : error := ErrNew "file is not a database".
(** An empty file is an empty database. *)
Definition as_db (c : content) : option db :=
  match c with CEmpty => Some empty_db | CDb d => Some d | _ => None end.
(** A registry command on a database file. *)
Definition run_on (path : string) (cmd : command) : IM unit := λ w,
  match as_db (default CEmpty (files w !! path)) with
  | None => (w, Done (Err not_a_database))
  | Some d =>
      let '(d', o) := cmd d in
      (put path (CDb d') w, match o with Returned r => Done r | Exited e => Exit e | Running => Stuck end)
  end.
Definition write (dockerfileText outDockerfile : string) : IM unit :=
  let outDockerfile := if decide (outDockerfile = "") then defaultDockerfileName else outDockerfile in
  _ ← im_try (OpenFile sys outDockerfile);
  _ ← im_do (put outDockerfile CEmpty);
  _ ← im_try (WriteString sys outDockerfile);
  im_do (put outDockerfile (CText dockerfileText)).
Definition build (dockerfilePath imageTag : string) : IM unit :=
  let imageTag := if decide (imageTag = "") then defaultImageTag else imageTag in
  _ ← im_try (Build sys dockerfilePath imageTag);
  im_do (λ w, mkWorld (files w) (images w ++ [mkBuilt imageTag dockerfilePath (files w)])).

(** ** The handlers *)
Record IndexRequest := mkIndexRequest {
  ix_Generate : bool;
  ix_BinarySourceImage : string;
  ix_FromIndex : string;
  ix_OutDockerfile : string;
  ix_Tag : string
}.
(** What the five handlers do around their registry command. *)
Definition index_steps (request : IndexRequest) (cmd : command) (buildDir outDockerfile : string) : IM unit :=
  databasePath ← ExtractDatabase buildDir (ix_FromIndex request);
  _ ← run_on databasePath cmd;
  _ ← write (GenerateIndexDockerfile (ix_BinarySourceImage request) databasePath) outDockerfile;
  if ix_Generate request then mret tt else build outDockerfile (ix_Tag request).
Definition index_command (request : IndexRequest) (cmd : command) : IM unit := λ w,
  let '(w, (buildDir, outDockerfile, cleanup, err)) := buildContext (ix_Generate request) (ix_OutDockerfile request) w in
  let body := match err with Some e => im_res (Err e) | None => index_steps request cmd buildDir outDockerfile end in
  match cleanup with Some c => deferring (clean c) body w | None => deferring_nil body w end.
End indexer.

Section handlers.
Context `{GoRuntime}.
Variable decode_install : RawMessage → res install_strategy.
Variable decode_meta : string → res (string * string).
Variable decode_object : string → res k8s_object.
Variable odd_names : gset string → gset string → gset string → api_tables → res (list (gvk * string)).
Variable fuel : nat.
Variable image_dir : string → string + error.
Variable DirFS : string → bundle_fs.
Variable Open : option error.
Variable migrate : db → db * res unit.
Variable NewRegistry : ContainerTool → res image_registry.
Variable sys : system.
Variable RootCAs : option error.
Variable NewIndexRegistry : ContainerTool → res index_registry.
Variable PullTool : ContainerTool.
Let run := index_command sys RootCAs NewIndexRegistry PullTool.

Definition AddToIndex (request : IndexRequest) (permissive : bool) (bundles : list string) (mode : option Mode) (overwrite enableAlpha : bool) : IM unit :=
  run request (AddToRegistry decode_install decode_meta decode_object odd_names fuel image_dir DirFS Open migrate NewRegistry
                 (mkAddReq permissive bundles mode PullTool overwrite enableAlpha)).
Definition DeleteFromIndex (request : IndexRequest) (permissive : bool) (operators : list string) : IM unit :=
  run request (DeleteFromRegistry Open migrate permissive operators).
Definition PruneStrandedFromIndex (request : IndexRequest) : IM unit := run request (PruneStrandedFromRegistry Open migrate).
Definition PruneFromIndex (request : IndexRequest) (permissive : bool) (packages : list string) : IM unit :=
  run request (PruneFromRegistry Open migrate permissive packages).
Definition DeprecateFromIndex (request : IndexRequest) (permissive : bool) (bundles : list string) : IM unit :=
  run request (DeprecateFromRegistry decode_meta odd_names Open migrate permissive bundles).
End handlers.

(** ** Exporting *)
Section export.
Context `{GoRuntime}.
Variable sys : system.
Variable RootCAs : option error.
Variable NewIndexRegistry : ContainerTool → res index_registry.
Variable PullTool : ContainerTool.
Variable Open : option error.
Variable marshal_manifest : PackageManifest → string + error.
(** The directory of a bundle without a version. *)
Variable random : string → string.

Definition getBundlesToExport (d : db) (packages : list string) : res (gmap string (string * string)) :=
  foldR (λ bundleMap packageName,
    bundlesForPackage ← GetBundlesForPackage d packageName;
    Ok (foldl (λ m k, <[bk_BundlePath k := (packageName, bk_Version k)]> m) bundleMap (range_set bundlesForPackage))) ∅ packages.

(** The files of a directory go to another one. *)
Definition relocate (src dst path : string) : string := dst +:+ String.substring (String.length src) (String.length path) path.
Definition tree_files (src : string) (w : world) : list (string * content) :=
  filter (λ pc, String.prefix (src +:+ "/") pc.1 = true) (map_to_list (files w)).
Definition copy_tree (src dst : string) : IM unit := λ w,
  let copied l := foldl (λ w pc, put (relocate src dst pc.1) pc.2 w) w l in
  match CopyTree sys src dst w with
  | Some (e, n) => (copied (take n (tree_files src w)), Done (Err e))
  | None => (copied (tree_files src w), Done (Ok tt))
  end.
Definition export_registry (tool : ContainerTool) : res index_registry :=
  match tool with OtherTool => Panic | _ => NewIndexRegistry tool end.
Definition Export (tool : ContainerTool) (image directory : string) : IM unit :=
  tmpDir ← make_temp sys "bundle_tmp";
  deferring (RemoveAll tmpDir)
    (reg ← im_res (export_registry tool);
     _ ← im_try (λ _, ir_Pull reg image);
     _ ← im_do (unpack_into tmpDir (ir_Unpack reg image).1);
     _ ← im_try (λ _, (ir_Unpack reg image).2);
     _ ← make_dir sys directory;
     copy_tree (path_Join tmpDir "manifests") directory).
(** One goroutine; a panic in it ends the program.  The goroutines are taken one
    after the other, in an unspecified order. *)
Definition export_bundle (tool : ContainerTool) (downloadPath : string) (errs : list error) (b : string * (string * string)) : IM (list error) := λ w,
  let version := if decide (b.2.2 = "") then random b.1 else b.2.2 in
  match Export tool b.1 (path_Join (path_Join downloadPath b.2.1) version) w with
  | (w', Done (Ok _)) => (w', Done (Ok errs))
  | (w', Done (Err e)) => (w', Done (Ok (errs ++ [Errorf "exporting bundle image:%s failed with %s" [AStr b.1; AErr e]])))
  | (w', Done Panic) => (w', Exit (ErrNew "panic"))
  | (w', Exit e) => (w', Exit e)
  | (w', Stuck) => (w', Stuck)
  end.
Fixpoint im_fold {A B} (f : B → A → IM B) (b : B) (l : list A) : IM B :=
  match l with [] => mret b | x :: l' => b' ← f b x; im_fold f b' l' end.

(** The channels with their heads, and the errors. *)
Definition manifest_channel (d : db) (packageName : string) (st : list PackageChannel * list error) (ch : string) : res (list PackageChannel * list error) :=
  match GetCurrentCSVNameForChannel d packageName ch with
  | Err e => Ok (st.1, st.2 ++ [Errorf "error exporting bundle from image: %s" [AErr e]])
  | Panic => Panic
  | Ok csvName => Ok (st.1 ++ [mkPkgChannel ch csvName], st.2)
  end.
Definition package_manifest (d : db) (packageName : string) : res (PackageManifest * list error) :=
  defaultChannel ← GetDefaultChannelForPackage d packageName;
  channelList ← ListChannels d packageName;
  st ← foldR (manifest_channel d packageName) ([], []) channelList;
  Ok (mkManifest packageName st.1 defaultChannel, st.2).
Definition WriteFile (fileName directory text : string) : IM unit :=
  _ ← (λ w, match Stat sys directory w with Some (true, _) => make_dir sys directory w | _ => (w, Done (Ok tt)) end) : IM unit;
  _ ← im_try (WriteString sys (path_Join directory fileName));
  im_do (put (path_Join directory fileName) (CText text)).
Definition generatePackageYaml (d : db) (packageName downloadPath : string) : IM unit := λ w,
  match package_manifest d packageName with
  | Err e => (w, Done (Err e))
  | Panic => (w, Done Panic)
  | Ok (manifest, errs) =>
      match marshal_manifest manifest with
      | inr e => (w, Done (NewAggregate (errs ++ [e])))
      | inl text =>
          match WriteFile "package.yaml" downloadPath text w with
          | (w', Done (Err e)) => (w', Done (NewAggregate (errs ++ [e])))
          | (w', Done (Ok _)) => (w', Done (NewAggregate errs))
          | x => x
          end
      end
  end.
Definition yaml_step (d : db) (downloadPath : string) (errs : list error) (packageName : string) : IM (list error) := λ w,
  match generatePackageYaml d packageName (path_Join downloadPath packageName) w with
  | (w', Done (Ok _)) => (w', Done (Ok errs))
  | (w', Done (Err e)) => (w', Done (Ok (errs ++ [e])))
  | (w', Done Panic) => (w', Done Panic)
  | (w', Exit e) => (w', Exit e)
  | (w', Stuck) => (w', Stuck)
  end.
Definition open_file (path : string) : IM db := λ w,
  (w, Done (match Open with
            | Some e => Err e
            | None => match as_db (default CEmpty (files w !! path)) with Some d => Ok d | None => Err not_a_database end
            end)).
Definition ExportFromIndex (index : string) (packages : list string) (downloadPath : string) (tool : ContainerTool) : IM unit :=
  workingDir ← make_temp sys tmpDirPrefix;
  deferring (RemoveAll workingDir)
    (databaseFile ← getDatabaseFile RootCAs NewIndexRegistry PullTool workingDir index;
     d ← open_file databaseFile;
     packages ← im_res (if decide (packages = []) then SQLQuerier_ListPackages d else Ok packages);
     bundles ← im_res (getBundlesToExport d packages);
     _ ← make_dir sys downloadPath;
     errs ← im_fold (export_bundle tool downloadPath) [] (range bundles);
     if decide (errs ≠ []) then im_res (NewAggregate errs)
     else errs ← im_fold (yaml_step d downloadPath) [] packages;
          im_res (NewAggregate errs)).
End export.
