(* ===== verification/IndexerSpec.v ===== *)
(** * The indexer: what it builds and what it leaves behind

    A handler that returns has removed its temporary files, whatever has failed; one
    that succeeds has built an image with the database that the registry command
    made of the database of the index it started from; and an export writes the
    manifest of every package. *)
From S2P Require Import Prelude Semver Json JsonCompact JsonStream Property JsonTotal Model ModelOps Declcfg DeclcfgConv DeclcfgRoundtrip DeclcfgWrite DeclcfgLoad RegistryTypes RegistryBundle RegistryBundleSpec Api Query Conversion Graph Sql SqlLoad SqlInv SqlGraph SqlAdd SqlAddInv SqlQuery BundleParse Populator PopulatorSpec Commands Indexer.
From stdpp Require Import options.

(** ** Paths *)
Lemma prefix_app p s : String.prefix p s = true ↔ ∃ k, s = p +:+ k.
Proof.
  revert s. induction p as [|a p IH]; intros s; [split; [intros _; by exists s|by destruct s]|]. destruct s as [|b s]; simpl; [split; [done|by intros [k ?]]|].
  destruct (ascii_dec a b) as [->|Hne].
  - rewrite IH. split; [intros [k ->]; by exists k|]. intros [k [= E]]. by exists k.
  - split; [done|]. intros [k [= E _]]. congruence.
Qed.
Lemma app_nested (p q k l : string) : p +:+ k = q +:+ l → (∃ x, q = p +:+ x) ∨ (∃ x, p = q +:+ x).
Proof.
  revert q. induction p as [|a p IH]; intros q E; [left; by exists q|]. destruct q as [|b q]; [right; by exists (String a p)|].
  injection E as <- E. destruct (IH q E) as [[x ->]|[x ->]]; [left|right]; by exists x.
Qed.
Lemma str_app_inj_l (p k l : string) : p +:+ k = p +:+ l → k = l.
Proof. induction p as [|a p IH]; [done|]. intros [= E]. auto. Qed.
Lemma within_spec dir path : within dir path = true ↔ path = dir ∨ ∃ k, path = dir +:+ "/" +:+ k.
Proof.
  unfold within. rewrite orb_true_iff, bool_decide_eq_true, prefix_app. apply or_iff_compat_l.
  split; intros [k ->]; exists k; by rewrite str_app_assoc.
Qed.
Lemma within_refl dir : within dir dir = true.
Proof. apply within_spec. by left. Qed.
Lemma within_trans a b c : within a b = true → within b c = true → within a c = true.
Proof.
  rewrite !within_spec. intros [->|[k ->]] [->|[l ->]]; [by left|right; eauto..|].
  right. exists (k +:+ "/" +:+ l). by rewrite !str_app_assoc.
Qed.
(** Two directories with something in common are one inside the other. *)
Lemma slash_prefix (a b x : string) : b +:+ "/" = (a +:+ "/") +:+ x → within a b = true.
Proof.
  intros E. apply within_spec. revert b E. induction a as [|c a IH]; intros b E.
  - destruct b as [|e b]; [by left|]. injection E as -> E. right. exists b. done.
  - destruct b as [|e b]; [by destruct a|]. injection E as -> E. destruct (IH b E) as [->|[k ->]]; [by left|right; by exists k].
Qed.
Lemma within_nested a b x : within a x = true → within b x = true → within a b = true ∨ within b a = true.
Proof.
  intros Ha Hb. apply within_spec in Ha as [->|[k ->]]; [by right|]. apply within_spec in Hb as [<-|[l E]]; [left; apply within_spec; eauto|].
  rewrite !str_app_assoc in E. destruct (app_nested _ _ _ _ E) as [[y Hy]|[y Hy]]; [left|right]; by eapply slash_prefix.
Qed.
Lemma path_Join_eq dir name : dir ≠ "./" → path_Join dir name = dir +:+ "/" +:+ trim_slash name.
Proof. intros Hd. unfold path_Join. by rewrite decide_False. Qed.
Lemma within_Join dir name : dir ≠ "./" → within dir (path_Join dir name) = true.
Proof. intros Hd. rewrite path_Join_eq by done. apply within_spec. eauto. Qed.
Lemma app_length_str (p q : string) : String.length (p +:+ q) = String.length p + String.length q.
Proof. induction p as [|a p IH]; [done|]. simpl. by rewrite <- IH. Qed.
Lemma folder_not_dot b : b ≠ "./" → path_Join b defaultDatabaseFolder ≠ "./".
Proof. intros Hb E. rewrite path_Join_eq in E by done. apply (f_equal String.length) in E. rewrite app_length_str in E. simpl in E. lia. Qed.
Definition database_path (b : string) : string := path_Join (path_Join b defaultDatabaseFolder) defaultDatabaseFile.
Lemma within_database b : b ≠ "./" → within b (database_path b) = true.
Proof. intros Hb. eapply within_trans; [by apply within_Join|]. by apply within_Join, folder_not_dot. Qed.

(** ** Computations that leave files alone *)
(** The computation returns, and changes only files that satisfy [P]. *)
Definition calm (P : string → bool) {A} (m : IM A) : Prop := ∀ w, ∃ w' r,
  m w = (w', Done r) ∧ images w' = images w ∧ ∀ path, P path = false → files w' !! path = files w !! path.
Section calm.
Variable P : string → bool.
Lemma calm_ret {A} (a : A) : calm P (mret a).
Proof. intros w. by eexists w, _. Qed.
Lemma calm_res {A} (r : res A) : calm P (im_res r).
Proof. intros w. by eexists w, _. Qed.
Lemma calm_try e : calm P (im_try e).
Proof. intros w. by eexists w, _. Qed.
Lemma calm_put path c : P path = true → calm P (im_do (put path c)).
Proof.
  intros Hp w. eexists _, _. split_and!; [done|done|]. intros path' Hp'. simpl. rewrite lookup_insert_ne; [done|]. congruence.
Qed.
Lemma calm_bind {A B} (m : IM A) (f : A → IM B) : calm P m → (∀ a, calm P (f a)) → calm P (m ≫= f).
Proof.
  intros Hm Hf w. destruct (Hm w) as (w1 & r & E & Hi & Hw). unfold mbind, IM_bind. rewrite E. destruct r as [a|e|]; [|by eexists _, _..].
  destruct (Hf a w1) as (w2 & r2 & E2 & Hi2 & Hw2). exists w2, r2. split_and!; [done|congruence|]. intros path Hp. rewrite Hw2, Hw; done.
Qed.
End calm.
Lemma calm_weaken P Q {A} (m : IM A) : calm P m → (∀ path, P path = true → Q path = true) → calm Q m.
Proof.
  intros Hm HPQ w. destruct (Hm w) as (w' & r & E & Hi & Hw). exists w', r. split_and!; [done..|]. intros path Hq. apply Hw.
  destruct (P path) eqn:Ep; [|done]. apply HPQ in Ep. congruence.
Qed.
Create HintDb calm.
#[export] Hint Resolve calm_ret calm_res calm_try calm_put calm_bind : calm.

Lemma im_bind_Ok {A B} (f : A → IM B) (m : IM A) w w' y :
  (m ≫= f) w = (w', Done (Ok y)) ↔ ∃ w1 x, m w = (w1, Done (Ok x)) ∧ f x w1 = (w', Done (Ok y)).
Proof. unfold mbind, IM_bind. destruct (m w) as [w1 [[x| |]| |]]; naive_solver. Qed.
Lemma deferring_Ok {A} f (m : IM A) w w' y : deferring f m w = (w', Done (Ok y)) ↔ ∃ w1, m w = (w1, Done (Ok y)) ∧ w' = f w1.
Proof. unfold deferring. destruct (m w) as [w1 [r| |]]; naive_solver. Qed.

Section parts.
Context `{GoRuntime}.
Variable sys : system.
Variable RootCAs : option error.
Variable NewIndexRegistry : ContainerTool → res index_registry.
Variable PullTool : ContainerTool.

Lemma calm_unpack dir l : dir ≠ "./" → calm (within dir) (im_do (unpack_into dir l)).
Proof.
  intros Hd. induction l as [|pc l IH] using rev_ind; [intros w; by eexists w, _|]. intros w. destruct (IH w) as (w' & r & [= <- <-] & Hi & Hw).
  eexists _, _. split_and!; [done| |]; unfold unpack_into; rewrite foldl_snoc; [done|]. intros path Hp. simpl.
  rewrite lookup_insert_ne; [by apply Hw|]. intros <-. by rewrite within_Join in Hp.
Qed.
Lemma calm_getDatabaseFile t from : t ≠ "./" → calm (within t) (getDatabaseFile RootCAs NewIndexRegistry PullTool t from).
Proof.
  intros Ht. unfold getDatabaseFile. case_decide; [auto with calm|]. apply calm_bind; [auto with calm|]. intros reg.
  apply calm_bind; [auto with calm|]. intros _. apply calm_bind; [auto with calm|]. intros labels.
  destruct (labels !! DbLocationLabel); [|auto with calm]. apply calm_bind; [by apply calm_unpack|]. intros _. auto with calm.
Qed.
Lemma calm_ensure P dir : P dir = true → calm P (ensure_dir sys dir).
Proof.
  intros Hp w. unfold ensure_dir. destruct (Stat sys dir w) as [[[] e]|]; [|by eexists _, _..].
  apply (calm_bind P (im_try (MkdirAll sys dir)) (λ _, im_do (put dir CDir))); auto with calm.
Qed.
Lemma calm_open P path : P path = true → calm P (open_create sys path).
Proof.
  intros Hp. apply calm_bind; [auto with calm|]. intros _ w. unfold im_do. destruct (files w !! path) eqn:E; [by eexists _, _|].
  by apply (calm_put P path CEmpty Hp).
Qed.
Lemma calm_copy P from to : P to = true → calm P (copy_file sys from to).
Proof.
  intros Hp w. unfold copy_file. destruct (Copy sys to _ w) as [[e partial]|].
  all: eexists _, _; split_and!; [done|done|]; intros path Hq; simpl; (rewrite lookup_insert_ne; [done|]; congruence).
Qed.
Lemma calm_copyDatabaseTo P f target :
  P f = true → P target = true → P (path_Join target defaultDatabaseFile) = true → calm P (copyDatabaseTo sys f target).
Proof.
  intros Hf Ht Hd. unfold copyDatabaseTo. apply calm_bind; [by apply calm_ensure|]. intros _. apply calm_bind; [by apply calm_open|]. intros _.
  apply calm_bind; [auto with calm|]. intros _. apply calm_bind; [auto with calm|]. intros _. by apply calm_copy.
Qed.

(** ** Temporary directories *)
(** A new temporary directory or file has a name of its own: nothing that exists is
    inside it, and it is not inside anything that exists but the working directory. *)
Record fresh_names : Prop := {
  fn_dir : ∀ prefix w dir, TempDir sys prefix w = inl dir →
    dir ≠ "./" ∧ ∀ path, is_Some (files w !! path) → within dir path = false ∧ within path dir = false;
  fn_file : ∀ prefix w f, TempFile sys prefix w = inl f →
    f ≠ "" ∧ files w !! f = None ∧ ∀ path, is_Some (files w !! path) → within path f = false
}.
Hypothesis Hfresh : fresh_names.
Lemma fresh_lookup prefix w dir path : TempDir sys prefix w = inl dir → within dir path = true → files w !! path = None.
Proof using Hfresh.
  intros E Hp. destruct (fn_dir Hfresh _ _ _ E) as [_ Hn]. destruct (files w !! path) eqn:El; [|done]. destruct (Hn path) as [? _]; [by eexists|]. congruence.
Qed.
Lemma RemoveAll_lookup dir w path : files (RemoveAll dir w) !! path = if within dir path then None else files w !! path.
Proof.
  simpl. destruct (within dir path) eqn:Ew.
  - apply map_lookup_filter_None. right. intros c _. simpl. congruence.
  - destruct (files w !! path) as [c|] eqn:El; [by apply map_lookup_filter_Some|apply map_lookup_filter_None; by left].
Qed.
(** A computation in a temporary directory, which is removed afterwards. *)
Lemma calm_temp P prefix {A} (m : string → IM A) :
  (∀ t, t ≠ "./" → calm (λ path, within t path || P path) (m t)) →
  calm P (t ← make_temp sys prefix; deferring (RemoveAll t) (m t)).
Proof using Hfresh.
  intros Hm w. unfold mbind, IM_bind, make_temp. destruct (TempDir sys prefix w) as [t|e] eqn:Et; [|by eexists _, _].
  destruct (fn_dir Hfresh _ _ _ Et) as [Hdot _]. destruct (Hm t Hdot (put t CDir w)) as (w' & r & E & Hi & Hw).
  unfold deferring. rewrite E. eexists _, _. split_and!; [done|done|]. intros path Hp. rewrite RemoveAll_lookup.
  destruct (within t path) eqn:Ew; [by erewrite fresh_lookup|]. rewrite Hw by (by rewrite Ew, Hp). simpl. rewrite lookup_insert_ne; [done|].
  intros <-. by rewrite within_refl in Ew.
Qed.
Lemma calm_ExtractDatabase b from : b ≠ "./" → calm (within b) (ExtractDatabase sys RootCAs NewIndexRegistry PullTool b from).
Proof using Hfresh.
  intros Hb. unfold ExtractDatabase. apply calm_temp. intros t Ht.
  assert (∀ f, within t f = true → calm (λ path, within t path || within b path) (copyDatabaseTo sys f (path_Join b defaultDatabaseFolder))) as Hcopy.
  { intros f Hf. apply calm_copyDatabaseTo; [by rewrite Hf|by rewrite within_Join, orb_true_r|].
    change (path_Join (path_Join b defaultDatabaseFolder) defaultDatabaseFile) with (database_path b). by rewrite within_database, orb_true_r. }
  assert (calm (λ path, within t path || within b path) (getDatabaseFile RootCAs NewIndexRegistry PullTool t from)) as Hget.
  { eapply calm_weaken; [by apply calm_getDatabaseFile|]. intros path ->. done. }
  intros w. destruct (Hget w) as (w1 & r & E & Hi & Hw). unfold mbind, IM_bind. rewrite E. destruct r as [f|e|]; [|by eexists _, _..].
  assert (within t f = true) as Hf.
  { revert E. clear -Ht. unfold getDatabaseFile. case_decide; [intros [= _ <-]; by apply within_Join|].
    unfold mbind, IM_bind, im_res, im_try, im_do, mret, IM_ret. repeat (case_match; try done). intros; simplify_eq. by apply within_Join. }
  destruct (Hcopy f Hf w1) as (w2 & r2 & E2 & Hi2 & Hw2). exists w2, r2. split_and!; [done|congruence|]. intros path Hp. rewrite Hw2, Hw; done.
Qed.

(** ** A handler leaves nothing behind *)
Lemma copy_file_path from to w w' p : copy_file sys from to w = (w', Done (Ok p)) → p = to.
Proof. unfold copy_file. destruct (Copy sys to _ w) as [[]|]; congruence. Qed.
Lemma copyDatabaseTo_path f target w w' p : copyDatabaseTo sys f target w = (w', Done (Ok p)) → p = path_Join target defaultDatabaseFile.
Proof. unfold copyDatabaseTo. intros E. repeat (apply im_bind_Ok in E as (? & [] & _ & E)). by eapply copy_file_path. Qed.
Lemma ExtractDatabase_path b from w w' p : ExtractDatabase sys RootCAs NewIndexRegistry PullTool b from w = (w', Done (Ok p)) → p = database_path b.
Proof.
  unfold ExtractDatabase. intros (w1 & t & _ & E)%im_bind_Ok. apply deferring_Ok in E as (w2 & E & _). apply im_bind_Ok in E as (w3 & f & _ & E).
  by apply copyDatabaseTo_path in E.
Qed.
Lemma run_on_frame path cmd w : images (run_on path cmd w).1 = images w ∧ ∀ p, p ≠ path → files (run_on path cmd w).1 !! p = files w !! p.
Proof.
  unfold run_on. destruct (as_db _) as [d|]; [|done]. destruct (cmd d) as [d' o]. simpl. split; [done|]. intros p Hp. by rewrite lookup_insert_ne.
Qed.
Definition dockerfile_name (out : string) : string := if decide (out = "") then defaultDockerfileName else out.
Lemma calm_write text out : calm (λ p, bool_decide (p = dockerfile_name out)) (write sys text out).
Proof.
  unfold write. fold (dockerfile_name out). apply calm_bind; [auto with calm|]. intros _. apply calm_bind; [apply calm_put; by apply bool_decide_eq_true|].
  intros _. apply calm_bind; [auto with calm|]. intros _. apply calm_put. by apply bool_decide_eq_true.
Qed.
Lemma build_files out tag w : files (build sys out tag w).1 = files w.
Proof. unfold build, mbind, IM_bind, im_try, im_do. by destruct (Build sys out _ w). Qed.
Lemma steps_frame request cmd b out w path :
  b ≠ "./" → within b path = false → path ≠ dockerfile_name out →
  files (index_steps sys RootCAs NewIndexRegistry PullTool request cmd b out w).1 !! path = files w !! path.
Proof using Hfresh.
  intros Hb Hp Hout. unfold index_steps, mbind, IM_bind. destruct (calm_ExtractDatabase b (ix_FromIndex request) Hb w) as (w1 & r & E & _ & Hw).
  rewrite E. rewrite <- (Hw path Hp). destruct r as [p|e|]; [|done..]. apply ExtractDatabase_path in E as ->.
  pose proof (proj2 (run_on_frame (database_path b) cmd w1) path) as Hr. rewrite <- Hr by (intros ->; by rewrite within_database in Hp).
  destruct (run_on (database_path b) cmd w1) as [w2 [[[]|e|]| |]]; [|done..]. cbn [fst].
  destruct (calm_write (GenerateIndexDockerfile (ix_BinarySourceImage request) (database_path b)) out w2) as (w3 & r3 & E3 & _ & Hw3). rewrite E3.
  rewrite <- (Hw3 path) by (by apply bool_decide_eq_false). destruct r3 as [[]|e|]; [|done..]. destruct (ix_Generate request); [done|].
  by rewrite build_files.
Qed.


(** ** What is built *)
(** The database a handler starts from: an empty one, or the file of the index image
    that its label names. *)
Definition unpacked_at (l : list (string * content)) (loc : string) : option content :=
  snd <$> last (filter (λ pc, trim_slash pc.1 = trim_slash loc) l).
Definition index_source (from : string) (d : db) : Prop :=
  if decide (from = "") then d = empty_db
  else ∃ reg labels loc, pull_registry RootCAs NewIndexRegistry PullTool = Ok reg ∧ ir_Labels reg from = inl labels ∧
    labels !! DbLocationLabel = Some loc ∧ as_db (default CEmpty (unpacked_at (ir_Unpack reg from).1 loc)) = Some d.
Lemma unpack_lookup t l loc w : t ≠ "./" →
  files (unpack_into t l w) !! path_Join t loc = match unpacked_at l loc with Some c => Some c | None => files w !! path_Join t loc end.
Proof.
  intros Ht. unfold unpack_into, unpacked_at. induction l as [|pc l IH] using rev_ind; [done|]. rewrite foldl_snoc, filter_app.
  cbn [put on_files files]. destruct (decide (trim_slash pc.1 = trim_slash loc)) as [E|Hne].
  - rewrite (filter_cons_True _ pc []) by done. rewrite last_app. simpl. rewrite !path_Join_eq, E by done. by rewrite lookup_insert_eq.
  - rewrite (filter_cons_False _ pc []) by done. rewrite app_nil_r, <- IH. rewrite lookup_insert_ne; [done|].
    rewrite !path_Join_eq by done. intros E%str_app_inj_l. injection E as E. done.
Qed.
Lemma getDatabaseFile_source t from w w' f d :
  t ≠ "./" → (∀ p, within t p = true → p ≠ t → files w !! p = None) →
  getDatabaseFile RootCAs NewIndexRegistry PullTool t from w = (w', Done (Ok f)) → as_db (default CEmpty (files w' !! f)) = Some d → index_source from d.
Proof.
  intros Ht Hnone E Hd. unfold index_source. unfold getDatabaseFile in E.
  assert (∀ n, path_Join t n ≠ t) as Hjt.
  { intros n Hn. rewrite path_Join_eq in Hn by done. apply (f_equal String.length) in Hn. rewrite app_length_str in Hn. simpl in Hn. lia. }
  case_decide as Hfrom.
  - injection E as <- <-. rewrite Hnone in Hd; [by injection Hd as <-|by apply within_Join|done].
  - apply im_bind_Ok in E as (w1 & reg & [= <- Er] & E). apply im_bind_Ok in E as (w1 & [] & E1 & E). injection E1 as <- _.
    apply im_bind_Ok in E as (w1 & labels & [= <- El] & E). destruct (ir_Labels reg from) as [labels'|] eqn:Ela; [|done]. injection El as ->.
    destruct (labels !! DbLocationLabel) as [loc|] eqn:Eloc; [|done]. apply im_bind_Ok in E as (w1 & [] & [= <-] & E).
    apply im_bind_Ok in E as (w1 & [] & E1 & E). injection E1 as <- _. injection E as <- <-.
    exists reg, labels, loc. split_and!; [done..|]. rewrite unpack_lookup in Hd by done. rewrite Hnone in Hd; [|by apply within_Join|done].
    by destruct (unpacked_at _ loc).
Qed.
(** What copying reads is what is stored. *)
Lemma copyDatabaseTo_source f target w w' p :
  f ≠ target → f ≠ path_Join target defaultDatabaseFile → copyDatabaseTo sys f target w = (w', Done (Ok p)) →
  files w' !! p = Some (default CEmpty (files w !! f)).
Proof.
  intros Hft Hfd. unfold copyDatabaseTo. intros (w1 & [] & E1 & E)%im_bind_Ok. apply im_bind_Ok in E as (w2 & [] & E2 & E).
  apply im_bind_Ok in E as (w3 & [] & E3 & E). injection E3 as <- _. apply im_bind_Ok in E as (w4 & [] & [= <-] & E).
  unfold copy_file in E. destruct (Copy sys _ _ _) as [[e partial]|]; [done|]. injection E as <- <-. cbn [put on_files files]. rewrite lookup_insert_eq.
  rewrite lookup_insert_ne by done. f_equal.
  assert (default CEmpty (files w2 !! f) = default CEmpty (files w1 !! f)) as ->.
  { unfold open_create in E2. apply im_bind_Ok in E2 as (w0 & [] & E0 & [= <-]). injection E0 as <- _. destruct (files w1 !! f) eqn:El; [by rewrite El|].
    simpl. by rewrite lookup_insert_eq. }
  destruct (calm_ensure (λ p, bool_decide (p = target)) target (proj2 (bool_decide_eq_true _) eq_refl) w) as (w0 & r & E0 & _ & Hw).
  rewrite E0 in E1. injection E1 as <- _. rewrite Hw; [done|]. by apply bool_decide_eq_false.
Qed.
Lemma ExtractDatabase_source b from w w' p d :
  b ≠ "./" → is_Some (files w !! b) → ExtractDatabase sys RootCAs NewIndexRegistry PullTool b from w = (w', Done (Ok p)) →
  as_db (default CEmpty (files w' !! p)) = Some d → index_source from d.
Proof using Hfresh.
  intros Hb Hbin E Hd. unfold ExtractDatabase in E. apply im_bind_Ok in E as (w1 & t & E1 & E). unfold make_temp in E1.
  destruct (TempDir sys tmpDirPrefix w) as [t'|] eqn:Et; [|done]. injection E1 as <- ->. destruct (fn_dir Hfresh _ _ _ Et) as [Ht Hn].
  apply deferring_Ok in E as (w2 & E & ->). apply im_bind_Ok in E as (w3 & f & E3 & E).
  destruct (Hn b Hbin) as [Htb Hbt].
  assert (∀ x, within t x = true → within b x = true → False) as Hdisj by (intros x H1 H2; destruct (within_nested _ _ _ H1 H2); congruence).
  assert (within t f = true) as Hf.
  { revert E3. clear -Ht. unfold getDatabaseFile. case_decide; [intros [= _ <-]; by apply within_Join|].
    unfold mbind, IM_bind, im_res, im_try, im_do, mret, IM_ret. repeat (case_match; try done). intros; simplify_eq. by apply within_Join. }
  pose proof (copyDatabaseTo_path _ _ _ _ _ E) as Hp. fold (database_path b) in Hp.
  apply copyDatabaseTo_source in E; [|intros ->; eapply Hdisj; [exact Hf|by apply within_Join]|fold (database_path b); intros ->; eapply Hdisj; [exact Hf|by apply within_database]].
  rewrite RemoveAll_lookup in Hd. destruct (within t p) eqn:Ew; [subst p; by destruct (Hdisj _ Ew (within_database _ Hb))|]. rewrite E in Hd. simpl in Hd.
  eapply getDatabaseFile_source; [exact Ht| |exact E3|exact Hd]. intros q Hq Hqt. cbn [put on_files files]. rewrite lookup_insert_ne by done.
  by eapply fresh_lookup.
Qed.

End parts.

(** ** Exports *)
Section exports.
Context `{GoRuntime}.
Lemma manifest_channels d p l : ∀ st,
  foldR (manifest_channel d p) st l = Ok (st.1 ++ ((λ c, mkPkgChannel c (default "" (channel d !! (p, c)))) <$> l), st.2).
Proof.
  induction l as [|c l IH]; intros [chs errs]; [simpl; by rewrite app_nil_r|]. cbn [foldR manifest_channel GetCurrentCSVNameForChannel mbind res_bind].
  unfold manifest_channel at 1, GetCurrentCSVNameForChannel. cbn [mbind res_bind]. rewrite IH. simpl. by rewrite <- app_assoc.
Qed.
(** The manifest that is exported is that of the package in the index. *)
Lemma package_manifest_spec d p :
  ∃ m, package_manifest d p = Ok (m, []) ∧ pm_PackageName m = p ∧ pm_DefaultChannelName m = default "" (mjoin (package d !! p)) ∧
    NoDup (pch_Name <$> pm_Channels m) ∧ ∀ c h, mkPkgChannel c h ∈ pm_Channels m ↔ channel d !! (p, c) = Some h.
Proof.
  unfold package_manifest, GetDefaultChannelForPackage, ListChannels. cbn [mbind res_bind]. rewrite manifest_channels. cbn [mbind res_bind fst snd app].
  set (l := (λ kh : (string * string) * string, kh.1.2) <$> range (filter (λ kh, kh.1.1 = p) (channel d))).
  assert (∀ c, c ∈ l ↔ is_Some (channel d !! (p, c))) as Hl.
  { intros c. unfold l. rewrite list_elem_of_fmap. split.
    - intros ([[p' c'] h] & -> & Hin%range_elem). apply map_lookup_filter_Some in Hin as [Hc Hp]. simpl in *. subst p'. eauto.
    - intros [h Hh]. exists ((p, c), h). split; [done|]. apply range_elem, map_lookup_filter_Some. done. }
  eexists. split; [reflexivity|]. cbn [pm_PackageName pm_DefaultChannelName pm_Channels]. split_and!; [done|done| |].
  - rewrite <- list_fmap_compose, (list_fmap_ext _ id), list_fmap_id; [|done].
    assert (l = snd <$> (range (filter (λ kh, kh.1.1 = p) (channel d))).*1) as -> by (unfold l; by rewrite <- list_fmap_compose).
    apply NoDup_fmap_2_strong; [|apply range_NoDup]. intros [p1 c1] [p2 c2] H1 H2 E. simpl in E. subst c2.
    apply list_elem_of_fmap in H1 as ([k h] & E1 & H1%range_elem). apply list_elem_of_fmap in H2 as ([k' h'] & E2 & H2%range_elem).
    apply map_lookup_filter_Some in H1 as [_ H1], H2 as [_ H2]. simpl in *. subst k k'. simpl in *. congruence.
  - intros c h. rewrite list_elem_of_fmap. split.
    + intros (c' & [= -> ->] & [h' Hh]%Hl). by rewrite Hh.
    + intros Hh. exists c. rewrite Hh. split; [done|]. apply Hl. eauto.
Qed.

Variable sys : system.
Variable RootCAs : option error.
Variable NewIndexRegistry : ContainerTool → res index_registry.
Variable PullTool : ContainerTool.
Variable Open : option error.
Variable marshal_manifest : PackageManifest → string + error.
Variable random : string → string.

Definition yaml_path (downloadPath p : string) : string := path_Join (path_Join downloadPath p) "package.yaml".
Lemma trim_free p : str_free "/" p → trim_slash p = p.
Proof. destruct p as [|a p]; [done|]. unfold str_free. simpl. intros Hp. destruct a as [[] [] [] [] [] [] [] []]; try done. Qed.
Lemma yaml_path_eq dl p : dl ≠ "./" → dl ≠ "." → str_free "/" p → yaml_path dl p = dl +:+ "/" +:+ p +:+ "/package.yaml".
Proof.
  intros Hd Hd' Hp. unfold yaml_path. rewrite (path_Join_eq dl) by done. rewrite trim_free by done. rewrite path_Join_eq.
  - simpl. by rewrite <- !str_app_assoc.
  - intros E. destruct dl as [|a [|b dl]]; [done|injection E as -> E; done|]. injection E as -> -> E. by destruct dl.
Qed.
Lemma free_slash_inj p q (x y : string) : str_free "/" p → str_free "/" q → p +:+ "/" +:+ x = q +:+ "/" +:+ y → p = q.
Proof.
  intros Hp Hq E. assert (Cut "/" (p +:+ "/" +:+ x) = Some (p, x)) as H1 by (by apply Cut_app).
  assert (Cut "/" (q +:+ "/" +:+ y) = Some (q, y)) as H2 by (by apply Cut_app). rewrite E in H1. congruence.
Qed.
Lemma free_no_slash p q (x : string) : str_free "/" p → p ≠ q +:+ "/" +:+ x.
Proof. intros Hp ->. apply str_free_app in Hp as [_ Hp]. apply str_free_app in Hp as [Hp _]. done. Qed.

(** Writing one manifest, and what it does to the others. *)
Lemma generate_Ok d p dl w w' :
  generatePackageYaml sys marshal_manifest d p (path_Join dl p) w = (w', Done (Ok tt)) →
  (∃ m text, package_manifest d p = Ok (m, []) ∧ marshal_manifest m = inl text ∧ files w' !! yaml_path dl p = Some (CText text)) ∧
  ∀ path, path ≠ yaml_path dl p → path ≠ path_Join dl p → files w' !! path = files w !! path.
Proof.
  unfold generatePackageYaml. destruct (package_manifest d p) as [[m errs]| |] eqn:Em; [|done..].
  destruct (marshal_manifest m) as [text|e] eqn:Et; [|by destruct errs]. destruct (WriteFile sys _ _ text w) as [w1 [[[]|e|]| |]] eqn:Ew; [|by destruct errs|done..].
  destruct errs; [|done]. intros [= <-]. unfold WriteFile in Ew. apply im_bind_Ok in Ew as (w2 & [] & E2 & Ew). apply im_bind_Ok in Ew as (w3 & [] & E3 & [= <-]).
  injection E3 as <- _. split.
  - exists m, text. split_and!; [done|done|]. cbn [put on_files files]. apply lookup_insert_eq.
  - intros path H1 H2. cbn [put on_files files]. rewrite lookup_insert_ne by done.
    destruct (Stat sys (path_Join dl p) w) as [[[] e]|]; [|by injection E2 as <-..]. unfold make_dir in E2.
    apply im_bind_Ok in E2 as (w4 & [] & E4 & [= <-]). injection E4 as <- _. cbn [put on_files files]. by rewrite lookup_insert_ne.
Qed.
Definition manifest_written (d : db) (dl p : string) (w : world) : Prop :=
  ∃ m text, package_manifest d p = Ok (m, []) ∧ marshal_manifest m = inl text ∧ files w !! yaml_path dl p = Some (CText text).
Lemma yaml_all d dl l : dl ≠ "./" → dl ≠ "." → ∀ errs w w',
  Forall (str_free "/") l → im_fold (yaml_step sys marshal_manifest d dl) errs l w = (w', Done (Ok [])) →
  errs = [] ∧ (∀ p, p ∈ l → manifest_written d dl p w') ∧ ∀ p, str_free "/" p → manifest_written d dl p w → manifest_written d dl p w'.
Proof.
  intros Hd Hd'. induction l as [|q l IH]; intros errs w w' Hl E; [injection E as <- ->; split_and!; [done|inversion 1|done]|].
  apply Forall_cons in Hl as [Hq Hl]. cbn [im_fold] in E. apply im_bind_Ok in E as (w1 & errs1 & E1 & E). destruct (IH _ _ _ Hl E) as (-> & Hall & Hkeep).
  unfold yaml_step in E1. destruct (generatePackageYaml _ _ _ _ _ w) as [w2 [[[]|e|]| |]] eqn:Eg; [|injection E1 as _ E1; by destruct errs|done..].
  injection E1 as <- ->. apply generate_Ok in Eg as [Hw Hother].
  assert (∀ p, str_free "/" p → manifest_written d dl p w → manifest_written d dl p w2) as Hk.
  { intros p Hp (m & text & E1 & E2 & E3). destruct (decide (p = q)) as [->|Hne]; [done|]. exists m, text. split_and!; [done..|].
    rewrite Hother; [done| |].
    - rewrite !yaml_path_eq by done. intros E4%str_app_inj_l. injection E4 as E4. by apply (free_slash_inj p q "package.yaml" "package.yaml") in E4.
    - rewrite yaml_path_eq, path_Join_eq, trim_free by done. intros E4%str_app_inj_l. injection E4 as E4.
      by apply (free_no_slash q p "package.yaml" Hq). }
  split_and!; [done| |].
  - intros p [->|Hp]%elem_of_cons; [|auto]. by apply Hkeep.
  - intros p Hp Hm. auto.
Qed.

(** C26. An export that succeeds has written the manifest of each package that was
    asked for, or of every package of the index when none was named: its default
    channel, and each of its channels once with its head, as they are in the database
    of the index image. *)
Theorem ExportFromIndex_manifests index packages downloadPath tool w w' :
  fresh_names sys → downloadPath ≠ "./" → downloadPath ≠ "." →
  (∀ prefix w dir name, TempDir sys prefix w = inl dir → within dir (downloadPath +:+ "/" +:+ name) = false) →
  ExportFromIndex sys RootCAs NewIndexRegistry PullTool Open marshal_manifest random index packages downloadPath tool w = (w', Done (Ok tt)) →
  ∃ d packages', index_source RootCAs NewIndexRegistry PullTool index d ∧
    packages' = (if decide (packages = []) then (range (package d)).*1 else packages) ∧
    (Forall (str_free "/") packages' → ∀ p, p ∈ packages' → ∃ m text,
      marshal_manifest m = inl text ∧ files w' !! (downloadPath +:+ "/" +:+ p +:+ "/package.yaml") = Some (CText text) ∧
      pm_PackageName m = p ∧ pm_DefaultChannelName m = default "" (mjoin (package d !! p)) ∧
      NoDup (pch_Name <$> pm_Channels m) ∧ ∀ c h, mkPkgChannel c h ∈ pm_Channels m ↔ channel d !! (p, c) = Some h).
Proof.
  intros Hf Hd Hd' Htmp E. unfold ExportFromIndex in E. apply im_bind_Ok in E as (w1 & t & E1 & E). unfold make_temp in E1.
  destruct (TempDir sys tmpDirPrefix w) as [t'|] eqn:Et; [|done]. injection E1 as <- ->. destruct (fn_dir _ Hf _ _ _ Et) as [Ht Hn].
  apply deferring_Ok in E as (w2 & E & ->). apply im_bind_Ok in E as (w3 & f & E3 & E). apply im_bind_Ok in E as (w4 & d & E4 & E).
  unfold open_file in E4. injection E4 as <- E4. destruct Open; [done|]. destruct (as_db (default CEmpty (files w3 !! f))) as [d'|] eqn:Ed; [|done]. injection E4 as ->.
  apply im_bind_Ok in E as (w4 & packages' & [= <- Ep] & E). apply im_bind_Ok in E as (w4 & bundles & [= <- _] & E).
  apply im_bind_Ok in E as (w4 & [] & _ & E). apply im_bind_Ok in E as (w5 & errs & _ & E). case_decide; [by destruct errs|].
  apply im_bind_Ok in E as (w6 & errs' & E6 & [= <- ->%NewAggregate_Ok]). exists d, packages'. split_and!.
  - eapply getDatabaseFile_source; [exact Ht| |exact E3|exact Ed]. intros q Hq Hqt. cbn [put on_files files]. rewrite lookup_insert_ne by done.
    by eapply fresh_lookup.
  - case_decide; by injection Ep as <-.
  - intros Hfree p Hp. destruct (yaml_all _ _ _ Hd Hd' _ _ _ Hfree E6) as (_ & Hall & _). destruct (Hall p Hp) as (m & text & Em & Et' & Hfile).
    destruct (package_manifest_spec d p) as (m' & Em' & Hrest). assert (m' = m) as -> by congruence. exists m, text. split_and!; [done| |by apply Hrest..].
    rewrite Forall_forall in Hfree. rewrite <- yaml_path_eq by auto. rewrite RemoveAll_lookup, Hfile. rewrite yaml_path_eq by auto.
    by rewrite (Htmp _ _ _ _ Et).
Qed.
End exports.

(** ** Examples *)
(** Names longer than every path of the world. *)
Fixpoint xs (n : nat) : string := match n with O => "" | S n' => String "x" (xs n') end.
Definition longest (w : world) : nat := foldr Nat.max 0 (String.length <$> (map_to_list (files w)).*1).
Definition new_name (w : world) : string := xs (S (longest w)).
Definition ex_system : system :=
  mkSystem (λ _ w, inl (new_name w)) (λ _ w, inl (new_name w)) (λ _ _, Some (true, json_error)) (λ _ _, None) (λ _ _, None) (λ _ _ _, None)
    (λ _ _, None) (λ _ _ _, None) (λ _ _ _, None).
Lemma xs_length n : String.length (xs n) = n.
Proof. induction n; simpl; congruence. Qed.
Lemma xs_free n : str_free "/" (xs n).
Proof. by induction n. Qed.
Lemma longest_bound w path : is_Some (files w !! path) → String.length path ≤ longest w.
Proof.
  intros [c Hc]. unfold longest. assert (path ∈ (map_to_list (files w)).*1) as Hin.
  { apply list_elem_of_fmap. exists (path, c). by rewrite elem_of_map_to_list. }
  clear Hc. revert Hin. generalize (map_to_list (files w)).*1. intros l Hin. induction Hin as [x l|x y l Hin IH]; rewrite fmap_cons; cbn [foldr]; lia.
Qed.
Lemma ex_fresh : fresh_names ex_system.
Proof.
  assert (∀ w path, is_Some (files w !! path) → within (new_name w) path = false ∧ within path (new_name w) = false) as Hn.
  { intros w path Hp. apply longest_bound in Hp. split; apply not_true_iff_false; rewrite within_spec.
    - intros [E|[k E]]; apply (f_equal String.length) in E; rewrite ?app_length_str in E; unfold new_name in E; rewrite xs_length in E; lia.
    - intros [E|[k E]]; [apply (f_equal String.length) in E; unfold new_name in E; rewrite xs_length in E; lia|].
      by apply (free_no_slash (new_name w) path k (xs_free _)). }
  split.
  - intros prefix w dir [= <-]. split; [|apply Hn]. unfold new_name. by destruct (longest w) as [|[]].
  - intros prefix w f [= <-]. split_and!; [done| |intros path Hp; by apply Hn].
    destruct (files w !! new_name w) eqn:E; [|done]. destruct (Hn w (new_name w)) as [Hw _]; [by eexists|]. by rewrite within_refl in Hw.
Qed.
Definition ex_request : IndexRequest := mkIndexRequest false "" "" "" "quay.io/index:1".
Definition ex_world : world := mkWorld {[ "README" := CText "read me" ]} [].
Definition ex_command : world * ran unit :=
  index_command ex_system None (λ _, Err json_error) NoneTool ex_request (PruneStrandedFromRegistry (H := go_default) None (λ d, (d, Ok tt))) ex_world.
Lemma ex_command_Ok : ex_command = (ex_command.1, Done (Ok tt)).
Proof. assert (ex_command.2 = Done (Ok tt)) as E by (vm_compute; reflexivity). rewrite <- E. by destruct ex_command. Qed.
(** An index image with one package, which has no bundle to export. *)
Definition ex_channels : db := set_packages (set_db_channels empty_db {[ ("p", "stable") := "p.v1" ]}) {[ "p" := Some "stable" ]}.
Definition ex_index_registry : index_registry :=
  mkIndexRegistry (λ _, None) (λ _, inl {[ DbLocationLabel := "/database/index.db" ]}) (λ _, ([("database/index.db", CDb ex_channels)], None)).
Definition ex_marshal (m : PackageManifest) : string + error := inl (pm_PackageName m +:+ ":" +:+ pm_DefaultChannelName m).
Definition ex_export : world * ran unit :=
  ExportFromIndex (H := go_default) ex_system None (λ _, Ok ex_index_registry) NoneTool None ex_marshal id "quay.io/index:1" ["p"] "out" NoneTool ex_world.
Lemma ExportFromIndex_manifests_witness :
  ∃ m text, ex_marshal m = inl text ∧ files ex_export.1 !! "out/p/package.yaml" = Some (CText text) ∧ pm_PackageName m = "p" ∧
    mkPkgChannel "stable" "p.v1" ∈ pm_Channels m.
Proof.
  assert (ex_export.2 = Done (Ok tt)) as E2 by (vm_compute; reflexivity).
  assert (ex_export = (ex_export.1, Done (Ok tt))) as E by (rewrite <- E2; by destruct ex_export).
  destruct (ExportFromIndex_manifests (H := go_default) ex_system None (λ _, Ok ex_index_registry) NoneTool None ex_marshal id "quay.io/index:1" ["p"] "out"
    NoneTool ex_world ex_export.1 ex_fresh) as (d & packages & Hs & -> & Hall).
  - discriminate.
  - discriminate.
  - intros prefix w dir name [= <-]. apply not_true_iff_false. rewrite within_spec.
    assert (∀ k, new_name w ≠ String "o" k) as Hx by (intros k; discriminate).
    intros [E'|[k E']]; [by eapply Hx|]. unfold new_name in E'. discriminate E'.
  - exact E.
  - destruct Hs as (reg & labels & loc & [= <-] & [= <-] & Hl & Hd). change (Some "/database/index.db" = Some loc) in Hl. injection Hl as <-.
    change (Some ex_channels = Some d) in Hd. injection Hd as <-.
    destruct (Hall ltac:(repeat constructor) "p" ltac:(left)) as (m & text & H1 & H2 & H3 & _ & _ & H4).
    exists m, text. split_and!; [exact H1|exact H2|exact H3|]. apply H4. reflexivity.
Defined.
